(* ===== verification/_CoqProject ===== *)
-Q . S2P
Prelude.v
Utf8.v
External.v
AsyncIo.v
Socks5.v
Users.v
PacketWindow.v
Replay.v
TcpStream.v
TcpAead.v
TcpAead2022.v
UdpAead.v
UdpStream.v
UdpAead2022.v
UdpCryptoIo.v
TcpProtocol.v
CryptoIo.v
ProxyStream.v
TcpCopy.v
Realm.v
RealmControl.v
StdNet.v
NetText.v
ServerConf.v
ServerUrl.v
ServerStat.v
PingBalancer.v
ManagerProtocol.v
ManagerServer.v
RealmPunch.v
RealmStun.v
RealmRendezvous.v
RealmSession.v
RealmPath.v
SubDomainsTree.v
Acl.v
DnsServer.v
FakeDns.v
UdpProxySocket.v
Lookup.v
UdpRelay.v
UdpAssociation.v
Socks4.v
AutoProxy.v
SocksServer.v
ServerTcp.v
Outbound.v
HttpProxy.v
LocalTunnels.v
ServiceConfig.v
