(* ===== verification/Prelude.v ===== *)
(** * Verification of shadowsocks-rust: the tunnel protocols

    The program proxies TCP connections and UDP datagrams through an encrypted
    tunnel.  This library models the code that puts the bytes of the tunnel on
    the wire and takes them off again and the configuration of servers
    (crates/shadowsocks/src), the local servers, outbound proxies, TCP and UDP
    relays, access control lists, DNS, load balancing and manager of the services
    (crates/shadowsocks-service/src), and the sessions with which two peers find each other through NATs
    (crates/shadowsocks-realm/src), and proves what that code promises.

    ** Parts and how they fit together

    A local server accepts SOCKS5, SOCKS4 and HTTP requests ([local/socks],
    [local/http], [relay/socks5.rs]), or clients of a fixed tunnel or a redirection
    ([local/tunnel], [local/redir]).  It connects each to its target with an
    [AutoProxyClientStream] ([local/net/tcp]): straight to it, or with a
    [ProxyClientStream] ([relay/tcprelay/proxy_stream/client.rs]) to a remote
    server, directly, over a chain of other proxies ([net/outbound]) or over a realm
    carrier.  The server ([server/tcprelay.rs]) answers with a [ProxyServerStream]
    ([.../server.rs]) and connects on, if its access control list allows.  Both sit
    on a [CryptoStream] ([relay/tcprelay/crypto_io.rs]), which has a
    [DecryptedReader] and an [EncryptedWriter] of one of three protocols
    ([stream.rs], [aead.rs], [aead_2022.rs]).  Readers ask the shared [Context]
    ([context.rs]) whether a salt was seen before; it holds a [ReplayProtector]
    ([security/replay]).

    UDP datagrams are made and opened by [relay/udprelay/crypto_io.rs] with the
    same three protocols, behind a [ProxySocket] ([proxy_socket.rs]).  The local
    server has an association per client ([local/net/udp/association.rs]) and the
    remote server one per client session ([server/udprelay.rs]); both number their
    datagrams and pass the ids they receive through a [PacketWindowFilter]
    ([net/packet_window.rs]).  An [AccessControl] ([acl]) decides what is proxied
    and what is refused; [FakeDnsManager] ([local/fake_dns]) gives names addresses
    of its own, from which the local server finds the names again; the DNS server
    ([local/dns]) asks a local and a remote resolver and remembers which way the
    addresses of its answers are to be reached.

    A [ServerConfig] ([config.rs]) holds the address, method and keys of a server,
    and is read from and printed as a URL.  The local server has several and a
    [PingBalancer] ([local/loadbalancing]) probes them and picks the best; the
    manager ([manager]) starts and stops servers on request.

    Peers behind NATs find a rendezvous by a locator ([url.rs]), learn their
    address by STUN ([stun.rs]), exchange addresses and keys through the
    rendezvous ([rendezvous], [session.rs]), open a path with punch packets
    ([punch.rs]) and then run the tunnel over QUIC streams and datagrams
    ([crates/shadowsocks/src/realm.rs]).  Control messages ([control.rs]) offer a
    direct TCP endpoint on a mapped port ([portmap]), which a [PathManager]
    ([path_manager.rs]) prefers for new connections.

    ** Files

    - [Prelude] (this file): bytes, big-endian integers, the outcome of a Rust
      call (value, error or panic), parsers over an awaited stream and over a
      cursor, slices, tactics and the rewriting base [blen] for lengths; [action],
      code that changes a state and may fail, with its calculus [act_wp].
    - [Utf8]: [String::from_utf8] and [from_utf8_lossy].
    - [External]: the crates that are called, as classes of operations with
      classes of laws: cipher kinds, stream and datagram ciphers, BLAKE3, AES,
      Bloom filters, expiring caches.  Module [Toy] has small executable
      instances that satisfy the laws, for the examples only.
    - [AsyncIo]: [poll_*] methods as state transformers with the results ready,
      failed, panicked and pending; transports as scripts of what polls find;
      the loops [poll_read_exact] and [Writing] that the three protocols share;
      [drive] and [drain], which poll until a list of buffers is written and
      until a stream ends, with their specifications [write_step_ok] and
      [read_step_ok] that each protocol is shown to satisfy.
    - [Socks5]: addresses and SOCKS5 messages.  The class [Message] states what
      a message type promises, and each type is an instance.
    - [Users]: [ServerUser] and [ServerUserManager] of config.rs.
    - [PacketWindow]: the ring of bitmap blocks, and the abstract filter that
      remembers every accepted id.
    - [Replay]: [PingPongBloom], [ReplayProtector], [Context].
    - [TcpStream], [TcpAead], [TcpAead2022]: reader and writer of each protocol.
      [rd_env] is a reader with its transport and context; one definition per
      method of the source, [read_pass] is one turn of the reader's loop.
    - [CryptoIo]: the choice of the protocol and [CryptoStream].
    - [TcpProtocol]: the request header and the client's first packet.
    - [ProxyStream]: the two ends of a tunnel as state machines, with their
      reachable states ([client_run], [server_run]).
    - [UdpStream], [UdpAead], [UdpAead2022], [UdpCryptoIo]: datagrams.
    - [TcpCopy]: the copying between the two streams of a tunnel
      ([relay/tcprelay/utils.rs]), over the interface [AsyncDuplex].
    - [UdpProxySocket]: proxy sockets over the calls of a transport.
    - [Lookup]: the macro [lookup_then] of [dns_resolver/mod.rs].
    - [UdpRelay]: the associations of the remote server; [assoc_step] is one turn
      of their loop, [assoc_run] a sequence of turns with what each did; and the
      server with its map of associations and their channels ([server_step]).
    - [UdpAssociation]: the same for the local server, in Module [LocalUdp].
    - [Socks4]: the SOCKS4 messages, in a Module of the same name.
    - [AutoProxy]: connections to targets; [Local] is the context, the balancer and
      the log of what was dialed, [Network] what the network answers.
    - [SocksServer]: a client of the SOCKS server as a [Session], from its first byte
      to the tunnel, over SOCKS5 and SOCKS4; its users and datagrams.
    - [LocalTunnels]: fixed tunnels and redirected clients, and, in Module [Flow], the
      counters of the traffic.
    - [HttpProxy]: a request of the HTTP proxy, its users, headers, and the pool of
      connections to servers; the HTTP crates are the classes [HttpCrate] and
      [UriBuilder] with laws.  [http_step] interleaves requests with the tasks behind
      them.
    - [Outbound]: proxies of the configuration, the SOCKS5 client, chains of proxies
      and datagrams through them.
    - [ServiceConfig]: the check of a configuration of the services, its realm, DNS
      and protocol settings, and the balancer made of it.
    - [ServerTcp]: a client of the remote server; [served] is how serving ends, what
      was done and what is left of the stream.
    - [StdNet]: addresses and strings of the Rust standard library as the source
      uses them: parsing, printing, trimming, IPv4-mapped addresses; [NetText]:
      integers and socket addresses as text, splitting and joining.
    - [ServerConf], [ServerUrl]: configurations and their URLs.  [reached] is any
      configuration the constructor and the setters can give, also failing ones.
    - [ServerStat], [PingBalancer]: the statistics of a server, with the standard
      library's IEEE floating-point numbers, and the balancer; [step] interleaves
      its tasks.
    - [ManagerProtocol], [ManagerServer]: the manager's messages, over the class
      [Json], and its table of servers.
    - [SubDomainsTree], [Acl]: access control lists.  The crates for sets of
      networks and regular expressions are classes with laws.
    - [FakeDns]: the fake DNS manager over a database and a clock, one definition for the two
      address families ([family]) as the source has one macro.
    - [DnsServer]: the routing of queries and answers, over the class [DnsNames].
    - [Realm], [RealmControl], [RealmPunch], [RealmStun]: the realm crate's errors,
      control messages, punch packets and loop, and STUN client.
    - [RealmRendezvous]: locators, the rendezvous client's requests (a [Call] is a
      request with what is made of the response) and its event stream.
    - [RealmSession]: discovery from several STUN servers, the exchanged addresses,
      and both ends of a session up to the punch ([PunchJob]).
    - [RealmPath]: NAT-PMP and UPnP, the path manager with the control task beside
      it, and what a server does with a carrier.

    ** What the theorems show

    - Transparency of each stream protocol ([stream_transparent],
      [aead_stream_transparent], [aead_2022_stream_transparent]): whatever is
      written is what is read, for any fragmentation and any pending polls, with
      and without users; [aead_writer_frames] gives the bytes on the wire.
    - Totality ([aead_reader_total], [aead_2022_reader_total],
      [crypto_stream_total]): every poll ends and none panics, whatever the
      transport delivers.
    - Authenticity and freshness ([aead_2022_header_sound],
      [udp_2022_accepted_sound], [client_response_bound],
      [server_answers_request], [user_key_takes_over]): what is accepted was
      sealed with the right key, for this direction, in time, and answers the
      right request.
    - Replay: [window_filter_refines] and [window_never_accepts_twice] for
      datagrams, [ppbloom_remembers], [generated_nonce_is_recorded] and
      [aead_2022_replay_rejected] for salts.
    - Round trips: addresses, SOCKS5 and SOCKS4 messages ([address_roundtrip],
      [address_read_canonical], [socks5_messages_roundtrip],
      [read_cursor_agrees], [socks4_messages_roundtrip]), datagrams of every cipher
      ([client_datagram_roundtrip], [server_datagram_roundtrip]), and the first
      packet of a tunnel ([handshake_first_packet]).
    - Tunnels ([copy_bidirectional_sound]): each side is sent what was read from
      the other, whatever the order of polls and traffic, and a tunnel ends only
      when all is copied.
    - Local servers: [connection_routes] (what is dialed for a target, with the
      replacement of fake addresses and the outbound chain), logins
      ([socks_requires_login], for TCP, and [http_requires_login]: nothing is done
      without one),
      [socks5_negotiation], [tunnel_keeps_bytes], [fixed_tunnel_by_server] and
      [redirected_tunnel_keeps_bytes] (where a tunnel goes, and that no byte is lost),
      [socks5_udp_roundtrip], [realm_tls_spec], [flow_counts].
    - HTTP proxy: [http_request_forwarded] (where a request goes and what of it),
      [pool_reachable] (the pool over any interleaving), [basic_auth_interop].
    - Outbound proxies: [socks5_client_server] (the client and the server of this
      program understand each other), [chain_asks_in_order], [nested_datagrams],
      [proxy_url_roundtrip].
    - Remote server: [server_connects_only_admitted], [client_reaches_target] (the
      first packet of a client opens the tunnel to its target),
      [failed_handshake_outcomes], [serve_ends].
    - UDP end to end: [proxy_socket_exchange] (two sockets exchange datagrams of
      every cipher), [relay_session_refines] and [answers_delivered_once] (both
      relays implement the abstract packet window over any run, so that nothing is
      passed on twice), [client_ids_unique] and [relay_answers_numbered] (the ids of
      both sides in closed form, none twice within a session), and
      [server_routes_sessions] (the server keeps datagrams with their session).
    - Access control: [sub_domains_tree_spec], [acl_load_refines] (a loaded file
      matches what its lines name, by a meaning of lines of its own),
      [acl_decisions] (each decision by the lines of the file).
    - Fake DNS: [fake_dns_allocates] (which address a name gets, and when the call
      returns, for any clock).
    - DNS: [ptr_routed_as_address], [local_answer_justified],
      [acl_lookup_order_independent] (which answer is used, and that it does not
      depend on timing), [resolve_routes] (connections follow the answers, as long
      as the cache keeps them).
    - Configuration: [config_keys_typed] (keys have the lengths that the method
      of the last successful call wants, whatever was set), [check_integrity_iff] (what a checked configuration
      has), [balancer_from_config], [realm_config_roundtrip], [protocol_names],
      [nameservers_roundtrip], [url_roundtrip], [from_url_total],
      [server_addr_roundtrip].
    - Load balancing: [push_score_window], [push_score_robust] (outliers do not
      move the statistics), [check_once_best], [best_server_always] (over any
      interleaving), [reset_servers_replaces].
    - Manager: [manager_protocol_roundtrip], [manager_servers_keyed],
      [manager_add_remove].
    - Realm: [control_roundtrip], [control_read_safe], [punch_decode_iff],
      [punch_confirms] (every outcome of punching), [stun_parse_refines] (against
      the layout of RFC 5389), [stun_discover_sound];
      [realm_url_parse_iff], [poll_event_chunks] (events do not depend on how the
      stream is cut), [addresses_exchanged] and [session_keys_agree] (both ends
      punch with the same keys, the server towards the addresses of the request); [path_follows_control], [direct_tcp_bound] (an
      offered endpoint admits exactly its token), [natpmp_responses_iff],
      [udp_relay_routes].
    - Liveness of a server's write that waits for the salt ([server_waker_kept]).
    - Where the code falls short: [domain_regex_wider] and [domain_regex_narrower]
      (regular expressions replaced by sets that are not equivalent), [unauthenticated_datagram_panics],
      [udp_2022_short_response_panics], [client_first_write_truncates],
      [handshake_first_packet] (its exception), [aead_2022_replay_gap],
      [aead_2022_header_write_omits_address],
      [passwd_response_truncated_accepted], [relay_refused_redirects],
      [foreign_answer_delivered], [fake_dns_shared_address],
      [fake_dns_allocates] (when no address is free), [regex_class_inverted],
      [unknown_command_error], [server_addr_ignores_rest], [set_method_outcome],
      [qrcode_url_drops_identity_keys], [disabled_server_chosen],
      [ptr_record_panics], [bare_requests_not_reread],
      [manager_add_failure_reported_ok], [stun_one_per_family] (the check for a
      symmetric NAT), [natpmp_responses_iff] (any opcode),
      [failed_stream_ends_carrier], [upgrade_failure_drops_udp],
      [dial_mixes_offers], [crlf_stream_unread], [cut_character_replaced],
      [password_offer_refused] and [credentials_without_users] (a server without
      users refuses clients with credentials), [proxy_url_roundtrip] (default ports
      are refused), [balancer_from_config] (its exception), [retry_forgets_scheme], [https_retried_in_clear] and
      [pool_ignores_scheme] (requests for https that leave without TLS).

    ** Bounds and fuel

    The loops of the readers run on fuel computed from the state: [read_measure]
    counts four turns per byte or event left in the transport and a few for the
    state, and every turn is shown to decrease it, so that the fuel never runs
    out ([read_loop_safe], [read_loop_ok]).  The reading and writing loops take
    at most one turn per event of the script and per byte.  A poll of a tunnel
    takes at most as many turns as its streams have reads and writes to offer
    ([enough]).  [parse_attrs] has the length of the packet as fuel, and every
    attribute takes four bytes or more; the fuel of [map_domain_ip] is a parameter
    and [fake_dns_allocates] says how much is enough, one unit per address looked at.  [from_url] calls itself for QR codes on a decoded text that is
    shorter, and [from_url_total] says that its length is fuel enough; the loop of
    [remove_sources] takes one turn per server, that of [take_first_sse_event] two
    bytes or more of its buffer ([take_first_fuel]) and that of the control task
    five; [remove_header] takes a header's values at once, so that its second turn is
    its last ([remove_header_get]).  The loops of relays, punching and discovery are driven by the
    list of what they meet.  Integers are [Z] with their
    width as a hypothesis or an explicit modulus; the count of chunks of a stream
    wraps at 2^64, and [count_bounded] says that it has not.

    ** What is not modelled

    The cryptography and the crates behind [External]; the cache of datagram
    ciphers (keyed by the address of the key), taken to give the cipher that
    would be made; capacities of buffers; [Display], [FromStr] and logging; the
    contents of uninitialised padding (a parameter); compile-time features, all
    taken to be on; debug assertions; flush and shutdown, which are the
    transport's.  Of the services: when the caches drop entries (they are told
    what they drop), the map of associations of the local server with its tasks and
    channels, and the loops that accept connections; parsing and framing of HTTP, TLS; the TUN server, which drives
    another crate's TCP stack over a system interface; sockets, plugins, resolvers
    and the command line; the timers of the balancer and what its probes send;
    opening the fake DNS database.  The configuration file is read by serde and then
    converted field by field to the options of the services; of this the proxies, the
    manager, realm and DNS parts and the final check are here.  Of the realm: QUIC,
    TLS, the heartbeat task and the release of mapped ports.  Most of these are system
    calls, other crates, or plumbing around the parts above. *)
From Stdlib Require Export Lia.
From coqutil Require Export Byte Word.LittleEndianList.
From stdpp Require Export base list gmap strings numbers.

#[global] Open Scope Z_scope.

(** ** Bytes

    A [u8] is a [byte]; a [Vec<u8>], [&[u8]], [Bytes] or [BytesMut] is a list
    of them.  A Rust [String] is its UTF-8 bytes. *)
Abbreviation bytes := (list byte).

#[export] Instance byte_eq_dec : EqDecision byte.
Proof. intros x y. apply Byte.byte_eq_dec. Defined.

#[export] Instance byte_countable : Countable byte.
Proof.
  refine (inj_countable' byte.unsigned byte.of_Z _). intros b. apply byte.of_Z_unsigned.
Defined.

(** Byte literals of the source, [b# 0x05]. *)
Notation "'b#' n" := (byte.of_Z n) (at level 1, n at level 0, format "'b#' n").

(** ** Big-endian machine integers

    [be_bytes n z] is [to_be_bytes] of the [8 * n]-bit integer [z] and [be_Z]
    is [from_be_bytes]. *)
Definition be_bytes (n : nat) (z : Z) : bytes := reverse (le_split n z).
Definition be_Z (l : bytes) : Z := le_combine (reverse l).

Arguments be_bytes : simpl never.
Arguments be_Z : simpl never.

Definition u8_max : Z := 2 ^ 8.
Definition u16_max : Z := 2 ^ 16.
Definition u64_max : Z := 2 ^ 64.
Definition u128_max : Z := 2 ^ 128.

Definition in_u64 (z : Z) : Prop := 0 ≤ z < 2 ^ 64.

(** [a.abs_diff(b)] on unsigned integers. *)
Definition abs_diff (a b : Z) : Z := Z.abs (a - b).

Lemma length_be_bytes n z : length (be_bytes n z) = n.
Proof. unfold be_bytes. by rewrite length_reverse, length_le_split. Qed.

Lemma be_Z_be_bytes n z : be_Z (be_bytes n z) = z `mod` 2 ^ (8 * Z.of_nat n).
Proof.
  unfold be_Z, be_bytes. rewrite reverse_involutive, le_combine_split.
  by rewrite Z.mul_comm.
Qed.

Lemma be_Z_be_bytes_small n z :
  0 ≤ z < 2 ^ (8 * Z.of_nat n) → be_Z (be_bytes n z) = z.
Proof. intros. rewrite be_Z_be_bytes. by apply Z.mod_small. Qed.

Lemma be_bytes_be_Z n l : length l = n → be_bytes n (be_Z l) = l.
Proof.
  intros <-. unfold be_bytes, be_Z.
  rewrite split_le_combine' by apply length_reverse. apply reverse_involutive.
Qed.

Lemma be_Z_range l : 0 ≤ be_Z l < 2 ^ (8 * Z.of_nat (length l)).
Proof. unfold be_Z. rewrite <- (length_reverse l). apply le_combine_bound. Qed.

Lemma be_bytes_mod n z : be_bytes n (z `mod` 2 ^ (8 * Z.of_nat n)) = be_bytes n z.
Proof.
  unfold be_bytes. by rewrite (le_split_mod z), (Z.mul_comm (Z.of_nat n)).
Qed.

Lemma be_bytes_1 z : be_bytes 1 z = [b# z].
Proof. reflexivity. Qed.

Lemma be_Z_1 b : be_Z [b] = byte.unsigned b.
Proof. apply le_combine_1. Qed.

Lemma byte_of_unsigned b z : byte.unsigned b = z → b = b# z.
Proof. intros <-. by rewrite byte.of_Z_unsigned. Qed.

Lemma unsigned_of_Z_small z : 0 ≤ z < 256 → byte.unsigned (b# z) = z.
Proof. intros. rewrite byte.unsigned_of_Z. unfold byte.wrap. by apply Z.mod_small. Qed.

Lemma of_Z_inj_small x y : 0 ≤ x < 256 → 0 ≤ y < 256 → b# x = b# y → x = y.
Proof.
  intros Hx Hy E. apply (f_equal byte.unsigned) in E.
  by rewrite !unsigned_of_Z_small in E.
Qed.

Lemma byte_unsigned_range b : 0 ≤ byte.unsigned b < 256.
Proof. apply byte.unsigned_range. Qed.

(** *** Exclusive or, byte by byte *)
Definition xor_bytes (l k : bytes) : bytes := zip_with byte.xor l k.

Lemma byte_xor_involutive a b : byte.xor (byte.xor a b) b = a.
Proof.
  unfold byte.xor. apply byte.unsigned_inj.
  pose proof (byte_unsigned_range a). pose proof (byte_unsigned_range b).
  rewrite !byte.unsigned_of_Z. unfold byte.wrap.
  rewrite <- !Z.land_ones by lia. apply Z.bits_inj'. intros n Hn.
  rewrite Z.land_spec, Z.lxor_spec, Z.land_spec, Z.lxor_spec, Z.testbit_ones by lia.
  destruct (0 <=? n) eqn:E0; [|lia]. destruct (n <? 8) eqn:E1; simpl.
  - rewrite !andb_true_r. by destruct (Z.testbit _ n), (Z.testbit _ n).
  - rewrite !andb_false_r. symmetry. rewrite <- (byte.wrap_unsigned a).
    unfold byte.wrap. apply Z.mod_pow2_bits_high. lia.
Qed.

Lemma xor_bytes_involutive l k :
  (length l ≤ length k)%nat → xor_bytes (xor_bytes l k) k = l.
Proof.
  unfold xor_bytes. revert k. induction l as [|a l IH]; intros [|b k]; simpl; intros;
    try done; try lia. f_equal; [apply byte_xor_involutive|]. apply IH. lia.
Qed.

Lemma length_xor_bytes l k :
  (length l ≤ length k)%nat → length (xor_bytes l k) = length l.
Proof. intros. unfold xor_bytes. rewrite length_zip_with. lia. Qed.

(** ** Outcomes

    What a Rust call can do: return a value, return an error, or panic.  A
    panic keeps the reason, as the source's [assert!] and slice accesses do. *)
Inductive outcome (E A : Type) : Type :=
| Ok (a : A)
| Err (e : E)
| Panic (msg : string).
Arguments Ok {E A} a.
Arguments Err {E A} e.
Arguments Panic {E A} msg.

#[export] Instance outcome_ret E : MRet (outcome E) := λ A a, Ok a.
#[export] Instance outcome_bind E : MBind (outcome E) := λ A B f c,
  match c with
  | Ok a => f a
  | Err e => Err e
  | Panic m => Panic m
  end.
#[export] Instance outcome_fmap E : FMap (outcome E) := λ A B f c,
  match c with
  | Ok a => Ok (f a)
  | Err e => Err e
  | Panic m => Panic m
  end.

(** [Result::map_err], and the [?] operator's [From] conversion. *)
Definition map_err {E F A} (f : E → F) (c : outcome E A) : outcome F A :=
  match c with
  | Ok a => Ok a
  | Err e => Err (f e)
  | Panic m => Panic m
  end.

(** [assert!(b)]. *)
Definition rust_assert {E} (b : bool) (msg : string) : outcome E unit :=
  if b then Ok tt else Panic msg.

Definition is_panic {E A} (c : outcome E A) : bool :=
  match c with Panic _ => true | _ => false end.

Definition is_ok {E A} (c : outcome E A) : bool :=
  match c with Ok _ => true | _ => false end.

Lemma outcome_bind_Ok {E A B} (c : outcome E A) (f : A → outcome E B) b :
  (c ≫= f) = Ok b ↔ ∃ a, c = Ok a ∧ f a = Ok b.
Proof. destruct c; simpl; naive_solver. Qed.

(** [io::ErrorKind], the kinds the source tests or makes. *)
Inductive ErrorKind :=
| UnexpectedEof
| ConnectionRefused
| ConnectionAborted
| WriteZero
| TimedOut
| InvalidData
| OtherKind (msg : string).

#[export] Instance ErrorKind_eq_dec : EqDecision ErrorKind.
Proof. solve_decision. Defined.

Abbreviation io_error := ErrorKind.

(** ** Actions
    Code that changes a state and may fail: what it did before it failed stays
    done.  [attempt] is a call whose [Result] is matched on. *)
Definition action (S E A : Type) : Type := S → outcome E A * S.

#[export] Instance action_ret S E : MRet (action S E) := λ A a s, (Ok a, s).
#[export] Instance action_bind S E : MBind (action S E) := λ A B f m s,
  match m s with
  | (Ok a, s') => f a s'
  | (Err e, s') => (Err e, s')
  | (Panic m, s') => (Panic m, s')
  end.

Definition act_fail {S E A} (e : E) : action S E A := λ s, (Err e, s).
Definition act_gets {S E A} (f : S → A) : action S E A := λ s, (Ok (f s), s).
Definition act_mod {S E} (f : S → S) : action S E unit := λ s, (Ok tt, f s).
Definition act_of {S E A} (c : outcome E A) : action S E A := λ s, (c, s).
Definition attempt {S E F A} (m : action S E A) : action S F (A + E) := λ s,
  match m s with
  | (Ok a, s') => (Ok (inl a), s')
  | (Err e, s') => (Ok (inr e), s')
  | (Panic m, s') => (Panic m, s')
  end.

(** ** Parsers

    Code that reads from a source it advances: a state [S] is threaded and the
    read may fail or panic.  [reader] is an [AsyncRead] that has been awaited to
    completion, so that only its remaining bytes and the way it ends matter;
    [cursor] is [io::Cursor] over a byte slice with the [bytes::Buf] methods. *)
Definition parser (S E A : Type) : Type := S → outcome E (A * S).

#[export] Instance parser_ret S E : MRet (parser S E) := λ A a s, Ok (a, s).
#[export] Instance parser_bind S E : MBind (parser S E) := λ A B f p s,
  match p s with
  | Ok (a, s') => f a s'
  | Err e => Err e
  | Panic m => Panic m
  end.

Definition fail {S E A} (e : E) : parser S E A := λ _, Err e.
Definition lift {S E A} (c : outcome E A) : parser S E A := λ s, (λ a, (a, s)) <$> c.
Definition parse_err {S E F A} (f : E → F) (p : parser S E A) : parser S F A :=
  λ s, map_err f (p s).

(** [rd_end] is [None] when the stream ends with an orderly shutdown (EOF) and
    [Some e] when reading past its data fails with [e]. *)
Record reader := Reader { rd_data : bytes; rd_end : option io_error }.

Definition eof_error (r : reader) : io_error := default UnexpectedEof (rd_end r).

(** [AsyncReadExt::read_exact] into a buffer of [n] bytes. *)
Definition read_exact (n : nat) : parser reader io_error bytes := λ r,
  if (n <=? length (rd_data r))%nat
  then Ok (take n (rd_data r), Reader (drop n (rd_data r)) (rd_end r))
  else Err (eof_error r).

(** The contents of a zeroed buffer of [n] bytes after [read_exact], whether or
    not it succeeded: on failure the bytes read so far stay in the buffer. *)
Definition read_exact_buffer (n : nat) (r : reader) : bytes :=
  take n (rd_data r) ++ replicate (n - length (rd_data r)) (b# 0).

Record cursor := Cursor { cur_data : bytes; cur_pos : nat }.

Definition cur_remaining (c : cursor) : nat := (length (cur_data c) - cur_pos c)%nat.
Definition cur_rest (c : cursor) : bytes := drop (cur_pos c) (cur_data c).

(** [cur.remaining()]. *)
Definition remaining {E} : parser cursor E nat := λ c, Ok (cur_remaining c, c).

(** [Buf::copy_to_slice] and the [get_*] methods panic when fewer bytes remain
    than they take. *)
Definition cur_take {E} (n : nat) : parser cursor E bytes := λ c,
  if (n <=? cur_remaining c)%nat
  then Ok (take n (cur_rest c), Cursor (cur_data c) (cur_pos c + n))
  else Panic "advance out of bounds".

Definition get_u8 {E} : parser cursor E Z := l ← cur_take 1; mret (be_Z l).
Definition get_u16 {E} : parser cursor E Z := l ← cur_take 2; mret (be_Z l).
Definition get_u32 {E} : parser cursor E Z := l ← cur_take 4; mret (be_Z l).
Definition get_u64 {E} : parser cursor E Z := l ← cur_take 8; mret (be_Z l).
Definition get_u128 {E} : parser cursor E Z := l ← cur_take 16; mret (be_Z l).

(** [Buf::advance], which panics past the end, and [Seek::seek] with
    [SeekFrom::Current(n)], which may move past the end. *)
Definition cur_advance {E} (n : nat) : parser cursor E unit := λ c,
  if (n <=? cur_remaining c)%nat
  then Ok (tt, Cursor (cur_data c) (cur_pos c + n))
  else Panic "advance out of bounds".
Definition cur_seek {E} (n : nat) : parser cursor E unit := λ c,
  Ok (tt, Cursor (cur_data c) (cur_pos c + n)).

(** Element [i] of a fixed-size byte array, as a [u8]. *)
Definition u8_at (l : bytes) (i : nat) : Z := byte.unsigned (nth i l (b# 0)).

(** ** Proof automation *)

(** Splits the matches that [bind] leaves in the goal or in a hypothesis. *)
Ltac case_outcome :=
  match goal with
  | |- context [match ?x with Ok _ => _ | Err _ => _ | Panic _ => _ end] =>
      let E := fresh "E" in destruct x as [[]| |] eqn:E
  | H : context [match ?x with Ok _ => _ | Err _ => _ | Panic _ => _ end] |- _ =>
      let E := fresh "E" in destruct x as [[]| |] eqn:E
  end.

(** Resolves boolean comparisons of lengths that [lia] can decide. *)
Ltac len_true :=
  match goal with
  | |- context [(?a <=? ?b)%nat] =>
      replace (a <=? b)%nat with true
        by (symmetry; apply Nat.leb_le; autorewrite with blen; simpl; lia)
  | |- context [(?a <? ?b)%nat] =>
      replace (a <? b)%nat with true
        by (symmetry; apply Nat.ltb_lt; autorewrite with blen; simpl; lia)
  end.
Ltac len_false :=
  match goal with
  | |- context [(?a <=? ?b)%nat] =>
      replace (a <=? b)%nat with false
        by (symmetry; apply Nat.leb_gt; autorewrite with blen; simpl; lia)
  | |- context [(?a <? ?b)%nat] =>
      replace (a <? b)%nat with false
        by (symmetry; apply Nat.ltb_ge; autorewrite with blen; simpl; lia)
  end.

Create HintDb bytes discriminated.
Create Rewrite HintDb blen.
#[export] Hint Rewrite @length_app @length_cons @length_nil length_be_bytes
  @length_take @length_drop @length_replicate : blen.
#[export] Hint Resolve byte_unsigned_range be_Z_range : bytes.

(** ** Reading what was written *)

Lemma read_exact_app n l rest e :
  length l = n → read_exact n (Reader (l ++ rest) e) = Ok (l, Reader rest e).
Proof.
  intros <-. unfold read_exact. simpl. len_true.
  by rewrite take_app_length, drop_app_length.
Qed.

Lemma read_exact_Ok n r l r' :
  read_exact n r = Ok (l, r') →
  length l = n ∧ rd_data r = l ++ rd_data r' ∧ rd_end r' = rd_end r.
Proof.
  unfold read_exact. destruct (Nat.leb_spec n (length (rd_data r))); [|done].
  intros [= <- <-]. simpl. rewrite length_take, take_drop. repeat split; lia.
Qed.

Lemma read_exact_short n r :
  (length (rd_data r) < n)%nat → read_exact n r = Err (eof_error r).
Proof. intros. unfold read_exact. by len_false. Qed.

Lemma cur_take_app {E} n pre l rest :
  length l = n →
  cur_take (E:=E) n (Cursor (pre ++ l ++ rest) (length pre)) =
  Ok (l, Cursor (pre ++ l ++ rest) (length pre + n)).
Proof.
  intros <-. unfold cur_take, cur_remaining, cur_rest. simpl. len_true.
  by rewrite drop_app_length, take_app_length.
Qed.

Lemma cur_take_Ok {E} n c l c' :
  cur_take (E:=E) n c = Ok (l, c') →
  length l = n ∧ cur_data c' = cur_data c ∧ cur_pos c' = (cur_pos c + n)%nat ∧
  cur_rest c = l ++ cur_rest c'.
Proof.
  unfold cur_take, cur_remaining, cur_rest.
  destruct (Nat.leb_spec n (length (cur_data c) - cur_pos c)); [|done].
  intros [= <- <-]. simpl. rewrite length_take, length_drop.
  repeat split; [lia|]. by rewrite <- drop_drop, take_drop.
Qed.

(** ** Slices *)

(** [l.copy_within(s..e, 0)] on a slice. *)
Definition copy_within (s e : nat) (l : bytes) : bytes :=
  let m := drop s (take e l) in m ++ drop (length m) l.

Lemma take_copy_within s e l :
  (s ≤ e)%nat → (e ≤ length l)%nat → take (e - s) (copy_within s e l) = take (e - s) (drop s l).
Proof.
  intros Hs He. unfold copy_within. cbv zeta.
  assert (length (drop s (take e l)) = (e - s)%nat) as Hl by (autorewrite with blen; lia).
  rewrite take_app_le, take_ge by lia. rewrite skipn_firstn_comm. done.
Qed.

(** A payload at the end of a slice, moved to its front. *)
Lemma copy_within_payload pre payload post n :
  length pre = n →
  take (length payload) (copy_within n (n + length payload) (pre ++ payload ++ post)) = payload.
Proof.
  intros <-.
  pose proof (take_copy_within (length pre) (length pre + length payload) (pre ++ payload ++ post)) as H.
  replace (length pre + length payload - length pre)%nat with (length payload) in H by lia.
  rewrite H; [|lia|autorewrite with blen; lia].
  by rewrite drop_app_length, take_app_length.
Qed.

(** ** What an action ends with

    [act_wp m Q s]: run from [s], the action [m] ends with a result and a state
    for which [Q] holds. *)
Definition act_wp {S E A} (m : action S E A) (Q : outcome E A → S → Prop) (s : S) : Prop := Q (fst (m s)) (snd (m s)).

(** What is left to show after a step that ended with [r]. *)
Definition act_then {S E A B} (f : A → action S E B) (Q : outcome E B → S → Prop) (r : outcome E A) (s : S) : Prop :=
  match r with
  | Ok a => act_wp (f a) Q s
  | Err e => Q (Err e) s
  | Panic m => Q (Panic m) s
  end.

Lemma wp_bind {S E A B} (m : action S E A) (f : A → action S E B) Q s :
  act_wp m (act_then f Q) s → act_wp (m ≫= f) Q s.
Proof. unfold act_wp, act_then, mbind, action_bind. by destruct (m s) as [[a|e|p] s']. Qed.

Lemma wp_mono {S E A} (m : action S E A) (P Q : outcome E A → S → Prop) s :
  act_wp m P s → (∀ r s', P r s' → Q r s') → act_wp m Q s.
Proof. unfold act_wp. eauto. Qed.

Lemma wp_attempt {S E F A} (m : action S E A) (Q : outcome F (A + E) → S → Prop) s :
  act_wp m (λ r s', match r with Ok a => Q (Ok (inl a)) s' | Err e => Q (Ok (inr e)) s' | Panic p => Q (Panic p) s' end) s →
  act_wp (attempt m) Q s.
Proof. unfold act_wp, attempt. by destruct (m s) as [[a|e|p] s']. Qed.

Lemma wp_use {S E A} (m : action S E A) Q s r s' : act_wp m Q s → m s = (r, s') → Q r s'.
Proof. unfold act_wp. intros H Hm. by rewrite Hm in H. Qed.

Lemma wp_ret {S E A} (a : A) (Q : outcome E A → S → Prop) s : Q (Ok a) s → act_wp (mret a) Q s.
Proof. done. Qed.
Lemma wp_fail {S E A} (e : E) (Q : outcome E A → S → Prop) s : Q (Err e) s → act_wp (act_fail e) Q s.
Proof. done. Qed.
Lemma wp_gets {S E A} (f : S → A) (Q : outcome E A → S → Prop) s : Q (Ok (f s)) s → act_wp (act_gets f) Q s.
Proof. done. Qed.
Lemma wp_mod {S E} (f : S → S) (Q : outcome E unit → S → Prop) s : Q (Ok tt) (f s) → act_wp (act_mod f) Q s.
Proof. done. Qed.
Lemma wp_of {S E A} (c : outcome E A) (Q : outcome E A → S → Prop) s : Q c s → act_wp (act_of c) Q s.
Proof. done. Qed.

(** One step of an action: its first call, as far as it is one of the above. *)
Ltac wp_step :=
  match goal with
  | |- act_wp (_ ≫= _) _ _ => apply wp_bind
  | |- act_wp (attempt _) _ _ => apply wp_attempt
  | |- act_wp (mret _) _ _ => apply wp_ret
  | |- act_wp (act_fail _) _ _ => apply wp_fail
  | |- act_wp (act_gets _) _ _ => apply wp_gets
  | |- act_wp (act_mod _) _ _ => apply wp_mod
  | |- act_wp (act_of _) _ _ => apply wp_of
  | |- act_then _ _ (Ok _) _ => unfold act_then; cbv beta
  | |- act_then _ _ (Err _) _ => unfold act_then
  | |- act_then _ _ (Panic _) _ => unfold act_then
  end.
