(* ===== verification/Utf8.v ===== *)
(** * UTF-8 validation

    [String::from_utf8] of the Rust standard library: the well-formed byte
    sequences of Unicode table 3-7, shortest forms only, no surrogates. *)
From S2P Require Import Prelude.

Definition in_range (lo hi : Z) (b : byte) : bool :=
  (lo <=? byte.unsigned b) && (byte.unsigned b <=? hi).

Definition cont_byte (b : byte) : bool := in_range 128 191 b.

(** The range of the second byte depends on the first. *)
Definition second_byte (b0 b1 : byte) : bool :=
  let x := byte.unsigned b0 in
  if x =? 224 then in_range 160 191 b1
  else if x =? 237 then in_range 128 159 b1
  else if x =? 240 then in_range 144 191 b1
  else if x =? 244 then in_range 128 143 b1
  else cont_byte b1.

Fixpoint utf8_valid (l : bytes) : bool :=
  match l with
  | [] => true
  | b0 :: l1 =>
      if in_range 0 127 b0 then utf8_valid l1
      else if in_range 194 223 b0 then
        match l1 with
        | b1 :: l2 => second_byte b0 b1 && utf8_valid l2
        | _ => false
        end
      else if in_range 224 239 b0 then
        match l1 with
        | b1 :: b2 :: l3 => second_byte b0 b1 && cont_byte b2 && utf8_valid l3
        | _ => false
        end
      else if in_range 240 244 b0 then
        match l1 with
        | b1 :: b2 :: b3 :: l4 =>
            second_byte b0 b1 && cont_byte b2 && cont_byte b3 && utf8_valid l4
        | _ => false
        end
      else false
  end.

(** [String::from_utf8]: the bytes themselves when they are valid. *)
Definition from_utf8 (l : bytes) : option bytes :=
  if utf8_valid l then Some l else None.

Definition is_ascii (l : bytes) : bool := forallb (in_range 0 127) l.

Lemma from_utf8_valid l : utf8_valid l = true → from_utf8 l = Some l.
Proof. unfold from_utf8. by intros ->. Qed.

Lemma from_utf8_Some l s : from_utf8 l = Some s → s = l ∧ utf8_valid l = true.
Proof. unfold from_utf8. destruct (utf8_valid l); naive_solver. Qed.

Lemma ascii_utf8_valid l : is_ascii l = true → utf8_valid l = true.
Proof.
  induction l as [|b l IH]; [done|]. simpl. rewrite andb_true_iff.
  intros [-> Hl]. by apply IH.
Qed.

(** The two-, three- and four-byte forms are accepted; an overlong form, a
    surrogate and a lone continuation byte are not. *)
Example utf8_valid_samples :
  map utf8_valid
    [ [b# 0xC3; b# 0xA9]; [b# 0xE2; b# 0x82; b# 0xAC]; [b# 0xF0; b# 0x9F; b# 0x98; b# 0x80];
      [b# 0xC0; b# 0xAF]; [b# 0xED; b# 0xA0; b# 0x80]; [b# 0x80]; [b# 0xF4; b# 0x90; b# 0x80; b# 0x80] ]
  = [true; true; true; false; false; false; false].
Proof. vm_compute. reflexivity. Qed.

(** ** Lossy decoding

    [String::from_utf8_lossy]: each maximal ill-formed sequence becomes U+FFFD.
    [utf8_char l] says whether [l] starts with a character, and how many bytes
    the character or the ill-formed sequence has. *)
Definition REPLACEMENT : bytes := [b# 239; b# 191; b# 189].

Definition utf8_char (l : bytes) : bool * nat :=
  let b i := nth i l (b# 0) in
  if in_range 0 127 (b 0%nat) then (true, 1%nat)
  else if in_range 194 223 (b 0%nat) then
    if second_byte (b 0%nat) (b 1%nat) then (true, 2%nat) else (false, 1%nat)
  else if in_range 224 239 (b 0%nat) then
    if negb (second_byte (b 0%nat) (b 1%nat)) then (false, 1%nat)
    else if cont_byte (b 2%nat) then (true, 3%nat) else (false, 2%nat)
  else if in_range 240 244 (b 0%nat) then
    if negb (second_byte (b 0%nat) (b 1%nat)) then (false, 1%nat)
    else if negb (cont_byte (b 2%nat)) then (false, 2%nat)
    else if cont_byte (b 3%nat) then (true, 4%nat) else (false, 3%nat)
  else (false, 1%nat).

Fixpoint lossy (fuel : nat) (l : bytes) : bytes :=
  match fuel, l with
  | S fuel, _ :: _ =>
      let '(ok, n) := utf8_char l in (if ok then take n l else REPLACEMENT) ++ lossy fuel (drop n l)
  | _, _ => []
  end.

Definition from_utf8_lossy (l : bytes) : bytes := lossy (length l) l.

Lemma utf8_valid_char b0 l : utf8_valid (b0 :: l) = true →
  ∃ n, utf8_char (b0 :: l) = (true, S n) ∧ (n ≤ length l)%nat ∧ utf8_valid (drop n l) = true.
Proof.
  cbn [utf8_valid]. unfold utf8_char. cbn [nth].
  destruct (in_range 0 127 b0); [intros H; exists 0%nat; split_and!; [done|lia|by rewrite drop_0]|].
  destruct (in_range 194 223 b0).
  { destruct l as [|b1 l]; [done|]. rewrite andb_true_iff. intros [H1 H]. cbn [nth]. rewrite H1. exists 1%nat. simpl. split_and!; [done|lia|by rewrite drop_0]. }
  destruct (in_range 224 239 b0).
  { destruct l as [|b1 [|b2 l]]; try done. rewrite !andb_true_iff. intros [[H1 H2] H]. cbn [nth]. rewrite H1, H2. exists 2%nat. simpl. split_and!; [done|lia|by rewrite drop_0]. }
  destruct (in_range 240 244 b0); [|done].
  destruct l as [|b1 [|b2 [|b3 l]]]; try done. rewrite !andb_true_iff. intros [[[H1 H2] H3] H]. cbn [nth]. rewrite H1, H2, H3.
  exists 3%nat. simpl. split_and!; [done|lia|by rewrite drop_0].
Qed.

(** Nothing is replaced in well-formed text. *)
Lemma from_utf8_lossy_valid l : utf8_valid l = true → from_utf8_lossy l = l.
Proof.
  unfold from_utf8_lossy. assert (∀ fuel l, (length l ≤ fuel)%nat → utf8_valid l = true → lossy fuel l = l) as H; [|by apply H].
  clear l. induction fuel as [|fuel IH]; intros [|b0 l] Hl Hv; simpl in Hl; [done|lia|done|].
  destruct (utf8_valid_char b0 l Hv) as (n & E & Hn & Hr). cbn [lossy]. rewrite E. cbn [take drop].
  rewrite IH by (rewrite ?length_drop; lia || done). simpl. by rewrite take_drop.
Qed.
