(* ===== verification/External.v ===== *)
(** * The crates the program calls

    The cryptography (shadowsocks-crypto), the Bloom filter (bloomfilter) and the
    expiring cache (lru_time_cache) are not part of the repository.  Each is a
    class of operations, a parameter of the definitions that use it, and a
    second class with the laws its documentation gives.  The instances at the
    end are small executable models that satisfy the laws; they only serve the
    examples. *)
From Stdlib Require QArith_base.
From S2P Require Import Prelude.

(** ** shadowsocks-crypto: cipher kinds *)
Inductive CipherCategory := Cat_None | Cat_Stream | Cat_Aead | Cat_Aead2022.

#[export] Instance CipherCategory_eq_dec : EqDecision CipherCategory.
Proof. solve_decision. Defined.

Class CipherSuite := {
  CipherKind : Type;
  category : CipherKind → CipherCategory;
  iv_len : CipherKind → nat;
  salt_len : CipherKind → nat;
  tag_len : CipherKind → nat;
  key_len : CipherKind → nat;
  (** the AES key length of AEAD2022_BLAKE3_AES_128_GCM and
      AEAD2022_BLAKE3_AES_256_GCM, [None] for every other kind *)
  aes_kind : CipherKind → option nat;
  (** [nonce_size()] of the ciphers of the two AEAD2022_BLAKE3_CHACHA kinds,
      [None] for every other kind, and [method.nonce_len()] *)
  chacha_kind : CipherKind → option nat;
  nonce_len : CipherKind → nat;
}.

Definition is_aead_2022 `{CipherSuite} (m : CipherKind) : bool :=
  bool_decide (category m = Cat_Aead2022).

(** ** shadowsocks-crypto: packet ciphers of a stream

    [v1::Cipher] and [v2::tcp::TcpCipher]: both keep a nonce that advances with
    every packet.  The crate encrypts in place a buffer whose last [tag_len]
    bytes receive the tag: here [encrypt_packet] maps the plaintext to the whole
    buffer, and [decrypt_packet] gives the buffer after a successful in-place
    decryption, the plaintext followed by [tag_len] bytes that are not used. *)
Class StreamCipher `{CipherSuite} := {
  Cipher : Type;
  Cipher_new : CipherKind → bytes → bytes → Cipher;
  cipher_tag_len : Cipher → nat;
  encrypt_packet : Cipher → bytes → bytes * Cipher;
  decrypt_packet : Cipher → bytes → option bytes * Cipher;
}.
Arguments Cipher {_} _.

(** Decryption with the cipher in the state the packet was encrypted in gives
    the plaintext back and moves to the state encryption moved to. *)
Class StreamCipherLaws `{CS : CipherSuite} (SC : StreamCipher) : Prop := {
  cipher_tag_new m k s : cipher_tag_len (Cipher_new m k s) = tag_len m;
  cipher_tag_enc c p : cipher_tag_len (snd (encrypt_packet c p)) = cipher_tag_len c;
  encrypt_length c p : length (fst (encrypt_packet c p)) = (length p + cipher_tag_len c)%nat;
  decrypt_length_eq c m m' c' : decrypt_packet c m = (Some m', c') → length m' = length m;
  decrypt_encrypt c p : ∃ t,
    length t = cipher_tag_len c ∧
    decrypt_packet c (fst (encrypt_packet c p)) = (Some (p ++ t), snd (encrypt_packet c p));
}.

(** The stream kinds of [v1::Cipher]: no tag, decryption cannot fail, and a
    sequence of packets is encrypted as their concatenation. *)
Class KeystreamLaws `{CS : CipherSuite} (SC : StreamCipher) : Prop := {
  ks_encrypt_length c p : length (fst (encrypt_packet c p)) = length p;
  ks_encrypt_nil c : encrypt_packet c [] = ([], c);
  ks_encrypt_app c p q :
    encrypt_packet c (p ++ q) =
    (fst (encrypt_packet c p) ++ fst (encrypt_packet (snd (encrypt_packet c p)) q),
     snd (encrypt_packet (snd (encrypt_packet c p)) q));
  ks_decrypt_encrypt c p : decrypt_packet c (fst (encrypt_packet c p)) = (Some p, snd (encrypt_packet c p));
}.

(** ** shadowsocks-crypto: datagram ciphers

    [v2::udp::UdpCipher], which is not changed by its calls: cipher, nonce, then
    plaintext or sealed message.  As above, decryption gives the whole buffer. *)
Class DatagramCipher `{CipherSuite} := {
  UdpCipher : Type;
  UdpCipher_new : CipherKind → bytes → Z → UdpCipher;
  udp_encrypt : UdpCipher → bytes → bytes → bytes;
  udp_decrypt : UdpCipher → bytes → bytes → option bytes;
}.

(** The ChaCha kinds use the key directly: the session id does not matter. *)
Class DatagramCipherLaws `{CS : CipherSuite} (DC : DatagramCipher) : Prop := {
  udp_encrypt_length m k sid n p : length (udp_encrypt (UdpCipher_new m k sid) n p) = (length p + tag_len m)%nat;
  udp_decrypt_length c n p p' : udp_decrypt c n p = Some p' → length p' = length p;
  udp_decrypt_encrypt m k sid n p : ∃ t, length t = tag_len m ∧
    udp_decrypt (UdpCipher_new m k sid) n (udp_encrypt (UdpCipher_new m k sid) n p) = Some (p ++ t);
  udp_chacha_session m k sid sid' : is_Some (chacha_kind m) → UdpCipher_new m k sid = UdpCipher_new m k sid';
  chacha_nonce_len m n : chacha_kind m = Some n → nonce_len m = n;
  chacha_not_aes m : is_Some (chacha_kind m) → aes_kind m = None;
}.

(** ** blake3 and aes *)
Class Blake3 := {
  blake3_hash : bytes → bytes;
  blake3_derive_key : string → bytes → bytes;
}.

Class Blake3Laws (B : Blake3) : Prop := {
  blake3_hash_length x : length (blake3_hash x) = 32%nat;
  blake3_derive_key_length c x : length (blake3_derive_key c x) = 32%nat;
}.

(** A block cipher with 16-byte blocks: key, then block. *)
Class Aes := {
  aes_encrypt_block : bytes → bytes → bytes;
  aes_decrypt_block : bytes → bytes → bytes;
}.

Class AesLaws (A : Aes) : Prop := {
  aes_encrypt_length k b : length b = 16%nat → length (aes_encrypt_block k b) = 16%nat;
  aes_decrypt_length k b : length b = 16%nat → length (aes_decrypt_block k b) = 16%nat;
  aes_decrypt_encrypt k b : length b = 16%nat → aes_decrypt_block k (aes_encrypt_block k b) = b;
}.

(** ** bloomfilter *)
Class BloomFilter := {
  Bloom : Type;
  (** [Bloom::new_for_fp_rate(items, rate)], [None] for its error *)
  bloom_new : Z → QArith_base.Q → option Bloom;
  bloom_check : Bloom → bytes → bool;
  bloom_set : Bloom → bytes → Bloom;
  bloom_clear : Bloom → Bloom;
}.

(** No false negatives, whatever was set in between. *)
Class BloomLaws (B : BloomFilter) : Prop := {
  bloom_new_ok n p :
    0 < n → QArith_base.Qlt (QArith_base.Qmake 0 1) p → QArith_base.Qlt p (QArith_base.Qmake 1 1) →
    ∃ b, bloom_new n p = Some b;
  bloom_set_check b x : bloom_check (bloom_set b x) x = true;
  bloom_set_mono b x y : bloom_check b x = true → bloom_check (bloom_set b y) x = true;
}.

(** ** lru_time_cache

    [lru_get] and [lru_insert] take the time of the call, in milliseconds.  The
    documentation: an entry is found while less than the expiry duration has
    passed since it was inserted or last looked up, and is gone when more has. *)
Class LruTimeCache := {
  LruCache : Type;
  with_expiry_duration : Z → LruCache;
  lru_get : Z → LruCache → bytes → bool * LruCache;
  lru_insert : Z → LruCache → bytes → LruCache;
}.

(** [stamp c k] is the time of the last access to [k] in the cache [c]. *)
Class LruLaws (L : LruTimeCache) (stamp : LruCache → bytes → option Z) (ttl : LruCache → Z) : Prop := {
  lru_new_stamp d k : stamp (with_expiry_duration d) k = None;
  lru_new_ttl d : ttl (with_expiry_duration d) = d;
  lru_get_ttl now c k : ttl (snd (lru_get now c k)) = ttl c;
  lru_insert_ttl now c k : ttl (lru_insert now c k) = ttl c;
  lru_get_live now c k s :
    stamp c k = Some s → now - s < ttl c →
    fst (lru_get now c k) = true ∧ stamp (snd (lru_get now c k)) k = Some now;
  lru_get_expired now c k s :
    stamp c k = Some s → ttl c < now - s → fst (lru_get now c k) = false;
  lru_get_absent now c k : stamp c k = None → fst (lru_get now c k) = false;
  lru_get_other now c k k' s :
    k ≠ k' → stamp c k' = Some s → now - s < ttl c →
    stamp (snd (lru_get now c k)) k' = Some s;
  lru_insert_same now c k : stamp (lru_insert now c k) k = Some now;
  lru_insert_other now c k k' s :
    k ≠ k' → stamp c k' = Some s → now - s < ttl c →
    stamp (lru_insert now c k) k' = Some s;
}.

(** ** Executable models *)
Module Toy.

(** No cipher, a stream cipher and an AEAD with 4-byte salts and 2-byte tags,
    an AES and a ChaCha AEAD-2022 kind. *)
Inductive kind := Plain | Stream4 | Aead4 | Aead2022_16 | Chacha2022.

#[export] Instance suite : CipherSuite := {|
  CipherKind := kind;
  category k := match k with Plain => Cat_None | Stream4 => Cat_Stream | Aead4 => Cat_Aead | _ => Cat_Aead2022 end;
  iv_len k := match k with Stream4 => 4%nat | _ => 0%nat end;
  salt_len k := match k with Aead4 => 4%nat | Aead2022_16 | Chacha2022 => 16%nat | _ => 0%nat end;
  tag_len k := match k with Aead4 | Aead2022_16 | Chacha2022 => 2%nat | _ => 0%nat end;
  key_len k := match k with Plain => 0%nat | Aead2022_16 | Chacha2022 => 16%nat | _ => 4%nat end;
  aes_kind k := match k with Aead2022_16 => Some 16%nat | _ => None end;
  chacha_kind k := match k with Chacha2022 => Some 6%nat | _ => None end;
  nonce_len k := match k with Chacha2022 => 6%nat | _ => 0%nat end;
|}.

Definition checksum (l : bytes) : Z := foldr (λ b a, byte.unsigned b + 3 * a) 0 l.

(** Keystream byte and packet counter. *)
Record state := { ks : Z; ctr : Z; tl : nat }.
Definition mask (c : state) (l : bytes) : bytes := (λ b, byte.xor b (b# (ks c + ctr c))) <$> l.
Definition tag (c : state) (l : bytes) : bytes := be_bytes (tl c) (checksum l + ks c + ctr c).
Definition next (c : state) : state := {| ks := ks c; ctr := ctr c + 1; tl := tl c |}.

#[export] Instance cipher : StreamCipher := {|
  Cipher := state;
  Cipher_new m k s := {| ks := checksum k + checksum s; ctr := 0; tl := tag_len m |};
  cipher_tag_len c := tl c;
  encrypt_packet c p := (mask c p ++ tag c p, next c);
  decrypt_packet c m :=
    let n := (length m - tl c)%nat in
    let p := mask c (take n m) in
    (if bool_decide (drop n m = tag c p) then Some (p ++ drop n m) else None, next c);
|}.

Lemma mask_involutive c l : mask c (mask c l) = l.
Proof.
  unfold mask. rewrite <- list_fmap_compose. rewrite <- (list_fmap_id l) at 2.
  apply list_fmap_ext. intros i x _. simpl. apply byte_xor_involutive.
Qed.

#[export] Instance cipher_laws : StreamCipherLaws cipher.
Proof.
  split; try done.
  - intros c p. simpl. rewrite length_app. unfold mask, tag. by rewrite length_fmap, length_be_bytes.
  - simpl. intros c m m' c'. case_bool_decide; [|done]. intros [= <- _]. unfold mask.
    rewrite length_app, length_fmap, length_take, length_drop. lia.
  - intros c p. exists (tag c p). simpl. unfold tag at 1. rewrite length_be_bytes. split; [done|].
    assert (length (mask c p ++ tag c p) - tl c = length (mask c p))%nat as ->.
    { rewrite length_app. unfold tag. rewrite length_be_bytes. lia. }
    rewrite take_app_length, drop_app_length, mask_involutive.
    by rewrite bool_decide_true.
Qed.

(** Datagrams: the same masking and tag from the key, the nonce and, for the AES
    kind, the session. *)
Definition datagram (c : kind * Z) (nonce : bytes) : state :=
  {| ks := snd c + checksum nonce; ctr := 0; tl := tag_len (fst c) |}.

#[export] Instance udp_cipher : DatagramCipher := {|
  UdpCipher := kind * Z;
  UdpCipher_new m k sid := (m, checksum k + match m with Chacha2022 => 0 | _ => sid end);
  udp_encrypt c n p := mask (datagram c n) p ++ tag (datagram c n) p;
  udp_decrypt c n m := fst (decrypt_packet (StreamCipher := cipher) (datagram c n) m);
|}.

#[export] Instance udp_cipher_laws : DatagramCipherLaws udp_cipher.
Proof.
  split.
  - intros. exact (encrypt_length (SC := cipher) (datagram (UdpCipher_new m k sid) n) p).
  - intros c n p p' H. unfold udp_decrypt, udp_cipher in H.
    apply (decrypt_length_eq (SC := cipher) (datagram c n) p p' (next (datagram c n))).
    rewrite (surjective_pairing (decrypt_packet _ _)). f_equal. exact H.
  - intros. destruct (decrypt_encrypt (SC := cipher) (datagram (UdpCipher_new (DatagramCipher := udp_cipher) m k sid) n) p) as (t & Ht & Hd).
    exists t. split; [done|]. unfold udp_decrypt, udp_cipher, udp_encrypt.
    unfold encrypt_packet, cipher in Hd. cbn [fst] in Hd. exact (f_equal fst Hd).
  - intros [] k sid sid' [? H]; try done.
  - intros [] n H; simpl in *; congruence.
  - intros [] [? H]; done.
Qed.

(** A keystream whose bytes count up. *)
Fixpoint keystream (k : Z) (l : bytes) : bytes :=
  match l with [] => [] | b :: l => byte.xor b (b# k) :: keystream (k + 1) l end.

#[export] Instance stream_cipher : StreamCipher := {|
  Cipher := Z;
  Cipher_new m k s := checksum k + checksum s;
  cipher_tag_len c := 0%nat;
  encrypt_packet c p := (keystream c p, c + Z.of_nat (length p));
  decrypt_packet c m := (Some (keystream c m), c + Z.of_nat (length m));
|}.

Lemma length_keystream k l : length (keystream k l) = length l.
Proof. revert k. induction l; intros; simpl; [done|]. by rewrite IHl. Qed.

Lemma keystream_app k l1 l2 :
  keystream k (l1 ++ l2) = keystream k l1 ++ keystream (k + Z.of_nat (length l1)) l2.
Proof.
  revert k. induction l1 as [|b l1 IH]; intros k; cbn [app keystream length].
  - f_equal. lia.
  - rewrite IH. do 3 f_equal. lia.
Qed.

Lemma keystream_involutive k l : keystream k (keystream k l) = l.
Proof. revert k. induction l; intros; simpl; [done|]. by rewrite byte_xor_involutive, IHl. Qed.

#[export] Instance keystream_laws : KeystreamLaws stream_cipher.
Proof.
  split; simpl; intros.
  - apply length_keystream.
  - f_equal. lia.
  - rewrite keystream_app, length_app. f_equal. lia.
  - by rewrite keystream_involutive, length_keystream.
Qed.

(** A checksum for the hash, masking for the block cipher. *)
#[export] Instance blake3 : Blake3 := {|
  blake3_hash x := be_bytes 32 (checksum x);
  blake3_derive_key c x := be_bytes 32 (1 + 7 * checksum x);
|}.

#[export] Instance blake3_laws : Blake3Laws blake3.
Proof. split; intros; apply length_be_bytes. Qed.

#[export] Instance aes : Aes := {|
  aes_encrypt_block k := mask {| ks := checksum k; ctr := 0; tl := 0 |};
  aes_decrypt_block k := mask {| ks := checksum k; ctr := 0; tl := 0 |};
|}.

#[export] Instance aes_laws : AesLaws aes.
Proof.
  split; simpl; intros k b Hb; [| |apply mask_involutive]; unfold mask; by rewrite length_fmap.
Qed.

(** A Bloom filter without false positives: the list of its elements. *)
#[export] Instance bloom : BloomFilter := {|
  Bloom := list bytes;
  bloom_new n p := if 0 <? n then Some [] else None;
  bloom_check b x := bool_decide (x ∈ b);
  bloom_set b x := x :: b;
  bloom_clear b := [];
|}.

#[export] Instance bloom_laws : BloomLaws bloom.
Proof.
  split; simpl.
  - intros n p ???. exists []. by rewrite (proj2 (Z.ltb_lt _ _)).
  - intros. apply bool_decide_eq_true. set_solver.
  - intros b x y. rewrite !bool_decide_eq_true. set_solver.
Qed.

(** The cache as an association list with the time of last access. *)
Fixpoint assoc (l : list (bytes * Z)) (k : bytes) : option Z :=
  match l with
  | [] => None
  | (k', s) :: l => if decide (k' = k) then Some s else assoc l k
  end.

#[export] Instance lru : LruTimeCache := {|
  LruCache := Z * list (bytes * Z);
  with_expiry_duration d := (d, []);
  lru_get now c k :=
    match assoc (snd c) k with
    | Some s => if now - s <=? fst c then (true, (fst c, (k, now) :: snd c)) else (false, c)
    | None => (false, c)
    end;
  lru_insert now c k := (fst c, (k, now) :: snd c);
|}.

Definition lru_stamp (c : Z * list (bytes * Z)) (k : bytes) : option Z := assoc (snd c) k.
Definition lru_ttl (c : Z * list (bytes * Z)) : Z := fst c.

#[export] Instance lru_laws : LruLaws lru lru_stamp lru_ttl.
Proof.
  unfold lru_stamp, lru_ttl. split; simpl; try done.
  - intros now c k. destruct (assoc _ _); [|done]. by case_match.
  - intros now c k s -> ?. rewrite (proj2 (Z.leb_le _ _)) by lia. simpl. by rewrite decide_True.
  - intros now c k s -> ?. by rewrite (proj2 (Z.leb_gt _ _)) by lia.
  - by intros now c k ->.
  - intros now c k k' s ???. destruct (assoc (snd c) k); [|done]. case_match; simpl; [|done].
    by rewrite decide_False.
  - intros. by rewrite decide_True.
  - intros. by rewrite decide_False.
Qed.

End Toy.
