(* ===== verification/AsyncIo.v ===== *)
(** * Poll-based input and output

    The relay's codecs are written as [poll_*] methods over tokio's [AsyncRead]
    and [AsyncWrite].  A transport is a script of what the polls of it find: data
    that arrives in pieces, a poll that finds nothing yet, an error.  A [poll_*]
    method is a state transformer whose state survives a [Pending], an error and
    a panic, as the fields of the Rust value do. *)
From S2P Require Import Prelude.

(** ** Results of a poll *)
Inductive pres (E A : Type) : Type :=
| Ready (a : A)
| Failed (e : E)
| Panicked (msg : string)
| Pending.
Arguments Ready {E A} a.
Arguments Failed {E A} e.
Arguments Panicked {E A} msg.
Arguments Pending {E A}.

(** A poll method on a state: [ready!(..)?] is the bind. *)
Definition pollm (S E A : Type) : Type := S → pres E A * S.

#[export] Instance pollm_ret S E : MRet (pollm S E) := λ A a s, (Ready a, s).
#[export] Instance pollm_bind S E : MBind (pollm S E) := λ A B f p s,
  match p s with
  | (Ready a, s) => f a s
  | (Failed e, s) => (Failed e, s)
  | (Panicked m, s) => (Panicked m, s)
  | (Pending, s) => (Pending, s)
  end.

Definition pget {S E A} (f : S → A) : pollm S E A := λ s, (Ready (f s), s).
Definition pmod {S E} (f : S → S) : pollm S E unit := λ s, (Ready tt, f s).
Definition pfail {S E A} (e : E) : pollm S E A := λ s, (Failed e, s).
Definition ppanic {S E A} (m : string) : pollm S E A := λ s, (Panicked m, s).
Definition passert {S E} (b : bool) (m : string) : pollm S E unit := if b then mret tt else ppanic m.

(** [option.expect(m)]. *)
Definition pexpect {S E A} (o : option A) (m : string) : pollm S E A :=
  match o with Some a => mret a | None => ppanic m end.

(** [&l[..n]]. *)
Definition slice_to {S E} (n : nat) (l : bytes) : pollm S E bytes :=
  if (n <=? length l)%nat then mret (take n l) else ppanic "range end index out of range".

Arguments slice_to : simpl never.

Lemma slice_to_app {S E} n l t (s : S) :
  length l = n → slice_to (E := E) n (l ++ t) s = (Ready l, s).
Proof.
  intros <-. unfold slice_to. rewrite (proj2 (Nat.leb_le _ _)) by (rewrite length_app; lia).
  by rewrite take_app_length.
Qed.

(** A [Result] used with [?] in a poll method. *)
Definition presult {S E F A} (f : E → F) (c : outcome E A) : pollm S F A :=
  match c with Ok a => mret a | Err e => pfail (f e) | Panic m => ppanic m end.

Definition perr {E F A} (f : E → F) (r : pres E A) : pres F A :=
  match r with
  | Ready a => Ready a
  | Failed e => Failed (f e)
  | Panicked m => Panicked m
  | Pending => Pending
  end.

(** Runs a method on a part of the state. *)
Definition pzoom {S T E F A} (get : S → T) (put : T → S → S) (f : E → F) (p : pollm T E A) : pollm S F A :=
  λ s, let '(r, t) := p (get s) in (perr f r, put t s).

Definition is_panicked {E A} (r : pres E A) : bool :=
  match r with Panicked _ => true | _ => false end.

(** ** Reading *)
Inductive rd_event := RdData (bs : bytes) | RdPending | RdError (e : io_error).

#[export] Instance rd_event_eq_dec : EqDecision rd_event.
Proof. solve_decision. Defined.

(** What the polls of a readable transport will find; after the last event the
    stream is at its end.  An [RdData []] is a read that reports the end. *)
Abbreviation rstream := (list rd_event).

(** [poll_read] into a buffer with room for [n] bytes: the bytes it filled. *)
Definition poll_read (n : nat) : pollm rstream io_error bytes := λ s,
  match s with
  | [] => (Ready [], [])
  | RdPending :: s => (Pending, s)
  | RdError e :: s => (Failed e, s)
  | RdData bs :: s' =>
      (Ready (take n bs),
       if bool_decide (bs = []) then s'
       else if bool_decide (drop n bs = []) then s' else RdData (drop n bs) :: s')
  end.

(** The loop of the three [poll_read_exact] methods, on the receive buffer and
    the transport.  [fuel] bounds the number of reads. *)
Fixpoint read_exact_loop (fuel size : nat) : pollm (bytes * rstream) io_error nat := λ '(buffer, s),
  if (length buffer <? size)%nat then
    match fuel with
    | O => (Panicked "out of fuel", (buffer, s))
    | Datatypes.S fuel =>
        let remaining := (size - length buffer)%nat in
        match poll_read remaining s with
        | (Ready data, s) =>
            if bool_decide (data = []) then
              if bool_decide (buffer ≠ []) then (Failed UnexpectedEof, (buffer, s))
              else (Ready 0%nat, (buffer, s))
            else read_exact_loop fuel size (buffer ++ data, s)
        | (Failed e, s) => (Failed e, (buffer, s))
        | (Panicked m, s) => (Panicked m, (buffer, s))
        | (Pending, s) => (Pending, (buffer, s))
        end
    end
  else (Ready size, (buffer, s)).

(** Every read but the last consumes an event of the script. *)
Definition read_exact_poll (size : nat) : pollm (bytes * rstream) io_error nat := λ bs,
  if bool_decide (size = 0%nat) then (Panicked "assertion failed: size != 0", bs)
  else read_exact_loop (Datatypes.S (length (snd bs))) size bs.

(** Everything the transport still delivers. *)
Fixpoint rs_bytes (s : rstream) : bytes :=
  match s with
  | [] => []
  | RdData bs :: s => bs ++ rs_bytes s
  | _ :: s => rs_bytes s
  end.

(** A transport that delivers its data and then ends: no error, no empty read. *)
Definition rd_clean (e : rd_event) : bool :=
  match e with RdData bs => negb (bool_decide (bs = [])) | RdPending => true | RdError _ => false end.
Definition rs_clean (s : rstream) : bool := forallb rd_clean s.

(** Polls of the transport that find nothing. *)
Fixpoint rs_pendings (s : rstream) : nat :=
  match s with
  | [] => 0
  | RdPending :: s => Datatypes.S (rs_pendings s)
  | _ :: s => rs_pendings s
  end.

(** Upper bound on the reads a script can serve. *)
Fixpoint rs_size (s : rstream) : nat :=
  match s with
  | [] => 0
  | RdData bs :: s => Datatypes.S (length bs + rs_size s)
  | _ :: s => Datatypes.S (rs_size s)
  end.

(** *** Facts *)

(** One read: the cases of [poll_read] with room for at least one byte. *)
Lemma poll_read_data n bs s :
  (0 < n)%nat → bs ≠ [] →
  ∃ s', poll_read n (RdData bs :: s) = (Ready (take n bs), s') ∧
    take n bs ≠ [] ∧ take n bs ++ rs_bytes s' = bs ++ rs_bytes s ∧
    rs_clean s' = rs_clean s ∧ rs_pendings s' = rs_pendings s ∧
    (rs_size s' + length (take n bs) ≤ rs_size (RdData bs :: s))%nat ∧
    ((length s' < length (RdData bs :: s))%nat ∨ length (take n bs) = n).
Proof.
  intros Hn Hbs. unfold poll_read. rewrite bool_decide_false by done.
  eexists. split; [done|]. split; [destruct n; [lia|]; by destruct bs|].
  case_bool_decide as Hd.
  - assert (take n bs = bs) as Ht by (rewrite <- (take_drop n bs) at 2; by rewrite Hd, app_nil_r).
    rewrite Ht. simpl. repeat split; try done; [lia|left; lia].
  - assert (drop n bs ≠ []) by done. simpl. rewrite app_assoc, take_drop, length_take, length_drop.
    assert (n < length bs)%nat by (destruct (decide (length bs ≤ n)%nat); [by rewrite drop_ge in Hd|lia]).
    rewrite bool_decide_false by done. repeat split; [lia|right; lia].
Qed.

(** The loop on any transport: it ends, and delivers bytes in order. *)
Lemma read_exact_loop_total fuel size buf s :
  (length s < fuel)%nat →
  let '(r, (buf', s')) := read_exact_loop fuel size (buf, s) in
  is_panicked r = false ∧ (rs_size s' ≤ rs_size s)%nat ∧
  (∀ n, r = Ready n →
     n = size ∧ (size ≤ length buf')%nat ∧ (buf' = buf ∨ length buf' = size) ∧
     (rs_size s' + length buf' ≤ rs_size s + length buf)%nat
     ∨ n = 0%nat ∧ buf' = [] ∧ (0 < size)%nat).
Proof.
  revert buf s. induction fuel as [|fuel IH]; intros buf s Hfuel; [lia|].
  cbn [read_exact_loop]. destruct (Nat.ltb_spec (length buf) size) as [Hlt|Hge]; [|naive_solver].
  destruct s as [|[bs| |e] s].
  - simpl. case_bool_decide as Hb; (split; [done|]); (split; [done|]); intros n Hn; [done|].
    injection Hn as <-. right. destruct buf; [|done]. split; [done|]. split; [done|lia].
  - destruct (decide (bs = [])) as [->|Hbs].
    + simpl. rewrite take_nil. simpl. case_bool_decide as Hb; (split; [done|]); (split; [lia|]); intros n Hn; [done|].
      injection Hn as <-. right. destruct buf; [|done]. split; [done|]. split; [done|lia].
    + destruct (poll_read_data (size - length buf) bs s ltac:(lia) Hbs) as (s1 & -> & Hne & _ & _ & _ & Hsz & Hlen).
      rewrite bool_decide_false by done.
      destruct Hlen as [Hlen|Hlen].
      * specialize (IH (buf ++ take (size - length buf) bs) s1). simpl in Hlen, Hfuel.
        specialize (IH ltac:(lia)). destruct (read_exact_loop fuel size _) as [r [buf' s']].
        destruct IH as (Hp & Hs & Hr). split; [done|]. split; [lia|].
        intros n Hn. destruct (Hr n Hn) as [(-> & H1 & H2 & H3)|(-> & H1 & H2)]; [left|right; done].
        rewrite length_app in H3. split; [done|]. split; [done|]. split; [|lia].
        right. destruct H2 as [->|]; [|done]. rewrite length_app, length_take in *. lia.
      * assert (length (buf ++ take (size - length buf) bs) = size) as Hfull
          by (rewrite length_app; lia).
        destruct fuel as [|fuel]; cbn [read_exact_loop];
          (destruct (Nat.ltb_spec (length (buf ++ take (size - length buf) bs)) size); [lia|]).
        all: split; [done|]; split; [lia|]; intros n [= <-]; left; rewrite length_app in *; repeat split; [lia|right; lia|lia].
  - simpl. split; [done|]. split; [lia|]. done.
  - simpl. split; [done|]. split; [lia|]. done.
Qed.

(** The loop on a clean transport: what it returns and what is left. *)
Inductive read_exact_result (size : nat) (buf : bytes) (s : rstream) : pres io_error nat → bytes → rstream → Prop :=
| re_full buf' s' :
    length buf' = size → (rs_pendings s' ≤ rs_pendings s)%nat →
    read_exact_result size buf s (Ready size) buf' s'
| re_pending buf' s' :
    (length buf' < size)%nat → (rs_pendings s' < rs_pendings s)%nat →
    read_exact_result size buf s Pending buf' s'
| re_eof : rs_bytes s = [] → buf = [] → read_exact_result size buf s (Ready 0%nat) [] []
| re_short :
    buf ++ rs_bytes s ≠ [] → (length (buf ++ rs_bytes s) < size)%nat →
    read_exact_result size buf s (Failed UnexpectedEof) (buf ++ rs_bytes s) [].

Lemma read_exact_loop_clean fuel size buf s :
  (length s < fuel)%nat → rs_clean s = true → (length buf ≤ size)%nat →
  let '(r, (buf', s')) := read_exact_loop fuel size (buf, s) in
  buf' ++ rs_bytes s' = buf ++ rs_bytes s ∧ rs_clean s' = true ∧
  read_exact_result size buf s r buf' s'.
Proof.
  revert buf s. induction fuel as [|fuel IH]; intros buf s Hfuel Hc Hb; [lia|].
  cbn [read_exact_loop]. destruct (Nat.ltb_spec (length buf) size) as [Hlt|Hge].
  2:{ split; [done|]. split; [done|]. constructor; lia. }
  destruct s as [|[bs| |e] s]; simpl in Hc.
  - simpl. case_bool_decide as Hn; (split; [done|]); (split; [done|]).
    + replace buf with (buf ++ rs_bytes []) at 2 by (simpl; by rewrite app_nil_r).
      apply re_short; simpl; rewrite app_nil_r; done.
    + destruct buf; [|done]. by apply re_eof.
  - apply andb_true_iff in Hc as [Hbs Hc]. apply negb_true_iff, bool_decide_eq_false in Hbs.
    destruct (poll_read_data (size - length buf) bs s ltac:(lia) Hbs) as (s1 & -> & Hne & Heq & Hcl & Hpe & Hsz & Hlen).
    rewrite bool_decide_false by done. set (d := take (size - length buf) bs) in *.
    assert ((buf ++ d) ++ rs_bytes s1 = buf ++ rs_bytes (RdData bs :: s)) as Hall
      by (rewrite <- app_assoc, Heq; done).
    assert (length (buf ++ d) ≤ size)%nat as Hle by (unfold d; rewrite length_app, length_take; lia).
    destruct Hlen as [Hlen|Hlen].
    + simpl in Hlen, Hfuel. specialize (IH (buf ++ d) s1 ltac:(lia)).
      rewrite Hcl in IH. specialize (IH Hc Hle).
      destruct (read_exact_loop fuel size _) as [r [buf' s']]. destruct IH as (H1 & H2 & H3).
      rewrite Hall in H1. split; [done|]. split; [done|].
      destruct H3 as [buf' s'|buf' s'|Hs Hb0|]; [constructor; simpl; lia..| |].
      * by destruct buf, d.
      * rewrite Hall in *. by apply re_short.
    + assert (length (buf ++ d) = size) as Hfull by (rewrite length_app; lia).
      destruct fuel as [|fuel]; cbn [read_exact_loop];
        (destruct (Nat.ltb_spec (length (buf ++ d)) size); [lia|]).
      all: split; [done|]; split; [congruence|]; constructor; simpl; lia.
  - simpl. split; [done|]. split; [done|]. constructor; simpl; lia.
  - done.
Qed.

Lemma read_exact_poll_total size buf s :
  (0 < size)%nat →
  let '(r, (buf', s')) := read_exact_poll size (buf, s) in
  is_panicked r = false ∧ (rs_size s' ≤ rs_size s)%nat ∧
  (∀ n, r = Ready n →
     n = size ∧ (size ≤ length buf')%nat ∧ (buf' = buf ∨ length buf' = size) ∧
     (rs_size s' + length buf' ≤ rs_size s + length buf)%nat
     ∨ n = 0%nat ∧ buf' = [] ∧ (0 < size)%nat).
Proof.
  intros. unfold read_exact_poll. rewrite bool_decide_false by lia. apply read_exact_loop_total. simpl. lia.
Qed.

Lemma read_exact_poll_clean size buf s :
  (0 < size)%nat → rs_clean s = true → (length buf ≤ size)%nat →
  let '(r, (buf', s')) := read_exact_poll size (buf, s) in
  buf' ++ rs_bytes s' = buf ++ rs_bytes s ∧ rs_clean s' = true ∧
  read_exact_result size buf s r buf' s'.
Proof.
  intros. unfold read_exact_poll. rewrite bool_decide_false by lia.
  apply read_exact_loop_clean; simpl; [lia|done|done].
Qed.

(** ** Writing *)

(** What the polls of a writable transport do: accept up to [n] bytes, find no
    room, fail.  After the script no more room appears. *)
Inductive wr_event := WrAccept (n : nat) | WrPending | WrError (e : io_error).

Record wstream := { wr_script : list wr_event; wr_out : bytes }.

(** [poll_write]: the number of bytes it took. *)
Definition poll_write (buf : bytes) : pollm wstream io_error nat := λ w,
  match wr_script w with
  | [] => (Pending, w)
  | WrPending :: s => (Pending, {| wr_script := s; wr_out := wr_out w |})
  | WrError e :: s => (Failed e, {| wr_script := s; wr_out := wr_out w |})
  | WrAccept n :: s =>
      (Ready (Nat.min n (length buf)), {| wr_script := s; wr_out := wr_out w ++ take n buf |})
  end.

(** The loop of the [Writing] state: [pos] is the position in [buffer] that the
    state remembers across polls. *)
Fixpoint write_loop (fuel : nat) (buffer : bytes) : pollm (nat * wstream) io_error unit := λ '(pos, w),
  if (pos <? length buffer)%nat then
    match fuel with
    | O => (Panicked "out of fuel", (pos, w))
    | Datatypes.S fuel =>
        match poll_write (drop pos buffer) w with
        | (Ready n, w) =>
            if bool_decide (n = 0%nat) then (Failed UnexpectedEof, (pos, w))
            else write_loop fuel buffer ((pos + n)%nat, w)
        | (Failed e, w) => (Failed e, (pos, w))
        | (Panicked m, w) => (Panicked m, (pos, w))
        | (Pending, w) => (Pending, (pos, w))
        end
    end
  else (Ready tt, (pos, w)).

(** Every write consumes an event of the script. *)
Definition write_all_poll (buffer : bytes) : pollm (nat * wstream) io_error unit := λ pw,
  write_loop (Datatypes.S (length (wr_script (snd pw)))) buffer pw.

(** The loop writes the rest of the buffer in order, and [pos] is always the
    number of its bytes that were written. *)
Inductive write_result (buffer : bytes) (pos : nat) (w : wstream) : pres io_error unit → nat → wstream → Prop :=
| wr_done w' :
    wr_out w' = wr_out w ++ drop pos buffer → write_result buffer pos w (Ready tt) (length buffer) w'
| wr_pending pos' w' :
    (pos ≤ pos' < length buffer)%nat → wr_out w' ++ drop pos' buffer = wr_out w ++ drop pos buffer →
    write_result buffer pos w Pending pos' w'
| wr_failed e pos' w' :
    (pos ≤ pos' < length buffer)%nat → wr_out w' ++ drop pos' buffer = wr_out w ++ drop pos buffer →
    write_result buffer pos w (Failed e) pos' w'.

Lemma write_loop_spec fuel buffer pos w :
  (length (wr_script w) < fuel)%nat → (pos ≤ length buffer)%nat →
  let '(r, (pos', w')) := write_loop fuel buffer (pos, w) in
  write_result buffer pos w r pos' w' ∧ (length (wr_script w') ≤ length (wr_script w))%nat ∧
  (r = Pending → wr_script w = [] ∨ (length (wr_script w') < length (wr_script w))%nat).
Proof.
  revert pos w. induction fuel as [|fuel IH]; intros pos w Hfuel Hpos; [lia|].
  cbn [write_loop]. destruct (Nat.ltb_spec pos (length buffer)) as [Hlt|Hge].
  2:{ replace pos with (length buffer) by lia. split; [|split; [done|done]].
      constructor. by rewrite drop_all, app_nil_r. }
  destruct w as [script out]. simpl in Hfuel. unfold poll_write. simpl.
  destruct script as [|[n| |e] s]; simpl.
  - split; [by constructor|]. split; [done|]. by left.
  - case_bool_decide as Hz; simpl.
    + assert (take n (drop pos buffer) = []) as ->.
      { rewrite length_drop in Hz. assert (n = 0)%nat as -> by lia. done. }
      rewrite app_nil_r. split; [by constructor|]. split; [lia|done].
    + simpl in Hfuel. specialize (IH (pos + n `min` length (drop pos buffer))%nat
        {| wr_script := s; wr_out := out ++ take n (drop pos buffer) |}).
      simpl in IH. specialize (IH ltac:(lia) ltac:(rewrite length_drop; lia)).
      destruct (write_loop fuel buffer _) as [r [pos' w']]. destruct IH as (Hw & Hl & Hp).
      assert (drop (pos + n `min` length (drop pos buffer)) buffer = drop n (drop pos buffer)) as Hdrop.
      { rewrite drop_drop. destruct (Nat.min_spec n (length (drop pos buffer))) as [[? ->]|[Hle ->]]; [done|].
        rewrite length_drop in *. rewrite !drop_ge by lia. done. }
      split; [|split; [lia|intros ?; right; lia]].
      rewrite length_drop in *.
      destruct Hw as [w'|pos' w'|e pos' w']; simpl in *; [|constructor; [lia|]..];
        [constructor|..]; rewrite ?H, ?H0, Hdrop, <- app_assoc, take_drop; done.
  - split; [by constructor|]. split; [lia|]. right. lia.
  - split; [by constructor|]. split; [lia|done].
Qed.

Lemma write_all_poll_spec buffer pos w :
  (pos ≤ length buffer)%nat →
  let '(r, (pos', w')) := write_all_poll buffer (pos, w) in
  write_result buffer pos w r pos' w' ∧ (length (wr_script w') ≤ length (wr_script w))%nat ∧
  (r = Pending → wr_script w = [] ∨ (length (wr_script w') < length (wr_script w))%nat).
Proof. intros. apply write_loop_spec; simpl; [lia|done]. Qed.

(** A transport that accepts at least a byte whenever it has room, and how many
    times it has. *)
Definition wr_clean (e : wr_event) : bool :=
  match e with WrAccept n => (0 <? n)%nat | WrPending => true | WrError _ => false end.
Fixpoint wr_accepts (s : list wr_event) : nat :=
  match s with
  | [] => 0
  | WrAccept _ :: s => Datatypes.S (wr_accepts s)
  | _ :: s => wr_accepts s
  end.

(** With enough room left the loop finishes or has to wait, and the room left is
    still enough for the rest. *)
Lemma write_loop_live fuel buffer pos w :
  (length (wr_script w) < fuel)%nat → (pos ≤ length buffer)%nat → forallb wr_clean (wr_script w) = true →
  let '(r, (pos', w')) := write_loop fuel buffer (pos, w) in
  forallb wr_clean (wr_script w') = true ∧ (∀ e, r ≠ Failed e) ∧ is_panicked r = false ∧
  (length buffer - pos' + wr_accepts (wr_script w) ≤ length buffer - pos + wr_accepts (wr_script w'))%nat.
Proof.
  revert pos w. induction fuel as [|fuel IH]; intros pos w Hfuel Hpos Hc; [lia|].
  cbn [write_loop]. destruct (Nat.ltb_spec pos (length buffer)) as [Hlt|Hge]; [|done].
  destruct w as [script out]. simpl in Hfuel. unfold poll_write. simpl in *.
  destruct script as [|[n| |e] s]; simpl in *; [done| |done|done].
  apply andb_true_iff in Hc as [Hn Hc]. apply Nat.ltb_lt in Hn.
  rewrite length_drop. rewrite bool_decide_false by lia.
  specialize (IH (pos + n `min` (length buffer - pos))%nat
    {| wr_script := s; wr_out := out ++ take n (drop pos buffer) |}).
  simpl in IH. specialize (IH ltac:(lia) ltac:(lia) Hc).
  destruct (write_loop fuel buffer _) as [r [pos' w']]. destruct IH as (H1 & H2 & H3 & H4).
  split; [done|]. split; [done|]. split; [done|]. lia.
Qed.

(** *** Reading bytes that are there *)

(** [size] bytes that the transport delivers: read, or not all there yet. *)
Lemma read_exact_available size buf s w rest :
  (0 < size)%nat → rs_clean s = true → (length buf ≤ size)%nat →
  buf ++ rs_bytes s = w ++ rest → length w = size →
  (∃ s', read_exact_poll size (buf, s) = (Ready size, (w, s')) ∧
         rs_bytes s' = rest ∧ rs_clean s' = true ∧ (rs_pendings s' ≤ rs_pendings s)%nat) ∨
  (∃ b s', read_exact_poll size (buf, s) = (Pending, (b, s')) ∧
         b ++ rs_bytes s' = w ++ rest ∧ (length b ≤ size)%nat ∧
         rs_clean s' = true ∧ (rs_pendings s' < rs_pendings s)%nat).
Proof.
  intros Hs Hc Hb Heq Hw. pose proof (read_exact_poll_clean size _ _ Hs Hc Hb) as H.
  destruct (read_exact_poll size _) as [r [b s']]. destruct H as (Hall & Hcl & Hr). rewrite Heq in Hall.
  destruct Hr as [b s' Hlen Hp|b s' Hlen Hp|H1 H2|Hne Hsh].
  - left. apply app_inj_1 in Hall as [-> Hrs]; [|congruence]. eauto.
  - right. exists b, s'. repeat split; try done. lia.
  - exfalso. rewrite H1, H2 in Heq. apply (f_equal length) in Heq. rewrite !length_app in Heq. simpl in Heq. lia.
  - exfalso. rewrite Heq, length_app in Hsh. lia.
Qed.

(** At the end of the stream: the end, or not known yet. *)
Lemma read_exact_at_end size s :
  (0 < size)%nat → rs_clean s = true → rs_bytes s = [] →
  read_exact_poll size ([], s) = (Ready 0%nat, ([], [])) ∨
  (∃ s', read_exact_poll size ([], s) = (Pending, ([], s')) ∧
         rs_bytes s' = [] ∧ rs_clean s' = true ∧ (rs_pendings s' < rs_pendings s)%nat).
Proof.
  intros Hs Hc Hrs. pose proof (read_exact_poll_clean size [] _ Hs Hc ltac:(simpl; lia)) as H.
  destruct (read_exact_poll size _) as [r [b s']]. destruct H as (Hall & Hcl & Hr). rewrite Hrs in Hall.
  simpl in Hall. destruct Hr as [b s' Hlen Hp|b s' Hlen Hp|H1 H2|Hne Hsh].
  - exfalso. apply app_nil in Hall as [-> _]. simpl in Hlen. lia.
  - apply app_nil in Hall as [-> ?]. right. eauto.
  - by left.
  - exfalso. by rewrite Hrs in Hne.
Qed.

(** ** Safety of poll methods

    [psafe I P r]: the result [r] of a poll is not a panic; if it is ready its
    value and state satisfy [P]; if it has to wait or fails, its state satisfies
    [I], so that a later poll can follow. *)
Definition psafe {S E A} (I : S → Prop) (P : A → S → Prop) (r : pres E A * S) : Prop :=
  match fst r with
  | Ready a => P a (snd r)
  | Panicked _ => False
  | _ => I (snd r)
  end.

Lemma psafe_bind {S E A B} (I : S → Prop) (P : A → S → Prop) (Q : B → S → Prop)
    (p : pollm S E A) (f : A → pollm S E B) s :
  psafe I P (p s) → (∀ a s', P a s' → psafe I Q (f a s')) → psafe I Q ((p ≫= f) s).
Proof.
  unfold psafe, mbind, pollm_bind. intros Hp Hf. destruct (p s) as [[a|e|m|] s']; simpl in *; auto. by apply Hf.
Qed.

Lemma psafe_weaken {S E A} (I : S → Prop) (P Q : A → S → Prop) (r : pres E A * S) :
  psafe I P r → (∀ a s, P a s → Q a s) → psafe I Q r.
Proof. unfold psafe. destruct r as [[] ]; simpl; auto. Qed.

Lemma psafe_no_panic {S E A} (I : S → Prop) (P : A → S → Prop) (r : pres E A * S) :
  psafe I P r → is_panicked (fst r) = false.
Proof. unfold psafe. by destruct r as [[] ]. Qed.

Lemma poll_read_total n s :
  let '(r, s') := poll_read n s in
  is_panicked r = false ∧ (rs_size s' ≤ rs_size s)%nat.
Proof.
  destruct s as [|[bs| |e] s]; simpl; [done| |split; [done|lia]..].
  split; [done|]. case_bool_decide; [lia|]. case_bool_decide; [lia|]. simpl. rewrite length_drop. lia.
Qed.

(** Stepping through a bind. *)
Lemma pbind_ready {S E A B} (p : pollm S E A) (f : A → pollm S E B) s a s' :
  p s = (Ready a, s') → (p ≫= f) s = f a s'.
Proof. unfold mbind, pollm_bind. by intros ->. Qed.

Lemma pbind_pending {S E A B} (p : pollm S E A) (f : A → pollm S E B) s s' :
  p s = (Pending, s') → (p ≫= f) s = (Pending, s').
Proof. unfold mbind, pollm_bind. by intros ->. Qed.

Lemma pbind_failed {S E A B} (p : pollm S E A) (f : A → pollm S E B) s e s' :
  p s = (Failed e, s') → (p ≫= f) s = (Failed e, s').
Proof. unfold mbind, pollm_bind. by intros ->. Qed.

Lemma pbind_get {S E A B} (g : S → A) (f : A → pollm S E B) s : (pget g ≫= f) s = f (g s) s.
Proof. done. Qed.

Lemma pbind_mod {S E B} (g : S → S) (f : unit → pollm S E B) s : (pmod g ≫= f) s = f tt (g s).
Proof. done. Qed.

(** Runs the reads and updates of the state at the head of a method. *)
Ltac pstep := repeat first [rewrite pbind_get | rewrite pbind_mod]; cbv beta iota.

(** Runs the first action of a method with an equation for it. *)
Tactic Notation "prun" "by" uconstr(H) := erewrite pbind_ready; [|by apply H]; cbv beta iota.

(** ** Writing with enough room *)

(** One run of the writing loop when the transport has room for the rest of the
    buffer and [extra] bytes more: it finishes, or waits with room for the rest. *)
Lemma write_all_step buffer pos extra s :
  (pos ≤ length buffer)%nat → forallb wr_clean (wr_script s) = true →
  (length buffer - pos + extra ≤ wr_accepts (wr_script s))%nat →
  ∃ s', forallb wr_clean (wr_script s') = true ∧ (length (wr_script s') ≤ length (wr_script s))%nat ∧
    ((write_all_poll buffer (pos, s) = (Ready tt, (length buffer, s')) ∧
      wr_out s' = wr_out s ++ drop pos buffer ∧ (extra ≤ wr_accepts (wr_script s'))%nat) ∨
     (∃ pos', write_all_poll buffer (pos, s) = (Pending, (pos', s')) ∧ (pos' ≤ length buffer)%nat ∧
      wr_out s' ++ drop pos' buffer = wr_out s ++ drop pos buffer ∧
      (length buffer - pos' + extra ≤ wr_accepts (wr_script s'))%nat ∧
      (length (wr_script s') < length (wr_script s))%nat)).
Proof.
  intros Hpos Hc Hroom.
  pose proof (write_loop_live (S (length (wr_script s))) buffer pos s ltac:(lia) Hpos Hc) as Hlive.
  pose proof (write_all_poll_spec buffer pos s Hpos) as Hspec. unfold write_all_poll in *. cbn [snd] in *.
  destruct (write_loop _ _ _) as [r [pos' s']]. destruct Hlive as (Hc' & Hnf & Hnp & Hacc).
  destruct Hspec as (Hres & Hlen & Hpend). exists s'. split; [done|]. split; [done|].
  destruct Hres as [s' Hout|pos' s' Hp Hout|e pos' s' Hp Hout].
  - left. split; [done|]. split; [done|]. lia.
  - right. exists pos'. split; [done|]. split; [lia|]. split; [done|]. split; [lia|].
    destruct (Hpend eq_refl) as [Hs|]; [|done]. rewrite Hs in *. simpl in *. lia.
  - by destruct (Hnf e).
Qed.

(** A writer that is polled: [tosend w bufs] is what it still has to send when
    the buffers [bufs] are to be written, a write in progress being that of the
    first of them; [wf] is its invariant and [idle] holds between writes. *)
Section Drive.
Context {W E : Type}.
Variable poll : bytes → pollm (W * wstream) E nat.
Variable tosend : W → list bytes → bytes.
Variable wf : W → list bytes → Prop.
Variable idle : W → Prop.

(** Outcome of a poll: the bytes sent and to be sent together do not change, and
    it completes the first buffer or waits. *)
Definition write_step_ok (buf : bytes) (bufs : list bytes) (all : bytes) (s : wstream)
    (r : pres E nat * (W * wstream)) : Prop :=
  ∃ w' s' bufs', snd r = (w', s') ∧
    ((∃ n, fst r = Ready n) ∧ bufs' = bufs ∧ idle w' ∨
     fst r = Pending ∧ bufs' = buf :: bufs ∧ (length (wr_script s') < length (wr_script s))%nat) ∧
    wf w' bufs' ∧ forallb wr_clean (wr_script s') = true ∧
    (length (wr_script s') ≤ length (wr_script s))%nat ∧
    wr_out s' ++ tosend w' bufs' = all ∧
    (length (tosend w' bufs') ≤ wr_accepts (wr_script s'))%nat.

Hypothesis poll_step : ∀ buf bufs w s,
  wf w (buf :: bufs) → forallb wr_clean (wr_script s) = true →
  (length (tosend w (buf :: bufs)) ≤ wr_accepts (wr_script s))%nat →
  write_step_ok buf bufs (wr_out s ++ tosend w (buf :: bufs)) s (poll buf (w, s)).
Hypothesis idle_tosend : ∀ w, idle w → tosend w [] = [].

(** Writes of the buffers in order: a write that has to wait is polled again
    with the same buffer.  Also whether all of them completed. *)
Fixpoint drive (polls : nat) (bufs : list bytes) (ws : W * wstream) : bool * (W * wstream) :=
  match bufs with
  | [] => (true, ws)
  | buf :: rest =>
      match polls with
      | O => (false, ws)
      | Datatypes.S polls =>
          match poll buf ws with
          | (Ready _, ws) => drive polls rest ws
          | (Pending, ws) => drive polls bufs ws
          | (_, ws) => (false, ws)
          end
      end
  end.

Lemma drive_spec polls bufs w s :
  wf w bufs → forallb wr_clean (wr_script s) = true →
  (length (tosend w bufs) ≤ wr_accepts (wr_script s))%nat →
  (length (wr_script s) + length bufs ≤ polls)%nat → bufs ≠ [] ∨ idle w →
  ∃ w' s', drive polls bufs (w, s) = (true, (w', s')) ∧ wr_out s' = wr_out s ++ tosend w bufs.
Proof.
  revert bufs w s. induction polls as [|polls IH]; intros bufs w s Hwf Hc Hroom Hp Hb.
  - destruct bufs; [|simpl in Hp; lia]. destruct Hb as [|Hi]; [done|].
    exists w, s. by rewrite idle_tosend, app_nil_r.
  - destruct bufs as [|buf bufs].
    { destruct Hb as [|Hi]; [done|]. exists w, s. by rewrite idle_tosend, app_nil_r. }
    cbn [drive]. simpl in Hp.
    destruct (poll_step buf bufs w s Hwf Hc Hroom)
      as (w' & s' & bufs' & Hr & Hcase & Hwf' & Hc' & Hl & Heq & Hroom').
    rewrite <- Heq. destruct (poll buf (w, s)) as [r ws]. simpl in Hr, Hcase. subst ws.
    destruct Hcase as [([n ->] & -> & Hi)|(-> & -> & Hlt)].
    + apply IH; try done; [lia|by right].
    + apply IH; try done; [simpl; lia|by left].
Qed.
End Drive.

(** ** Reading to the end

    A reader that is polled: [sees e rest] says that what is left to read is
    [rest], [waits e] bounds the polls that find nothing. *)
Section Drain.
Context {Env E : Type}.
Variable poll : pollm Env E bytes.
Variable sees : Env → bytes → Prop.
Variable waits : Env → nat.

(** Outcome of a poll: it has to wait, or gives a non-empty piece of what is
    left, or is at the end. *)
Definition read_step_ok (e : Env) (rest : bytes) (r : pres E bytes * Env) : Prop :=
  fst r = Pending ∧ sees (snd r) rest ∧ (waits (snd r) < waits e)%nat ∨
  ∃ out rest', fst r = Ready out ∧ rest = out ++ rest' ∧ (out = [] → rest = []) ∧
    sees (snd r) rest' ∧ (waits (snd r) ≤ waits e)%nat.

Hypothesis poll_sees : ∀ e rest, sees e rest → read_step_ok e rest (poll e).

(** Polls until the end of the stream, collecting what they give. *)
Fixpoint drain (polls : nat) (e : Env) : option bytes :=
  match polls with
  | O => None
  | Datatypes.S polls =>
      match poll e with
      | (Ready [], _) => Some []
      | (Ready out, e) => app out <$> drain polls e
      | (Pending, e) => drain polls e
      | _ => None
      end
  end.

Lemma drain_spec polls rest e :
  sees e rest → (waits e + length rest < polls)%nat → drain polls e = Some rest.
Proof.
  revert e rest. induction polls as [|polls IH]; intros e rest Hsee Hp; [lia|]. simpl.
  pose proof (poll_sees e rest Hsee) as Hstep. destruct (poll e) as [r e']. simpl in Hstep.
  destruct Hstep as [(Hr & Hs & Hw)|(out & rest' & Hr & Hrest & Hout & Hs & Hw)]; simpl in *; subst r.
  - apply IH; [done|lia].
  - subst rest. rewrite length_app in Hp. destruct out as [|b out].
    + specialize (Hout eq_refl). simpl in Hout. by subst rest'.
    + rewrite (IH e' rest'); [done..|]. simpl in Hp. lia.
Qed.
End Drain.
