(* ===== verification/Socks5.v ===== *)
(** * SOCKS5 wire protocol (crates/shadowsocks/src/relay/socks5.rs)

    Commands, replies, errors, the target address every relay protocol carries,
    and the handshake, request, response, UDP and password messages: how each
    is written to a buffer, its serialized length, and how it is read back from
    a stream ([read_from]) or a datagram ([read_cursor]).  Functions keep the
    source's names, prefixed by their type. *)
From S2P Require Import Prelude Utf8.

(** ** Constants *)
Definition SOCKS5_VERSION : Z := 0x05.
Definition SOCKS5_AUTH_METHOD_NONE : Z := 0x00.
Definition SOCKS5_AUTH_METHOD_GSSAPI : Z := 0x01.
Definition SOCKS5_AUTH_METHOD_PASSWORD : Z := 0x02.
Definition SOCKS5_AUTH_METHOD_NOT_ACCEPTABLE : Z := 0xff.
Definition SOCKS5_CMD_TCP_CONNECT : Z := 0x01.
Definition SOCKS5_CMD_TCP_BIND : Z := 0x02.
Definition SOCKS5_CMD_UDP_ASSOCIATE : Z := 0x03.
Definition SOCKS5_ADDR_TYPE_IPV4 : Z := 0x01.
Definition SOCKS5_ADDR_TYPE_DOMAIN_NAME : Z := 0x03.
Definition SOCKS5_ADDR_TYPE_IPV6 : Z := 0x04.
Definition SOCKS5_REPLY_SUCCEEDED : Z := 0x00.
Definition SOCKS5_REPLY_GENERAL_FAILURE : Z := 0x01.
Definition SOCKS5_REPLY_CONNECTION_NOT_ALLOWED : Z := 0x02.
Definition SOCKS5_REPLY_NETWORK_UNREACHABLE : Z := 0x03.
Definition SOCKS5_REPLY_HOST_UNREACHABLE : Z := 0x04.
Definition SOCKS5_REPLY_CONNECTION_REFUSED : Z := 0x05.
Definition SOCKS5_REPLY_TTL_EXPIRED : Z := 0x06.
Definition SOCKS5_REPLY_COMMAND_NOT_SUPPORTED : Z := 0x07.
Definition SOCKS5_REPLY_ADDRESS_TYPE_NOT_SUPPORTED : Z := 0x08.

(** ** Commands *)
Inductive Command := TcpConnect | TcpBind | UdpAssociate.

Definition Command_as_u8 (self : Command) : Z :=
  match self with
  | TcpConnect => SOCKS5_CMD_TCP_CONNECT
  | TcpBind => SOCKS5_CMD_TCP_BIND
  | UdpAssociate => SOCKS5_CMD_UDP_ASSOCIATE
  end.

Definition Command_from_u8 (code : Z) : option Command :=
  if code =? SOCKS5_CMD_TCP_CONNECT then Some TcpConnect
  else if code =? SOCKS5_CMD_TCP_BIND then Some TcpBind
  else if code =? SOCKS5_CMD_UDP_ASSOCIATE then Some UdpAssociate
  else None.

(** ** Replies *)
Inductive Reply :=
| Succeeded
| GeneralFailure
| ConnectionNotAllowed
| NetworkUnreachable
| HostUnreachable
| ReplyConnectionRefused
| TtlExpired
| CommandNotSupported
| ReplyAddressTypeNotSupported
| OtherReply (c : Z).

Definition Reply_as_u8 (self : Reply) : Z :=
  match self with
  | Succeeded => SOCKS5_REPLY_SUCCEEDED
  | GeneralFailure => SOCKS5_REPLY_GENERAL_FAILURE
  | ConnectionNotAllowed => SOCKS5_REPLY_CONNECTION_NOT_ALLOWED
  | NetworkUnreachable => SOCKS5_REPLY_NETWORK_UNREACHABLE
  | HostUnreachable => SOCKS5_REPLY_HOST_UNREACHABLE
  | ReplyConnectionRefused => SOCKS5_REPLY_CONNECTION_REFUSED
  | TtlExpired => SOCKS5_REPLY_TTL_EXPIRED
  | CommandNotSupported => SOCKS5_REPLY_COMMAND_NOT_SUPPORTED
  | ReplyAddressTypeNotSupported => SOCKS5_REPLY_ADDRESS_TYPE_NOT_SUPPORTED
  | OtherReply c => c
  end.

Definition Reply_from_u8 (code : Z) : Reply :=
  if code =? SOCKS5_REPLY_SUCCEEDED then Succeeded
  else if code =? SOCKS5_REPLY_GENERAL_FAILURE then GeneralFailure
  else if code =? SOCKS5_REPLY_CONNECTION_NOT_ALLOWED then ConnectionNotAllowed
  else if code =? SOCKS5_REPLY_NETWORK_UNREACHABLE then NetworkUnreachable
  else if code =? SOCKS5_REPLY_HOST_UNREACHABLE then HostUnreachable
  else if code =? SOCKS5_REPLY_CONNECTION_REFUSED then ReplyConnectionRefused
  else if code =? SOCKS5_REPLY_TTL_EXPIRED then TtlExpired
  else if code =? SOCKS5_REPLY_COMMAND_NOT_SUPPORTED then CommandNotSupported
  else if code =? SOCKS5_REPLY_ADDRESS_TYPE_NOT_SUPPORTED then ReplyAddressTypeNotSupported
  else OtherReply code.

(** ** Errors *)
Inductive Error :=
| IoError (err : io_error)
| AddressTypeNotSupported (atyp : Z)
| AddressDomainInvalidEncoding
| UnsupportedSocksVersion (ver : Z)
| UnsupportedCommand (cmd : Z)
| UnsupportedPasswdAuthVersion (ver : Z)
| PasswdAuthInvalidRequest
| ErrorReply (r : Reply).

(** [impl From<Error> for io::Error]. *)
Definition io_Error_from (err : Error) : io_error :=
  match err with
  | IoError e => e
  | _ => OtherKind "socks5"
  end.

Definition Error_as_reply (self : Error) : Reply :=
  match self with
  | IoError err =>
      match err with
      | ConnectionRefused => ReplyConnectionRefused
      | _ => GeneralFailure
      end
  | AddressTypeNotSupported _ => ReplyAddressTypeNotSupported
  | AddressDomainInvalidEncoding => GeneralFailure
  | UnsupportedSocksVersion _ => GeneralFailure
  | UnsupportedCommand _ => CommandNotSupported
  | UnsupportedPasswdAuthVersion _ => GeneralFailure
  | PasswdAuthInvalidRequest => GeneralFailure
  | ErrorReply r => r
  end.

Definition invalid_buf : Error := IoError (OtherKind "invalid buf").

(** ** Addresses

    [std::net]'s addresses: an IP address is its 32- or 128-bit number. *)
Inductive SocketAddr :=
| V4 (ip port : Z)
| V6 (ip port flowinfo scope_id : Z).

Definition Ipv4Addr_octets (ip : Z) : bytes := be_bytes 4 ip.
Definition Ipv4Addr_new (octets : bytes) : Z := be_Z octets.

(** The first [n] 16-bit big-endian words of a byte string. *)
Fixpoint u16_words (n : nat) (l : bytes) : list Z :=
  match n with
  | O => []
  | S n => be_Z (take 2 l) :: u16_words n (drop 2 l)
  end.

Definition Ipv6Addr_segments (ip : Z) : list Z := u16_words 8 (be_bytes 16 ip).
Definition Ipv6Addr_new (segments : list Z) : Z := be_Z (concat (be_bytes 2 <$> segments)).

Inductive Address :=
| SocketAddress (addr : SocketAddr)
| DomainNameAddress (domain : bytes) (port : Z).

(** [Address::read_cursor]. *)
Definition Address_read_cursor : parser cursor Error Address :=
  rem ← remaining;
  if (rem <? 2)%nat then fail invalid_buf else
  atyp ← get_u8;
  if atyp =? SOCKS5_ADDR_TYPE_IPV4 then
    rem ← remaining;
    if (rem <? 4 + 2)%nat then fail invalid_buf else
    addr ← get_u32;
    port ← get_u16;
    mret (SocketAddress (V4 addr port))
  else if atyp =? SOCKS5_ADDR_TYPE_IPV6 then
    rem ← remaining;
    if (rem <? 16 + 2)%nat then fail invalid_buf else
    addr ← get_u128;
    port ← get_u16;
    mret (SocketAddress (V6 addr port 0 0))
  else if atyp =? SOCKS5_ADDR_TYPE_DOMAIN_NAME then
    domain_len ← get_u8;
    rem ← remaining;
    if (rem <? Z.to_nat domain_len)%nat then fail AddressDomainInvalidEncoding else
    buf ← cur_take (Z.to_nat domain_len);
    port ← get_u16;
    match from_utf8 buf with
    | Some addr => mret (DomainNameAddress addr port)
    | None => fail AddressDomainInvalidEncoding
    end
  else fail (AddressTypeNotSupported atyp).

(** [stream.read_exact(&mut buf).await?]. *)
Definition read_exact_io (n : nat) : parser reader Error bytes := parse_err IoError (read_exact n).

(** [Address::read_from]. *)
Definition Address_read_from : parser reader Error Address :=
  addr_type_buf ← read_exact_io 1;
  let addr_type := u8_at addr_type_buf 0 in
  if addr_type =? SOCKS5_ADDR_TYPE_IPV4 then
    buf ← read_exact_io 6;
    let v4addr := Ipv4Addr_new (take 4 buf) in
    let port := be_Z (drop 4 buf) in
    mret (SocketAddress (V4 v4addr port))
  else if addr_type =? SOCKS5_ADDR_TYPE_IPV6 then
    bytes_buf ← read_exact_io 18;
    let buf := u16_words 9 bytes_buf in
    let v6addr := Ipv6Addr_new (take 8 buf) in
    let port := nth 8 buf 0 in
    mret (SocketAddress (V6 v6addr port 0 0))
  else if addr_type =? SOCKS5_ADDR_TYPE_DOMAIN_NAME then
    length_buf ← read_exact_io 1;
    let length := Z.to_nat (u8_at length_buf 0) in
    raw_addr ← read_exact_io (length + 2);
    let port := be_Z (drop length raw_addr) in
    match from_utf8 (take length raw_addr) with
    | Some addr => mret (DomainNameAddress addr port)
    | None => fail AddressDomainInvalidEncoding
    end
  else fail (AddressTypeNotSupported addr_type).

(** *** Writing

    A [BufMut] is the bytes written so far; the writers append to it. *)
Definition write_ipv4_address (ip port : Z) (buf : bytes) : bytes :=
  buf ++ [b# SOCKS5_ADDR_TYPE_IPV4] ++ Ipv4Addr_octets ip ++ be_bytes 2 port.

Definition write_ipv6_address (ip port : Z) (buf : bytes) : bytes :=
  foldl (λ buf seg, buf ++ be_bytes 2 seg)
    (buf ++ [b# SOCKS5_ADDR_TYPE_IPV6]) (Ipv6Addr_segments ip) ++ be_bytes 2 port.

Definition write_domain_name_address {E} (dnaddr : bytes) (port : Z) (buf : bytes) : outcome E bytes :=
  _ ← rust_assert (length dnaddr <=? 255)%nat "dnaddr.len() <= u8::MAX as usize";
  let buf := buf ++ [b# SOCKS5_ADDR_TYPE_DOMAIN_NAME] in
  _ ← rust_assert (length dnaddr <=? 255)%nat "domain name length must be smaller than 256";
  Ok (buf ++ [b# (Z.of_nat (length dnaddr))] ++ dnaddr ++ be_bytes 2 port).

Definition write_socket_address (addr : SocketAddr) (buf : bytes) : bytes :=
  match addr with
  | V4 ip port => write_ipv4_address ip port buf
  | V6 ip port _ _ => write_ipv6_address ip port buf
  end.

Definition write_address {E} (addr : Address) (buf : bytes) : outcome E bytes :=
  match addr with
  | SocketAddress addr => Ok (write_socket_address addr buf)
  | DomainNameAddress dnaddr port => write_domain_name_address dnaddr port buf
  end.

Definition get_addr_len (atyp : Address) : nat :=
  match atyp with
  | SocketAddress (V4 _ _) => 1 + 4 + 2
  | SocketAddress (V6 _ _ _ _) => 1 + 8 * 2 + 2
  | DomainNameAddress dmname _ => 1 + 1 + length dmname + 2
  end%nat.

Definition Address_write_to_buf {E} : Address → bytes → outcome E bytes := write_address.
Definition Address_serialized_len : Address → nat := get_addr_len.
Definition Address_max_serialized_len : nat := (1 + 1 + 255 + 2)%nat.

Definition Address_port (self : Address) : Z :=
  match self with
  | SocketAddress (V4 _ port) => port
  | SocketAddress (V6 _ port _ _) => port
  | DomainNameAddress _ port => port
  end.

(** ** Messages *)

Record TcpRequestHeader := { req_command : Command; req_address : Address }.

Definition TcpRequestHeader_read_from : parser reader Error TcpRequestHeader :=
  buf ← read_exact_io 3;
  let ver := u8_at buf 0 in
  if negb (ver =? SOCKS5_VERSION) then fail (UnsupportedSocksVersion ver) else
  let cmd := u8_at buf 1 in
  match Command_from_u8 cmd with
  | None => fail (UnsupportedCommand cmd)
  | Some command =>
      address ← Address_read_from;
      mret {| req_command := command; req_address := address |}
  end.

Definition TcpRequestHeader_write_to_buf {E} (self : TcpRequestHeader) (buf : bytes) : outcome E bytes :=
  let buf := buf ++ [b# SOCKS5_VERSION; b# (Command_as_u8 (req_command self)); b# 0x00] in
  Address_write_to_buf (req_address self) buf.

Definition TcpRequestHeader_serialized_len (self : TcpRequestHeader) : nat :=
  (Address_serialized_len (req_address self) + 3)%nat.

Record TcpResponseHeader := { rsp_reply : Reply; rsp_address : Address }.

Definition TcpResponseHeader_read_from : parser reader Error TcpResponseHeader :=
  buf ← read_exact_io 3;
  let ver := u8_at buf 0 in
  let reply_code := u8_at buf 1 in
  if negb (ver =? SOCKS5_VERSION) then fail (UnsupportedSocksVersion ver) else
  address ← Address_read_from;
  mret {| rsp_reply := Reply_from_u8 reply_code; rsp_address := address |}.

Definition TcpResponseHeader_write_to_buf {E} (self : TcpResponseHeader) (buf : bytes) : outcome E bytes :=
  let buf := buf ++ [b# SOCKS5_VERSION; b# (Reply_as_u8 (rsp_reply self)); b# 0x00] in
  Address_write_to_buf (rsp_address self) buf.

Definition TcpResponseHeader_serialized_len (self : TcpResponseHeader) : nat :=
  (Address_serialized_len (rsp_address self) + 3)%nat.

Record HandshakeRequest := { methods : bytes }.

Definition HandshakeRequest_read_from : parser reader Error HandshakeRequest :=
  buf ← read_exact_io 2;
  let ver := u8_at buf 0 in
  let nmet := u8_at buf 1 in
  if negb (ver =? SOCKS5_VERSION) then fail (UnsupportedSocksVersion ver) else
  methods ← read_exact_io (Z.to_nat nmet);
  mret {| methods := methods |}.

Definition HandshakeRequest_write_to_buf (self : HandshakeRequest) (buf : bytes) : bytes :=
  buf ++ [b# SOCKS5_VERSION; b# (Z.of_nat (length (methods self)))] ++ methods self.

Definition HandshakeRequest_serialized_len (self : HandshakeRequest) : nat :=
  (2 + length (methods self))%nat.

Record HandshakeResponse := { chosen_method : Z }.

Definition HandshakeResponse_read_from : parser reader Error HandshakeResponse :=
  buf ← read_exact_io 2;
  let ver := u8_at buf 0 in
  let met := u8_at buf 1 in
  if negb (ver =? SOCKS5_VERSION) then fail (UnsupportedSocksVersion ver)
  else mret {| chosen_method := met |}.

Definition HandshakeResponse_write_to_buf (self : HandshakeResponse) (buf : bytes) : bytes :=
  buf ++ [b# SOCKS5_VERSION; b# (chosen_method self)].

Definition HandshakeResponse_serialized_len (self : HandshakeResponse) : nat := 2%nat.

Record UdpAssociateHeader := { frag : Z; udp_address : Address }.

Definition UdpAssociateHeader_read_from : parser reader Error UdpAssociateHeader :=
  buf ← read_exact_io 3;
  let frag := u8_at buf 2 in
  address ← Address_read_from;
  mret {| frag := frag; udp_address := address |}.

Definition UdpAssociateHeader_write_to_buf {E} (self : UdpAssociateHeader) (buf : bytes) : outcome E bytes :=
  let buf := buf ++ [b# 0x00; b# 0x00; b# (frag self)] in
  Address_write_to_buf (udp_address self) buf.

Definition UdpAssociateHeader_serialized_len (self : UdpAssociateHeader) : nat :=
  (3 + Address_serialized_len (udp_address self))%nat.

Record PasswdAuthRequest := { uname : bytes; passwd : bytes }.

Definition PasswdAuthRequest_new {E} (uname passwd : bytes) : outcome E PasswdAuthRequest :=
  _ ← rust_assert
        (negb (bool_decide (uname = [])) && (length uname <=? 255)%nat
         && negb (bool_decide (passwd = [])) && (length passwd <=? 255)%nat)
        "PasswdAuthRequest::new";
  Ok {| uname := uname; passwd := passwd |}.

Definition PasswdAuthRequest_read_from : parser reader Error PasswdAuthRequest :=
  ver_buf ← read_exact_io 1;
  if negb (u8_at ver_buf 0 =? 0x01) then fail (UnsupportedPasswdAuthVersion (u8_at ver_buf 0)) else
  ulen_buf ← read_exact_io 1;
  let ulen := Z.to_nat (u8_at ulen_buf 0) in
  if (ulen =? 0)%nat then fail PasswdAuthInvalidRequest else
  uname ← read_exact_io ulen;
  plen_buf ← read_exact_io 1;
  let plen := Z.to_nat (u8_at plen_buf 0) in
  if (plen =? 0)%nat then fail PasswdAuthInvalidRequest else
  passwd ← read_exact_io plen;
  mret {| uname := uname; passwd := passwd |}.

Definition PasswdAuthRequest_write_to_buf (self : PasswdAuthRequest) (buf : bytes) : bytes :=
  buf ++ [b# 0x01] ++ [b# (Z.of_nat (length (uname self)))] ++ uname self
      ++ [b# (Z.of_nat (length (passwd self)))] ++ passwd self.

Definition PasswdAuthRequest_serialized_len (self : PasswdAuthRequest) : nat :=
  (1 + 1 + length (uname self) + 1 + length (passwd self))%nat.

Record PasswdAuthResponse := { status : Z }.

(** [PasswdAuthResponse::read_from] drops the result of [read_exact], so a
    failed read leaves the zeroed buffer partly filled and goes on.  What is
    left of the stream is its data past the two bytes. *)
Definition PasswdAuthResponse_read_from : parser reader Error PasswdAuthResponse := λ r,
  let buf := read_exact_buffer 2 r in
  let r' := Reader (drop 2 (rd_data r)) (rd_end r) in
  if negb (u8_at buf 0 =? 0x01) then Err (UnsupportedPasswdAuthVersion (u8_at buf 0))
  else Ok ({| status := u8_at buf 1 |}, r').

Definition PasswdAuthResponse_write_to_buf (self : PasswdAuthResponse) (buf : bytes) : bytes :=
  buf ++ [b# 0x01] ++ [b# (status self)].

Definition PasswdAuthResponse_serialized_len (self : PasswdAuthResponse) : nat := 2%nat.

(** ** Well-formed values

    What the Rust types guarantee: integers in their width, domain names in
    UTF-8.  [Address_canon] forgets the IPv6 flow information and scope, which
    the wire format has no room for. *)
Definition in_u (n z : Z) : Prop := 0 ≤ z < 2 ^ n.

Definition SocketAddr_wf (a : SocketAddr) : Prop :=
  match a with
  | V4 ip port => in_u 32 ip ∧ in_u 16 port
  | V6 ip port flowinfo scope_id =>
      in_u 128 ip ∧ in_u 16 port ∧ in_u 32 flowinfo ∧ in_u 32 scope_id
  end.

Definition Address_wf (a : Address) : Prop :=
  match a with
  | SocketAddress sa => SocketAddr_wf sa
  | DomainNameAddress dn port => utf8_valid dn = true ∧ in_u 16 port
  end.

Definition Address_canon (a : Address) : Address :=
  match a with
  | SocketAddress (V6 ip port _ _) => SocketAddress (V6 ip port 0 0)
  | a => a
  end.

(** The domain name fits the length byte: what [write_domain_name_address]
    asserts. *)
Definition Address_fits (a : Address) : Prop :=
  match a with
  | DomainNameAddress dn _ => (length dn ≤ 255)%nat
  | _ => True
  end.

(** ** The wire format of an address

    A layout written independently of the readers and writers above. *)
Definition address_wire (a : Address) : bytes :=
  match a with
  | SocketAddress (V4 ip port) => [b# 1] ++ be_bytes 4 ip ++ be_bytes 2 port
  | SocketAddress (V6 ip port _ _) => [b# 4] ++ be_bytes 16 ip ++ be_bytes 2 port
  | DomainNameAddress dn port =>
      [b# 3] ++ [b# (Z.of_nat (length dn))] ++ dn ++ be_bytes 2 port
  end.

Lemma length_address_wire a : length (address_wire a) = Address_serialized_len a.
Proof.
  destruct a as [[]|]; simpl; autorewrite with blen; simpl; lia.
Qed.
#[export] Hint Rewrite length_address_wire : blen.

(** *** 16-bit words *)
Lemma concat_u16_words n l :
  length l = (2 * n)%nat → concat (be_bytes 2 <$> u16_words n l) = l.
Proof.
  revert l. induction n as [|n IH]; intros l Hl.
  - by apply nil_length_inv in Hl.
  - destruct l as [|a [|b l]]; try (simpl in Hl; lia).
    change (u16_words (S n) (a :: b :: l)) with (be_Z [a; b] :: u16_words n l).
    cbn [fmap list_fmap concat]. rewrite be_bytes_be_Z by done. simpl.
    by rewrite IH by (simpl in Hl; lia).
Qed.

Lemma take_u16_words k n l : (k ≤ n)%nat → take k (u16_words n l) = u16_words k l.
Proof.
  revert n l. induction k as [|k IH]; intros n l Hn; [done|].
  destruct n as [|n]; [lia|]. simpl. by rewrite IH by lia.
Qed.

Lemma u16_words_take k n l : (2 * n ≤ k)%nat → u16_words n (take k l) = u16_words n l.
Proof.
  revert k l. induction n as [|n IH]; intros k l Hk; [done|]. simpl.
  rewrite take_take, Nat.min_l by lia. rewrite skipn_firstn_comm. by rewrite IH by lia.
Qed.

Lemma nth_u16_words k n l :
  (k < n)%nat → nth k (u16_words n l) 0 = be_Z (take 2 (drop (2 * k) l)).
Proof.
  revert n l. induction k as [|k IH]; intros n l Hn; (destruct n as [|n]; [lia|]); [done|].
  simpl u16_words. cbn [nth]. rewrite IH by lia. rewrite drop_drop.
  do 3 f_equal. lia.
Qed.

Lemma foldl_be_bytes segs buf :
  foldl (λ buf seg, buf ++ be_bytes 2 seg) buf segs = buf ++ concat (be_bytes 2 <$> segs).
Proof.
  revert buf. induction segs as [|s segs IH]; intros buf; simpl; [by rewrite app_nil_r|].
  by rewrite IH, <- app_assoc.
Qed.

(** *** Writing produces the wire format, exactly when the name fits *)
Lemma write_address_wire {E} a buf :
  Address_fits a → write_address (E:=E) a buf = Ok (buf ++ address_wire a).
Proof.
  destruct a as [[ip port|ip port f s]|dn port]; intros Hf; simpl in *.
  - by unfold write_ipv4_address, Ipv4Addr_octets.
  - unfold write_ipv6_address, Ipv6Addr_segments.
    rewrite foldl_be_bytes, concat_u16_words by by rewrite length_be_bytes.
    by rewrite <- !app_assoc.
  - unfold write_domain_name_address, rust_assert. len_true. simpl.
    by rewrite <- !app_assoc.
Qed.

Lemma write_address_panics {E} a buf :
  ¬ Address_fits a → is_panic (write_address (E:=E) a buf) = true.
Proof.
  destruct a as [sa|dn port]; intros Hf; simpl in *; [done|].
  unfold write_domain_name_address, rust_assert. by len_false.
Qed.

(** *** Reading in sequence *)
Lemma bind_read_app {B} n l rest e (k : bytes → parser reader Error B) :
  length l = n →
  (read_exact_io n ≫= k) (Reader (l ++ rest) e) = k l (Reader rest e).
Proof.
  intros Hl. unfold mbind, parser_bind, read_exact_io, parse_err.
  by rewrite read_exact_app.
Qed.

Lemma bind_read_Ok {B} n (k : bytes → parser reader Error B) r b r' :
  (read_exact_io n ≫= k) r = Ok (b, r') →
  ∃ l r1, length l = n ∧ rd_data r = l ++ rd_data r1 ∧ rd_end r1 = rd_end r ∧
          k l r1 = Ok (b, r').
Proof.
  unfold mbind, parser_bind, read_exact_io, parse_err.
  destruct (read_exact n r) as [[l r1]| |] eqn:E; simpl; [|done..].
  apply read_exact_Ok in E as (?&?&?). naive_solver.
Qed.

Lemma u8_at_of_Z z l : 0 ≤ z < 256 → u8_at (b# z :: l) 0 = z.
Proof. apply unsigned_of_Z_small. Qed.

Lemma u8_at_nat n l : (n ≤ 255)%nat → Z.to_nat (u8_at (b# (Z.of_nat n) :: l) 0) = n.
Proof. intros. rewrite u8_at_of_Z by lia. lia. Qed.

(** Reads the next field of the stream, which the goal spells out, and resolves
    a test of the address type against the constants. *)
Ltac read_field := rewrite bind_read_app by (autorewrite with blen; simpl; lia).
Ltac atyp_cases :=
  cbn [Z.eqb Pos.eqb SOCKS5_ADDR_TYPE_IPV4 SOCKS5_ADDR_TYPE_IPV6 SOCKS5_ADDR_TYPE_DOMAIN_NAME].

Lemma in_u_be_bytes n z : in_u (8 * Z.of_nat n) z → be_Z (be_bytes n z) = z.
Proof. apply be_Z_be_bytes_small. Qed.

Lemma read_from_wire a rest e :
  Address_wf a → Address_fits a →
  Address_read_from (Reader (address_wire a ++ rest) e) = Ok (Address_canon a, Reader rest e).
Proof.
  destruct a as [[ip port|ip port f s]|dn port]; cbn [Address_wf SocketAddr_wf Address_fits Address_canon];
    intros Hwf Hf; unfold Address_read_from, address_wire; rewrite <- !app_assoc.
  - destruct Hwf. rewrite (bind_read_app 1 [b# 1]) by done.
    change (u8_at [b# 1] 0) with 1. atyp_cases.
    rewrite app_assoc. read_field. unfold Ipv4Addr_new.
    rewrite take_app_length', drop_app_length' by by rewrite length_be_bytes.
    by rewrite !in_u_be_bytes.
  - destruct Hwf as (?&?&?&?). rewrite (bind_read_app 1 [b# 4]) by done.
    change (u8_at [b# 4] 0) with 4. atyp_cases.
    rewrite app_assoc. read_field. unfold Ipv6Addr_new.
    rewrite take_u16_words, nth_u16_words by lia.
    rewrite <- (u16_words_take 16) by lia.
    rewrite take_app_length', drop_app_length' by by rewrite length_be_bytes.
    rewrite concat_u16_words by by rewrite length_be_bytes.
    rewrite take_ge by (rewrite length_be_bytes; lia).
    by rewrite !in_u_be_bytes.
  - destruct Hwf. rewrite (bind_read_app 1 [b# 3]) by done.
    change (u8_at [b# 3] 0) with 3. atyp_cases.
    rewrite (bind_read_app 1 [_]) by done. rewrite u8_at_nat by lia.
    rewrite app_assoc. read_field.
    rewrite take_app_length, drop_app_length, from_utf8_valid by done.
    by rewrite in_u_be_bytes.
Qed.

(** *** What was read is what is on the wire *)
Lemma of_Z_u8 b z : byte.unsigned b = z → b = b# z.
Proof. intros <-. by rewrite byte.of_Z_unsigned. Qed.

Lemma be_Z_in_u n l : length l = n → in_u (8 * Z.of_nat n) (be_Z l).
Proof. intros <-. apply be_Z_range. Qed.

Lemma be_Z_split_bytes n m l :
  length l = (n + m)%nat → be_bytes n (be_Z (take n l)) ++ be_bytes m (be_Z (drop n l)) = l.
Proof.
  intros Hl. rewrite !be_bytes_be_Z by (autorewrite with blen; lia). apply take_drop.
Qed.

Lemma mret_Ok {E A} (a b : A) (r r' : reader) :
  mret (M:=parser reader E) a r = Ok (b, r') → b = a ∧ r' = r.
Proof. unfold mret, parser_ret. by intros [= -> ->]. Qed.

(** The invariant of a successful read. *)
Definition read_ok (r : reader) (a : Address) (r' : reader) : Prop :=
  rd_data r = address_wire a ++ rd_data r' ∧ rd_end r' = rd_end r ∧
  Address_wf a ∧ Address_fits a ∧ Address_canon a = a.

Lemma read_ok_v4 t l r' :
  byte.unsigned t = SOCKS5_ADDR_TYPE_IPV4 → length l = 6%nat →
  read_ok (Reader ([t] ++ l ++ rd_data r') (rd_end r'))
    (SocketAddress (V4 (Ipv4Addr_new (take 4 l)) (be_Z (drop 4 l)))) r'.
Proof.
  intros Et Hl. unfold read_ok, address_wire, Ipv4Addr_new. rewrite (of_Z_u8 _ _ Et).
  rewrite be_Z_split_bytes by done.
  simpl; split_and!; try done; [apply (be_Z_in_u 4)|apply (be_Z_in_u 2)]; autorewrite with blen; lia.
Qed.

Lemma read_ok_v6 t l r' :
  byte.unsigned t = SOCKS5_ADDR_TYPE_IPV6 → length l = 18%nat →
  read_ok (Reader ([t] ++ l ++ rd_data r') (rd_end r'))
    (SocketAddress (V6 (Ipv6Addr_new (take 8 (u16_words 9 l))) (nth 8 (u16_words 9 l) 0) 0 0)) r'.
Proof.
  intros Et Hl. unfold read_ok, address_wire, Ipv6Addr_new. rewrite (of_Z_u8 _ _ Et).
  rewrite take_u16_words, nth_u16_words, <- (u16_words_take 16) by lia.
  rewrite concat_u16_words by (autorewrite with blen; lia).
  rewrite (take_ge (drop _ _)) by (autorewrite with blen; lia).
  rewrite be_Z_split_bytes by done.
  simpl; split_and!; try done; [apply (be_Z_in_u 16)|apply (be_Z_in_u 2)]; autorewrite with blen; lia.
Qed.

Lemma read_ok_domain t b l dn r' :
  byte.unsigned t = SOCKS5_ADDR_TYPE_DOMAIN_NAME →
  length l = (Z.to_nat (byte.unsigned b) + 2)%nat →
  from_utf8 (take (Z.to_nat (byte.unsigned b)) l) = Some dn →
  read_ok (Reader ([t] ++ [b] ++ l ++ rd_data r') (rd_end r'))
    (DomainNameAddress dn (be_Z (drop (Z.to_nat (byte.unsigned b)) l))) r'.
Proof.
  intros Et Hl [-> Hu]%from_utf8_Some. pose proof (byte_unsigned_range b).
  unfold read_ok, address_wire. rewrite (of_Z_u8 _ _ Et). cbn [rd_data rd_end].
  rewrite length_take, Nat.min_l, Z2Nat.id, byte.of_Z_unsigned by lia.
  rewrite be_bytes_be_Z by (autorewrite with blen; lia).
  rewrite <- !app_assoc, (app_assoc (take _ _)), take_drop.
  simpl; split_and!; rewrite ?length_take; try lia; try done.
  apply (be_Z_in_u 2). autorewrite with blen; lia.
Qed.

Lemma read_from_inv r a r' : Address_read_from r = Ok (a, r') → read_ok r a r'.
Proof.
  intros H. apply bind_read_Ok in H as (t & r1 & Ht & Hd1 & He1 & H).
  destruct t as [|t [|]]; try done. cbv zeta in H.
  change (u8_at [t] 0) with (byte.unsigned t) in H. destruct r as [d e]. simpl in *. subst.
  destruct (Z.eqb_spec (byte.unsigned t) SOCKS5_ADDR_TYPE_IPV4) as [Et|_].
  { apply bind_read_Ok in H as (l & r2 & Hl & -> & <- & [-> ->]%mret_Ok). by apply read_ok_v4. }
  destruct (Z.eqb_spec (byte.unsigned t) SOCKS5_ADDR_TYPE_IPV6) as [Et|_].
  { apply bind_read_Ok in H as (l & r2 & Hl & -> & <- & [-> ->]%mret_Ok). by apply read_ok_v6. }
  destruct (Z.eqb_spec (byte.unsigned t) SOCKS5_ADDR_TYPE_DOMAIN_NAME) as [Et|_]; [|done].
  apply bind_read_Ok in H as (b & r2 & Hb & -> & <- & H). destruct b as [|b [|]]; try done.
  apply bind_read_Ok in H as (l & r3 & Hl & -> & <- & H).
  change (u8_at [b] 0) with (byte.unsigned b) in *.
  destruct (from_utf8 _) as [dn|] eqn:Eu; [|done]. apply mret_Ok in H as [-> ->].
  by apply read_ok_domain.
Qed.

(** *** The datagram reader *)
Lemma cur_remaining_rest c : cur_remaining c = length (cur_rest c).
Proof. unfold cur_remaining, cur_rest. by rewrite length_drop. Qed.

(** The cursor after [n] bytes were taken from it. *)
Definition cur_skip (n : nat) (c : cursor) : cursor := Cursor (cur_data c) (cur_pos c + n).

Lemma cur_rest_skip n c : cur_rest (cur_skip n c) = drop n (cur_rest c).
Proof. unfold cur_rest, cur_skip. simpl. by rewrite drop_drop. Qed.

Lemma bind_take {B} n (k : bytes → parser cursor Error B) c :
  (cur_take n ≫= k) c =
  if (n <=? length (cur_rest c))%nat then k (take n (cur_rest c)) (cur_skip n c)
  else Panic "advance out of bounds".
Proof.
  unfold mbind, parser_bind, cur_take. rewrite cur_remaining_rest. by destruct (_ <=? _)%nat.
Qed.

Lemma bind_get {B} n (k : Z → parser cursor Error B) c :
  ((l ← cur_take n; mret (be_Z l)) ≫= k) c =
  if (n <=? length (cur_rest c))%nat then k (be_Z (take n (cur_rest c))) (cur_skip n c)
  else Panic "advance out of bounds".
Proof.
  unfold mbind, parser_bind, cur_take. rewrite cur_remaining_rest. by destruct (_ <=? _)%nat.
Qed.

Lemma bind_remaining {B} (k : nat → parser cursor Error B) c :
  (remaining ≫= k) c = k (length (cur_rest c)) c.
Proof. unfold mbind, parser_bind, remaining. by rewrite cur_remaining_rest. Qed.

(** [Address_read_cursor] as a function of the bytes that remain. *)
Definition read_cursor_bytes (l : bytes) : outcome Error Address :=
  match l with
  | t :: l1 =>
      let atyp := byte.unsigned t in
      if (length l1 =? 0)%nat then Err invalid_buf
      else if atyp =? SOCKS5_ADDR_TYPE_IPV4 then
        if (length l1 <? 6)%nat then Err invalid_buf
        else Ok (SocketAddress (V4 (be_Z (take 4 l1)) (be_Z (take 2 (drop 4 l1)))))
      else if atyp =? SOCKS5_ADDR_TYPE_IPV6 then
        if (length l1 <? 18)%nat then Err invalid_buf
        else Ok (SocketAddress (V6 (be_Z (take 16 l1)) (be_Z (take 2 (drop 16 l1))) 0 0))
      else if atyp =? SOCKS5_ADDR_TYPE_DOMAIN_NAME then
        let n := Z.to_nat (be_Z (take 1 l1)) in
        let l2 := drop 1 l1 in
        if (length l2 <? n)%nat then Err AddressDomainInvalidEncoding
        else if (length l2 <? n + 2)%nat then Panic "advance out of bounds"
        else match from_utf8 (take n l2) with
             | Some dn => Ok (DomainNameAddress dn (be_Z (take 2 (drop n l2))))
             | None => Err AddressDomainInvalidEncoding
             end
      else Err (AddressTypeNotSupported atyp)
  | [] => Err invalid_buf
  end.

Lemma cur_skip_skip n m c : cur_skip n (cur_skip m c) = cur_skip (m + n) c.
Proof. unfold cur_skip. simpl. f_equal. lia. Qed.

(** Runs the next read of the cursor, whose remaining bytes are known. *)
Ltac cur_step :=
  first [rewrite bind_remaining | rewrite bind_get | rewrite bind_take];
  rewrite ?cur_rest_skip, ?cur_skip_skip.

Lemma read_cursor_v4 c :
  (6 ≤ length (cur_rest c))%nat →
  (addr ← get_u32; port ← get_u16 (E:=Error); mret (SocketAddress (V4 addr port))) c =
  Ok (SocketAddress (V4 (be_Z (take 4 (cur_rest c))) (be_Z (take 2 (drop 4 (cur_rest c))))),
      cur_skip 6 c).
Proof.
  intros Hl. unfold get_u32, get_u16. cur_step. len_true. cur_step. by len_true.
Qed.

Lemma read_cursor_v6 c :
  (18 ≤ length (cur_rest c))%nat →
  (addr ← get_u128; port ← get_u16 (E:=Error); mret (SocketAddress (V6 addr port 0 0))) c =
  Ok (SocketAddress (V6 (be_Z (take 16 (cur_rest c))) (be_Z (take 2 (drop 16 (cur_rest c)))) 0 0),
      cur_skip 18 c).
Proof.
  intros Hl. unfold get_u128, get_u16. cur_step. len_true. cur_step. by len_true.
Qed.

Lemma read_cursor_on_bytes c :
  Address_read_cursor c =
  (λ a, (a, cur_skip (Address_serialized_len a) c)) <$> read_cursor_bytes (cur_rest c).
Proof.
  unfold Address_read_cursor, read_cursor_bytes. cur_step.
  destruct (cur_rest c) as [|t l1] eqn:El; [done|]. destruct l1 as [|u l2]; [done|].
  change (length (t :: u :: l2) <? 2)%nat with false.
  change (length (u :: l2) =? 0)%nat with false. unfold get_u8. cur_step. rewrite El.
  change (1 <=? length (t :: u :: l2))%nat with true.
  cbn [take]. rewrite be_Z_1. set (l1 := u :: l2) in *.
  assert (cur_rest (cur_skip 1 c) = l1) as H1 by by rewrite cur_rest_skip, El.
  destruct (_ =? SOCKS5_ADDR_TYPE_IPV4).
  { rewrite bind_remaining, H1. change (4 + 2)%nat with 6%nat.
    destruct (Nat.ltb_spec (length l1) 6); [done|].
    rewrite read_cursor_v4 by (rewrite H1; lia). by rewrite H1, cur_skip_skip. }
  destruct (_ =? SOCKS5_ADDR_TYPE_IPV6).
  { rewrite bind_remaining, H1. change (16 + 2)%nat with 18%nat.
    destruct (Nat.ltb_spec (length l1) 18); [done|].
    rewrite read_cursor_v6 by (rewrite H1; lia). by rewrite H1, cur_skip_skip. }
  destruct (_ =? SOCKS5_ADDR_TYPE_DOMAIN_NAME); [|done].
  cur_step. rewrite El. subst l1. cbn [drop take]. rewrite !take_0, !drop_0.
  change (1 <=? length (u :: l2))%nat with true. cbv zeta iota.
  set (n := Z.to_nat (be_Z [u])). cur_step. rewrite El. cbn [drop].
  change (drop (1 + 1) (t :: u :: l2)) with l2.
  destruct (Nat.ltb_spec (length l2) n); [done|].
  cur_step. rewrite El. change (drop (1 + 1) (t :: u :: l2)) with l2.
  len_true. unfold get_u16. cur_step. rewrite El.
  change (drop (1 + 1 + n) (t :: u :: l2)) with (drop n l2).
  destruct (Nat.ltb_spec (length l2) (n + 2)); [by len_false|].
  len_true. destruct (from_utf8 (take n l2)) as [dn|] eqn:Eu; [|done].
  apply from_utf8_Some in Eu as [-> _]. unfold mret, parser_ret. cbn [fmap outcome_fmap].
  do 3 f_equal. simpl. rewrite length_take. lia.
Qed.

Lemma read_cursor_bytes_wire a rest :
  Address_wf a → Address_fits a → read_cursor_bytes (address_wire a ++ rest) = Ok (Address_canon a).
Proof.
  destruct a as [[ip port|ip port f s]|dn port]; cbn [Address_wf SocketAddr_wf Address_fits];
    intros Hwf Hf; unfold address_wire, read_cursor_bytes; cbn [app]; rewrite unsigned_of_Z_small by lia;
    atyp_cases; rewrite <- ?app_assoc.
  - destruct Hwf. len_false.
    rewrite take_app_length', drop_app_length' by (by rewrite length_be_bytes).
    rewrite take_app_length' by (by rewrite length_be_bytes). rewrite !in_u_be_bytes by done.
    replace (length _ =? 0)%nat with false; [done|].
    symmetry. apply Nat.eqb_neq. autorewrite with blen. lia.
  - destruct Hwf as (?&?&?&?). len_false.
    rewrite take_app_length', drop_app_length' by (by rewrite length_be_bytes).
    rewrite take_app_length' by (by rewrite length_be_bytes). rewrite !in_u_be_bytes by done.
    replace (length _ =? 0)%nat with false; [done|].
    symmetry. apply Nat.eqb_neq. autorewrite with blen. lia.
  - destruct Hwf. cbn [length Nat.eqb take drop]. rewrite !take_0, !drop_0, be_Z_1, unsigned_of_Z_small, Nat2Z.id by lia.
    do 2 len_false. rewrite take_app_length, from_utf8_valid by done.
    rewrite drop_app_length, take_app_length' by (by rewrite length_be_bytes).
    by rewrite in_u_be_bytes.
Qed.

Lemma Ipv6Addr_new_words l :
  length l = 18%nat →
  Ipv6Addr_new (take 8 (u16_words 9 l)) = be_Z (take 16 l) ∧
  nth 8 (u16_words 9 l) 0 = be_Z (take 2 (drop 16 l)).
Proof.
  intros Hl. unfold Ipv6Addr_new. split; [|by apply nth_u16_words; lia].
  rewrite take_u16_words, <- (u16_words_take 16) by lia.
  by rewrite concat_u16_words by (autorewrite with blen; lia).
Qed.

Lemma read_cursor_bytes_inv l a :
  read_cursor_bytes l = Ok a →
  read_ok (Reader l None) a (Reader (drop (Address_serialized_len a) l) None).
Proof.
  unfold read_cursor_bytes. destruct l as [|t l1]; [done|].
  destruct (Nat.eqb_spec (length l1) 0) as [|_]; [done|].
  destruct (Z.eqb_spec (byte.unsigned t) SOCKS5_ADDR_TYPE_IPV4) as [Et|_].
  { destruct (Nat.ltb_spec (length l1) 6); [done|]. intros [= <-].
    pose proof (read_ok_v4 t (take 6 l1) (Reader (drop 6 l1) None) Et) as R.
    cbn [rd_data rd_end] in R. rewrite take_drop, take_take, skipn_firstn_comm in R.
    apply R. autorewrite with blen. lia. }
  destruct (Z.eqb_spec (byte.unsigned t) SOCKS5_ADDR_TYPE_IPV6) as [Et|_].
  { destruct (Nat.ltb_spec (length l1) 18); [done|]. intros [= <-].
    assert (length (take 18 l1) = 18%nat) as H18 by (autorewrite with blen; lia).
    pose proof (read_ok_v6 t (take 18 l1) (Reader (drop 18 l1) None) Et H18) as R.
    destruct (Ipv6Addr_new_words _ H18) as [E1 E2]. rewrite E1, E2 in R.
    cbn [rd_data rd_end] in R. rewrite take_drop, take_take, skipn_firstn_comm, take_take in R.
    exact R. }
  destruct (Z.eqb_spec (byte.unsigned t) SOCKS5_ADDR_TYPE_DOMAIN_NAME) as [Et|_]; [|done].
  destruct l1 as [|b l2]; [done|]. cbn [take drop]. rewrite take_0, drop_0, be_Z_1.
  set (n := Z.to_nat (byte.unsigned b)).
  destruct (Nat.ltb_spec (length l2) n); [done|].
  destruct (Nat.ltb_spec (length l2) (n + 2)); [done|].
  destruct (from_utf8 (take n l2)) as [dn|] eqn:Eu; [|done]. intros [= <-].
  assert (length (take (n + 2) l2) = (n + 2)%nat) as Hn by (autorewrite with blen; lia).
  pose proof (read_ok_domain t b (take (n + 2) l2) dn (Reader (drop (n + 2) l2) None) Et Hn) as R.
  fold n in R. rewrite take_take, Nat.min_l in R by lia. specialize (R Eu).
  cbn [rd_data rd_end] in R. rewrite take_drop in R. cbn [app] in R.
  rewrite skipn_firstn_comm, Nat.add_comm, Nat.add_sub in R.
  apply from_utf8_Some in Eu as [-> _].
  unfold Address_serialized_len, get_addr_len. rewrite length_take, Nat.min_l by lia.
  replace (1 + 1 + n + 2)%nat with (S (S (2 + n)))%nat by lia. exact R.
Qed.

(** *** Properties of addresses *)

(** Every address whose domain name fits is written as its wire format, of
    exactly [serialized_len] bytes, at most [max_serialized_len], and both
    readers give it back (without the IPv6 flow information and scope),
    leaving what follows it unread. *)
Theorem address_roundtrip {E} (a : Address) (buf rest : bytes) (e : option io_error) :
  Address_wf a → Address_fits a →
  ∃ w, Address_write_to_buf (E:=E) a buf = Ok (buf ++ w) ∧
    length w = Address_serialized_len a ∧
    (Address_serialized_len a ≤ Address_max_serialized_len)%nat ∧
    Address_read_from (Reader (w ++ rest) e) = Ok (Address_canon a, Reader rest e) ∧
    Address_read_cursor (Cursor (buf ++ w ++ rest) (length buf)) =
      Ok (Address_canon a, Cursor (buf ++ w ++ rest) (length buf + length w)).
Proof.
  intros Hwf Hf. exists (address_wire a). split_and!.
  - by apply write_address_wire.
  - apply length_address_wire.
  - destruct a as [[]|]; simpl in *; unfold Address_max_serialized_len; lia.
  - by apply read_from_wire.
  - rewrite read_cursor_on_bytes. unfold cur_rest. cbn [cur_pos cur_data].
    rewrite drop_app_length, read_cursor_bytes_wire by done.
    rewrite length_address_wire. by destruct a as [[]|].
Qed.

Lemma address_roundtrip_witness :
  ∃ w, Address_write_to_buf (E:=Error) (DomainNameAddress [b# 0x61; b# 0x2e; b# 0x62] 443) [] = Ok ([] ++ w) ∧
    length w = 7%nat.
Proof.
  destruct (address_roundtrip (E:=Error) (DomainNameAddress [b# 0x61; b# 0x2e; b# 0x62] 443) [] [] None)
    as (w & H1 & H2 & _).
  - split; [reflexivity|unfold in_u; lia].
  - simpl. lia.
  - exists w. split; [exact H1|exact H2].
Defined.

(** Reading is faithful to the bytes: whatever [read_from] accepts is the
    wire format of the address it returns followed by the unread rest, and the
    address is well formed; so two streams that read as the same address start
    with the same bytes. *)
Theorem address_read_canonical (r r' : reader) (a : Address) :
  Address_read_from r = Ok (a, r') →
  (∀ buf, Address_write_to_buf (E:=Error) a buf = Ok (buf ++ take (Address_serialized_len a) (rd_data r))) ∧
  rd_data r' = drop (Address_serialized_len a) (rd_data r) ∧
  Address_wf a ∧ Address_fits a.
Proof.
  intros (Hd & He & Hwf & Hf & Hc)%read_from_inv. rewrite Hd, <- length_address_wire.
  rewrite take_app_length, drop_app_length. split_and!; try done.
  intros buf. by apply write_address_wire.
Qed.

Lemma address_read_canonical_witness :
  rd_data (Reader [b# 0xff] None) = drop 7 [b# 1; b# 10; b# 0; b# 0; b# 1; b# 0; b# 80; b# 0xff].
Proof.
  apply (address_read_canonical
           (Reader [b# 1; b# 10; b# 0; b# 0; b# 1; b# 0; b# 80; b# 0xff] None)
           (Reader [b# 0xff] None) (SocketAddress (V4 167772161 80))).
  vm_compute. reflexivity.
Defined.

Lemma read_cursor_panics c :
  is_panic (Address_read_cursor c) = true ↔
  ∃ n tail, cur_rest c = b# SOCKS5_ADDR_TYPE_DOMAIN_NAME :: n :: tail ∧
    (Z.to_nat (byte.unsigned n) ≤ length tail < Z.to_nat (byte.unsigned n) + 2)%nat.
Proof.
  rewrite read_cursor_on_bytes.
  transitivity (is_panic (read_cursor_bytes (cur_rest c)) = true);
    [by destruct (read_cursor_bytes _)|]. unfold read_cursor_bytes.
  destruct (cur_rest c) as [|t [|n tail]]; [split; [done|by intros (?&?&?&?)]..|].
  cbn [length Nat.eqb take drop]. rewrite take_0, drop_0, be_Z_1.
  destruct (Z.eqb_spec (byte.unsigned t) SOCKS5_ADDR_TYPE_IPV4) as [E4|_];
    [|destruct (Z.eqb_spec (byte.unsigned t) SOCKS5_ADDR_TYPE_IPV6) as [E6|_]];
    [| |destruct (Z.eqb_spec (byte.unsigned t) SOCKS5_ADDR_TYPE_DOMAIN_NAME) as [E3|E3]].
  1-2: split; [by case_match|intros (?&?&[= -> _ _]&_); vm_compute in *; congruence].
  2: split; [done|intros (?&?&[= -> _ _]&_); by vm_compute in E3].
  apply of_Z_u8 in E3 as ->. split.
  + intros H. exists n, tail. split; [done|]. revert H.
    destruct (Nat.ltb_spec (length tail) (Z.to_nat (byte.unsigned n))); [done|].
    destruct (Nat.ltb_spec (length tail) (Z.to_nat (byte.unsigned n) + 2)); [lia|].
    by destruct (from_utf8 _).
  + intros (n' & tail' & [= -> ->] & Hl). len_false. by len_true.
Qed.

(** C37. The datagram reader agrees with the stream reader: it accepts the same
    bytes with the same result.  Where they differ, it is on input both refuse,
    and there [read_cursor] panics exactly on a domain name whose length byte
    leaves no room for the two bytes of the port. *)
Theorem read_cursor_agrees (c : cursor) :
  (∀ a c', Address_read_cursor c = Ok (a, c') ↔
     Address_read_from (Reader (cur_rest c) None) = Ok (a, Reader (cur_rest c') None) ∧
     c' = Cursor (cur_data c) (cur_pos c + Address_serialized_len a)) ∧
  (is_panic (Address_read_cursor c) = true ↔
     ∃ n tail, cur_rest c = b# SOCKS5_ADDR_TYPE_DOMAIN_NAME :: n :: tail ∧
       (Z.to_nat (byte.unsigned n) ≤ length tail < Z.to_nat (byte.unsigned n) + 2)%nat).
Proof.
  split.
  - intros a c'. rewrite read_cursor_on_bytes. split.
    + intros H. destruct (read_cursor_bytes (cur_rest c)) as [a'| |] eqn:E; [|done..].
      injection H as -> <-. apply read_cursor_bytes_inv in E as (Hd & _ & Hwf & Hf & Hc).
      split; [|done]. rewrite cur_rest_skip. simpl in Hd. rewrite Hd at 1.
      by rewrite read_from_wire, Hc.
    + intros [(Hd & _ & Hwf & Hf & Hc)%read_from_inv ->]. simpl in Hd.
      rewrite Hd at 1. by rewrite read_cursor_bytes_wire, Hc.
  - apply read_cursor_panics.
Qed.

(** *** Messages

    What a message type promises: a value that [ok] accepts is written as some
    bytes [w] after whatever the buffer holds, of the announced length, and
    reading [w] gives the value back and leaves the rest of the stream. *)
Class Message (A : Type) := {
  msg_ok : A → Prop;
  msg_write : A → bytes → outcome Error bytes;
  msg_len : A → nat;
  msg_read : parser reader Error A;
}.

Definition msg_roundtrips {A} (M : Message A) : Prop :=
  ∀ a, msg_ok a → ∃ w,
    (∀ buf, msg_write a buf = Ok (buf ++ w)) ∧
    length w = msg_len a ∧
    (∀ rest e, msg_read (Reader (w ++ rest) e) = Ok (a, Reader rest e)).

Definition address_ok (a : Address) : Prop :=
  Address_wf a ∧ Address_fits a ∧ Address_canon a = a.

#[export] Instance Address_message : Message Address := {|
  msg_ok := address_ok;
  msg_write := Address_write_to_buf;
  msg_len := Address_serialized_len;
  msg_read := Address_read_from |}.

#[export] Instance TcpRequestHeader_message : Message TcpRequestHeader := {|
  msg_ok h := address_ok (req_address h);
  msg_write := TcpRequestHeader_write_to_buf;
  msg_len := TcpRequestHeader_serialized_len;
  msg_read := TcpRequestHeader_read_from |}.

(** A reply code is written as it is read back unless it is an [OtherReply]
    with the code of a named reply. *)
#[export] Instance TcpResponseHeader_message : Message TcpResponseHeader := {|
  msg_ok h := address_ok (rsp_address h) ∧ in_u 8 (Reply_as_u8 (rsp_reply h)) ∧
              Reply_from_u8 (Reply_as_u8 (rsp_reply h)) = rsp_reply h;
  msg_write := TcpResponseHeader_write_to_buf;
  msg_len := TcpResponseHeader_serialized_len;
  msg_read := TcpResponseHeader_read_from |}.

#[export] Instance HandshakeRequest_message : Message HandshakeRequest := {|
  msg_ok h := (length (methods h) ≤ 255)%nat;
  msg_write h buf := Ok (HandshakeRequest_write_to_buf h buf);
  msg_len := HandshakeRequest_serialized_len;
  msg_read := HandshakeRequest_read_from |}.

#[export] Instance HandshakeResponse_message : Message HandshakeResponse := {|
  msg_ok h := in_u 8 (chosen_method h);
  msg_write h buf := Ok (HandshakeResponse_write_to_buf h buf);
  msg_len := HandshakeResponse_serialized_len;
  msg_read := HandshakeResponse_read_from |}.

#[export] Instance UdpAssociateHeader_message : Message UdpAssociateHeader := {|
  msg_ok h := address_ok (udp_address h) ∧ in_u 8 (frag h);
  msg_write := UdpAssociateHeader_write_to_buf;
  msg_len := UdpAssociateHeader_serialized_len;
  msg_read := UdpAssociateHeader_read_from |}.

(** What [PasswdAuthRequest::new] asserts. *)
#[export] Instance PasswdAuthRequest_message : Message PasswdAuthRequest := {|
  msg_ok h := is_ok (PasswdAuthRequest_new (E:=Error) (uname h) (passwd h)) = true;
  msg_write h buf := Ok (PasswdAuthRequest_write_to_buf h buf);
  msg_len := PasswdAuthRequest_serialized_len;
  msg_read := PasswdAuthRequest_read_from |}.

#[export] Instance PasswdAuthResponse_message : Message PasswdAuthResponse := {|
  msg_ok h := in_u 8 (status h);
  msg_write h buf := Ok (PasswdAuthResponse_write_to_buf h buf);
  msg_len := PasswdAuthResponse_serialized_len;
  msg_read := PasswdAuthResponse_read_from |}.

Lemma bind_address_wire {B} a (k : Address → parser reader Error B) rest e :
  address_ok a →
  (Address_read_from ≫= k) (Reader (address_wire a ++ rest) e) = k a (Reader rest e).
Proof.
  intros (Hwf & Hf & Hc). unfold mbind, parser_bind. by rewrite read_from_wire, Hc.
Qed.

Lemma Command_from_as_u8 c : Command_from_u8 (Command_as_u8 c) = Some c.
Proof. by destruct c. Qed.

Lemma Command_as_u8_range c : 0 ≤ Command_as_u8 c < 256.
Proof. by destruct c. Qed.

Lemma u8_at_1 a z l : 0 ≤ z < 256 → u8_at (a :: b# z :: l) 1 = z.
Proof. apply unsigned_of_Z_small. Qed.

Lemma u8_at_2 a b z l : 0 ≤ z < 256 → u8_at (a :: b :: b# z :: l) 2 = z.
Proof. apply unsigned_of_Z_small. Qed.

Lemma address_message_ok : msg_roundtrips Address_message.
Proof.
  intros a (Hwf & Hf & Hc). exists (address_wire a). split_and!.
  - intros buf. by apply write_address_wire.
  - apply length_address_wire.
  - intros. simpl. by rewrite read_from_wire, Hc.
Qed.

Lemma request_message_ok : msg_roundtrips TcpRequestHeader_message.
Proof.
  intros [c a] Ha. pose proof Ha as (Hwf & Hf & Hc). simpl in *.
  exists ([b# SOCKS5_VERSION; b# (Command_as_u8 c); b# 0] ++ address_wire a). split_and!.
  - intros buf. unfold TcpRequestHeader_write_to_buf. simpl.
    rewrite write_address_wire by done. by rewrite <- app_assoc.
  - unfold TcpRequestHeader_serialized_len. autorewrite with blen. simpl. lia.
  - intros rest e. unfold TcpRequestHeader_read_from. rewrite <- app_assoc. read_field.
    rewrite u8_at_of_Z, u8_at_1 by (apply Command_as_u8_range || done). simpl.
    rewrite Command_from_as_u8. by rewrite bind_address_wire.
Qed.

Lemma response_message_ok : msg_roundtrips TcpResponseHeader_message.
Proof.
  intros [r a] (Ha & Hr & Er). pose proof Ha as (Hwf & Hf & Hc). simpl in *.
  exists ([b# SOCKS5_VERSION; b# (Reply_as_u8 r); b# 0] ++ address_wire a). split_and!.
  - intros buf. unfold TcpResponseHeader_write_to_buf. simpl.
    rewrite write_address_wire by done. by rewrite <- app_assoc.
  - unfold TcpResponseHeader_serialized_len. autorewrite with blen. simpl. lia.
  - intros rest e. unfold TcpResponseHeader_read_from. rewrite <- app_assoc. read_field.
    rewrite u8_at_of_Z, u8_at_1 by (apply Hr || done). simpl.
    rewrite bind_address_wire by done. by rewrite Er.
Qed.

Lemma handshake_messages_ok :
  msg_roundtrips HandshakeRequest_message ∧ msg_roundtrips HandshakeResponse_message.
Proof.
  split.
  - intros [ms] Hm. simpl in *.
    exists ([b# SOCKS5_VERSION; b# (Z.of_nat (length ms))] ++ ms). split_and!; [done..|].
    intros rest e. unfold HandshakeRequest_read_from. rewrite <- app_assoc. read_field.
    rewrite u8_at_of_Z, u8_at_1 by (done || lia). simpl. rewrite Nat2Z.id. by read_field.
  - intros [m] Hm. simpl in *. exists [b# SOCKS5_VERSION; b# m]. split_and!; [done..|].
    intros rest e. unfold HandshakeResponse_read_from. read_field.
    by rewrite u8_at_of_Z, u8_at_1 by (apply Hm || done).
Qed.

Lemma udp_associate_message_ok : msg_roundtrips UdpAssociateHeader_message.
Proof.
  intros [f a] (Ha & Hr). pose proof Ha as (Hwf & Hf & Hc). simpl in *.
  exists ([b# 0; b# 0; b# f] ++ address_wire a). split_and!.
  - intros buf. unfold UdpAssociateHeader_write_to_buf. simpl.
    rewrite write_address_wire by done. by rewrite <- app_assoc.
  - unfold UdpAssociateHeader_serialized_len. autorewrite with blen. simpl. lia.
  - intros rest e. unfold UdpAssociateHeader_read_from. rewrite <- app_assoc. read_field.
    rewrite u8_at_2 by apply Hr. by rewrite bind_address_wire.
Qed.

Lemma passwd_request_bounds u p :
  is_ok (PasswdAuthRequest_new (E:=Error) u p) = true →
  (1 ≤ length u ≤ 255)%nat ∧ (1 ≤ length p ≤ 255)%nat.
Proof.
  unfold PasswdAuthRequest_new, rust_assert. destruct (_ && _) eqn:E; [|done].
  apply andb_true_iff in E as [[[Hu ?%Nat.leb_le]%andb_true_iff Hp]%andb_true_iff ?%Nat.leb_le].
  apply negb_true_iff, bool_decide_eq_false in Hu, Hp. destruct u, p; simpl in *; try done; lia.
Qed.

Lemma passwd_messages_ok :
  msg_roundtrips PasswdAuthRequest_message ∧ msg_roundtrips PasswdAuthResponse_message.
Proof.
  split.
  - intros [u p] [Hu Hp]%passwd_request_bounds. simpl in *.
    exists ([b# 1] ++ [b# (Z.of_nat (length u))] ++ u ++ [b# (Z.of_nat (length p))] ++ p). split_and!.
    + done.
    + unfold PasswdAuthRequest_serialized_len. autorewrite with blen. simpl. lia.
    + intros rest e. unfold PasswdAuthRequest_read_from. rewrite <- !app_assoc.
      rewrite (bind_read_app 1 [b# 1]) by done. change (negb (u8_at [b# 1] 0 =? 1)) with false. cbv iota.
      rewrite (bind_read_app 1 [_]) by done. rewrite u8_at_nat by lia.
      destruct (Nat.eqb_spec (length u) 0); [lia|]. read_field.
      rewrite (bind_read_app 1 [_]) by done. rewrite u8_at_nat by lia.
      destruct (Nat.eqb_spec (length p) 0); [lia|]. by read_field.
  - intros [s] Hs. simpl in *. exists ([b# 1; b# s]). split_and!; [done..|].
    intros rest e. unfold PasswdAuthResponse_read_from.
    change (read_exact_buffer 2 (Reader ([b# 1; b# s] ++ rest) e)) with [b# 1; b# s].
    change (drop 2 _) with rest. by rewrite u8_at_of_Z, u8_at_1 by (apply Hs || done).
Qed.

(** Every SOCKS5 message survives being written and read: the client's and
    server's handshake, the request, the response, the UDP header and both
    password messages, for every value the writers represent. *)
Theorem socks5_messages_roundtrip :
  msg_roundtrips TcpRequestHeader_message ∧ msg_roundtrips TcpResponseHeader_message ∧
  msg_roundtrips HandshakeRequest_message ∧ msg_roundtrips HandshakeResponse_message ∧
  msg_roundtrips UdpAssociateHeader_message ∧
  msg_roundtrips PasswdAuthRequest_message ∧ msg_roundtrips PasswdAuthResponse_message.
Proof.
  split_and!; apply request_message_ok || apply response_message_ok
    || apply handshake_messages_ok || apply udp_associate_message_ok || apply passwd_messages_ok.
Qed.

(** Because [PasswdAuthResponse::read_from] drops the result of its read, a
    connection that ends after the version byte is taken for an accepted
    authentication (status 0), whatever error ended it, while the same bytes
    make every other message fail. *)
Theorem passwd_response_truncated_accepted (e : option io_error) :
  PasswdAuthResponse_read_from (Reader [b# 0x01] e) = Ok ({| status := 0 |}, Reader [] e) ∧
  HandshakeResponse_read_from (Reader [b# 0x05] e) = Err (IoError (eof_error (Reader [b# 0x05] e))).
Proof. split; reflexivity. Qed.
