(* ===== verification/Users.v ===== *)
(** * Server users (crates/shadowsocks/src/config.rs)

    The users of a multi-user AEAD-2022 server, found by the hash of their key
    that the client sends in its identity header. *)
From S2P Require Import Prelude.
From S2P Require Import External.

Section Users.
Context `{CipherSuite, Blake3}.

Record ServerUser := {
  user_name : string;
  user_key : bytes;
  identity_hash : bytes;
}.

Definition ServerUser_new (name : string) (key : bytes) : ServerUser :=
  {| user_name := name; user_key := key; identity_hash := take 16 (blake3_hash key) |}.

Definition ServerUserManager : Type := gmap bytes ServerUser.

Definition ServerUserManager_new : ServerUserManager := ∅.

Definition add_user (self : ServerUserManager) (user : ServerUser) : ServerUserManager :=
  <[identity_hash user := user]> self.

Definition get_user_by_hash (self : ServerUserManager) (user_hash : bytes) : option ServerUser :=
  self !! user_hash.

Definition user_count (self : ServerUserManager) : nat := size self.

(** [method_support_eih]. *)
Definition method_support_eih (method : CipherKind) : bool :=
  match aes_kind method with Some _ => true | None => false end.

(** A manager built by [add_user] from users made by [ServerUser_new]. *)
Definition manager_of (users : list (string * bytes)) : ServerUserManager :=
  foldl (λ m '(n, k), add_user m (ServerUser_new n k)) ServerUserManager_new users.

(** The user found for a hash is one that was added and has that hash; when two
    users' hashes agree the one added last is found. *)
Lemma manager_of_lookup users h :
  get_user_by_hash (manager_of users) h =
  head (reverse (filter (λ u, identity_hash u = h) ((λ '(n, k), ServerUser_new n k) <$> users))).
Proof.
  unfold manager_of, get_user_by_hash.
  induction users as [|[n k] users IH] using rev_ind; [done|].
  rewrite foldl_snoc, fmap_app, list.filter_app. cbn [fmap list_fmap].
  unfold add_user, ServerUserManager in *.
  destruct (decide (identity_hash (ServerUser_new n k) = h)) as [<-|Hne].
  - rewrite lookup_insert_eq, filter_cons_True by done. by rewrite filter_nil, reverse_snoc.
  - rewrite lookup_insert_ne, IH, filter_cons_False, filter_nil, app_nil_r by done. done.
Qed.
End Users.
