(* ===== verification/PacketWindow.v ===== *)
(** * UDP packet window (crates/shadowsocks-service/src/net/packet_window.rs)

    The sliding window that rejects repeated and out-of-window packet ids: a
    ring of 128 blocks of 64 bits and the highest id accepted.  The ring is
    proved to implement an abstract filter that keeps the set of accepted ids,
    for every sequence of checks and resets. *)
From S2P Require Import Prelude.

(** ** The filter *)
Definition BLOCK_BIT_LOG : Z := 6.
Definition BLOCK_BITS : Z := Z.shiftl 1 BLOCK_BIT_LOG.
Definition RING_BLOCKS : Z := Z.shiftl 1 7.
Definition WINDOW_SIZE : Z := (RING_BLOCKS - 1) * BLOCK_BITS.
Definition BLOCK_MASK : Z := RING_BLOCKS - 1.
Definition BIT_MASK : Z := BLOCK_BITS - 1.

Record PacketWindowFilter := {
  last_packet_id : Z;
  packet_ring : list Z;
}.

Definition PacketWindowFilter_new : PacketWindowFilter :=
  {| last_packet_id := 0; packet_ring := replicate (Z.to_nat RING_BLOCKS) 0 |}.

Definition PacketWindowFilter_reset (self : PacketWindowFilter) : PacketWindowFilter :=
  {| last_packet_id := 0; packet_ring := <[0%nat := 0]> (packet_ring self) |}.

(** [packet_ring[(i & BLOCK_MASK) as usize]]. *)
Definition ring_index (i : Z) : nat := Z.to_nat (Z.land i BLOCK_MASK).
Definition ring_get (ring : list Z) (i : Z) : Z := default 0 (ring !! ring_index i).
Definition ring_set (ring : list Z) (i v : Z) : list Z := <[ring_index i := v]> ring.

(** [for d in 1..=diff { packet_ring[((current + d) & BLOCK_MASK) as usize] = 0 }]. *)
Definition clear_blocks (current diff : Z) (ring : list Z) : list Z :=
  foldl (λ ring d, ring_set ring (current + d) 0) ring (seqZ 1 diff).

(** The final check and set of the bit, shared by the paths that reach it. *)
Definition check_and_set (self : PacketWindowFilter) (packet_id : Z) : bool * PacketWindowFilter :=
  let index_block := Z.shiftr packet_id BLOCK_BIT_LOG in
  let index_bit := Z.land packet_id BIT_MASK in
  let old := ring_get (packet_ring self) index_block in
  let new := Z.lor old (Z.shiftl 1 index_bit) in
  (negb (old =? new),
   {| last_packet_id := last_packet_id self;
      packet_ring := ring_set (packet_ring self) index_block new |}).

Definition validate_packet_id (self : PacketWindowFilter) (packet_id limit : Z)
  : bool * PacketWindowFilter :=
  if limit <=? packet_id then (false, self) else
  let index_block := Z.shiftr packet_id BLOCK_BIT_LOG in
  if last_packet_id self <? packet_id then
    (* Move the window forward *)
    let current := Z.shiftr (last_packet_id self) BLOCK_BIT_LOG in
    let diff := index_block - current in
    let diff := if RING_BLOCKS <? diff then RING_BLOCKS else diff in
    check_and_set
      {| last_packet_id := packet_id;
         packet_ring := clear_blocks current diff (packet_ring self) |} packet_id
  else if WINDOW_SIZE <? last_packet_id self - packet_id then
    (* Behind the current window *)
    (false, self)
  else check_and_set self packet_id.

(** The operations a session performs on its filter, and their results. *)
Inductive window_op := Validate (packet_id limit : Z) | Reset_filter.

Definition window_step (f : PacketWindowFilter) (o : window_op) : option bool * PacketWindowFilter :=
  match o with
  | Validate p limit => let '(b, f') := validate_packet_id f p limit in (Some b, f')
  | Reset_filter => (None, PacketWindowFilter_reset f)
  end.

Fixpoint window_run (f : PacketWindowFilter) (os : list window_op) : list (option bool) :=
  match os with
  | [] => []
  | o :: os => let '(b, f') := window_step f o in b :: window_run f' os
  end.

(** ** The specification

    The abstract filter keeps every id it accepted. *)
Record window_spec := { sp_last : Z; sp_seen : gset Z }.

Definition spec_new : window_spec := {| sp_last := 0; sp_seen := ∅ |}.

Definition spec_in_window (s : window_spec) (p limit : Z) : bool :=
  (p <? limit) && ((sp_last s <? p) || (sp_last s - p <=? WINDOW_SIZE)).

Definition spec_step (s : window_spec) (o : window_op) : option bool * window_spec :=
  match o with
  | Validate p limit =>
      if spec_in_window s p limit
      then (Some (negb (bool_decide (p ∈ sp_seen s))),
            {| sp_last := Z.max (sp_last s) p; sp_seen := {[p]} ∪ sp_seen s |})
      else (Some false, s)
  | Reset_filter => (None, spec_new)
  end.

Fixpoint spec_run (s : window_spec) (os : list window_op) : list (option bool) :=
  match os with
  | [] => []
  | o :: os => let '(b, s') := spec_step s o in b :: spec_run s' os
  end.

(** ** Simulation

    Slot [b mod 128] describes block [b] for the 128 blocks up to the current
    one; slots of negative blocks, of which there are some until the window has
    moved far enough, are free. *)
Definition block_of (p : Z) : Z := p `div` 64.

Definition slot_ok (ring : list Z) (seen : gset Z) (b : Z) : Prop :=
  ∀ j, 0 ≤ j < 64 → Z.testbit (ring_get ring b) j = bool_decide (64 * b + j ∈ seen).

Record simulates (f : PacketWindowFilter) (s : window_spec) : Prop := {
  sim_len : length (packet_ring f) = 128%nat;
  sim_u64 : Forall in_u64 (packet_ring f);
  sim_last : last_packet_id f = sp_last s;
  sim_last_nonneg : 0 ≤ sp_last s;
  sim_seen : ∀ p, p ∈ sp_seen s → 0 ≤ p ≤ sp_last s;
  sim_slots : ∀ b, 0 ≤ b → block_of (sp_last s) - 128 < b ≤ block_of (sp_last s) →
                slot_ok (packet_ring f) (sp_seen s) b;
}.

(** *** Ring indices *)
Lemma ring_index_mod i : ring_index i = Z.to_nat (i `mod` 128).
Proof.
  unfold ring_index. change BLOCK_MASK with (Z.ones 7). by rewrite Z.land_ones.
Qed.

Lemma block_shiftr p : Z.shiftr p BLOCK_BIT_LOG = block_of p.
Proof. unfold block_of. by rewrite Z.shiftr_div_pow2. Qed.

Lemma bit_land p : Z.land p BIT_MASK = p `mod` 64.
Proof. change BIT_MASK with (Z.ones 6). by rewrite Z.land_ones. Qed.

Lemma ring_get_set ring i j v :
  length ring = 128%nat →
  ring_get (ring_set ring i v) j =
  if decide (i `mod` 128 = j `mod` 128) then v else ring_get ring j.
Proof.
  intros Hl. unfold ring_get, ring_set. rewrite !ring_index_mod.
  pose proof (Z.mod_pos_bound i 128). pose proof (Z.mod_pos_bound j 128).
  destruct (decide _) as [->|Hne].
  - rewrite list_lookup_insert_eq by lia. done.
  - rewrite list_lookup_insert_ne by lia. done.
Qed.

Lemma length_ring_set ring i v : length (ring_set ring i v) = length ring.
Proof. apply length_insert. Qed.

Lemma ring_get_u64 ring i : Forall in_u64 ring → in_u64 (ring_get ring i).
Proof.
  intros H. unfold ring_get. destruct (ring !! ring_index i) eqn:E; simpl.
  - by eapply Forall_lookup_1.
  - unfold in_u64. lia.
Qed.

Lemma ring_set_u64 ring i v : Forall in_u64 ring → in_u64 v → Forall in_u64 (ring_set ring i v).
Proof. intros. by apply Forall_insert. Qed.

(** *** Clearing blocks *)
Lemma clear_blocks_S cur n ring :
  clear_blocks cur (Z.of_nat (S n)) ring =
  ring_set (clear_blocks cur (Z.of_nat n) ring) (cur + (1 + Z.of_nat n)) 0.
Proof. unfold clear_blocks. by rewrite seqZ_S, foldl_app. Qed.

Lemma clear_blocks_inv cur n ring :
  length ring = 128%nat → Forall in_u64 ring →
  length (clear_blocks cur (Z.of_nat n) ring) = 128%nat ∧
  Forall in_u64 (clear_blocks cur (Z.of_nat n) ring).
Proof.
  intros Hl Hu. induction n as [|n [IHl IHu]]; [done|].
  rewrite clear_blocks_S, length_ring_set. split; [done|].
  apply ring_set_u64; [done|]. unfold in_u64. lia.
Qed.

Lemma clear_blocks_other cur n ring b :
  length ring = 128%nat → Forall in_u64 ring →
  (∀ d, 1 ≤ d ≤ Z.of_nat n → (cur + d) `mod` 128 ≠ b `mod` 128) →
  ring_get (clear_blocks cur (Z.of_nat n) ring) b = ring_get ring b.
Proof.
  intros Hl Hu. induction n as [|n IH]; intros Hd; [done|].
  rewrite clear_blocks_S, ring_get_set by by apply clear_blocks_inv.
  rewrite decide_False by (apply Hd; lia). apply IH. intros d ?. apply Hd. lia.
Qed.

Lemma clear_blocks_cleared cur n ring b d :
  length ring = 128%nat → Forall in_u64 ring →
  1 ≤ d ≤ Z.of_nat n → (cur + d) `mod` 128 = b `mod` 128 →
  ring_get (clear_blocks cur (Z.of_nat n) ring) b = 0.
Proof.
  intros Hl Hu. induction n as [|n IH]; intros Hd Hm; [lia|].
  rewrite clear_blocks_S, ring_get_set by by apply clear_blocks_inv.
  destruct (decide _) as [|Hne]; [done|]. apply IH; [|done].
  destruct (decide (d = 1 + Z.of_nat n)); [by subst|lia].
Qed.

Lemma mod128_ne a b : 0 < a - b < 128 → a `mod` 128 ≠ b `mod` 128.
Proof.
  intros Hab E. assert ((a - b) `mod` 128 = 0) as H.
  { by rewrite Zminus_mod, E, Z.sub_diag. }
  rewrite Z.mod_small in H by lia. lia.
Qed.

(** *** Setting a bit *)
Lemma lor_bit_same old k :
  0 ≤ k → (old =? Z.lor old (Z.shiftl 1 k)) = Z.testbit old k.
Proof.
  intros Hk. rewrite Z.shiftl_1_l. destruct (Z.testbit old k) eqn:E.
  - apply Z.eqb_eq. symmetry. apply Z.bits_inj'. intros n Hn.
    rewrite Z.lor_spec, Z.pow2_bits_eqb by done.
    destruct (Z.eqb_spec k n) as [<-|]; [by rewrite E|by rewrite orb_false_r].
  - apply Z.eqb_neq. intros H. apply (f_equal (λ z, Z.testbit z k)) in H.
    by rewrite Z.lor_spec, E, Z.pow2_bits_true in H.
Qed.

Lemma lor_bit_spec old k j :
  0 ≤ k → 0 ≤ j → Z.testbit (Z.lor old (Z.shiftl 1 k)) j = Z.testbit old j || (k =? j).
Proof. intros. by rewrite Z.shiftl_1_l, Z.lor_spec, Z.pow2_bits_eqb. Qed.

Lemma lor_bit_u64 old k : in_u64 old → 0 ≤ k < 64 → in_u64 (Z.lor old (Z.shiftl 1 k)).
Proof.
  unfold in_u64. intros Ho Hk. rewrite Z.shiftl_1_l.
  pose proof (Z.pow_pos_nonneg 2 k). split; [apply Z.lor_nonneg; lia|].
  destruct (decide (Z.lor old (2 ^ k) = 0)) as [->|]; [lia|].
  apply Z.log2_lt_pow2; [pose proof (Z.lor_nonneg old (2 ^ k)); lia|].
  rewrite Z.log2_lor, Z.log2_pow2 by lia. apply Z.max_lub_lt; [|lia].
  destruct (decide (old = 0)) as [->|]; [done|]. apply Z.log2_lt_pow2; lia.
Qed.

Lemma block_split p : 64 * block_of p + p `mod` 64 = p.
Proof. unfold block_of. pose proof (Z.div_mod p 64). lia. Qed.

Lemma block_eq b j p : 0 ≤ j < 64 → 64 * b + j = p → b = block_of p ∧ j = p `mod` 64.
Proof.
  intros Hj <-. unfold block_of. rewrite Z.mul_comm.
  rewrite Z.div_add_l, Z.div_small, Z.add_0_r by lia. split; [done|].
  rewrite Z.add_comm, Z_mod_plus_full. by rewrite Z.mod_small.
Qed.

(** *** One check of a bit *)

(** [check_and_set] answers whether the id is new and records it, when the
    simulation relation holds up to it with the id inside the window. *)
Lemma check_and_set_simulates f s p :
  simulates f s → 0 ≤ p ≤ sp_last s → sp_last s - p ≤ WINDOW_SIZE →
  fst (check_and_set f p) = negb (bool_decide (p ∈ sp_seen s)) ∧
  simulates (snd (check_and_set f p))
    {| sp_last := sp_last s; sp_seen := {[p]} ∪ sp_seen s |}.
Proof.
  intros [Hl Hu Hlast Hnn Hseen Hslots] Hp Hw. unfold check_and_set.
  rewrite block_shiftr, bit_land. cbn [fst snd].
  pose proof (Z.mod_pos_bound p 64 ltac:(lia)) as Hm.
  assert (block_of (sp_last s) - 128 < block_of p ≤ block_of (sp_last s) ∧ 0 ≤ block_of p) as [Hb Hb0].
  { change WINDOW_SIZE with 8128 in Hw. unfold block_of. split; [split|].
    - assert ((sp_last s - 8128) `div` 64 ≤ p `div` 64) as H by (apply Z.div_le_mono; lia).
      replace (sp_last s - 8128) with (sp_last s + (-127) * 64) in H by lia.
      rewrite Z.div_add in H by lia. lia.
    - apply Z.div_le_mono; lia.
    - apply Z.div_pos; lia. }
  pose proof (Hslots _ Hb0 Hb) as Hslot.
  split.
  { rewrite lor_bit_same by lia. f_equal. rewrite (Hslot _ Hm). by rewrite block_split. }
  split; cbn [packet_ring last_packet_id sp_last sp_seen].
  - by rewrite length_ring_set.
  - apply ring_set_u64; [done|]. apply lor_bit_u64; [|done]. by apply ring_get_u64.
  - done.
  - done.
  - intros q [->%elem_of_singleton|Hq]%elem_of_union; [lia|by apply Hseen].
  - intros b Hb0' Hb' j Hj. rewrite ring_get_set by done.
    destruct (decide (block_of p `mod` 128 = b `mod` 128)) as [E|E].
    + assert (b = block_of p) as ->.
      { destruct (Z.lt_trichotomy b (block_of p)) as [?|[?|?]]; [|done|].
        - exfalso. apply (mod128_ne (block_of p) b); [lia|done].
        - exfalso. apply (mod128_ne b (block_of p)); [lia|done]. }
      rewrite lor_bit_spec by lia. rewrite (Hslot _ Hj).
      destruct (Z.eqb_spec (p `mod` 64) j) as [<-|Hne].
      * rewrite orb_true_r, block_split. symmetry. apply bool_decide_eq_true. set_solver.
      * rewrite orb_false_r. apply bool_decide_ext.
        assert (64 * block_of p + j ≠ p); [|set_solver].
        intros Heq. apply block_eq in Heq as [_ ?]; done.
    + rewrite (Hslots b Hb0' Hb' j Hj). apply bool_decide_ext.
      assert (64 * b + j ≠ p); [|set_solver].
      intros Heq. apply block_eq in Heq as [-> _]; done.
Qed.

(** *** Moving the window forward *)
Lemma block_of_mono p q : p ≤ q → block_of p ≤ block_of q.
Proof. intros. unfold block_of. apply Z.div_le_mono; lia. Qed.

(** The ring after the forward move: blocks the window entered are empty, the
    blocks it still covers are untouched. *)
Lemma clear_blocks_window ring cur idx b :
  length ring = 128%nat → Forall in_u64 ring → cur ≤ idx → idx - 128 < b ≤ idx →
  let diff := if RING_BLOCKS <? idx - cur then RING_BLOCKS else idx - cur in
  ring_get (clear_blocks cur diff ring) b = if b <=? cur then ring_get ring b else 0.
Proof.
  intros Hl Hu Hci Hb. change RING_BLOCKS with 128. cbv zeta.
  destruct (Z.ltb_spec 128 (idx - cur)) as [Hfar|Hnear].
  - destruct (Z.leb_spec b cur); [lia|]. change 128 with (Z.of_nat 128) at 1.
    pose proof (Z.mod_pos_bound (b - cur - 1) 128 ltac:(lia)) as Hd.
    apply clear_blocks_cleared with (d := (b - cur - 1) `mod` 128 + 1); [done|done|lia|].
    replace (cur + ((b - cur - 1) `mod` 128 + 1)) with ((cur + 1) + (b - cur - 1) `mod` 128) by lia.
    rewrite Zplus_mod_idemp_r. f_equal. lia.
  - replace (idx - cur) with (Z.of_nat (Z.to_nat (idx - cur))) by lia.
    destruct (Z.leb_spec b cur) as [Hle|Hgt].
    + apply clear_blocks_other; [done|done|]. intros d Hd. apply mod128_ne. lia.
    + apply clear_blocks_cleared with (d := b - cur); [done|done|lia|]. f_equal. lia.
Qed.

Lemma forward_simulates f s p :
  simulates f s → sp_last s < p →
  simulates
    (let current := Z.shiftr (last_packet_id f) BLOCK_BIT_LOG in
     let diff := Z.shiftr p BLOCK_BIT_LOG - current in
     let diff := if RING_BLOCKS <? diff then RING_BLOCKS else diff in
     {| last_packet_id := p; packet_ring := clear_blocks current diff (packet_ring f) |})
    {| sp_last := p; sp_seen := sp_seen s |}.
Proof.
  intros [Hl Hu Hlast Hnn Hseen Hslots] Hp. rewrite !block_shiftr, Hlast. cbv zeta.
  pose proof (block_of_mono (sp_last s) p ltac:(lia)) as Hm.
  set (diff := if _ <? _ then _ else _).
  assert (diff = Z.of_nat (Z.to_nat diff)) as Hdiff.
  { unfold diff. change RING_BLOCKS with 128. case_match; lia. }
  split; cbn [packet_ring last_packet_id sp_last sp_seen].
  - rewrite Hdiff. by apply clear_blocks_inv.
  - rewrite Hdiff. by apply clear_blocks_inv.
  - done.
  - lia.
  - intros q Hq%Hseen. lia.
  - intros b Hb0 Hb j Hj. unfold diff. rewrite clear_blocks_window by (done || lia).
    destruct (Z.leb_spec b (block_of (sp_last s))) as [Hle|Hgt].
    + apply Hslots; [done|lia|done].
    + rewrite Z.testbit_0_l. symmetry. apply bool_decide_eq_false. intros [_ Hin]%Hseen.
      apply block_of_mono in Hin. destruct (block_eq b j _ Hj eq_refl) as [Hbe _].
      rewrite <- Hbe in Hin. lia.
Qed.

Lemma reset_simulates f :
  length (packet_ring f) = 128%nat → Forall in_u64 (packet_ring f) →
  simulates (PacketWindowFilter_reset f) spec_new.
Proof.
  intros Hl Hu. split; cbn [PacketWindowFilter_reset packet_ring last_packet_id sp_last sp_seen spec_new].
  - by rewrite length_insert.
  - apply Forall_insert; [done|]. unfold in_u64. lia.
  - done.
  - lia.
  - set_solver.
  - intros b Hb0 Hb j Hj. replace b with 0 by (change (block_of 0) with 0 in Hb; lia).
    unfold ring_get. change (ring_index 0) with 0%nat.
    rewrite list_lookup_insert_eq by lia. simpl. rewrite Z.testbit_0_l.
    symmetry. apply bool_decide_eq_false. set_solver.
Qed.

Lemma new_simulates : simulates PacketWindowFilter_new spec_new.
Proof.
  apply (reset_simulates PacketWindowFilter_new); [done|].
  simpl. repeat constructor; vm_compute; congruence.
Qed.

(** ** Refinement *)
Definition op_u64 (o : window_op) : Prop :=
  match o with Validate p limit => in_u64 p ∧ in_u64 limit | Reset_filter => True end.

#[global] Instance op_u64_dec o : Decision (op_u64 o).
Proof. destruct o; unfold op_u64, in_u64; apply _. Defined.

Lemma step_simulates f s o :
  simulates f s → op_u64 o →
  fst (window_step f o) = fst (spec_step s o) ∧
  simulates (snd (window_step f o)) (snd (spec_step s o)).
Proof.
  intros Hsim Ho. pose proof Hsim as [Hl Hu Hlast Hnn _ _].
  destruct o as [p limit|]; [|split; [done|by apply reset_simulates]].
  destruct Ho as [Hp _]. unfold in_u64 in Hp.
  unfold window_step, spec_step, validate_packet_id, spec_in_window. rewrite Hlast.
  rewrite (Z.ltb_antisym limit p). destruct (Z.leb_spec limit p); cbn [negb andb]; [by split|].
  destruct (Z.ltb_spec (sp_last s) p) as [Hfwd|Hback]; cbn [orb].
  - pose proof (forward_simulates _ _ _ Hsim Hfwd) as Hf. rewrite Hlast in Hf.
    cbv zeta in Hf |- *.
    pose proof (check_and_set_simulates _ _ p Hf ltac:(simpl; lia) ltac:(simpl; change WINDOW_SIZE with 8128; lia)) as [Ha Hb].
    destruct (check_and_set _ p) as [b f'] eqn:E. cbn [fst snd sp_seen sp_last] in *.
    rewrite Z.max_r by lia. by rewrite Ha.
  - rewrite (Z.ltb_antisym _ WINDOW_SIZE).
    destruct (Z.leb_spec (sp_last s - p) WINDOW_SIZE) as [Hw|Hw]; cbn [negb]; [|by split].
    pose proof (check_and_set_simulates _ _ p Hsim ltac:(lia) Hw) as [Ha Hb].
    destruct (check_and_set f p) as [b f'] eqn:E. cbn [fst snd] in *.
    rewrite Z.max_l by lia. by rewrite Ha.
Qed.

Lemma run_refines f s os :
  simulates f s → Forall op_u64 os → window_run f os = spec_run s os.
Proof.
  intros Hsim Hos. revert f s Hsim. induction Hos as [|o os Ho _ IH]; intros f s Hsim; [done|].
  simpl. destruct (step_simulates f s o Hsim Ho) as [Ha Hb].
  destruct (window_step f o), (spec_step s o). simpl in *. f_equal; auto.
Qed.

(** C17. Refinement: over any sequence of checks and resets on u64 ids, the
    ring of 128 blocks gives exactly the answers of the abstract filter that
    remembers every accepted id: an id is accepted iff it is below the limit,
    not further than [WINDOW_SIZE] behind the newest accepted id, and was not
    accepted since the last reset. *)
Theorem window_filter_refines os :
  Forall op_u64 os →
  window_run PacketWindowFilter_new os = spec_run spec_new os.
Proof. apply run_refines, new_simulates. Qed.

Definition sample_ops : list window_op :=
  [ Validate 0 100; Validate 0 100; Validate 70 100000; Validate 9000 100000; Validate 800 100000;
    Validate 900 100000; Validate 900 100000; Validate 200000 100000; Reset_filter; Validate 900 100000 ].

Lemma window_filter_refines_witness :
  window_run PacketWindowFilter_new sample_ops =
  [Some true; Some false; Some true; Some true; Some false; Some true; Some false; Some false; None; Some true].
Proof.
  rewrite (window_filter_refines sample_ops).
  - vm_compute. reflexivity.
  - apply (bool_decide_unpack _). vm_compute. exact I.
Defined.

(** Ids accepted by a run of checks. *)
Definition accepted (os : list window_op) (rs : list (option bool)) : list Z :=
  omap (λ '(o, r), match o, r with Validate p _, Some true => Some p | _, _ => None end) (zip os rs).

Definition is_validate (o : window_op) : bool := match o with Validate _ _ => true | _ => false end.

Lemma spec_accepted_fresh s os :
  forallb is_validate os = true →
  NoDup (accepted os (spec_run s os)) ∧
  ∀ p, p ∈ accepted os (spec_run s os) → p ∉ sp_seen s.
Proof.
  revert s. induction os as [|o os IH]; intros s Hv; [split; [constructor|set_solver]|].
  simpl in Hv. apply andb_true_iff in Hv as [Ho Hv]. destruct o as [p limit|]; [|done].
  simpl. unfold accepted in IH |- *.
  destruct (spec_in_window s p limit); simpl; [|by apply IH].
  destruct (IH {| sp_last := Z.max (sp_last s) p; sp_seen := {[p]} ∪ sp_seen s |} Hv) as [Hnd Hf].
  simpl in Hf. case_bool_decide as Hin; simpl.
  - split; [done|]. intros q Hq%Hf. set_solver.
  - split.
    + constructor; [|done]. intros Hp%Hf. set_solver.
    + intros q [->|Hq]%elem_of_cons; [done|]. apply Hf in Hq. set_solver.
Qed.

(** Safety: from a new filter, and from a filter that was just reset after
    any history, no packet id is accepted twice. *)
Theorem window_never_accepts_twice before os :
  Forall op_u64 (before ++ [Reset_filter] ++ os) → forallb is_validate os = true →
  NoDup (accepted os (drop (S (length before)) (window_run PacketWindowFilter_new (before ++ [Reset_filter] ++ os)))).
Proof.
  intros Hos Hv. rewrite (run_refines _ spec_new _ new_simulates Hos). clear Hos.
  generalize spec_new at 1. induction before as [|o before IH]; intros s; simpl.
  - rewrite drop_0. by apply spec_accepted_fresh.
  - destruct (spec_step s o) as [b s']. simpl. apply IH.
Qed.

Lemma window_never_accepts_twice_witness :
  NoDup (accepted [Validate 900 1000; Validate 900 1000; Validate 64 1000]
    (drop 9 (window_run PacketWindowFilter_new (take 8 sample_ops ++ [Reset_filter] ++
       [Validate 900 1000; Validate 900 1000; Validate 64 1000])))).
Proof.
  apply (window_never_accepts_twice (take 8 sample_ops)).
  - apply (bool_decide_unpack _). vm_compute. exact I.
  - reflexivity.
Defined.
