(* ===== verification/Replay.v ===== *)
(** * Replay protection (crates/shadowsocks/src/security/replay, context.rs)

    The filter of nonces (IVs and salts) a server keeps: a ping-pong pair of
    Bloom filters for the stream and AEAD ciphers, an expiring set for the
    AEAD-2022 ciphers, and the policy of [Context] that decides what a repeated
    nonce means.  Shown: how long a nonce is remembered, and that the policy
    cannot turn the check off for AEAD-2022. *)
From Stdlib Require QArith_base.
From S2P Require Import Prelude.
From S2P Require Import External.

(** ** Configuration (config.rs) *)
Inductive ServerType := Local | Server.
Definition is_local (ty : ServerType) : bool := match ty with Local => true | Server => false end.

Inductive ReplayAttackPolicy := Default | Ignore | Detect | Reject.

(** ** Ping-pong Bloom filter (ppbloom.rs) *)
Definition BF_NUM_ENTRIES_FOR_SERVER : Z := 1000000.
Definition BF_NUM_ENTRIES_FOR_CLIENT : Z := 10000.
Definition BF_ERROR_RATE_FOR_SERVER : QArith_base.Q := QArith_base.Qmake 1 (10 ^ 6).
Definition BF_ERROR_RATE_FOR_CLIENT : QArith_base.Q := QArith_base.Qmake 1 (10 ^ 15).

Section Ppbloom.
Context `{BloomFilter}.

(** The two-element arrays [blooms] and [bloom_count], indexed by [current]. *)
Record PingPongBloom := {
  blooms : Bloom * Bloom;
  bloom_count : Z * Z;
  item_count : Z;
  current : nat;
}.

Definition arr_get {A} (i : nat) (p : A * A) : A := match i with O => fst p | _ => snd p end.
Definition arr_set {A} (i : nat) (v : A) (p : A * A) : A * A :=
  match i with O => (v, snd p) | _ => (fst p, v) end.

Definition PingPongBloom_new (ty : ServerType) : outcome io_error PingPongBloom :=
  let '(item_count, fp_p) :=
    if is_local ty then (BF_NUM_ENTRIES_FOR_CLIENT, BF_ERROR_RATE_FOR_CLIENT)
    else (BF_NUM_ENTRIES_FOR_SERVER, BF_ERROR_RATE_FOR_SERVER) in
  let item_count := item_count / 2 in
  match bloom_new item_count fp_p with
  | None => Panic "BloomFilter1"
  | Some b1 =>
      match bloom_new item_count fp_p with
      | None => Panic "BloomFilter2"
      | Some b2 => Ok {| blooms := (b1, b2); bloom_count := (0, 0); item_count := item_count; current := 0 |}
      end
  end.

Definition PingPongBloom_check_and_set (self : PingPongBloom) (buf : bytes) : bool * PingPongBloom :=
  if bloom_check (arr_get 0 (blooms self)) buf then (true, self)
  else if bloom_check (arr_get 1 (blooms self)) buf then (true, self)
  else
    let self :=
      if item_count self <=? arr_get (current self) (bloom_count self) then
        let current := ((current self + 1) mod 2)%nat in
        {| blooms := arr_set current (bloom_clear (arr_get current (blooms self))) (blooms self);
           bloom_count := arr_set current 0 (bloom_count self);
           item_count := item_count self;
           current := current |}
      else self in
    let c := current self in
    (false,
     {| blooms := arr_set c (bloom_set (arr_get c (blooms self)) buf) (blooms self);
        bloom_count := arr_set c (arr_get c (bloom_count self) + 1) (bloom_count self);
        item_count := item_count self;
        current := c |}).

(** Checks of a sequence of nonces, with the answers. *)
Fixpoint ppbloom_run (self : PingPongBloom) (bufs : list bytes) : list bool * PingPongBloom :=
  match bufs with
  | [] => ([], self)
  | buf :: bufs =>
      let '(r, self) := PingPongBloom_check_and_set self buf in
      let '(rs, self) := ppbloom_run self bufs in (r :: rs, self)
  end.

(** Number of nonces a run recorded: the ones answered [false]. *)
Definition recorded (rs : list bool) : Z := Z.of_nat (length (filter (λ r, r = false) rs)).

End Ppbloom.

(** ** ReplayProtector (mod.rs) *)
Definition SERVER_STREAM_TIMESTAMP_MAX_DIFF : Z := 30.

(** [Duration::from_secs(n)], in milliseconds. *)
Definition from_secs (n : Z) : Z := n * 1000.

Section Protector.
Context `{CipherSuite, BloomFilter, LruTimeCache}.

Record ReplayProtector := {
  nonce_ppbloom : PingPongBloom;
  nonce_set : LruCache;
}.

Definition ReplayProtector_new (config_type : ServerType) : outcome io_error ReplayProtector :=
  pp ← PingPongBloom_new config_type;
  Ok {| nonce_ppbloom := pp;
        nonce_set := with_expiry_duration (from_secs (SERVER_STREAM_TIMESTAMP_MAX_DIFF * 2)) |}.

(** [now] is the time of the call, which the cache reads from the clock. *)
Definition ReplayProtector_check_nonce_and_set
    (now : Z) (self : ReplayProtector) (method : CipherKind) (nonce : bytes) : bool * ReplayProtector :=
  if bool_decide (nonce = []) then (false, self) else
  if is_aead_2022 method then
    let '(found, set) := lru_get now (nonce_set self) nonce in
    if found then (true, {| nonce_ppbloom := nonce_ppbloom self; nonce_set := set |})
    else (false, {| nonce_ppbloom := nonce_ppbloom self; nonce_set := lru_insert now set nonce |})
  else
    let '(r, pp) := PingPongBloom_check_and_set (nonce_ppbloom self) nonce in
    (r, {| nonce_ppbloom := pp; nonce_set := nonce_set self |}).

(** ** Context (context.rs) *)
Record Context := {
  replay_protector : ReplayProtector;
  replay_policy : ReplayAttackPolicy;
}.

Definition Context_new (config_type : ServerType) : outcome io_error Context :=
  rp ← ReplayProtector_new config_type;
  Ok {| replay_protector := rp; replay_policy := Default |}.

Definition set_replay_attack_policy (self : Context) (p : ReplayAttackPolicy) : Context :=
  {| replay_protector := replay_protector self; replay_policy := p |}.

Definition with_protector (self : Context) (rp : ReplayProtector) : Context :=
  {| replay_protector := rp; replay_policy := replay_policy self |}.

Definition Context_check_nonce_and_set (now : Z) (self : Context) (method : CipherKind) (nonce : bytes)
  : bool * Context :=
  match replay_policy self with
  | Ignore => (false, self)
  | _ => let '(r, rp) := ReplayProtector_check_nonce_and_set now (replay_protector self) method nonce in
         (r, with_protector self rp)
  end.

(** [random_iv_or_salt] fills the buffer from a generator: [draws] is what it
    gives call after call.  [None] is the loop still running after the draws. *)
Fixpoint generate_nonce_loop (now : Z) (self : Context) (method : CipherKind) (unique : bool)
    (draws : list bytes) : option bytes * Context :=
  match draws with
  | [] => (None, self)
  | nonce :: draws =>
      if unique then
        let '(seen, self) := Context_check_nonce_and_set now self method nonce in
        if seen then generate_nonce_loop now self method unique draws else (Some nonce, self)
      else (Some nonce, self)
  end.

Definition generate_nonce (now : Z) (self : Context) (method : CipherKind) (nonce : bytes) (unique : bool)
    (draws : list bytes) : option bytes * Context :=
  if bool_decide (nonce = []) then (Some nonce, self)
  else generate_nonce_loop now self method unique draws.

Definition check_nonce_replay (now : Z) (self : Context) (method : CipherKind) (nonce : bytes)
  : outcome io_error unit * Context :=
  if bool_decide (nonce = []) then (Ok tt, self) else
  let policy := if is_aead_2022 method then Reject else replay_policy self in
  match policy with
  | Default | Ignore => (Ok tt, self)
  | Detect =>
      let '(_, rp) := ReplayProtector_check_nonce_and_set now (replay_protector self) method nonce in
      (Ok tt, with_protector self rp)
  | Reject =>
      let '(seen, rp) := ReplayProtector_check_nonce_and_set now (replay_protector self) method nonce in
      (if seen then Err (OtherKind "detected repeated nonce (iv/salt)") else Ok tt, with_protector self rp)
  end.

(** The calls the relay makes on its shared context, at the time of each. *)
Inductive context_op :=
| OpCheck (now : Z) (method : CipherKind) (nonce : bytes)
| OpGenerate (now : Z) (method : CipherKind) (nonce : bytes) (unique : bool) (draws : list bytes)
| OpPolicy (now : Z) (p : ReplayAttackPolicy).

Definition op_time (o : context_op) : Z :=
  match o with OpCheck now _ _ | OpGenerate now _ _ _ _ | OpPolicy now _ => now end.

Definition context_step (self : Context) (o : context_op) : Context :=
  match o with
  | OpCheck now m n => snd (check_nonce_replay now self m n)
  | OpGenerate now m n u ds => snd (generate_nonce now self m n u ds)
  | OpPolicy _ p => set_replay_attack_policy self p
  end.

End Protector.

(** ** How long the Bloom filters remember *)
Section PpbloomFacts.
Context `{B : BloomFilter} `{HB : !BloomLaws B}.
Implicit Types (pp : PingPongBloom) (x y : bytes).

Record ppbloom_inv (pp : PingPongBloom) : Prop := {
  inv_current : (current pp < 2)%nat;
  inv_items : 0 < item_count pp;
  inv_count_0 : 0 ≤ arr_get 0 (bloom_count pp) ≤ item_count pp;
  inv_count_1 : 0 ≤ arr_get 1 (bloom_count pp) ≤ item_count pp;
}.

(** [x] is in a filter that survives [k] more recordings. *)
Definition remembers pp x (k : Z) : Prop :=
  let room := item_count pp - arr_get (current pp) (bloom_count pp) in
  (bloom_check (arr_get (current pp) (blooms pp)) x = true ∧ k ≤ room + item_count pp) ∨
  (bloom_check (arr_get (1 - current pp) (blooms pp)) x = true ∧ k ≤ room).

Lemma ppbloom_new_inv ty :
  ∃ pp, PingPongBloom_new ty = Ok pp ∧ ppbloom_inv pp ∧
        item_count pp = if is_local ty then 5000 else 500000.
Proof.
  unfold PingPongBloom_new. destruct ty; simpl.
  - destruct (bloom_new_ok 5000 BF_ERROR_RATE_FOR_CLIENT ltac:(done) ltac:(done) ltac:(done)) as [b Hb].
    change (BF_NUM_ENTRIES_FOR_CLIENT / 2) with 5000. rewrite Hb. eexists. split; [done|].
    split; [split; simpl; lia|done].
  - destruct (bloom_new_ok 500000 BF_ERROR_RATE_FOR_SERVER ltac:(done) ltac:(done) ltac:(done)) as [b Hb].
    change (BF_NUM_ENTRIES_FOR_SERVER / 2) with 500000. rewrite Hb. eexists. split; [done|].
    split; [split; simpl; lia|done].
Qed.

(** One recording of [y]: the invariant, the filter it went to, and what else
    is still remembered. *)
Lemma check_and_set_recorded pp y :
  ppbloom_inv pp → fst (PingPongBloom_check_and_set pp y) = false →
  let pp' := snd (PingPongBloom_check_and_set pp y) in
  ppbloom_inv pp' ∧ item_count pp' = item_count pp ∧
  remembers pp' y (item_count pp) ∧
  ∀ x k, 0 < k → remembers pp x k → remembers pp' x (k - 1).
Proof.
  intros [Hc Hi H0 H1]. unfold PingPongBloom_check_and_set, remembers.
  destruct pp as [[b0 b1] [c0 c1] ic cur]. simpl in *.
  destruct (bloom_check b0 y); [done|]. destruct (bloom_check b1 y); [done|]. intros _.
  destruct cur as [|[|]]; [| |lia]; simpl.
  all: case_match; rewrite ?Z.leb_le, ?Z.leb_gt in *; simpl.
  all: split; [split; simpl; lia|]; split; [done|]; split; [left; rewrite bloom_set_check; lia|].
  all: intros x k Hk [[Hx ?]|[Hx ?]]; simpl in *; try lia.
  all: first [ left; split; [by apply bloom_set_mono|lia] | right; split; [done|lia] ].
Qed.

Lemma check_and_set_seen pp y :
  fst (PingPongBloom_check_and_set pp y) = true → snd (PingPongBloom_check_and_set pp y) = pp.
Proof. unfold PingPongBloom_check_and_set. by repeat case_match. Qed.

Lemma remembers_seen pp x k :
  ppbloom_inv pp → 0 ≤ k → remembers pp x k → fst (PingPongBloom_check_and_set pp x) = true.
Proof.
  intros [Hc _ _ _] Hk Hr. unfold PingPongBloom_check_and_set.
  destruct (bloom_check (arr_get 0 _) x) eqn:E0; [done|].
  destruct (bloom_check (arr_get 1 _) x) eqn:E1; [done|].
  unfold remembers in Hr. destruct (current pp) as [|[|]]; [| |lia]; simpl in *; destruct Hr as [[Hr _]|[Hr _]]; congruence.
Qed.

Lemma recorded_cons r rs : recorded (r :: rs) = (if r then 0 else 1) + recorded rs.
Proof.
  unfold recorded. destruct r.
  - by rewrite filter_cons_False.
  - rewrite filter_cons_True by done. cbn [length]. lia.
Qed.

Lemma recorded_nonneg rs : 0 ≤ recorded rs.
Proof. unfold recorded. lia. Qed.

Lemma ppbloom_run_remembers pp x k ys :
  ppbloom_inv pp → remembers pp x k → recorded (fst (ppbloom_run pp ys)) ≤ k →
  ppbloom_inv (snd (ppbloom_run pp ys)) ∧
  remembers (snd (ppbloom_run pp ys)) x (k - recorded (fst (ppbloom_run pp ys))).
Proof.
  revert pp k. induction ys as [|y ys IH]; intros pp k Hinv Hr Hk; simpl in *.
  { change (recorded []) with 0. by rewrite Z.sub_0_r. }
  pose proof (check_and_set_recorded pp y Hinv) as Hrec.
  pose proof (check_and_set_seen pp y) as Hseen.
  destruct (PingPongBloom_check_and_set pp y) as [r pp']. simpl in *.
  pose proof (recorded_nonneg (fst (ppbloom_run pp' ys))).
  specialize (IH pp'). destruct (ppbloom_run pp' ys) as [rs pp'']. simpl in *.
  rewrite recorded_cons in *. destruct r.
  - rewrite Hseen in * by done. rewrite Z.add_0_l in *. auto.
  - destruct (Hrec eq_refl) as (Hinv' & _ & _ & Hx).
    replace (k - (1 + recorded rs)) with (k - 1 - recorded rs) by lia.
    apply IH; [done|apply Hx; [lia|done]|lia].
Qed.

Lemma ppbloom_run_inv pp ys :
  ppbloom_inv pp →
  ppbloom_inv (snd (ppbloom_run pp ys)) ∧ item_count (snd (ppbloom_run pp ys)) = item_count pp.
Proof.
  revert pp. induction ys as [|y ys IH]; intros pp Hinv; simpl; [done|].
  pose proof (check_and_set_recorded pp y Hinv) as Hrec.
  pose proof (check_and_set_seen pp y) as Hseen.
  destruct (PingPongBloom_check_and_set pp y) as [r pp']. simpl in *.
  specialize (IH pp'). destruct (ppbloom_run pp' ys) as [rs pp'']. simpl in *.
  destruct r; [rewrite Hseen in * by done; auto|].
  destruct (Hrec eq_refl) as (Hinv' & Hi & _). rewrite <- Hi. auto.
Qed.

(** Memory of the ping-pong filter: after any history, a nonce that was
    recorded is reported as seen as long as at most [item_count] further nonces
    (500,000 for a server, 5,000 for a client) have been recorded, although the
    older filter is cleared when the current one is full. *)
Theorem ppbloom_remembers ty pp0 before x ys :
  PingPongBloom_new ty = Ok pp0 →
  let pp := snd (ppbloom_run pp0 before) in
  fst (PingPongBloom_check_and_set pp x) = false →
  let pp' := snd (PingPongBloom_check_and_set pp x) in
  recorded (fst (ppbloom_run pp' ys)) ≤ (if is_local ty then 5000 else 500000) →
  fst (PingPongBloom_check_and_set (snd (ppbloom_run pp' ys)) x) = true.
Proof.
  intros Hnew pp Hx pp' Hys.
  destruct (ppbloom_new_inv ty) as (pp1 & Hnew' & Hinv0 & Hic). rewrite Hnew in Hnew'.
  injection Hnew' as <-.
  destruct (ppbloom_run_inv pp0 before Hinv0) as [Hinv Hic'].
  destruct (check_and_set_recorded _ x Hinv Hx) as (Hinv' & _ & Hmem & _).
  fold pp in Hic', Hmem. rewrite Hic', Hic in Hmem.
  destruct (ppbloom_run_remembers pp' x _ ys Hinv' Hmem Hys) as [Hinv'' Hr].
  eapply remembers_seen; [done| |done]. lia.
Qed.

End PpbloomFacts.

Lemma ppbloom_remembers_witness :
  ∃ pp0, PingPongBloom_new (H := Toy.bloom) Local = Ok pp0 ∧
    let n i := be_bytes 2 i in
    let pp := snd (ppbloom_run pp0 [n 1; n 2]) in
    fst (PingPongBloom_check_and_set
           (snd (ppbloom_run (snd (PingPongBloom_check_and_set pp (n 3))) [n 4; n 1; n 5])) (n 3)) = true.
Proof.
  eexists. split; [vm_compute; reflexivity|]. cbv zeta.
  apply (ppbloom_remembers (HB := Toy.bloom_laws) Local _ [be_bytes 2 1; be_bytes 2 2] (be_bytes 2 3)
           [be_bytes 2 4; be_bytes 2 1; be_bytes 2 5]).
  - vm_compute. reflexivity.
  - vm_compute. reflexivity.
  - vm_compute. congruence.
Defined.

(** ** How long the AEAD-2022 set remembers *)
Section ProtectorFacts.
Context `{CS : CipherSuite, B : BloomFilter, L : LruTimeCache}.
Context {stamp : LruCache → bytes → option Z} {ttl : LruCache → Z} `{HL : !LruLaws L stamp ttl}.
Implicit Types (rp : ReplayProtector) (self : Context) (n : bytes) (m : CipherKind).

(** The cache was made by [ReplayProtector_new] and has an access to [n] no
    older than [t0]. *)
Definition fresh_since (t0 : Z) (n : bytes) (rp : ReplayProtector) : Prop :=
  ttl (nonce_set rp) = 60000 ∧ ∃ s, stamp (nonce_set rp) n = Some s ∧ t0 ≤ s.

Lemma protector_check_ttl now rp m n :
  ttl (nonce_set (snd (ReplayProtector_check_nonce_and_set now rp m n))) = ttl (nonce_set rp).
Proof.
  unfold ReplayProtector_check_nonce_and_set. case_bool_decide; [done|].
  destruct (is_aead_2022 m).
  - pose proof (lru_get_ttl now (nonce_set rp) n) as Hg.
    destruct (lru_get _ _ _) as [[] c]; simpl in *; [done|]. by rewrite lru_insert_ttl.
  - by destruct (PingPongBloom_check_and_set _ _).
Qed.

(** A check of [n] itself records it at the time of the check. *)
Lemma protector_check_records now rp m n :
  is_aead_2022 m = true → n ≠ [] → ttl (nonce_set rp) = 60000 →
  fresh_since now n (snd (ReplayProtector_check_nonce_and_set now rp m n)) ∨
  fst (ReplayProtector_check_nonce_and_set now rp m n) = true.
Proof.
  intros Hm Hn Ht. unfold fresh_since. rewrite protector_check_ttl. unfold ReplayProtector_check_nonce_and_set.
  rewrite bool_decide_false, Hm by done. destruct (lru_get _ _ _) as [[] c]; simpl; [by right|].
  left. split; [done|]. exists now. by rewrite lru_insert_same.
Qed.

Lemma protector_check_live now t0 rp m n :
  is_aead_2022 m = true → n ≠ [] → fresh_since t0 n rp → now - t0 < 60000 →
  fst (ReplayProtector_check_nonce_and_set now rp m n) = true.
Proof.
  intros Hm Hn (Ht & s & Hs & Hle) Hnow. unfold ReplayProtector_check_nonce_and_set.
  rewrite bool_decide_false, Hm by done.
  destruct (lru_get_live now _ _ _ Hs) as [H _]; [lia|]. destruct (lru_get _ _ _) as [[] c]; done.
Qed.

Lemma protector_check_keeps now t0 rp m n n' :
  fresh_since t0 n rp → t0 ≤ now → now - t0 < 60000 →
  fresh_since t0 n (snd (ReplayProtector_check_nonce_and_set now rp m n')).
Proof.
  intros (Ht & s & Hs & Hle) Hle' Hnow. split; [by rewrite protector_check_ttl|].
  unfold ReplayProtector_check_nonce_and_set. case_bool_decide; [eauto|].
  destruct (is_aead_2022 m); [|destruct (PingPongBloom_check_and_set _ _); eauto].
  destruct (decide (n' = n)) as [->|Hne].
  - destruct (lru_get_live now _ _ _ Hs) as [Hf Hst]; [lia|].
    destruct (lru_get _ _ _) as [[] c]; [|done]. simpl in *. eauto.
  - assert (now - s < ttl (nonce_set rp)) as Hlive by lia.
    pose proof (lru_get_other now _ _ _ _ Hne Hs Hlive) as Hst.
    pose proof (lru_get_ttl now (nonce_set rp) n') as Hc.
    destruct (lru_get _ _ _) as [[] c]; simpl in *; [eauto|].
    exists s. rewrite (lru_insert_other now c n' n s) by (done || lia). done.
Qed.

(** A property every check of the protector preserves, at the time of the call,
    is preserved by the calls on the context. *)
Lemma context_step_preserves (P : ReplayProtector → Prop) self o :
  (∀ rp m n, P rp → P (snd (ReplayProtector_check_nonce_and_set (op_time o) rp m n))) →
  P (replay_protector self) → P (replay_protector (context_step self o)).
Proof.
  intros Hcheck Hp. destruct o as [now m n|now m n u ds|now p]; simpl in *; [| |done].
  - unfold check_nonce_replay. case_bool_decide; [done|].
    pose proof (Hcheck _ m n Hp). destruct (ReplayProtector_check_nonce_and_set _ _ _ _) as [b rp]; simpl in *.
    by destruct (if is_aead_2022 m then _ else _).
  - unfold generate_nonce. case_bool_decide; [done|].
    revert self Hp. induction ds as [|d ds IH]; intros self Hp; simpl; [done|].
    destruct u; [|done]. unfold Context_check_nonce_and_set. pose proof (Hcheck _ m d Hp).
    destruct (ReplayProtector_check_nonce_and_set _ _ _ _) as [[] rp]; destruct (replay_policy self); simpl in *; auto.
Qed.

Lemma context_step_keeps t0 self n o :
  fresh_since t0 n (replay_protector self) → t0 ≤ op_time o → op_time o - t0 < 60000 →
  fresh_since t0 n (replay_protector (context_step self o)).
Proof.
  intros Hf H0 H1. apply (context_step_preserves (fresh_since t0 n)); [|done].
  intros rp m n' ?. by apply protector_check_keeps.
Qed.

Lemma context_steps_keep t0 t1 self n os :
  fresh_since t0 n (replay_protector self) → t1 - t0 < 60000 →
  Forall (λ o, t0 ≤ op_time o ≤ t1) os →
  fresh_since t0 n (replay_protector (foldl context_step self os)).
Proof.
  intros Hf Ht Hos. revert self Hf. induction Hos as [|o os Ho _ IH]; intros self Hf; [done|].
  simpl. apply IH, context_step_keeps; [done|lia..].
Qed.

Lemma check_nonce_replay_2022 now self m n :
  is_aead_2022 m = true → n ≠ [] →
  let r := ReplayProtector_check_nonce_and_set now (replay_protector self) m n in
  check_nonce_replay now self m n =
  (if fst r then Err (OtherKind "detected repeated nonce (iv/salt)") else Ok tt, with_protector self (snd r)).
Proof.
  intros Hm Hn r. unfold check_nonce_replay, r. rewrite bool_decide_false, Hm by done.
  by destruct (ReplayProtector_check_nonce_and_set _ _ _ _).
Qed.

(** Invariant of a context made by [Context_new]. *)
Definition protector_inv (rp : ReplayProtector) : Prop := ttl (nonce_set rp) = 60000.

Lemma context_steps_ttl ty self0 os :
  Context_new ty = Ok self0 → protector_inv (replay_protector (foldl context_step self0 os)).
Proof.
  intros Hnew. assert (protector_inv (replay_protector self0)) as H0.
  { unfold Context_new, ReplayProtector_new in Hnew. unfold protector_inv.
    destruct (PingPongBloom_new ty); [|done..]. injection Hnew as <-. simpl. by rewrite lru_new_ttl. }
  clear Hnew. revert self0 H0. induction os as [|o os IH]; intros self0 H0; [done|].
  simpl. apply IH. apply (context_step_preserves protector_inv); [|done].
  intros rp m n. unfold protector_inv. by rewrite protector_check_ttl.
Qed.

Lemma accepted_fresh_since t0 self m n :
  is_aead_2022 m = true → n ≠ [] → ttl (nonce_set (replay_protector self)) = 60000 →
  fst (check_nonce_replay t0 self m n) = Ok tt →
  fresh_since t0 n (replay_protector (snd (check_nonce_replay t0 self m n))).
Proof.
  intros Hm Hn Httl. rewrite check_nonce_replay_2022 by done. cbv zeta. simpl. intros Hok.
  destruct (protector_check_records t0 (replay_protector self) m n Hm Hn Httl) as [|Htrue]; [done|].
  by rewrite Htrue in Hok.
Qed.

(** C19. AEAD-2022 replays: once the context, after any history, has accepted a
    salt, it refuses it for the next 60 seconds, whatever the configured policy
    is or is changed to, and whatever other salts are checked and generated in
    between. *)
Theorem aead_2022_replay_rejected ty self0 before t0 t1 m n os :
  Context_new ty = Ok self0 → is_aead_2022 m = true → n ≠ [] →
  let self := foldl context_step self0 before in
  fst (check_nonce_replay t0 self m n) = Ok tt →
  Forall (λ o, t0 ≤ op_time o ≤ t1) os → t1 - t0 < 60000 →
  let self' := foldl context_step (snd (check_nonce_replay t0 self m n)) os in
  fst (check_nonce_replay t1 self' m n) = Err (OtherKind "detected repeated nonce (iv/salt)").
Proof.
  intros Hnew Hm Hn self Hok Hos Ht self'.
  pose proof (accepted_fresh_since t0 self m n Hm Hn (context_steps_ttl ty _ before Hnew) Hok) as Hf.
  rewrite check_nonce_replay_2022 by done. simpl.
  rewrite (protector_check_live t1 t0) by (done || by eapply context_steps_keep). done.
Qed.

(** The timestamp test of an AEAD-2022 request header (aead_2022.rs): the clock
    is read in whole seconds. *)
Definition get_now_timestamp (now : Z) : Z := now / 1000.
Definition timestamp_valid (now timestamp : Z) : bool :=
  negb (SERVER_STREAM_TIMESTAMP_MAX_DIFF <? abs_diff (get_now_timestamp now) timestamp).

(** The 60 seconds do not cover the whole validity of a header: a salt
    accepted at [t0] with a timestamp 30 seconds ahead of the server's clock is
    accepted again, with the same timestamp, later than 60 and before 61 seconds
    after [t0], because the timestamp test rounds the clock down. *)
Theorem aead_2022_replay_gap ty self0 t0 t1 m n timestamp :
  Context_new ty = Ok self0 → is_aead_2022 m = true → n ≠ [] →
  t0 mod 1000 = 0 → timestamp = get_now_timestamp t0 + 30 → 60000 < t1 - t0 < 61000 →
  let first := check_nonce_replay t0 self0 m n in
  timestamp_valid t0 timestamp = true ∧ fst first = Ok tt ∧
  timestamp_valid t1 timestamp = true ∧ fst (check_nonce_replay t1 (snd first) m n) = Ok tt.
Proof.
  intros Hnew Hm Hn Hmod -> Ht. cbv zeta.
  pose proof (context_steps_ttl ty self0 [] Hnew) as Httl. unfold protector_inv in Httl. simpl in Httl.
  assert (stamp (nonce_set (replay_protector self0)) n = None) as Habs.
  { unfold Context_new, ReplayProtector_new in Hnew.
    destruct (PingPongBloom_new ty); [|done..]. injection Hnew as <-. simpl. by rewrite lru_new_stamp. }
  rewrite !check_nonce_replay_2022 by done. simpl.
  unfold ReplayProtector_check_nonce_and_set. rewrite !bool_decide_false, !Hm by done.
  pose proof (lru_get_absent t0 _ _ Habs) as Hg. pose proof (lru_get_ttl t0 (nonce_set (replay_protector self0)) n) as Hc.
  destruct (lru_get t0 _ n) as [b c]. simpl in Hg, Hc. subst b. simpl.
  pose proof (lru_insert_same t0 c n) as Hs.
  assert (ttl (lru_insert t0 c n) < t1 - t0) as Hexp by (rewrite lru_insert_ttl; lia).
  pose proof (lru_get_expired t1 _ _ _ Hs Hexp) as Hg1.
  destruct (lru_get t1 _ n) as [b c1]. simpl in Hg1. subst b. simpl.
  unfold timestamp_valid, get_now_timestamp, abs_diff, SERVER_STREAM_TIMESTAMP_MAX_DIFF.
  repeat split; apply negb_true_iff, Z.ltb_ge; [lia|].
  Z.div_mod_to_equations. lia.
Qed.

Lemma context_steps_ppbloom `{HB : !BloomLaws B} ty self0 os :
  Context_new ty = Ok self0 →
  ppbloom_inv (nonce_ppbloom (replay_protector (foldl context_step self0 os))).
Proof.
  intros Hnew. assert (ppbloom_inv (nonce_ppbloom (replay_protector self0))) as H0.
  { unfold Context_new, ReplayProtector_new in Hnew.
    destruct (ppbloom_new_inv ty) as (pp & Hpp & Hinv & _). rewrite Hpp in Hnew. by injection Hnew as <-. }
  clear Hnew. revert self0 H0. induction os as [|o os IH]; intros self0 H0; [done|].
  simpl. apply IH. apply (context_step_preserves (λ rp, ppbloom_inv (nonce_ppbloom rp))); [|done].
  intros rp m n Hinv. unfold ReplayProtector_check_nonce_and_set. case_bool_decide; [done|].
  destruct (is_aead_2022 m); [by destruct (lru_get _ _ _) as [[] ?]|].
  pose proof (check_and_set_recorded _ n Hinv) as Hr.
  pose proof (check_and_set_seen (nonce_ppbloom rp) n) as Hs.
  destruct (PingPongBloom_check_and_set _ n) as [[] pp]; simpl in *; [by rewrite Hs|].
  destruct (Hr eq_refl) as [Hinv' _]. exact Hinv'.
Qed.

(** A check that answers [false] makes the next check answer [true]. *)
Lemma protector_check_twice `{HB : !BloomLaws B} t0 t1 rp m n :
  protector_inv rp → ppbloom_inv (nonce_ppbloom rp) → n ≠ [] → t1 - t0 < 60000 →
  fst (ReplayProtector_check_nonce_and_set t0 rp m n) = false →
  fst (ReplayProtector_check_nonce_and_set t1 (snd (ReplayProtector_check_nonce_and_set t0 rp m n)) m n) = true.
Proof.
  intros Httl Hinv Hn Ht Hfalse. destruct (is_aead_2022 m) eqn:Hm.
  - destruct (protector_check_records t0 rp m n Hm Hn Httl) as [Hf|]; [|congruence].
    by eapply protector_check_live.
  - revert Hfalse. unfold ReplayProtector_check_nonce_and_set. rewrite bool_decide_false, Hm by done.
    pose proof (check_and_set_recorded (nonce_ppbloom rp) n Hinv) as Hr.
    pose proof (inv_items _ Hinv).
    destruct (PingPongBloom_check_and_set _ n) as [b pp]. simpl. intros ->. simpl.
    destruct Hr as (Hinv' & _ & Hmem & _); [done|].
    assert (fst (PingPongBloom_check_and_set pp n) = true) as Hs by (eapply remembers_seen; [done| |done]; lia).
    by destruct (PingPongBloom_check_and_set pp n).
Qed.

Lemma generate_nonce_loop_last t0 self m draws n' :
  replay_policy self ≠ Ignore → fst (generate_nonce_loop t0 self m true draws) = Some n' →
  ∃ self1, (∃ os, self1 = foldl context_step self os) ∧
    let r := ReplayProtector_check_nonce_and_set t0 (replay_protector self1) m n' in
    fst r = false ∧ snd (generate_nonce_loop t0 self m true draws) = with_protector self1 (snd r).
Proof.
  revert self. induction draws as [|d ds IH]; intros self Hp; [done|]. simpl.
  assert (Context_check_nonce_and_set t0 self m d =
          let r := ReplayProtector_check_nonce_and_set t0 (replay_protector self) m d in
          (fst r, with_protector self (snd r))) as ->.
  { unfold Context_check_nonce_and_set.
    destruct (ReplayProtector_check_nonce_and_set _ _ _ _). by destruct (replay_policy self). }
  cbv zeta. destruct (fst (ReplayProtector_check_nonce_and_set t0 (replay_protector self) m d)) eqn:E.
  - intros Hg. destruct (IH (with_protector self _) Hp Hg) as (self1 & [os ->] & Hr).
    eexists. split; [|exact Hr]. exists (OpGenerate t0 m [b# 0] true [d] :: os). simpl. f_equal.
    unfold generate_nonce. simpl. unfold Context_check_nonce_and_set.
    destruct (ReplayProtector_check_nonce_and_set _ _ _ _) as [b rp]. simpl in *. subst b.
    by destruct (replay_policy self).
  - simpl. intros [= <-]. exists self. split; [by exists []|done].
Qed.

(** A nonce the context generates as unique is recorded: the peer cannot
    send it back as its own within the next 60 seconds (AEAD-2022) or as the
    next nonce (stream and AEAD ciphers). *)
Theorem generated_nonce_is_recorded `{HB : !BloomLaws B} ty self0 before t0 t1 m n draws n' :
  Context_new ty = Ok self0 →
  let self := foldl context_step self0 before in
  replay_policy self ≠ Ignore → n ≠ [] → n' ≠ [] →
  fst (generate_nonce t0 self m n true draws) = Some n' → t1 < t0 + 60000 →
  let self' := snd (generate_nonce t0 self m n true draws) in
  fst (ReplayProtector_check_nonce_and_set t1 (replay_protector self') m n') = true.
Proof.
  intros Hnew self Hp Hn Hn'. unfold generate_nonce. rewrite bool_decide_false by done. intros Hg Ht.
  destruct (generate_nonce_loop_last _ _ _ _ _ Hp Hg) as (self1 & [os ->] & Hfalse & ->). simpl.
  unfold self in *. rewrite <- foldl_app in *.
  apply protector_check_twice; [|by eapply context_steps_ppbloom|done|lia|done].
  by eapply context_steps_ttl.
Qed.
End ProtectorFacts.

Lemma check_nonce_replay_no_panic `{CipherSuite, BloomFilter, LruTimeCache} now self m n :
  is_panic (fst (check_nonce_replay now self m n)) = false.
Proof.
  unfold check_nonce_replay. case_bool_decide; [done|].
  destruct (if is_aead_2022 m then _ else _); try done;
    destruct (ReplayProtector_check_nonce_and_set _ _ _ _) as [[] ?]; done.
Qed.

(** *** Examples *)
#[local] Existing Instances Toy.suite Toy.bloom Toy.lru.

Definition toy_context : Context :=
  {| replay_protector :=
       {| nonce_ppbloom := {| blooms := ([] : list bytes, [] : list bytes); bloom_count := (0, 0); item_count := 500000; current := 0 |};
          nonce_set := (60000, [] : list (bytes * Z)) |};
     replay_policy := Default |}.

Lemma aead_2022_replay_rejected_witness :
  let n := be_bytes 4 7 in
  let self' := foldl context_step (snd (check_nonce_replay 1000 toy_context Toy.Aead2022_16 n))
                 [OpPolicy 2000 Ignore; OpCheck 30000 Toy.Aead2022_16 (be_bytes 4 8)] in
  fst (check_nonce_replay 60999 self' Toy.Aead2022_16 n) = Err (OtherKind "detected repeated nonce (iv/salt)").
Proof.
  cbv zeta. apply (aead_2022_replay_rejected (HL := Toy.lru_laws) Server toy_context [] 1000 60999).
  - vm_compute. reflexivity.
  - vm_compute. reflexivity.
  - discriminate.
  - vm_compute. reflexivity.
  - repeat constructor; simpl; lia.
  - lia.
Defined.

Lemma aead_2022_replay_gap_witness :
  let first := check_nonce_replay 1000 toy_context Toy.Aead2022_16 (be_bytes 4 7) in
  timestamp_valid 1000 31 = true ∧ fst first = Ok tt ∧
  timestamp_valid 61500 31 = true ∧ fst (check_nonce_replay 61500 (snd first) Toy.Aead2022_16 (be_bytes 4 7)) = Ok tt.
Proof.
  apply (aead_2022_replay_gap (HL := Toy.lru_laws) Server toy_context 1000 61500).
  - vm_compute. reflexivity.
  - vm_compute. reflexivity.
  - discriminate.
  - reflexivity.
  - reflexivity.
  - lia.
Defined.

Lemma generated_nonce_is_recorded_witness :
  let self := foldl context_step toy_context [OpGenerate 5 Toy.Aead4 (be_bytes 4 0) true [be_bytes 4 7]] in
  let self' := snd (generate_nonce 10 self Toy.Aead4 (be_bytes 4 0) true [be_bytes 4 7; be_bytes 4 9]) in
  fst (ReplayProtector_check_nonce_and_set 11 (replay_protector self') Toy.Aead4 (be_bytes 4 9)) = true.
Proof.
  cbv zeta.
  apply (generated_nonce_is_recorded (CS := Toy.suite) (HL := Toy.lru_laws) (HB := Toy.bloom_laws) Server toy_context
           [OpGenerate (H := Toy.suite) 5 Toy.Aead4 (be_bytes 4 0) true [be_bytes 4 7]] 10 11).
  - vm_compute. reflexivity.
  - vm_compute. discriminate.
  - discriminate.
  - discriminate.
  - vm_compute. reflexivity.
  - lia.
Defined.
