(* ===== verification/TcpStream.v ===== *)
(** * Stream cipher I/O (crates/shadowsocks/src/relay/tcprelay/stream.rs)

    The oldest protocol: an IV, then the plaintext under a stream cipher, with no
    framing.  The reader decrypts whatever piece a read delivers.  Shown: reader
    and writer agree for every fragmentation, and every poll returns. *)
From S2P Require Import Prelude.
From S2P Require Import External.
From S2P Require Import AsyncIo.
From S2P Require Import Replay.

Inductive ProtocolError :=
| IoError (e : io_error)
| DecryptError.

(** [impl From<ProtocolError> for io::Error]. *)
Definition io_Error_from_ProtocolError (e : ProtocolError) : io_error :=
  match e with
  | IoError err => err
  | DecryptError => OtherKind "decrypt failed"
  end.

Section Stream.
Context `{CS : CipherSuite, SC : !StreamCipher, BF : BloomFilter, LC : LruTimeCache}.

(** ** DecryptedReader *)
Inductive DecryptReadState :=
| WaitIv (key : bytes)
| Read.

Record DecryptedReader := {
  rd_state : DecryptReadState;
  rd_cipher : option (Cipher _);
  rd_buffer : bytes;
  rd_method : CipherKind;
  rd_iv : option bytes;
  has_handshaked : bool;
}.

Definition DecryptedReader_new (method : CipherKind) (key : bytes) : DecryptedReader :=
  if (0 <? iv_len method)%nat then
    {| rd_state := WaitIv key; rd_cipher := None; rd_buffer := []; rd_method := method;
       rd_iv := None; has_handshaked := false |}
  else
    {| rd_state := Read; rd_cipher := Some (Cipher_new method key []); rd_buffer := []; rd_method := method;
       rd_iv := Some []; has_handshaked := false |}.

Record rd_env := { dr : DecryptedReader; strm : rstream; ctx : Context }.

Definition set_dr (d : DecryptedReader) (e : rd_env) : rd_env := {| dr := d; strm := strm e; ctx := ctx e |}.
Definition set_strm (s : rstream) (e : rd_env) : rd_env := {| dr := dr e; strm := s; ctx := ctx e |}.
Definition set_ctx (c : Context) (e : rd_env) : rd_env := {| dr := dr e; strm := strm e; ctx := c |}.
Definition set_buffer (b : bytes) (e : rd_env) : rd_env :=
  set_dr {| rd_state := rd_state (dr e); rd_cipher := rd_cipher (dr e); rd_buffer := b; rd_method := rd_method (dr e);
            rd_iv := rd_iv (dr e); has_handshaked := has_handshaked (dr e) |} e.
Definition set_cipher (c : option (Cipher _)) (e : rd_env) : rd_env :=
  set_dr {| rd_state := rd_state (dr e); rd_cipher := c; rd_buffer := rd_buffer (dr e); rd_method := rd_method (dr e);
            rd_iv := rd_iv (dr e); has_handshaked := has_handshaked (dr e) |} e.
Definition set_iv (iv : option bytes) (e : rd_env) : rd_env :=
  set_dr {| rd_state := rd_state (dr e); rd_cipher := rd_cipher (dr e); rd_buffer := rd_buffer (dr e);
            rd_method := rd_method (dr e); rd_iv := iv; has_handshaked := has_handshaked (dr e) |} e.
(** [self.state = Read; self.has_handshaked = true]. *)
Definition set_read (e : rd_env) : rd_env :=
  set_dr {| rd_state := Read; rd_cipher := rd_cipher (dr e); rd_buffer := rd_buffer (dr e);
            rd_method := rd_method (dr e); rd_iv := rd_iv (dr e); has_handshaked := true |} e.

Abbreviation rpoll := (pollm rd_env ProtocolError).

Definition poll_read_exact (size : nat) : rpoll nat :=
  pzoom (λ e, (rd_buffer (dr e), strm e)) (λ '(b, s) e, set_strm s (set_buffer b e))
        IoError (read_exact_poll size).

Definition poll_read_iv (now : Z) (key : bytes) : rpoll unit :=
  method ← pget (λ e, rd_method (dr e));
  n ← poll_read_exact (iv_len method);
  if (n <? iv_len method)%nat then pfail (IoError UnexpectedEof) else
  buffer ← pget (λ e, rd_buffer (dr e));
  iv ← slice_to (iv_len method) buffer;
  context ← pget ctx;
  let '(r, context) := check_nonce_replay now context method iv in
  _ ← pmod (set_ctx context);
  _ ← presult IoError r;
  _ ← pmod (set_iv (Some iv));
  pmod (set_cipher (Some (Cipher_new method key iv))).

(** The [Read] state: one read of the transport, decrypted in place in the
    caller's buffer. *)
Definition read_data (room : nat) : rpoll bytes :=
  m ← pzoom strm set_strm IoError (poll_read room);
  if bool_decide (m = []) then mret [] else
  c ← pget (λ e, rd_cipher (dr e));
  c ← pexpect c "cipher is None";
  let '(r, c) := decrypt_packet c m in
  _ ← pmod (set_cipher (Some c));
  match r with Some m => mret m | None => pfail DecryptError end.

(** The loop runs at most twice: [Read] returns. *)
Definition poll_read_decrypted (now : Z) (room : nat) : rpoll bytes :=
  state ← pget (λ e, rd_state (dr e));
  match state with
  | WaitIv key =>
      _ ← poll_read_iv now key;
      _ ← pmod (set_buffer []);
      _ ← pmod set_read;
      read_data room
  | Read => read_data room
  end.

(** ** EncryptedWriter *)
Inductive EncryptWriteState := AssemblePacket | Writing (pos : nat).

Record EncryptedWriter := {
  wr_cipher : Cipher _;
  wr_buffer : bytes;
  wr_state : EncryptWriteState;
  wr_iv : bytes;
}.

Definition EncryptedWriter_new (method : CipherKind) (key nonce : bytes) : EncryptedWriter :=
  {| wr_cipher := Cipher_new method key nonce; wr_buffer := nonce; wr_state := AssemblePacket; wr_iv := nonce |}.

Definition assemble_packet (buf : bytes) (w : EncryptedWriter) : EncryptedWriter :=
  let '(pkt, c) := encrypt_packet (wr_cipher w) buf in
  {| wr_cipher := c; wr_buffer := wr_buffer w ++ pkt; wr_state := Writing 0; wr_iv := wr_iv w |}.

Definition write_packet (pos : nat) (buf : bytes) : pollm (EncryptedWriter * wstream) ProtocolError nat := λ '(w, s),
  let '(r, (pos, s)) := write_all_poll (wr_buffer w) (pos, s) in
  let w := {| wr_cipher := wr_cipher w; wr_buffer := wr_buffer w; wr_state := Writing pos; wr_iv := wr_iv w |} in
  match r with
  | Ready tt =>
      (Ready (length buf),
       ({| wr_cipher := wr_cipher w; wr_buffer := []; wr_state := AssemblePacket; wr_iv := wr_iv w |}, s))
  | Failed e => (Failed (IoError e), (w, s))
  | Panicked m => (Panicked m, (w, s))
  | Pending => (Pending, (w, s))
  end.

Definition poll_write_encrypted (buf : bytes) : pollm (EncryptedWriter * wstream) ProtocolError nat := λ '(w, s),
  match wr_state w with
  | AssemblePacket => write_packet 0 buf (assemble_packet buf w, s)
  | Writing pos => write_packet pos buf (w, s)
  end.

End Stream.

(** ** Reader and writer agree *)
Section StreamFacts.
Context `{CS : CipherSuite, SC : !StreamCipher, BF : BloomFilter, LC : LruTimeCache}.
Context `{HK : !KeystreamLaws SC}.

Definition iv_accepted (c : Context) (m : CipherKind) (iv : bytes) : Prop :=
  ∀ now, fst (check_nonce_replay now c m iv) = Ok tt.

(** What the reader holds and the transport still delivers is the encryption of
    [rest]. *)
Inductive sees (e : rd_env) (rest : bytes) : Prop :=
| sees_iv key iv :
    rd_state (dr e) = WaitIv key → (0 < length iv)%nat → length iv = iv_len (rd_method (dr e)) →
    (length (rd_buffer (dr e)) ≤ length iv)%nat →
    rd_buffer (dr e) ++ rs_bytes (strm e) = iv ++ fst (encrypt_packet (Cipher_new (rd_method (dr e)) key iv) rest) →
    iv_accepted (ctx e) (rd_method (dr e)) iv → sees e rest
| sees_read c :
    rd_state (dr e) = Read → rd_cipher (dr e) = Some c → rs_bytes (strm e) = fst (encrypt_packet c rest) →
    sees e rest.

Definition sees_clean (e : rd_env) (rest : bytes) : Prop := sees e rest ∧ rs_clean (strm e) = true.

Abbreviation read_spec := (read_step_ok sees_clean (λ e, rs_pendings (strm e))).

(** A prefix of an encryption is the encryption of the prefix. *)
Lemma encrypt_prefix c rest x y :
  x ++ y = fst (encrypt_packet c rest) →
  let a := take (length x) rest in let b := drop (length x) rest in
  x = fst (encrypt_packet c a) ∧ y = fst (encrypt_packet (snd (encrypt_packet c a)) b) ∧ length a = length x.
Proof.
  intros Heq a b.
  assert (length x ≤ length rest)%nat as Hle.
  { apply (f_equal length) in Heq. rewrite length_app, ks_encrypt_length in Heq. lia. }
  assert (length a = length x) as Hla by (unfold a; rewrite length_take; lia).
  rewrite <- (take_drop (length x) rest) in Heq. fold a b in Heq. rewrite ks_encrypt_app in Heq. simpl in Heq.
  apply app_inj_1 in Heq as [Hx Hy]; [done|]. by rewrite ks_encrypt_length.
Qed.

Lemma read_data_sees room rest c e :
  (0 < room)%nat → rs_clean (strm e) = true → rd_state (dr e) = Read → rd_cipher (dr e) = Some c →
  rs_bytes (strm e) = fst (encrypt_packet c rest) →
  read_spec e rest (read_data room e).
Proof.
  intros Hr Hcl Hst Hc Hrs. unfold read_data.
  destruct (strm e) as [|[bs| |x] s] eqn:Es; simpl in Hcl; [| | |done].
  - erewrite pbind_ready by (unfold pzoom; rewrite Es; reflexivity). simpl.
    assert (rest = []) as ->.
    { simpl in Hrs. apply (f_equal length) in Hrs. rewrite ks_encrypt_length in Hrs. by destruct rest. }
    right. exists [], []. split_and!; try done; [|simpl; by rewrite Es]. split; [|done]. by eapply sees_read.
  - apply andb_true_iff in Hcl as [Hbs Hcl]. apply negb_true_iff, bool_decide_eq_false in Hbs.
    destruct (poll_read_data room bs s Hr Hbs) as (s' & Hp & Hne & Happ & Hc' & Hpe & _ & _).
    erewrite pbind_ready by (unfold pzoom; rewrite Es, Hp; reflexivity). cbv beta.
    rewrite bool_decide_false by done. pstep.
    change (rd_cipher (dr (set_strm s' e))) with (rd_cipher (dr e)). rewrite Hc.
    erewrite pbind_ready by reflexivity. cbv beta.
    change (rs_bytes (RdData bs :: s)) with (bs ++ rs_bytes s) in Hrs. rewrite <- Happ in Hrs.
    destruct (encrypt_prefix c rest _ _ Hrs) as (Hx & Hy & Hl).
    set (x := take room bs) in *. set (a := take (length x) rest) in *.
    rewrite Hx, ks_decrypt_encrypt. pstep. right. exists a, (drop (length x) rest).
    split; [done|]. split; [unfold a; by rewrite take_drop|].
    split. { intros Ha. rewrite Ha in Hl. by destruct x. }
    split; [|simpl; rewrite Hpe, Es; done]. split; [|simpl; congruence]. by eapply sees_read.
  - erewrite pbind_pending by (unfold pzoom; rewrite Es; reflexivity).
    left. split; [done|]. split; [|simpl; rewrite Es; simpl; lia]. split; [|done]. by eapply sees_read.
Qed.

Lemma read_spec_le e e1 rest (r : pres ProtocolError bytes * rd_env) :
  (rs_pendings (strm e1) ≤ rs_pendings (strm e))%nat → read_spec e1 rest r → read_spec e rest r.
Proof.
  intros Hle [(H1 & H2 & H3)|(out & rest' & H1 & H2 & H3 & H4 & H5)].
  - left. split_and!; try done. lia.
  - right. exists out, rest'. split_and!; try done. lia.
Qed.

Lemma poll_sees_stream now room e rest :
  (0 < room)%nat → sees_clean e rest → read_spec e rest (poll_read_decrypted now room e).
Proof.
  intros Hr [Hsee Hcl]. unfold poll_read_decrypted. pstep.
  destruct Hsee as [key iv Hst Hpos Hlen Hb Heq Hacc|c Hst Hc Hrs]; rewrite Hst; [|by eapply read_data_sees].
  destruct (read_exact_available (iv_len (rd_method (dr e))) (rd_buffer (dr e)) (strm e) iv _ ltac:(lia) Hcl ltac:(lia) Heq Hlen)
    as [(s & Hp & Hrs & Hc' & Hpe)|(b & s & Hp & Hrs & Hbl & Hc' & Hpe)].
  - pose proof (Hacc now) as Hok.
    destruct (check_nonce_replay now (ctx e) (rd_method (dr e)) iv) as [r ctx'] eqn:Er. simpl in Hok. subst r.
    erewrite pbind_ready; cycle 1.
    { unfold poll_read_iv. pstep.
      erewrite pbind_ready by (unfold poll_read_exact, pzoom; rewrite Hp; reflexivity). cbv beta.
      rewrite Nat.ltb_irrefl. pstep. simpl (rd_buffer _).
      rewrite <- (app_nil_r iv) at 1. erewrite pbind_ready by by apply slice_to_app. pstep.
      simpl (ctx _). rewrite Er. pstep. erewrite pbind_ready by reflexivity. pstep. reflexivity. }
    pstep. eapply read_spec_le; [|eapply read_data_sees; [done|..]]; simpl; done.
  - erewrite pbind_pending; cycle 1.
    { unfold poll_read_iv. pstep. apply pbind_pending. unfold poll_read_exact, pzoom. by rewrite Hp. }
    left. split; [done|]. split; [|done]. split; [|done].
    eapply sees_iv; simpl; try done. lia.
Qed.

(** ** The writer *)
Definition tosend (w : EncryptedWriter) (bufs : list bytes) : bytes :=
  match wr_state w with
  | AssemblePacket => wr_buffer w ++ fst (encrypt_packet (wr_cipher w) (concat bufs))
  | Writing pos => drop pos (wr_buffer w) ++ fst (encrypt_packet (wr_cipher w) (concat (tail bufs)))
  end.

Definition writer_wf (w : EncryptedWriter) (bufs : list bytes) : Prop :=
  match wr_state w with AssemblePacket => True | Writing pos => (pos ≤ length (wr_buffer w))%nat end.

Definition writer_idle (w : EncryptedWriter) : Prop := wr_state w = AssemblePacket ∧ wr_buffer w = [].

Abbreviation step_spec := (write_step_ok tosend writer_wf writer_idle).

Lemma write_packet_step_stream pos buf bufs w s :
  wr_state w = Writing pos → (pos ≤ length (wr_buffer w))%nat → forallb wr_clean (wr_script s) = true →
  (length (drop pos (wr_buffer w) ++ fst (encrypt_packet (wr_cipher w) (concat bufs))) ≤ wr_accepts (wr_script s))%nat →
  step_spec buf bufs (wr_out s ++ drop pos (wr_buffer w) ++ fst (encrypt_packet (wr_cipher w) (concat bufs))) s
    (write_packet pos buf (w, s)).
Proof.
  intros Hst Hpos Hc Hroom. rewrite length_app, length_drop in Hroom.
  destruct (write_all_step (wr_buffer w) pos _ s Hpos Hc Hroom)
    as (s' & Hc' & Hl & [(Hw & Hout & Hroom')|(pos' & Hw & Hpos' & Hout & Hroom' & Hlt)]);
    unfold write_step_ok, write_packet; rewrite Hw; do 3 eexists; (split; [done|]).
  - split; [left; split; [by eexists|]; split; [done|]; by split|].
    unfold tosend. simpl. rewrite Hout, <- app_assoc. by split_and!.
  - split; [right; by split_and!|].
    unfold writer_wf, tosend. simpl. rewrite app_assoc, Hout, <- app_assoc, length_app, length_drop. by split_and!.
Qed.

Lemma poll_write_step_stream buf bufs w s :
  writer_wf w (buf :: bufs) → forallb wr_clean (wr_script s) = true →
  (length (tosend w (buf :: bufs)) ≤ wr_accepts (wr_script s))%nat →
  step_spec buf bufs (wr_out s ++ tosend w (buf :: bufs)) s (poll_write_encrypted buf (w, s)).
Proof.
  intros Hwf Hc Hroom. unfold poll_write_encrypted. unfold tosend at 2. unfold tosend in Hroom. unfold writer_wf in Hwf.
  destruct (wr_state w) as [|pos] eqn:Hst; [|by apply write_packet_step_stream].
  assert (wr_buffer w ++ fst (encrypt_packet (wr_cipher w) (concat (buf :: bufs))) =
    drop 0 (wr_buffer (assemble_packet buf w)) ++
    fst (encrypt_packet (wr_cipher (assemble_packet buf w)) (concat bufs))) as Heq.
  { simpl. rewrite ks_encrypt_app. unfold assemble_packet. destruct (encrypt_packet (wr_cipher w) buf) as [l c1].
    simpl. by rewrite drop_0, <- app_assoc. }
  rewrite Heq in Hroom |- *. apply write_packet_step_stream; [|lia|done|done].
  unfold assemble_packet. by destruct (encrypt_packet (wr_cipher w) buf).
Qed.

(** Transparency of the stream-cipher protocol: what the writer was given
    is what the reader with the same key gives, however the transport cuts the
    bytes and however often either side has to wait, as long as the IV is not
    refused as a replay; every write and every read completes. *)
Theorem stream_transparent method key iv bufs script wpolls s c0 now room rpolls :
  (0 < iv_len method)%nat → length iv = iv_len method → bufs ≠ [] → forallb wr_clean script = true →
  (length iv + length (concat bufs) ≤ wr_accepts script)%nat → (length script + length bufs ≤ wpolls)%nat →
  let sent := wr_out (snd (snd (drive poll_write_encrypted wpolls bufs
    (EncryptedWriter_new method key iv, {| wr_script := script; wr_out := [] |})))) in
  rs_clean s = true → rs_bytes s = sent → iv_accepted c0 method iv → (0 < room)%nat →
  (rs_pendings s + length (concat bufs) < rpolls)%nat →
  drain (poll_read_decrypted now room) rpolls {| dr := DecryptedReader_new method key; strm := s; ctx := c0 |} =
  Some (concat bufs).
Proof.
  intros Hiv Hl Hne Hsc Hroom Hwp sent Hc Hs Hacc Hr Hrp.
  destruct (drive_spec _ tosend writer_wf writer_idle poll_write_step_stream) with (polls := wpolls) (bufs := bufs)
    (w := EncryptedWriter_new method key iv) (s := {| wr_script := script; wr_out := [] |})
    as (w' & s' & H1 & H2); try done.
  { intros w0 [Hst Hb]. unfold tosend. rewrite Hst, Hb. simpl. by rewrite ks_encrypt_nil. }
  { unfold tosend. simpl. rewrite length_app, ks_encrypt_length. done. }
  { by left. }
  unfold sent in Hs. rewrite H1 in Hs. simpl in Hs. rewrite H2 in Hs.
  apply (drain_spec _ sees_clean (λ e, rs_pendings (strm e))); [|split|done].
  - intros e rest. by apply poll_sees_stream.
  - unfold DecryptedReader_new. rewrite (proj2 (Nat.ltb_lt _ _)) by done.
    eapply (sees_iv _ _ key iv); simpl; try done; lia.
  - done.
Qed.
End StreamFacts.

(** ** The reader on any transport *)
Section StreamReaderTotal.
Context `{CS : CipherSuite, SC : !StreamCipher, BF : BloomFilter, LC : LruTimeCache}.

Definition stream_reader_wf (d : DecryptedReader) : Prop :=
  match rd_state d with
  | WaitIv _ => (0 < iv_len (rd_method d))%nat
  | Read => is_Some (rd_cipher d)
  end.

Lemma stream_reader_new_wf method key : stream_reader_wf (DecryptedReader_new method key).
Proof.
  unfold stream_reader_wf, DecryptedReader_new. destruct (Nat.ltb_spec 0 (iv_len method)); simpl; [done|by eexists].
Qed.

Abbreviation safe := (psafe (λ e', stream_reader_wf (dr e'))).

Lemma read_data_safe room e :
  stream_reader_wf (dr e) → rd_state (dr e) = Read →
  safe (λ _ e', stream_reader_wf (dr e')) (read_data room e).
Proof.
  intros Hwf Hst. unfold read_data. eapply psafe_bind with (P := λ _ e', stream_reader_wf (dr e') ∧ rd_state (dr e') = Read).
  { unfold pzoom. pose proof (poll_read_total room (strm e)) as H.
    destruct (poll_read room (strm e)) as [[m|x|m|] s']; destruct H; done. }
  intros m e' [Hwf' Hst']. case_bool_decide; [done|]. pstep. unfold stream_reader_wf in Hwf'. rewrite Hst' in Hwf'.
  destruct Hwf' as [c Hc]. rewrite Hc. erewrite pbind_ready by reflexivity. cbv beta.
  destruct (decrypt_packet c m) as [[m'|] c']; pstep; unfold psafe, stream_reader_wf; simpl; rewrite Hst'; by eexists.
Qed.

Lemma stream_read_safe now room e :
  stream_reader_wf (dr e) → safe (λ _ e', stream_reader_wf (dr e')) (poll_read_decrypted now room e).
Proof.
  intros Hwf. unfold poll_read_decrypted. pstep. destruct (rd_state (dr e)) as [key|] eqn:Hst; [|by apply read_data_safe].
  pose proof Hwf as Hiv. unfold stream_reader_wf in Hiv. rewrite Hst in Hiv.
  eapply psafe_bind with (P := λ _ e', is_Some (rd_cipher (dr e'))).
  2:{ intros [] e' Hc. pstep. apply read_data_safe; [exact Hc|done]. }
  unfold poll_read_iv. pstep. eapply psafe_bind with (P := λ n e',
    stream_reader_wf (dr e') ∧ (n = iv_len (rd_method (dr e)) ∧ (n ≤ length (rd_buffer (dr e')))%nat ∨ n = 0%nat)).
  { unfold poll_read_exact, pzoom.
    pose proof (read_exact_poll_total (iv_len (rd_method (dr e))) (rd_buffer (dr e)) (strm e) Hiv) as H.
    destruct (read_exact_poll _ _) as [r [buf s]]. destruct H as (Hp & Hsz & Hr).
    destruct r as [n|x|m|]; unfold psafe; cbn [fst snd perr]; try done.
    split; [done|]. destruct (Hr n eq_refl) as [(-> & ? & _ & ?)|(-> & -> & _)]; auto. }
  intros n e' [Hwf' Hn]. cbv beta. destruct (Nat.ltb_spec n (iv_len (rd_method (dr e)))) as [|Hge]; [done|].
  destruct Hn as [[-> Hlen]| ->]; [|lia]. pstep. unfold slice_to. rewrite (proj2 (Nat.leb_le _ _)) by lia.
  erewrite pbind_ready by reflexivity. pstep.
  pose proof (check_nonce_replay_no_panic now (ctx e') (rd_method (dr e)) (take (iv_len (rd_method (dr e))) (rd_buffer (dr e')))) as Hnp.
  destruct (check_nonce_replay _ _ _ _) as [[[]|x|m] context]; simpl in Hnp; [|by pstep|done]. pstep.
  unfold psafe. simpl. by eexists.
Qed.
End StreamReaderTotal.

(** ** Examples *)
#[local] Existing Instances Toy.suite Toy.stream_cipher Toy.bloom Toy.lru.

Definition toy_bufs : list bytes := [be_bytes 3 0x010203; be_bytes 5 0xaabbccddee].
Definition toy_wire : bytes := tosend (EncryptedWriter_new Toy.Stream4 (be_bytes 4 5) (be_bytes 4 9)) toy_bufs.

Lemma stream_transparent_witness :
  drain (poll_read_decrypted 0 3) 20
    {| dr := DecryptedReader_new Toy.Stream4 (be_bytes 4 5);
       strm := [RdData (take 2 toy_wire); RdPending; RdData (drop 2 toy_wire); RdPending]; ctx := toy_context |} =
  Some (be_bytes 3 0x010203 ++ be_bytes 5 0xaabbccddee).
Proof.
  change (be_bytes 3 0x010203 ++ be_bytes 5 0xaabbccddee) with (concat toy_bufs).
  apply (stream_transparent (HK := Toy.keystream_laws) Toy.Stream4 (be_bytes 4 5) (be_bytes 4 9) toy_bufs
    ([WrAccept 1; WrPending] ++ replicate 20 (WrAccept 1)) 40).
  all: try discriminate; try reflexivity; try (vm_compute; lia).
  intros now. reflexivity.
Defined.
