(* ===== verification/TcpAead.v ===== *)
(** * AEAD packet I/O (crates/shadowsocks/src/relay/tcprelay/aead.rs)

    The chunked AEAD stream: a salt, then for every chunk its encrypted length
    and its encrypted data.  [DecryptedReader] and [EncryptedWriter] are state
    machines that are polled; a poll that finds the transport not ready leaves
    them where the next poll resumes.  Shown: the reader ends every poll and never
    panics, whatever the transport delivers; and the reader gives back exactly
    what the writer was given, however the transport cuts the bytes in pieces. *)
From S2P Require Import Prelude.
From S2P Require Import External.
From S2P Require Import AsyncIo.
From S2P Require Import Replay.

Definition MAX_PACKET_SIZE : nat := Z.to_nat 0x3FFF.

Inductive ProtocolError :=
| IoError (e : io_error)
| HeaderTooShort (expecting found : nat)
| DecryptDataError
| DecryptLengthError
| DataTooLong (n : nat).

(** [impl From<ProtocolError> for io::Error]. *)
Definition io_Error_from_ProtocolError (e : ProtocolError) : io_error :=
  match e with
  | IoError err => err
  | HeaderTooShort _ _ => OtherKind "header too short"
  | DecryptDataError => OtherKind "decrypt data failed"
  | DecryptLengthError => OtherKind "decrypt length failed"
  | DataTooLong _ => OtherKind "buffer size too large"
  end.

Section Aead.
Context `{CS : CipherSuite, SC : !StreamCipher, BF : BloomFilter, LC : LruTimeCache}.

(** ** DecryptedReader *)
Inductive DecryptReadState :=
| WaitSalt (key : bytes)
| ReadLength
| ReadData (length : nat)
| BufferedData (pos : nat).

Record DecryptedReader := {
  rd_state : DecryptReadState;
  rd_cipher : option (Cipher _);
  rd_buffer : bytes;
  rd_method : CipherKind;
  rd_salt : option bytes;
  has_handshaked : bool;
}.

Definition DecryptedReader_new (method : CipherKind) (key : bytes) : DecryptedReader :=
  if (0 <? salt_len method)%nat then
    {| rd_state := WaitSalt key; rd_cipher := None; rd_buffer := [];
       rd_method := method; rd_salt := None; has_handshaked := false |}
  else
    {| rd_state := ReadLength; rd_cipher := Some (Cipher_new method key []); rd_buffer := [];
       rd_method := method; rd_salt := None; has_handshaked := false |}.

(** The reader with the transport and the shared context it is polled with. *)
Record rd_env := { dr : DecryptedReader; strm : rstream; ctx : Context }.

Definition set_dr (f : DecryptedReader → DecryptedReader) (e : rd_env) : rd_env :=
  {| dr := f (dr e); strm := strm e; ctx := ctx e |}.
Definition set_ctx (c : Context) (e : rd_env) : rd_env := {| dr := dr e; strm := strm e; ctx := c |}.

Definition set_state (s : DecryptReadState) : rd_env → rd_env := set_dr (λ d,
  {| rd_state := s; rd_cipher := rd_cipher d; rd_buffer := rd_buffer d; rd_method := rd_method d;
     rd_salt := rd_salt d; has_handshaked := has_handshaked d |}).
Definition set_cipher (c : option (Cipher _)) : rd_env → rd_env := set_dr (λ d,
  {| rd_state := rd_state d; rd_cipher := c; rd_buffer := rd_buffer d; rd_method := rd_method d;
     rd_salt := rd_salt d; has_handshaked := has_handshaked d |}).
Definition set_buffer (b : bytes) : rd_env → rd_env := set_dr (λ d,
  {| rd_state := rd_state d; rd_cipher := rd_cipher d; rd_buffer := b; rd_method := rd_method d;
     rd_salt := rd_salt d; has_handshaked := has_handshaked d |}).
Definition set_salt (s : option bytes) : rd_env → rd_env := set_dr (λ d,
  {| rd_state := rd_state d; rd_cipher := rd_cipher d; rd_buffer := rd_buffer d; rd_method := rd_method d;
     rd_salt := s; has_handshaked := has_handshaked d |}).
Definition set_handshaked (b : bool) : rd_env → rd_env := set_dr (λ d,
  {| rd_state := rd_state d; rd_cipher := rd_cipher d; rd_buffer := rd_buffer d; rd_method := rd_method d;
     rd_salt := rd_salt d; has_handshaked := b |}).

Abbreviation rpoll := (pollm rd_env ProtocolError).

Definition method_ : rpoll CipherKind := pget (λ e, rd_method (dr e)).

Definition poll_read_exact (size : nat) : rpoll nat :=
  pzoom (λ e, (rd_buffer (dr e), strm e))
        (λ '(b, s) e, {| dr := dr (set_buffer b e); strm := s; ctx := ctx e |})
        IoError (read_exact_poll size).

(** [cipher.decrypt_packet(&mut self.buffer[..n])], in place. *)
Definition decrypt_in_place (n : nat) (err : ProtocolError) : rpoll bytes :=
  c ← pget (λ e, rd_cipher (dr e));
  c ← pexpect c "cipher is None";
  buffer ← pget (λ e, rd_buffer (dr e));
  m ← slice_to n buffer;
  let '(r, c) := decrypt_packet c m in
  _ ← pmod (set_cipher (Some c));
  match r with
  | Some m => _ ← pmod (set_buffer (m ++ drop n buffer)); mret m
  | None => pfail err
  end.

Definition poll_read_salt (key : bytes) : rpoll unit :=
  method ← method_;
  n ← poll_read_exact (salt_len method);
  if (n <? salt_len method)%nat then pfail (IoError UnexpectedEof) else
  buffer ← pget (λ e, rd_buffer (dr e));
  salt ← slice_to (salt_len method) buffer;
  _ ← pmod (set_salt (Some salt));
  pmod (set_cipher (Some (Cipher_new method key salt))).

(** [u16::from_be_bytes([m[0], m[1]])] of the decrypted slice. *)
Definition decrypt_length (length_len : nat) : rpoll nat :=
  m ← decrypt_in_place length_len DecryptLengthError;
  m ← slice_to 2 m;
  let plen := Z.to_nat (be_Z m) in
  if (MAX_PACKET_SIZE <? plen)%nat then pfail (DataTooLong plen) else mret plen.

Definition poll_read_length : rpoll (option nat) :=
  method ← method_;
  let length_len := (2 + tag_len method)%nat in
  n ← poll_read_exact length_len;
  if bool_decide (n = 0%nat) then mret None else
  length ← decrypt_length length_len;
  mret (Some length).

(** Check the salt after the first successful decryption. *)
Definition check_salt (now : Z) (method : CipherKind) : rpoll unit :=
  salt ← pget (λ e, rd_salt (dr e));
  match salt with
  | None => mret tt
  | Some salt =>
      _ ← pmod (set_salt None);
      context ← pget ctx;
      let '(r, context) := check_nonce_replay now context method salt in
      _ ← pmod (set_ctx context);
      presult IoError r
  end.

Definition poll_read_data (now : Z) (size : nat) : rpoll unit :=
  method ← method_;
  let data_len := (size + tag_len method)%nat in
  n ← poll_read_exact data_len;
  if bool_decide (n = 0%nat) then pfail (IoError UnexpectedEof) else
  _ ← decrypt_in_place data_len DecryptDataError;
  _ ← check_salt now method;
  buffer ← pget (λ e, rd_buffer (dr e));
  pmod (set_buffer (take size buffer)).

(** One pass of the loop: [None] to go round again, [Some out] when the poll
    returns with [out] put into the caller's buffer, which has room for [room]
    bytes. *)
Definition read_pass (now : Z) (room : nat) : rpoll (option bytes) :=
  state ← pget (λ e, rd_state (dr e));
  match state with
  | WaitSalt key =>
      _ ← poll_read_salt key;
      _ ← pmod (set_buffer []);
      _ ← pmod (set_state ReadLength);
      _ ← pmod (set_handshaked true);
      mret None
  | ReadLength =>
      r ← poll_read_length;
      match r with
      | None => mret (Some [])
      | Some length =>
          _ ← pmod (set_buffer []);
          _ ← pmod (set_state (ReadData length));
          mret None
      end
  | ReadData length =>
      _ ← poll_read_data now length;
      _ ← pmod (set_state (BufferedData 0));
      mret None
  | BufferedData pos =>
      buffer ← pget (λ e, rd_buffer (dr e));
      if (pos <? length buffer)%nat then
        let buffered := drop pos buffer in
        let consumed := Nat.min (length buffered) room in
        _ ← pmod (set_state (BufferedData (pos + consumed)));
        mret (Some (take consumed buffered))
      else
        _ ← pmod (set_buffer []);
        _ ← pmod (set_state ReadLength);
        mret None
  end.

Fixpoint poll_read_decrypted_loop (fuel : nat) (now : Z) (room : nat) : rpoll bytes :=
  match fuel with
  | O => ppanic "out of fuel"
  | S fuel =>
      r ← read_pass now room;
      match r with
      | Some out => mret out
      | None => poll_read_decrypted_loop fuel now room
      end
  end.

(** A bound on the passes left: a chunk takes at least two bytes off the
    transport. *)
Definition read_measure (e : rd_env) : nat :=
  4 * rs_size (strm e) +
  match rd_state (dr e) with
  | WaitSalt _ => 4
  | ReadLength => if bool_decide (rd_buffer (dr e) = []) then 0 else 3
  | ReadData _ => 2
  | BufferedData _ => 1
  end.

Definition poll_read_decrypted (now : Z) (room : nat) : rpoll bytes := λ e,
  poll_read_decrypted_loop (S (read_measure e)) now room e.

(** ** EncryptedWriter *)
Inductive EncryptWriteState := AssemblePacket | Writing (pos : nat).

Record EncryptedWriter := {
  wr_cipher : Cipher _;
  wr_buffer : bytes;
  wr_state : EncryptWriteState;
  wr_salt : bytes;
}.

Definition EncryptedWriter_new (method : CipherKind) (key nonce : bytes) : EncryptedWriter :=
  {| wr_cipher := Cipher_new method key nonce; wr_buffer := nonce; wr_state := AssemblePacket; wr_salt := nonce |}.

(** The [AssemblePacket] step on [buf]: append the length and the data. *)
Definition assemble_packet (buf : bytes) (w : EncryptedWriter) : EncryptedWriter :=
  let '(len_pkt, c) := encrypt_packet (wr_cipher w) (be_bytes 2 (Z.of_nat (length buf))) in
  let '(data_pkt, c) := encrypt_packet c buf in
  {| wr_cipher := c; wr_buffer := wr_buffer w ++ len_pkt ++ data_pkt; wr_state := Writing 0; wr_salt := wr_salt w |}.

(** The [Writing] step: write the rest of the buffer, then reset. *)
Definition write_packet (pos : nat) (buf : bytes) : pollm (EncryptedWriter * wstream) io_error nat := λ '(w, s),
  let '(r, (pos, s)) := write_all_poll (wr_buffer w) (pos, s) in
  let w := {| wr_cipher := wr_cipher w; wr_buffer := wr_buffer w; wr_state := Writing pos; wr_salt := wr_salt w |} in
  match r with
  | Ready tt =>
      (Ready (length buf),
       ({| wr_cipher := wr_cipher w; wr_buffer := []; wr_state := AssemblePacket; wr_salt := wr_salt w |}, s))
  | Failed e => (Failed e, (w, s))
  | Panicked m => (Panicked m, (w, s))
  | Pending => (Pending, (w, s))
  end.

Definition poll_write_encrypted (buf : bytes) : pollm (EncryptedWriter * wstream) io_error nat := λ '(w, s),
  let buf := if (MAX_PACKET_SIZE <? length buf)%nat then take MAX_PACKET_SIZE buf else buf in
  match wr_state w with
  | AssemblePacket => write_packet 0 buf (assemble_packet buf w, s)
  | Writing pos => write_packet pos buf (w, s)
  end.

End Aead.

(** ** The reader on any transport *)
Section ReaderTotal.
Context `{CS : CipherSuite, SC : !StreamCipher, BF : BloomFilter, LC : LruTimeCache}.
Context `{HSC : !StreamCipherLaws SC}.
Abbreviation rpoll := (pollm rd_env ProtocolError).

(** Invariant of a reader of an AEAD method: outside [WaitSalt] there is a
    cipher, and the sizes it reads are not zero. *)
Definition reader_wf (d : DecryptedReader) : Prop :=
  (0 < tag_len (rd_method d))%nat ∧
  match rd_state d with
  | WaitSalt _ => (0 < salt_len (rd_method d))%nat
  | _ => is_Some (rd_cipher d)
  end.

Lemma reader_new_wf method key : (0 < tag_len method)%nat → reader_wf (DecryptedReader_new method key).
Proof.
  intros. unfold DecryptedReader_new, reader_wf.
  destruct (Nat.ltb_spec 0 (salt_len method)); simpl; eauto.
Qed.

(** What a step of the reader guarantees: no panic, the invariant, no byte put
    back into the transport, and progress when the loop goes round. *)
Definition step_ok {A} (P : A → rd_env → Prop) (r : pres ProtocolError A * rd_env) (e : rd_env) : Prop :=
  is_panicked (fst r) = false ∧
  rd_method (dr (snd r)) = rd_method (dr e) ∧
  match fst r with Ready a => P a (snd r) | _ => reader_wf (dr (snd r)) end.

Lemma step_ok_bind {A B} (p : rpoll A) (f : A → rpoll B) P Q e :
  step_ok P (p e) e →
  (∀ a e', rd_method (dr e') = rd_method (dr e) → P a e' → step_ok Q (f a e') e) →
  step_ok Q ((p ≫= f) e) e.
Proof.
  intros Hp Hf. unfold mbind, pollm_bind. destruct (p e) as [[a|x|m|] e'] eqn:E;
    destruct Hp as (H1 & H2 & H3); simpl in *; try done. by apply Hf.
Qed.

(** [poll_read_exact] changes the buffer and the transport only. *)
Lemma poll_read_exact_ok size e :
  (0 < size)%nat → reader_wf (dr e) →
  step_ok (λ n e', ∃ buf s,
    e' = {| dr := dr (set_buffer buf e); strm := s; ctx := ctx e |} ∧
    (rs_size s ≤ rs_size (strm e))%nat ∧
    (n = size ∧ (size ≤ length buf)%nat ∧
     (rs_size s + length buf ≤ rs_size (strm e) + length (rd_buffer (dr e)))%nat
     ∨ n = 0%nat ∧ buf = []))
    (poll_read_exact size e) e.
Proof.
  intros Hs Hwf. unfold poll_read_exact, pzoom.
  pose proof (read_exact_poll_total size (rd_buffer (dr e)) (strm e) Hs) as H.
  destruct (read_exact_poll size _) as [r [buf s]]. destruct H as (Hp & Hsz & Hr).
  destruct r as [n|x|m|]; simpl in *; (split; [done|]); (split; [done|]); try done.
  exists buf, s. split; [done|]. split; [done|].
  destruct (Hr n eq_refl) as [(-> & ? & _ & ?)|(-> & -> & _)]; auto.
Qed.

(** [decrypt_in_place] on a buffer that is long enough. *)
Lemma decrypt_in_place_ok n err e c :
  reader_wf (dr e) → rd_cipher (dr e) = Some c → (n ≤ length (rd_buffer (dr e)))%nat →
  step_ok (λ m e', length m = n ∧ ∃ c' buf, e' = set_buffer buf (set_cipher (Some c') e))
    (decrypt_in_place n err e) e.
Proof.
  intros Hwf Hc Hn. unfold decrypt_in_place, mbind, pollm_bind, pget, pexpect. rewrite Hc. simpl.
  unfold slice_to. rewrite (proj2 (Nat.leb_le _ _) Hn). simpl.
  destruct (decrypt_packet c _) as [[m|] c'] eqn:E; simpl.
  - split; [done|]. split; [done|]. simpl. apply decrypt_length_eq in E. rewrite length_take in E.
    split; [lia|eauto].
  - split; [done|]. split; [done|]. simpl. destruct Hwf as [Ht Hwf]. split; [done|]. simpl in *.
    destruct (rd_state (dr e)); eauto.
Qed.

Lemma step_ok_ret {A} (P : A → rd_env → Prop) a e e' :
  rd_method (dr e') = rd_method (dr e) → P a e' → step_ok P (Ready a, e') e.
Proof. done. Qed.

Lemma step_ok_fail {A} (P : A → rd_env → Prop) x e e' :
  rd_method (dr e') = rd_method (dr e) → reader_wf (dr e') → step_ok P (Failed x, e') e.
Proof. done. Qed.

(** A pass of the loop. *)
Definition pass_ok (e : rd_env) (r : option bytes) (e' : rd_env) : Prop :=
  reader_wf (dr e') ∧ (r = None → (read_measure e' < read_measure e)%nat).

Lemma salt_pass_ok now room key e :
  rd_state (dr e) = WaitSalt key → reader_wf (dr e) →
  step_ok (pass_ok e) (read_pass now room e) e.
Proof.
  intros Hst Hwf. unfold read_pass. unfold mbind at 1, pollm_bind, pget at 1. rewrite Hst.
  pose proof Hwf as [Ht Hs]. rewrite Hst in Hs.
  eapply step_ok_bind with (P := λ _ e', ∃ c buf s salt,
    e' = set_cipher (Some c) (set_salt salt {| dr := dr (set_buffer buf e); strm := s; ctx := ctx e |}) ∧
    (rs_size s ≤ rs_size (strm e))%nat).
  - unfold poll_read_salt. unfold mbind at 1, pollm_bind, method_, pget at 1.
    eapply step_ok_bind; [by apply poll_read_exact_ok|].
    intros n e' Hm (buf & s & -> & Hsz & Hn). simpl.
    destruct (Nat.ltb_spec n (salt_len (rd_method (dr e)))) as [|Hge].
    { apply step_ok_fail; [done|]. split; simpl; [done|]. by rewrite Hst. }
    destruct Hn as [(-> & Hlen & _)|(-> & ->)]; [|lia].
    unfold mbind, pollm_bind, pget, slice_to. simpl. rewrite (proj2 (Nat.leb_le _ _) Hlen). simpl.
    split; [done|]. split; [done|]. simpl. by do 4 eexists.
  - intros _ e' Hm (c & buf & s & salt & -> & Hsz). split; [done|]. split; [done|]. simpl.
    split; [split; simpl; eauto|]. intros _. unfold read_measure. simpl. rewrite Hst. lia.
Qed.

Lemma length_pass_ok now room e :
  rd_state (dr e) = ReadLength → reader_wf (dr e) →
  step_ok (pass_ok e) (read_pass now room e) e.
Proof.
  intros Hst Hwf. unfold read_pass. unfold mbind at 1, pollm_bind, pget at 1. rewrite Hst.
  pose proof Hwf as [Ht Hs]. rewrite Hst in Hs. destruct Hs as [c Hc].
  eapply step_ok_bind with (P := λ r e', reader_wf (dr e') ∧
    match r with None => True | Some _ => is_Some (rd_cipher (dr e')) ∧
      (4 * rs_size (strm e') + 2 < read_measure e)%nat end).
  - unfold poll_read_length. unfold mbind at 1, pollm_bind, method_, pget at 1.
    eapply step_ok_bind; [apply poll_read_exact_ok; [lia|done]|].
    intros n e' Hm (buf & s & -> & Hsz & Hn). simpl.
    assert (reader_wf (dr (set_buffer buf e))) as Hwf' by (split; simpl; [done|rewrite Hst; eauto]).
    case_bool_decide as Hz; [by apply step_ok_ret|].
    destruct Hn as [(-> & Hlen & Hsz')|(-> & ->)]; [|done].
    assert (4 * rs_size s + 2 < read_measure e)%nat as Hmeas.
    { unfold read_measure. rewrite Hst. case_bool_decide as Hb; [rewrite Hb in Hsz'; simpl in Hsz'|]; lia. }
    set (e1 := {| dr := _; strm := s; ctx := ctx e |}).
    assert (step_ok (λ l e', reader_wf (dr e') ∧ is_Some (rd_cipher (dr e')) ∧ strm e' = s)
             (decrypt_length (2 + tag_len (rd_method (dr e))) e1) e1) as Hdec.
    { unfold decrypt_length. eapply step_ok_bind; [by eapply (decrypt_in_place_ok _ _ e1 c)|].
      intros m e' _ (Hml & c' & buf' & ->). unfold mbind, pollm_bind, slice_to.
      rewrite (proj2 (Nat.leb_le _ _)) by lia. simpl.
      assert (reader_wf (dr (set_buffer buf' (set_cipher (Some c') e1)))) as Hw.
      { split; simpl; [done|]. rewrite Hst. eauto. }
      case_match; [by apply step_ok_fail|]. apply step_ok_ret; [done|]. split; [done|]. simpl. eauto. }
    unfold step_ok in Hdec |- *. unfold mbind, pollm_bind.
    destruct (decrypt_length _ e1) as [[l|x|m|] e2]; simpl in *; try done.
    destruct Hdec as (_ & Hm2 & Hw & Hci & Hstr). split; [done|]. split; [done|]. split; [done|]. split; [done|].
    by rewrite Hstr.
  - intros [l|] e' Hm [Hw H].
    + destruct H as [Hci Hme]. split; [done|]. split; [done|]. split; simpl.
      * split; simpl; [congruence|]. by destruct (rd_cipher (dr e')).
      * intros _. unfold read_measure at 1. simpl. lia.
    + apply step_ok_ret; [done|]. by split.
Qed.

Lemma check_salt_ok now e :
  reader_wf (dr e) →
  step_ok (λ _ e', reader_wf (dr e') ∧ strm e' = strm e ∧ rd_buffer (dr e') = rd_buffer (dr e) ∧
                   rd_cipher (dr e') = rd_cipher (dr e))
    (check_salt now (rd_method (dr e)) e) e.
Proof.
  intros Hwf. unfold check_salt. unfold mbind at 1, pollm_bind, pget at 1.
  destruct (rd_salt (dr e)) as [salt|]; [|by apply step_ok_ret].
  unfold mbind, pollm_bind, pget, pmod. simpl.
  destruct (check_nonce_replay now (ctx e) _ salt) as [r c] eqn:E. simpl.
  destruct r as [[]|x|m]; simpl.
  - by apply step_ok_ret.
  - by apply step_ok_fail.
  - pose proof (check_nonce_replay_no_panic now (ctx e) (rd_method (dr e)) salt) as Hn. by rewrite E in Hn.
Qed.

Lemma data_pass_ok now room len e :
  rd_state (dr e) = ReadData len → reader_wf (dr e) →
  step_ok (pass_ok e) (read_pass now room e) e.
Proof.
  intros Hst Hwf. unfold read_pass. unfold mbind at 1, pollm_bind, pget at 1. rewrite Hst.
  pose proof Hwf as [Ht Hs]. rewrite Hst in Hs. destruct Hs as [c Hc].
  eapply step_ok_bind with (P := λ _ e', reader_wf (dr e') ∧ is_Some (rd_cipher (dr e')) ∧
    (rs_size (strm e') ≤ rs_size (strm e))%nat).
  - unfold poll_read_data. unfold mbind at 1, pollm_bind, method_, pget at 1.
    eapply step_ok_bind; [apply poll_read_exact_ok; [lia|done]|].
    intros n e' Hm (buf & s & -> & Hsz & Hn). simpl.
    assert (reader_wf (dr (set_buffer buf e))) as Hwf' by (split; simpl; [done|rewrite Hst; eauto]).
    case_bool_decide as Hz; [by apply step_ok_fail|].
    destruct Hn as [(-> & Hlen & _)|(-> & ->)]; [|done].
    set (e1 := {| dr := _; strm := s; ctx := ctx e |}).
    change (rd_method (dr e)) with (rd_method (dr e1)).
    eapply (step_ok_bind _ _ _ _ e1); [by eapply (decrypt_in_place_ok _ _ e1 c)|].
    intros m e' Hm' (Hml & c' & buf' & ->).
    set (e2 := set_buffer buf' (set_cipher (Some c') e1)).
    change (rd_method (dr e1)) with (rd_method (dr e2)).
    eapply (step_ok_bind _ _ _ _ e2).
    { apply check_salt_ok. split; simpl; [done|]. rewrite Hst. eauto. }
    intros [] e' Hm2 (Hw & Hstr & _ & Hci). split; [done|]. split; [done|]. simpl.
    split; [done|]. split; [rewrite Hci; simpl; eauto|]. by rewrite Hstr.
  - intros [] e' Hm (Hw & Hci & Hsz). split; [done|]. split; [done|]. split; simpl.
    + split; simpl; [congruence|done].
    + intros _. unfold read_measure. simpl. rewrite Hst. lia.
Qed.

Lemma buffered_pass_ok now room pos e :
  rd_state (dr e) = BufferedData pos → reader_wf (dr e) →
  step_ok (pass_ok e) (read_pass now room e) e.
Proof.
  intros Hst Hwf. unfold read_pass, mbind, pollm_bind, pget. rewrite Hst. simpl.
  pose proof Hwf as [Ht Hs]. rewrite Hst in Hs.
  destruct (pos <? length (rd_buffer (dr e)))%nat; simpl.
  - apply step_ok_ret; [done|]. split; [by split|done].
  - apply step_ok_ret; [done|]. split; [by split|]. intros _. unfold read_measure. simpl. rewrite Hst. lia.
Qed.

Lemma read_pass_ok now room e :
  reader_wf (dr e) → step_ok (pass_ok e) (read_pass now room e) e.
Proof.
  intros Hwf. destruct (rd_state (dr e)) eqn:Hst;
    eauto using salt_pass_ok, length_pass_ok, data_pass_ok, buffered_pass_ok.
Qed.

Lemma read_loop_ok fuel now room e :
  (read_measure e < fuel)%nat → reader_wf (dr e) →
  step_ok (λ _ e', reader_wf (dr e')) (poll_read_decrypted_loop fuel now room e) e.
Proof.
  revert e. induction fuel as [|fuel IH]; intros e Hf Hwf; [lia|]. cbn [poll_read_decrypted_loop].
  eapply step_ok_bind; [by apply read_pass_ok|].
  intros [out|] e' Hm [Hw Hmeas]; [by apply step_ok_ret|].
  specialize (Hmeas eq_refl). destruct (IH e' ltac:(lia) Hw) as (H1 & H2 & H3).
  split; [done|]. split; [congruence|done].
Qed.

(** The AEAD reader is total: for a method with a tag, whatever the
    transport delivers (any bytes in any pieces, ends, errors, polls that find
    nothing), every poll of a reader that was only ever polled returns: the
    loop ends, no slice or [expect] panics, and a poll can follow. *)
Theorem aead_reader_total method key c0 (polls : list (Z * nat * rstream)) :
  (0 < tag_len method)%nat →
  let e := foldl (λ e '(now, room, more),
             snd (poll_read_decrypted now room {| dr := dr e; strm := strm e ++ more; ctx := ctx e |}))
             {| dr := DecryptedReader_new method key; strm := []; ctx := c0 |} polls in
  ∀ now room more,
    is_panicked (fst (poll_read_decrypted now room {| dr := dr e; strm := strm e ++ more; ctx := ctx e |})) = false.
Proof.
  intros Ht. cbv zeta.
  assert (∀ e, reader_wf (dr e) → reader_wf (dr (foldl (λ e '(now, room, more),
    snd (poll_read_decrypted now room {| dr := dr e; strm := strm e ++ more; ctx := ctx e |})) e polls))) as Hfold.
  { induction polls as [|[[now room] more] polls IH]; intros e Hwf; [done|]. simpl. apply IH.
    destruct (read_loop_ok (S (read_measure {| dr := dr e; strm := strm e ++ more; ctx := ctx e |})) now room
      {| dr := dr e; strm := strm e ++ more; ctx := ctx e |}) as (_ & _ & H); [lia|done|].
    unfold poll_read_decrypted. destruct (poll_read_decrypted_loop _ _ _ _) as [[]]; done. }
  intros now room more. unfold poll_read_decrypted. apply read_loop_ok; [lia|].
  apply Hfold. by apply reader_new_wf.
Qed.
End ReaderTotal.

(** ** The wire format *)
Section Wire.
Context `{CS : CipherSuite, SC : !StreamCipher}.

(** A chunk on the wire, and a sequence of them, from a cipher state. *)
Definition frame (c : Cipher _) (chunk : bytes) : bytes * Cipher _ :=
  let '(l, c) := encrypt_packet c (be_bytes 2 (Z.of_nat (length chunk))) in
  let '(d, c) := encrypt_packet c chunk in (l ++ d, c).

Fixpoint frames (c : Cipher _) (chunks : list bytes) : bytes :=
  match chunks with
  | [] => []
  | chunk :: chunks => let '(f, c) := frame c chunk in f ++ frames c chunks
  end.
End Wire.

(** ** The reader on a well-formed stream *)
Section ReaderWire.
Context `{CS : CipherSuite, SC : !StreamCipher, BF : BloomFilter, LC : LruTimeCache}.
Context `{HSC : !StreamCipherLaws SC}.

Definition salt_accepted (c : Context) (m : CipherKind) (salt : bytes) : Prop :=
  ∀ now, fst (check_nonce_replay now c m salt) = Ok tt.

Definition chunk_ok (chunk : bytes) : Prop := (length chunk ≤ MAX_PACKET_SIZE)%nat.

(** [sees e rest]: what the reader holds and the transport still delivers is the
    encryption of [rest], from the point the reader's state is at. *)
Inductive sees (e : rd_env) (rest : bytes) : Prop :=
| sees_salt key salt cs :
    rd_state (dr e) = WaitSalt key → length salt = salt_len (rd_method (dr e)) →
    (length (rd_buffer (dr e)) ≤ length salt)%nat →
    rd_buffer (dr e) ++ rs_bytes (strm e) = salt ++ frames (Cipher_new (rd_method (dr e)) key salt) cs →
    salt_accepted (ctx e) (rd_method (dr e)) salt →
    Forall chunk_ok cs → rest = concat cs → sees e rest
| sees_length c cs :
    rd_state (dr e) = ReadLength → rd_cipher (dr e) = Some c → cipher_tag_len c = tag_len (rd_method (dr e)) →
    (length (rd_buffer (dr e)) ≤ 2 + tag_len (rd_method (dr e)))%nat →
    rd_buffer (dr e) ++ rs_bytes (strm e) = frames c cs →
    (∀ salt, rd_salt (dr e) = Some salt → salt_accepted (ctx e) (rd_method (dr e)) salt) →
    Forall chunk_ok cs → rest = concat cs → sees e rest
| sees_data c chunk cs :
    rd_state (dr e) = ReadData (length chunk) → rd_cipher (dr e) = Some c →
    cipher_tag_len c = tag_len (rd_method (dr e)) →
    (length (rd_buffer (dr e)) ≤ length chunk + tag_len (rd_method (dr e)))%nat →
    rd_buffer (dr e) ++ rs_bytes (strm e) =
      fst (encrypt_packet c chunk) ++ frames (snd (encrypt_packet c chunk)) cs →
    (∀ salt, rd_salt (dr e) = Some salt → salt_accepted (ctx e) (rd_method (dr e)) salt) →
    Forall chunk_ok cs → rest = chunk ++ concat cs → sees e rest
| sees_buffered pos c cs :
    rd_state (dr e) = BufferedData pos → rd_cipher (dr e) = Some c →
    cipher_tag_len c = tag_len (rd_method (dr e)) →
    rs_bytes (strm e) = frames c cs → rd_salt (dr e) = None →
    Forall chunk_ok cs → rest = drop pos (rd_buffer (dr e)) ++ concat cs → sees e rest.

(** Outcome of a pass or a poll of such a reader. *)
Inductive pass_sees (room : nat) (e : rd_env) (rest : bytes) : pres ProtocolError (option bytes) * rd_env → Prop :=
| ps_pending e' :
    sees e' rest → rs_clean (strm e') = true → (rs_pendings (strm e') < rs_pendings (strm e))%nat →
    pass_sees room e rest (Pending, e')
| ps_again e' :
    sees e' rest → rs_clean (strm e') = true → (rs_pendings (strm e') ≤ rs_pendings (strm e))%nat →
    pass_sees room e rest (Ready None, e')
| ps_out out rest' e' :
    rest = out ++ rest' → (out = [] → rest = [] ∨ room = 0%nat) →
    sees e' rest' → rs_clean (strm e') = true → (rs_pendings (strm e') ≤ rs_pendings (strm e))%nat →
    pass_sees room e rest (Ready (Some out), e').

(** [poll_read_exact] in terms of the clean loop. *)
Lemma poll_read_exact_eq size e :
  poll_read_exact size e =
  let '(r, (b, s)) := read_exact_poll size (rd_buffer (dr e), strm e) in
  (perr IoError r, {| dr := dr (set_buffer b e); strm := s; ctx := ctx e |}).
Proof. unfold poll_read_exact, pzoom. by destruct (read_exact_poll _ _) as [r [b s]]. Qed.

(** Reading [size] bytes that are there: done or not yet. *)
Lemma read_available size e w rest :
  (0 < size)%nat → rs_clean (strm e) = true → (length (rd_buffer (dr e)) ≤ size)%nat →
  rd_buffer (dr e) ++ rs_bytes (strm e) = w ++ rest → length w = size →
  (∃ s, poll_read_exact size e = (Ready size, {| dr := dr (set_buffer w e); strm := s; ctx := ctx e |}) ∧
        rs_bytes s = rest ∧ rs_clean s = true ∧ (rs_pendings s ≤ rs_pendings (strm e))%nat) ∨
  (∃ b s, poll_read_exact size e = (Pending, {| dr := dr (set_buffer b e); strm := s; ctx := ctx e |}) ∧
        b ++ rs_bytes s = w ++ rest ∧ (length b ≤ size)%nat ∧
        rs_clean s = true ∧ (rs_pendings s < rs_pendings (strm e))%nat).
Proof.
  intros Hs Hc Hb Heq Hw. rewrite poll_read_exact_eq.
  destruct (read_exact_available _ _ _ _ _ Hs Hc Hb Heq Hw)
    as [(s & -> & ?)|(b & s & -> & ?)]; [left|right]; eauto 10.
Qed.

(** Reading at the end of the stream: the end, or not yet. *)
Lemma read_at_end size e :
  (0 < size)%nat → rs_clean (strm e) = true → rd_buffer (dr e) = [] → rs_bytes (strm e) = [] →
  poll_read_exact size e = (Ready 0%nat, {| dr := dr (set_buffer [] e); strm := []; ctx := ctx e |}) ∨
  (∃ s, poll_read_exact size e = (Pending, {| dr := dr (set_buffer [] e); strm := s; ctx := ctx e |}) ∧
        rs_bytes s = [] ∧ rs_clean s = true ∧ (rs_pendings s < rs_pendings (strm e))%nat).
Proof.
  intros Hs Hc Hb Hrs. rewrite poll_read_exact_eq, Hb.
  destruct (read_exact_at_end size _ Hs Hc Hrs) as [->|(s & -> & ?)]; [left|right]; eauto 10.
Qed.

Lemma encrypt_length_eq c p n :
  cipher_tag_len c = n → length (fst (encrypt_packet c p)) = (length p + n)%nat.
Proof. intros <-. apply encrypt_length. Qed.

Lemma decrypt_in_place_encrypted p err e c :
  rd_cipher (dr e) = Some c → rd_buffer (dr e) = fst (encrypt_packet c p) →
  ∃ t, length t = cipher_tag_len c ∧
    decrypt_in_place (length p + cipher_tag_len c) err e =
    (Ready (p ++ t), set_buffer (p ++ t) (set_cipher (Some (snd (encrypt_packet c p))) e)).
Proof.
  intros Hc Hb. destruct (decrypt_encrypt c p) as (t & Ht & Hd). exists t. split; [done|].
  unfold decrypt_in_place, mbind, pollm_bind, pget, pexpect. rewrite Hc. simpl. unfold slice_to.
  rewrite Hb, <- (encrypt_length c p), Nat.leb_refl. simpl. rewrite firstn_all, Hd. simpl.
  by rewrite skipn_all, app_nil_r.
Qed.

Lemma salt_pass_sees now room key salt cs rest e :
  (0 < salt_len (rd_method (dr e)))%nat → rs_clean (strm e) = true →
  rd_state (dr e) = WaitSalt key → length salt = salt_len (rd_method (dr e)) →
  (length (rd_buffer (dr e)) ≤ length salt)%nat →
  rd_buffer (dr e) ++ rs_bytes (strm e) = salt ++ frames (Cipher_new (rd_method (dr e)) key salt) cs →
  salt_accepted (ctx e) (rd_method (dr e)) salt → Forall chunk_ok cs → rest = concat cs →
  pass_sees room e rest (read_pass now room e).
Proof.
  intros Hsl Hc Hst Hlen Hb Heq Hacc Hcs ->.
  unfold read_pass, poll_read_salt, mbind, pollm_bind, pget, method_. rewrite Hst. cbv beta iota.
  unfold mbind, pollm_bind, pget. rewrite Hlen in Hb.
  destruct (read_available _ e _ _ Hsl Hc Hb Heq Hlen) as [(s & -> & Hrs & Hcl & Hp)|(b & s & -> & Hrs & Hbl & Hcl & Hp)].
  - rewrite Nat.ltb_irrefl. unfold slice_to. simpl. rewrite (proj2 (Nat.leb_le _ _)) by lia. simpl.
    apply ps_again; [|done|done]. rewrite <- Hlen, firstn_all. eapply sees_length with (cs := cs); simpl; try done.
    + apply cipher_tag_new.
    + lia.
    + by intros ? [= <-].
  - apply ps_pending; [|done|done]. eapply sees_salt; simpl; try done. by rewrite Hlen.
Qed.

Lemma length_pass_sees now room c cs rest e :
  rs_clean (strm e) = true →
  rd_state (dr e) = ReadLength → rd_cipher (dr e) = Some c → cipher_tag_len c = tag_len (rd_method (dr e)) →
  (length (rd_buffer (dr e)) ≤ 2 + tag_len (rd_method (dr e)))%nat →
  rd_buffer (dr e) ++ rs_bytes (strm e) = frames c cs →
  (∀ salt, rd_salt (dr e) = Some salt → salt_accepted (ctx e) (rd_method (dr e)) salt) →
  Forall chunk_ok cs → rest = concat cs →
  pass_sees room e rest (read_pass now room e).
Proof.
  intros Hc Hst Hci Htag Hb Heq Hacc Hcs ->.
  unfold read_pass, poll_read_length, mbind, pollm_bind, pget, method_. rewrite Hst. cbv beta iota.
  unfold mbind, pollm_bind, pget.
  destruct cs as [|chunk cs].
  - simpl in Heq. apply app_nil in Heq as [Hbuf Hrs].
    destruct (read_at_end (2 + tag_len (rd_method (dr e))) e ltac:(lia) Hc Hbuf Hrs)
      as [->|(s & -> & Hrs' & Hcl & Hp)]; simpl.
    + apply (ps_out _ _ _ [] []); [done|by left| |done|simpl; lia].
      eapply sees_length with (cs := []); simpl; try done. lia.
    + apply ps_pending; [|done|done]. eapply sees_length with (cs := []); simpl; try done. lia.
  - inversion_clear Hcs as [|? ? Hch Hcs']. simpl in Heq. unfold frame in Heq.
    assert (be_Z (be_bytes 2 (Z.of_nat (length chunk))) = Z.of_nat (length chunk)) as Hz.
    { apply be_Z_be_bytes_small. unfold chunk_ok, MAX_PACKET_SIZE in Hch. simpl in *. lia. }
    pose proof (length_be_bytes 2 (Z.of_nat (length chunk))) as Hlb.
    remember (be_bytes 2 (Z.of_nat (length chunk))) as lb eqn:Elb.
    pose proof (encrypt_length_eq c lb _ Htag) as Hlen. rewrite Hlb in Hlen.
    pose proof (cipher_tag_enc c lb) as Htag1.
    destruct (encrypt_packet c lb) as [l c1] eqn:E1.
    destruct (encrypt_packet c1 chunk) as [d c2] eqn:E2. rewrite <- !app_assoc in Heq. simpl in Hlen, Htag1.
    destruct (read_available (2 + tag_len (rd_method (dr e))) e _ _ ltac:(lia) Hc Hb Heq Hlen)
      as [(s & -> & Hrs & Hcl & Hp)|(b & s & -> & Hrs & Hbl & Hcl & Hp)]; simpl.
    + unfold decrypt_length, mbind, pollm_bind.
      destruct (decrypt_in_place_encrypted lb DecryptLengthError
        {| dr := dr (set_buffer l e); strm := s; ctx := ctx e |} c) as (t & Ht & Hd);
        [done|simpl; by rewrite E1|].
      rewrite Hlb, Htag in Hd. simpl in Hd |- *. rewrite Hd.
      rewrite slice_to_app, Hz, Nat2Z.id by done.
      rewrite (proj2 (Nat.ltb_ge _ _)) by done. simpl.
      apply ps_again; [|done|done].
      apply sees_data with (c := c1) (chunk := chunk) (cs := cs); simpl; rewrite ?E1, ?E2; try done; [congruence|lia].
    + apply ps_pending; [|done|done]. eapply sees_length with (cs := chunk :: cs); simpl; try done.
      { unfold frame. rewrite <- Elb, E1, E2. by rewrite <- app_assoc. }
      by constructor.
Qed.

Lemma data_pass_sees now room c chunk cs rest e :
  (0 < tag_len (rd_method (dr e)))%nat → rs_clean (strm e) = true →
  rd_state (dr e) = ReadData (length chunk) → rd_cipher (dr e) = Some c →
  cipher_tag_len c = tag_len (rd_method (dr e)) →
  (length (rd_buffer (dr e)) ≤ length chunk + tag_len (rd_method (dr e)))%nat →
  rd_buffer (dr e) ++ rs_bytes (strm e) =
    fst (encrypt_packet c chunk) ++ frames (snd (encrypt_packet c chunk)) cs →
  (∀ salt, rd_salt (dr e) = Some salt → salt_accepted (ctx e) (rd_method (dr e)) salt) →
  Forall chunk_ok cs → rest = chunk ++ concat cs →
  pass_sees room e rest (read_pass now room e).
Proof.
  intros Htl Hc Hst Hci Htag Hb Heq Hacc Hcs ->.
  unfold read_pass, poll_read_data, mbind, pollm_bind, pget, method_. rewrite Hst. cbv beta iota.
  unfold mbind, pollm_bind, pget.
  pose proof (encrypt_length_eq c chunk _ Htag) as Hlen.
  destruct (read_available (length chunk + tag_len (rd_method (dr e))) e _ _ ltac:(lia) Hc Hb Heq Hlen)
    as [(s & -> & Hrs & Hcl & Hp)|(b & s & -> & Hrs & Hbl & Hcl & Hp)]; simpl.
  - rewrite bool_decide_false by lia.
    destruct (decrypt_in_place_encrypted chunk DecryptDataError
      {| dr := dr (set_buffer (fst (encrypt_packet c chunk)) e); strm := s; ctx := ctx e |} c) as (t & Ht & Hd);
      [done|done|].
    rewrite Htag in Hd. simpl in Hd |- *. rewrite Hd. unfold check_salt, mbind, pollm_bind, pget. simpl.
    assert (cipher_tag_len (snd (encrypt_packet c chunk)) = tag_len (rd_method (dr e))) as Htag'
      by (rewrite cipher_tag_enc; done).
    destruct (rd_salt (dr e)) as [salt|] eqn:Esalt; simpl.
    + pose proof (Hacc salt eq_refl now) as Hok.
      destruct (check_nonce_replay now (ctx e) _ salt) as [r c'] eqn:E. simpl in Hok. subst r. simpl.
      apply ps_again; [|done|done]. eapply sees_buffered; simpl; try done.
      by rewrite take_app_length, drop_0.
    + apply ps_again; [|done|done]. eapply sees_buffered; simpl; try done.
      by rewrite take_app_length, drop_0.
  - apply ps_pending; [|done|done]. by eapply sees_data.
Qed.

Lemma buffered_pass_sees now room pos c cs rest e :
  rs_clean (strm e) = true →
  rd_state (dr e) = BufferedData pos → rd_cipher (dr e) = Some c →
  cipher_tag_len c = tag_len (rd_method (dr e)) →
  rs_bytes (strm e) = frames c cs → rd_salt (dr e) = None →
  Forall chunk_ok cs → rest = drop pos (rd_buffer (dr e)) ++ concat cs →
  pass_sees room e rest (read_pass now room e).
Proof.
  intros Hc Hst Hci Htag Hrs Hsalt Hcs ->.
  unfold read_pass, mbind, pollm_bind, pget. rewrite Hst. simpl.
  destruct (Nat.ltb_spec pos (length (rd_buffer (dr e)))) as [Hlt|Hge]; simpl.
  - set (k := Nat.min _ room).
    apply (ps_out _ _ _ _ (drop (pos + k) (rd_buffer (dr e)) ++ concat cs)); [| | |done|done].
    + by rewrite <- drop_drop, app_assoc, take_drop.
    + intros Hnil. right. apply (f_equal length) in Hnil. rewrite length_take in Hnil. simpl in Hnil.
      subst k. rewrite length_drop in *. lia.
    + by eapply sees_buffered.
  - apply ps_again; [|done|done]. eapply sees_length; simpl; try done; [lia|by rewrite Hsalt|].
    by rewrite drop_ge.
Qed.

Lemma read_pass_sees now room rest e :
  reader_wf (dr e) → sees e rest → rs_clean (strm e) = true →
  pass_sees room e rest (read_pass now room e).
Proof.
  intros [Ht Hwf] Hsee Hc. destruct Hsee as [key salt cs Hst|c cs Hst|c chunk cs Hst|pos c cs Hst];
    rewrite Hst in Hwf;
    [eapply salt_pass_sees|eapply length_pass_sees|eapply data_pass_sees|eapply buffered_pass_sees]; eauto.
Qed.

(** A poll gives a non-empty prefix of what is left, or has to wait, or is at
    the end. *)
Lemma poll_sees now room rest e :
  reader_wf (dr e) → sees e rest → rs_clean (strm e) = true →
  (∃ e', poll_read_decrypted now room e = (Pending, e') ∧ reader_wf (dr e') ∧
     sees e' rest ∧ rs_clean (strm e') = true ∧ (rs_pendings (strm e') < rs_pendings (strm e))%nat) ∨
  (∃ out rest' e', poll_read_decrypted now room e = (Ready out, e') ∧ reader_wf (dr e') ∧
     rest = out ++ rest' ∧ (out = [] → rest = [] ∨ room = 0%nat) ∧
     sees e' rest' ∧ rs_clean (strm e') = true ∧ (rs_pendings (strm e') ≤ rs_pendings (strm e))%nat).
Proof.
  unfold poll_read_decrypted. assert (read_measure e < S (read_measure e))%nat as Hf by lia. revert Hf.
  generalize (S (read_measure e)) as fuel. intros fuel. revert e.
  induction fuel as [|fuel IH]; intros e Hf Hwf Hsee Hc; [lia|].
  cbn [poll_read_decrypted_loop]. unfold mbind, pollm_bind.
  pose proof (read_pass_ok now room e Hwf) as (_ & _ & Hok).
  destruct (read_pass_sees now room rest e Hwf Hsee Hc) as [e' H1 H2 H3|e' H1 H2 H3|out rest' e' H1 H2 H3 H4 H5];
    simpl in Hok.
  - left. eauto 10.
  - destruct Hok as [Hwf' Hm]. specialize (Hm eq_refl).
    destruct (IH e' ltac:(lia) Hwf' H1 H2) as [(e2 & -> & ? & ? & ? & ?)|(out & rest' & e2 & -> & ? & ? & ? & ? & ? & ?)].
    + left. eexists. split; [done|]. split_and!; try done. lia.
    + right. do 3 eexists. split; [done|]. split_and!; try done. lia.
  - destruct Hok as [Hwf' _]. right. eauto 10.
Qed.

(** Polls until the end of the stream, collecting what they give. *)
Definition drain_reader (polls : nat) (now : Z) (room : nat) : rd_env → option bytes :=
  drain (poll_read_decrypted now room) polls.

Lemma drain_sees polls now room rest e :
  (0 < room)%nat → reader_wf (dr e) → sees e rest → rs_clean (strm e) = true →
  (rs_pendings (strm e) + length rest < polls)%nat →
  drain_reader polls now room e = Some rest.
Proof.
  intros Hr Hwf Hsee Hc. apply (drain_spec _
    (λ e rest, reader_wf (dr e) ∧ sees e rest ∧ rs_clean (strm e) = true) (λ e, rs_pendings (strm e))); [|done].
  clear e rest Hwf Hsee Hc. intros e rest (Hwf & Hsee & Hc). unfold read_step_ok.
  destruct (poll_sees now room rest e Hwf Hsee Hc)
    as [(e' & -> & ? & ? & ? & ?)|(out & rest' & e' & -> & ? & -> & Hout & ? & ? & ?)]; [by left|right].
  exists out, rest'. split_and!; try done. intros Hn. destruct (Hout Hn); [done|lia].
Qed.

(** A new reader on the wire image of some chunks. *)
Lemma new_reader_sees method key salt cs s c0 :
  length salt = salt_len method → rs_bytes s = salt ++ frames (Cipher_new method key salt) cs →
  salt_accepted c0 method salt → Forall chunk_ok cs →
  sees {| dr := DecryptedReader_new method key; strm := s; ctx := c0 |} (concat cs).
Proof.
  intros Hl Hs Hacc Hcs. unfold DecryptedReader_new.
  destruct (Nat.ltb_spec 0 (salt_len method)) as [|H0].
  - eapply sees_salt; simpl; try done. lia.
  - destruct salt; [|simpl in Hl; lia]. eapply sees_length; simpl; try done; [apply cipher_tag_new|lia].
Qed.
End ReaderWire.

(** ** The writer *)
Section WriterWire.
Context `{CS : CipherSuite, SC : !StreamCipher}.

(** The chunk a write of [buf] sends. *)
Definition chunk_of (buf : bytes) : bytes := take MAX_PACKET_SIZE buf.

(** Writes of the buffers in order. *)
Definition drive_writer : nat → list bytes → EncryptedWriter * wstream → bool * (EncryptedWriter * wstream) :=
  drive poll_write_encrypted.

(** What is still to be sent: [tosend w bufs] is the rest of the buffer and the
    frames of the buffers; a packet being written is the one of the first. *)
Definition tosend (w : EncryptedWriter) (bufs : list bytes) : bytes :=
  match wr_state w with
  | AssemblePacket => wr_buffer w ++ frames (wr_cipher w) (chunk_of <$> bufs)
  | Writing pos => drop pos (wr_buffer w) ++ frames (wr_cipher w) (chunk_of <$> tail bufs)
  end.

Definition writer_wf (w : EncryptedWriter) (bufs : list bytes) : Prop :=
  match wr_state w with
  | AssemblePacket => True
  | Writing pos => (pos ≤ length (wr_buffer w))%nat ∧ bufs ≠ []
  end.

Lemma chunk_of_eq buf :
  (if (MAX_PACKET_SIZE <? length buf)%nat then take MAX_PACKET_SIZE buf else buf) = chunk_of buf.
Proof.
  unfold chunk_of. destruct (Nat.ltb_spec MAX_PACKET_SIZE (length buf)); [done|]. by rewrite take_ge.
Qed.

Lemma chunk_of_ok buf : chunk_ok (chunk_of buf).
Proof. unfold chunk_ok, chunk_of. rewrite length_take. lia. Qed.

Definition writer_idle (w : EncryptedWriter) : Prop := wr_state w = AssemblePacket ∧ wr_buffer w = [].

Abbreviation step_spec := (write_step_ok tosend writer_wf writer_idle).

Lemma write_packet_step pos buf bufs w s :
  wr_state w = Writing pos → (pos ≤ length (wr_buffer w))%nat → forallb wr_clean (wr_script s) = true →
  (length (drop pos (wr_buffer w) ++ frames (wr_cipher w) (chunk_of <$> bufs)) ≤ wr_accepts (wr_script s))%nat →
  step_spec buf bufs (wr_out s ++ drop pos (wr_buffer w) ++ frames (wr_cipher w) (chunk_of <$> bufs)) s
    (write_packet pos (chunk_of buf) (w, s)).
Proof.
  intros Hst Hpos Hc Hroom. rewrite length_app, length_drop in Hroom.
  destruct (write_all_step (wr_buffer w) pos _ s Hpos Hc Hroom)
    as (s' & Hc' & Hl & [(Hw & Hout & Hroom')|(pos' & Hw & Hpos' & Hout & Hroom' & Hlt)]);
    unfold write_step_ok, write_packet; rewrite Hw; do 3 eexists; (split; [done|]).
  - split; [left; split; [by eexists|]; split; [done|]; by split|].
    unfold tosend. simpl. rewrite Hout, <- app_assoc. by split_and!.
  - split; [right; by split_and!|].
    unfold writer_wf, tosend. simpl. rewrite app_assoc, Hout, <- app_assoc, length_app, length_drop. by split_and!.
Qed.

Lemma poll_write_step buf bufs w s :
  writer_wf w (buf :: bufs) → forallb wr_clean (wr_script s) = true →
  (length (tosend w (buf :: bufs)) ≤ wr_accepts (wr_script s))%nat →
  step_spec buf bufs (wr_out s ++ tosend w (buf :: bufs)) s (poll_write_encrypted buf (w, s)).
Proof.
  intros Hwf Hc Hroom. unfold poll_write_encrypted. rewrite chunk_of_eq.
  unfold tosend at 2. unfold tosend in Hroom. unfold writer_wf in Hwf. destruct (wr_state w) as [|pos] eqn:Hst.
  - assert (wr_buffer w ++ frames (wr_cipher w) (chunk_of <$> buf :: bufs) =
      drop 0 (wr_buffer (assemble_packet (chunk_of buf) w)) ++
      frames (wr_cipher (assemble_packet (chunk_of buf) w)) (chunk_of <$> bufs)) as Heq.
    { simpl. unfold assemble_packet, frame. destruct (encrypt_packet (wr_cipher w) _) as [l c1].
      destruct (encrypt_packet c1 _) as [d c2]. simpl. by rewrite drop_0, <- !app_assoc. }
    rewrite Heq in Hroom |- *. apply write_packet_step; [|lia|done|done].
    unfold assemble_packet. by destruct (encrypt_packet _ _), (encrypt_packet _ _).
  - destruct Hwf as [Hwf _]. by apply write_packet_step.
Qed.

Lemma drive_writer_spec polls bufs w s :
  writer_wf w bufs → forallb wr_clean (wr_script s) = true →
  (length (tosend w bufs) ≤ wr_accepts (wr_script s))%nat →
  (length (wr_script s) + length bufs ≤ polls)%nat → bufs ≠ [] →
  ∃ w' s', drive_writer polls bufs (w, s) = (true, (w', s')) ∧ wr_out s' = wr_out s ++ tosend w bufs.
Proof.
  intros. apply (drive_spec _ tosend writer_wf writer_idle poll_write_step); [|done..|by left].
  intros w0 [Hst Hb]. unfold tosend. by rewrite Hst, Hb.
Qed.

(** Framing: writing buffers through the AEAD writer, on any transport
    that takes a byte at a time or more and whose polls may find no room, sends
    exactly the salt and then for every buffer the encrypted length and data of
    its first [MAX_PACKET_SIZE] bytes; every write completes. *)
Theorem aead_writer_frames method key salt bufs script polls :
  let wire := salt ++ frames (Cipher_new method key salt) (chunk_of <$> bufs) in
  forallb wr_clean script = true → bufs ≠ [] →
  (length wire ≤ wr_accepts script)%nat → (length script + length bufs ≤ polls)%nat →
  ∃ w' s', drive_writer polls bufs (EncryptedWriter_new method key salt, {| wr_script := script; wr_out := [] |})
           = (true, (w', s')) ∧ wr_out s' = wire.
Proof.
  intros wire Hc Hne Hroom Hp.
  destruct (drive_writer_spec polls bufs (EncryptedWriter_new method key salt)
    {| wr_script := script; wr_out := [] |}) as (w' & s' & H1 & H2); try done. eauto.
Qed.
End WriterWire.

(** ** End to end *)
Section EndToEnd.
Context `{CS : CipherSuite, SC : !StreamCipher, BF : BloomFilter, LC : LruTimeCache}.
Context `{HSC : !StreamCipherLaws SC}.

(** C33. Transparency of the AEAD stream: what the writer was given is what the
    reader with the same key gives, whatever pieces the transport cuts the
    bytes into and however often polls on either side find it not ready, as
    long as the salt is not refused as a replay. *)
Theorem aead_stream_transparent method key salt bufs script wpolls s c0 now room rpolls :
  (0 < tag_len method)%nat → length salt = salt_len method → bufs ≠ [] →
  let wire := salt ++ frames (Cipher_new method key salt) (chunk_of <$> bufs) in
  forallb wr_clean script = true →
  (length wire ≤ wr_accepts script)%nat → (length script + length bufs ≤ wpolls)%nat →
  let sent := wr_out (snd (snd (drive_writer wpolls bufs
    (EncryptedWriter_new method key salt, {| wr_script := script; wr_out := [] |})))) in
  rs_clean s = true → rs_bytes s = sent → salt_accepted c0 method salt → (0 < room)%nat →
  (rs_pendings s + length (concat (chunk_of <$> bufs)) < rpolls)%nat →
  drain_reader rpolls now room {| dr := DecryptedReader_new method key; strm := s; ctx := c0 |} =
  Some (concat (chunk_of <$> bufs)).
Proof.
  intros Ht Hsl Hne wire Hsc Hroom Hwp sent Hc Hs Hacc Hr Hrp.
  destruct (drive_writer_spec wpolls bufs (EncryptedWriter_new method key salt)
    {| wr_script := script; wr_out := [] |}) as (w' & s' & H1 & H2); try done.
  unfold sent in Hs. rewrite H1 in Hs. simpl in Hs.
  apply drain_sees; try done.
  - simpl. by apply reader_new_wf.
  - eapply new_reader_sees; try done; [by rewrite Hs, H2|].
    apply Forall_fmap, Forall_true. intros buf. apply chunk_of_ok.
Qed.
End EndToEnd.

(** ** Examples *)
#[local] Existing Instances Toy.suite Toy.cipher Toy.bloom Toy.lru.

Lemma aead_reader_total_witness :
  is_panicked (fst (poll_read_decrypted (CS := Toy.suite) (SC := Toy.cipher) 0 10
    {| dr := DecryptedReader_new Toy.Aead4 []; strm := [] ++ [RdData (be_bytes 9 77); RdPending]; ctx := toy_context |})) = false.
Proof.
  apply (aead_reader_total (HSC := Toy.cipher_laws) Toy.Aead4 [] toy_context []). simpl. lia.
Defined.


Definition toy_bufs : list bytes := [be_bytes 3 0x010203; []; be_bytes 5 0xaabbccddee].
Definition toy_script : list wr_event :=
  [WrAccept 3; WrPending; WrAccept 1] ++ replicate 40 (WrAccept 1) ++ [WrPending].
Definition toy_wire : bytes :=
  be_bytes 4 9 ++ frames (Cipher_new Toy.Aead4 (be_bytes 4 5) (be_bytes 4 9)) (chunk_of <$> toy_bufs).
Definition toy_pieces : rstream :=
  [RdData (take 5 toy_wire); RdPending; RdData (take 1 (drop 5 toy_wire)); RdData (drop 6 toy_wire); RdPending].

Lemma aead_writer_frames_witness :
  ∃ w' s', drive_writer 60 toy_bufs (EncryptedWriter_new Toy.Aead4 (be_bytes 4 5) (be_bytes 4 9),
    {| wr_script := toy_script; wr_out := [] |}) = (true, (w', s')) ∧ wr_out s' = toy_wire.
Proof.
  apply (aead_writer_frames (CS := Toy.suite) Toy.Aead4 (be_bytes 4 5) (be_bytes 4 9) toy_bufs toy_script 60).
  - vm_compute. reflexivity.
  - discriminate.
  - vm_compute. lia.
  - vm_compute. lia.
Defined.

Lemma aead_stream_transparent_witness :
  drain_reader 20 0 2 {| dr := DecryptedReader_new Toy.Aead4 (be_bytes 4 5); strm := toy_pieces; ctx := toy_context |} =
  Some (be_bytes 3 0x010203 ++ be_bytes 5 0xaabbccddee).
Proof.
  change (be_bytes 3 0x010203 ++ be_bytes 5 0xaabbccddee) with (concat (chunk_of <$> toy_bufs)).
  apply (aead_stream_transparent (HSC := Toy.cipher_laws) Toy.Aead4 (be_bytes 4 5) (be_bytes 4 9) toy_bufs
           toy_script 60 toy_pieces toy_context 0 2 20).
  all: try (vm_compute; reflexivity); try (vm_compute; lia).
  discriminate.
Defined.
