(* ===== verification/TcpAead2022.v ===== *)
(** * AEAD-2022 packet I/O (crates/shadowsocks/src/relay/tcprelay/aead_2022.rs)

    The stream of the 2022 edition: a salt, identity headers, a fixed-length
    header chunk with type, timestamp, the salt of the request (in responses)
    and the length of the first data chunk, then chunks as in the AEAD stream.
    Shown: what an accepted header guarantees, that every poll returns and never
    panics, and that reader and writer agree in both directions, with and
    without a user chosen by the identity header. *)
From S2P Require Import Prelude.
From S2P Require Import External.
From S2P Require Import AsyncIo.
From S2P Require Import Users.
From S2P Require Import Replay.
From S2P Require TcpAead.

Definition MAX_PACKET_SIZE : nat := Z.to_nat 0xFFFF.
Definition AEAD2022_EIH_SUBKEY_CONTEXT : string := "shadowsocks 2022 identity subkey".

(** [StreamType] of crypto_io.rs. *)
Inductive StreamType := Client | Server.

#[export] Instance StreamType_eq_dec : EqDecision StreamType.
Proof. solve_decision. Defined.

Inductive ProtocolError :=
| IoError (e : io_error)
| HeaderTooShort (expecting found : nat)
| MissingExtendedIdentityHeader
| InvalidClientUser (hash : bytes)
| DecryptHeaderChunkError
| DecryptDataError
| DecryptLengthError
| InvalidStreamType (expecting found : Z)
| InvalidTimestamp (timestamp now : Z).

(** [impl From<ProtocolError> for io::Error]. *)
Definition io_Error_from_ProtocolError (e : ProtocolError) : io_error :=
  match e with
  | IoError err => err
  | HeaderTooShort _ _ => OtherKind "header too short"
  | MissingExtendedIdentityHeader => OtherKind "missing extended identity header"
  | InvalidClientUser _ => OtherKind "invalid client user identity"
  | DecryptHeaderChunkError => OtherKind "decrypt header chunk failed"
  | DecryptDataError => OtherKind "decrypt data failed"
  | DecryptLengthError => OtherKind "decrypt length failed"
  | InvalidStreamType _ _ => OtherKind "invalid stream type"
  | InvalidTimestamp _ _ => OtherKind "invalid timestamp"
  end.

Section Aead2022.
Context `{CS : CipherSuite, SC : !StreamCipher, B3 : Blake3, AE : Aes, BF : BloomFilter, LC : LruTimeCache}.

(** ** DecryptedReader *)
Inductive DecryptReadState :=
| ReadHeader (key : bytes)
| ReadLength
| ReadData (length : nat)
| BufferedData (pos : nat).

Record DecryptedReader := {
  rd_stream_ty : StreamType;
  rd_state : DecryptReadState;
  rd_cipher : option (Cipher _);
  rd_buffer : bytes;
  rd_method : CipherKind;
  rd_salt : option bytes;
  rd_request_salt : option bytes;
  data_chunk_count : Z;
  rd_user_manager : option ServerUserManager;
  rd_user_key : option bytes;
  has_handshaked : bool;
}.

Definition DecryptedReader_with_user_manager (stream_ty : StreamType) (method : CipherKind) (key : bytes)
    (user_manager : option ServerUserManager) : DecryptedReader :=
  if (0 <? salt_len method)%nat then
    {| rd_stream_ty := stream_ty; rd_state := ReadHeader key; rd_cipher := None; rd_buffer := [];
       rd_method := method; rd_salt := None; rd_request_salt := None; data_chunk_count := 0;
       rd_user_manager := user_manager; rd_user_key := None; has_handshaked := false |}
  else
    {| rd_stream_ty := stream_ty; rd_state := ReadHeader []; rd_cipher := Some (Cipher_new method key []);
       rd_buffer := []; rd_method := method; rd_salt := None; rd_request_salt := None; data_chunk_count := 0;
       rd_user_manager := user_manager; rd_user_key := None; has_handshaked := false |}.

Definition DecryptedReader_new (stream_ty : StreamType) (method : CipherKind) (key : bytes) : DecryptedReader :=
  DecryptedReader_with_user_manager stream_ty method key None.

(** [request_salt()]: an empty request salt counts as none. *)
Definition DecryptedReader_request_salt (d : DecryptedReader) : option bytes :=
  match rd_request_salt d with Some [] => None | r => r end.

(** The reader with the transport and the shared context it is polled with. *)
Record rd_env := { dr : DecryptedReader; strm : rstream; ctx : Context }.

Definition set_dr (f : DecryptedReader → DecryptedReader) (e : rd_env) : rd_env :=
  {| dr := f (dr e); strm := strm e; ctx := ctx e |}.
Definition set_ctx (c : Context) (e : rd_env) : rd_env := {| dr := dr e; strm := strm e; ctx := c |}.
Definition set_strm (s : rstream) (e : rd_env) : rd_env := {| dr := dr e; strm := s; ctx := ctx e |}.

Definition upd (st : DecryptReadState) (c : option (Cipher _)) (b : bytes) (d : DecryptedReader) : DecryptedReader :=
  {| rd_stream_ty := rd_stream_ty d; rd_state := st; rd_cipher := c; rd_buffer := b; rd_method := rd_method d;
     rd_salt := rd_salt d; rd_request_salt := rd_request_salt d; data_chunk_count := data_chunk_count d;
     rd_user_manager := rd_user_manager d; rd_user_key := rd_user_key d; has_handshaked := has_handshaked d |}.
Definition set_state (s : DecryptReadState) : rd_env → rd_env := set_dr (λ d, upd s (rd_cipher d) (rd_buffer d) d).
Definition set_cipher (c : option (Cipher _)) : rd_env → rd_env := set_dr (λ d, upd (rd_state d) c (rd_buffer d) d).
Definition set_buffer (b : bytes) : rd_env → rd_env := set_dr (λ d, upd (rd_state d) (rd_cipher d) b d).

Definition upd_header (salt request_salt user_key : option bytes) (count : Z) (hs : bool) (d : DecryptedReader)
  : DecryptedReader :=
  {| rd_stream_ty := rd_stream_ty d; rd_state := rd_state d; rd_cipher := rd_cipher d; rd_buffer := rd_buffer d;
     rd_method := rd_method d; rd_salt := salt; rd_request_salt := request_salt; data_chunk_count := count;
     rd_user_manager := rd_user_manager d; rd_user_key := user_key; has_handshaked := hs |}.
Definition set_salt (s : option bytes) : rd_env → rd_env := set_dr (λ d,
  upd_header s (rd_request_salt d) (rd_user_key d) (data_chunk_count d) (has_handshaked d) d).
Definition set_rd_request_salt (s : option bytes) : rd_env → rd_env := set_dr (λ d,
  upd_header (rd_salt d) s (rd_user_key d) (data_chunk_count d) (has_handshaked d) d).
Definition set_user_key (k : option bytes) : rd_env → rd_env := set_dr (λ d,
  upd_header (rd_salt d) (rd_request_salt d) k (data_chunk_count d) (has_handshaked d) d).
Definition set_handshaked (b : bool) : rd_env → rd_env := set_dr (λ d,
  upd_header (rd_salt d) (rd_request_salt d) (rd_user_key d) (data_chunk_count d) b d).
(** [data_chunk_count.wrapping_add(1)]. *)
Definition bump_chunk_count : rd_env → rd_env := set_dr (λ d,
  upd_header (rd_salt d) (rd_request_salt d) (rd_user_key d) ((data_chunk_count d + 1) mod u64_max)
    (has_handshaked d) d).

Abbreviation rpoll := (pollm rd_env ProtocolError).

Definition poll_read_exact (size : nat) : rpoll nat :=
  pzoom (λ e, (rd_buffer (dr e), strm e)) (λ '(b, s) e, set_strm s (set_buffer b e))
        IoError (read_exact_poll size).

(** A cursor method used with [?]. *)
Definition pcur {A} (p : parser cursor ProtocolError A) (c : cursor) : rpoll (A * cursor) := presult id (p c).

(** The user the identity header names: the hash is the AES decryption of the
    header with a key derived from the server's key and the salt. *)
Definition eih_user_hash (method : CipherKind) (key salt eih : bytes) : option bytes :=
  let identity_sub_key := blake3_derive_key AEAD2022_EIH_SUBKEY_CONTEXT (key ++ salt) in
  match aes_kind method with
  | Some n => Some (aes_decrypt_block (take n identity_sub_key) eih)
  | None => None
  end.

(** The choice of the cipher of the header chunk, and the chunk. *)
Definition header_cipher (require_eih : bool) (key salt header_chunk : bytes) : rpoll (Cipher _ * bytes) :=
  method ← pget (λ e, rd_method (dr e));
  if require_eih then
    user_manager ← pget (λ e, rd_user_manager (dr e));
    user_manager ← pexpect user_manager "user_manager must not be None";
    if (length header_chunk <? 16)%nat then pfail MissingExtendedIdentityHeader else
    let eih := take 16 header_chunk in
    let header_chunk := drop 16 header_chunk in
    user_hash ← pexpect (eih_user_hash method key salt eih) "doesn't support EIH";
    match get_user_by_hash user_manager user_hash with
    | None => pfail (InvalidClientUser user_hash)
    | Some user =>
        _ ← pmod (set_user_key (Some (user_key user)));
        mret (Cipher_new method (user_key user) salt, header_chunk)
    end
  else mret (Cipher_new method key salt, header_chunk).

Definition expected_stream_ty (ty : StreamType) : Z := match ty with Client => 1 | Server => 0 end.

(** The fields of the decrypted header chunk, and the checks on them. *)
Definition read_header_fields (now : Z) (request_salt_len : nat) (header_chunk : bytes) : rpoll Z :=
  ty ← pget (λ e, rd_stream_ty (dr e));
  method ← pget (λ e, rd_method (dr e));
  '(stream_ty, cur) ← pcur get_u8 (Cursor header_chunk 0);
  if negb (stream_ty =? expected_stream_ty ty) then pfail (InvalidStreamType (expected_stream_ty ty) stream_ty) else
  '(timestamp, cur) ← pcur get_u64 cur;
  let now_ts := get_now_timestamp now in
  if SERVER_STREAM_TIMESTAMP_MAX_DIFF <? abs_diff now_ts timestamp
  then pfail (InvalidTimestamp timestamp now_ts) else
  cur ← (if (0 <? request_salt_len)%nat then
           (* Cursor::read_exact *)
           if (salt_len method <=? cur_remaining cur)%nat then
             '(request_salt, cur) ← pcur (cur_take (salt_len method)) cur;
             _ ← pmod (set_rd_request_salt (Some request_salt));
             mret cur
           else pfail (IoError UnexpectedEof)
         else mret cur);
  '(data_length, cur) ← pcur get_u16 cur;
  mret data_length.

(** The check of the salt, by a server only. *)
Definition check_header_salt (now : Z) (salt : bytes) : rpoll unit :=
  ty ← pget (λ e, rd_stream_ty (dr e));
  method ← pget (λ e, rd_method (dr e));
  match ty with
  | Client => mret tt
  | Server =>
      context ← pget ctx;
      let '(r, context) := check_nonce_replay now context method salt in
      _ ← pmod (set_ctx context);
      presult IoError r
  end.

Definition request_salt_len (d : DecryptedReader) : nat :=
  match rd_stream_ty d with Client => salt_len (rd_method d) | Server => 0 end.
Definition require_eih (d : DecryptedReader) : bool :=
  match rd_stream_ty d, rd_user_manager d with
  | Server, Some _ => method_support_eih (rd_method d)
  | _, _ => false
  end.
Definition header_len (d : DecryptedReader) : nat :=
  salt_len (rd_method d) + (if require_eih d then 16 else 0) + 1 + 8 + request_salt_len d + 2 +
  tag_len (rd_method d).

(** [poll_read_header]: the whole header has to come in one read.  In this state
    the contents of the buffer are overwritten by the read before they are used;
    the decryption in place is not kept. *)
Definition poll_read_header (now : Z) (key : bytes) : rpoll (option nat) :=
  d ← pget dr;
  let hl := header_len d in
  _ ← pmod (set_buffer (rd_buffer d ++ replicate (hl - length (rd_buffer d)) (b# 0)));
  header_buf ← pzoom strm set_strm IoError (poll_read hl);
  _ ← pmod (λ e, set_buffer (header_buf ++ drop (length header_buf) (rd_buffer (dr e))) e);
  if bool_decide (header_buf = []) then mret None else
  if negb (length header_buf =? hl)%nat then pfail (HeaderTooShort hl (length header_buf)) else
  let salt := take (salt_len (rd_method d)) header_buf in
  let header_chunk := drop (salt_len (rd_method d)) header_buf in
  '(cipher, header_chunk) ← header_cipher (require_eih d) key salt header_chunk;
  let '(r, cipher) := decrypt_packet cipher header_chunk in
  match r with
  | None => pfail DecryptHeaderChunkError
  | Some header_chunk =>
      data_length ← read_header_fields now (request_salt_len d) header_chunk;
      _ ← check_header_salt now salt;
      _ ← pmod (set_salt (Some salt));
      _ ← pmod (set_cipher (Some cipher));
      mret (Some (Z.to_nat data_length))
  end.

(** [cipher.decrypt_packet(&mut self.buffer[..n])], in place. *)
Definition decrypt_in_place (n : nat) (err : ProtocolError) : rpoll bytes :=
  c ← pget (λ e, rd_cipher (dr e));
  c ← pexpect c "cipher is None";
  buffer ← pget (λ e, rd_buffer (dr e));
  m ← slice_to n buffer;
  let '(r, c) := decrypt_packet c m in
  _ ← pmod (set_cipher (Some c));
  match r with
  | Some m => _ ← pmod (set_buffer (m ++ drop n buffer)); mret m
  | None => pfail err
  end.

(** The caller gets an [io::Error]: [decrypt_length(..)?] converts. *)
Definition decrypt_length (length_len : nat) : rpoll nat :=
  m ← decrypt_in_place length_len (IoError (io_Error_from_ProtocolError DecryptLengthError));
  m ← slice_to 2 m;
  mret (Z.to_nat (be_Z m)).

Definition poll_read_length : rpoll (option nat) :=
  method ← pget (λ e, rd_method (dr e));
  let length_len := (2 + tag_len method)%nat in
  n ← poll_read_exact length_len;
  if bool_decide (n = 0%nat) then mret None else
  length ← decrypt_length length_len;
  mret (Some length).

Definition poll_read_data (size : nat) : rpoll unit :=
  method ← pget (λ e, rd_method (dr e));
  let data_len := (size + tag_len method)%nat in
  n ← poll_read_exact data_len;
  if bool_decide (n = 0%nat) then pfail (IoError UnexpectedEof) else
  _ ← decrypt_in_place data_len DecryptDataError;
  pmod (λ e, set_buffer (take size (rd_buffer (dr e))) e).

(** One pass of the loop: [None] to go round again, [Some out] when the poll
    returns with [out] put into the caller's buffer. *)
Definition read_pass (now : Z) (room : nat) : rpoll (option bytes) :=
  state ← pget (λ e, rd_state (dr e));
  match state with
  | ReadHeader key =>
      r ← poll_read_header now key;
      match r with
      | None => mret (Some [])
      | Some length =>
          _ ← pmod (set_buffer []);
          _ ← pmod (set_state (ReadData length));
          _ ← pmod (set_handshaked true);
          mret None
      end
  | ReadLength =>
      r ← poll_read_length;
      match r with
      | None => mret (Some [])
      | Some length =>
          _ ← pmod (set_buffer []);
          _ ← pmod (set_state (ReadData length));
          mret None
      end
  | ReadData length =>
      _ ← poll_read_data length;
      _ ← pmod (set_state (BufferedData 0));
      _ ← pmod bump_chunk_count;
      mret None
  | BufferedData pos =>
      buffer ← pget (λ e, rd_buffer (dr e));
      if (pos <? length buffer)%nat then
        let buffered := drop pos buffer in
        let consumed := Nat.min (length buffered) room in
        _ ← pmod (set_state (BufferedData (pos + consumed)));
        mret (Some (take consumed buffered))
      else
        _ ← pmod (set_buffer []);
        _ ← pmod (set_state ReadLength);
        mret None
  end.

Fixpoint poll_read_decrypted_loop (fuel : nat) (now : Z) (room : nat) : rpoll bytes :=
  match fuel with
  | O => ppanic "out of fuel"
  | S fuel =>
      r ← read_pass now room;
      match r with
      | Some out => mret out
      | None => poll_read_decrypted_loop fuel now room
      end
  end.

(** A bound on the passes left. *)
Definition read_measure (e : rd_env) : nat :=
  4 * rs_size (strm e) +
  match rd_state (dr e) with
  | ReadHeader _ => 4
  | ReadLength => if bool_decide (rd_buffer (dr e) = []) then 0 else 3
  | ReadData _ => 2
  | BufferedData _ => 1
  end.

Definition poll_read_decrypted (now : Z) (room : nat) : rpoll bytes := λ e,
  poll_read_decrypted_loop (S (read_measure e)) now room e.

(** Chunk count and what is left of the current chunk. *)
Definition current_data_chunk_remaining (d : DecryptedReader) : Z * nat :=
  match rd_state d with
  | BufferedData pos => (data_chunk_count d, length (rd_buffer d) - pos)%nat
  | _ => (data_chunk_count d, 0%nat)
  end.

(** ** EncryptedWriter *)
Inductive EncryptWriteState := AssembleHeader | AssemblePacket | Writing (pos : nat).

Record EncryptedWriter := {
  wr_stream_ty : StreamType;
  wr_cipher : Cipher _;
  wr_method : CipherKind;
  wr_buffer : bytes;
  wr_state : EncryptWriteState;
  wr_salt : bytes;
  wr_request_salt : option bytes;
}.

(** [make_eih]; [None] is the [unreachable!]. *)
Definition make_eih (method : CipherKind) (sub_key ipsk : bytes) : option bytes :=
  let ipsk_plain_text := take 16 (blake3_hash ipsk) in
  match aes_kind method with
  | Some n => Some (aes_encrypt_block (take n sub_key) ipsk_plain_text)
  | None => None
  end.

(** The loop over the identity keys: the header of a key is made with the
    sub-key of the one before it. *)
Fixpoint identity_headers (method : CipherKind) (key nonce : bytes) (sub_key : option bytes) (identity_keys : list bytes)
  : option bytes :=
  match identity_keys with
  | [] => match sub_key with None => Some [] | Some sub_key => make_eih method sub_key key end
  | ipsk :: identity_keys =>
      eih ← match sub_key with None => Some [] | Some sub_key => make_eih method sub_key ipsk end;
      rest ← identity_headers method key nonce
               (Some (blake3_derive_key AEAD2022_EIH_SUBKEY_CONTEXT (ipsk ++ nonce))) identity_keys;
      Some (eih ++ rest)
  end.

Definition EncryptedWriter_with_identity (stream_ty : StreamType) (method : CipherKind) (key nonce : bytes)
    (identity_keys : list bytes) : outcome io_error EncryptedWriter :=
  let eihs :=
    if bool_decide (stream_ty = Client) && method_support_eih method
    then identity_headers method key nonce None identity_keys else Some [] in
  match eihs with
  | None => Panic "doesn't support EIH"
  | Some eihs => Ok
      {| wr_stream_ty := stream_ty; wr_cipher := Cipher_new method key nonce; wr_method := method;
         wr_buffer := nonce ++ eihs; wr_state := AssembleHeader; wr_salt := nonce; wr_request_salt := None |}
  end.

Definition EncryptedWriter_new (stream_ty : StreamType) (method : CipherKind) (key nonce : bytes) :=
  EncryptedWriter_with_identity stream_ty method key nonce [].

Definition set_request_salt (request_salt : bytes) (w : EncryptedWriter) : EncryptedWriter :=
  {| wr_stream_ty := wr_stream_ty w; wr_cipher := wr_cipher w; wr_method := wr_method w; wr_buffer := wr_buffer w;
     wr_state := wr_state w; wr_salt := wr_salt w; wr_request_salt := Some request_salt |}.

Definition reset_cipher_with_key (key : bytes) (w : EncryptedWriter) : EncryptedWriter :=
  {| wr_stream_ty := wr_stream_ty w; wr_cipher := Cipher_new (wr_method w) key (wr_salt w);
     wr_method := wr_method w; wr_buffer := wr_buffer w;
     wr_state := wr_state w; wr_salt := wr_salt w; wr_request_salt := wr_request_salt w |}.

Definition wr_upd (c : Cipher _) (b : bytes) (st : EncryptWriteState) (w : EncryptedWriter) : EncryptedWriter :=
  {| wr_stream_ty := wr_stream_ty w; wr_cipher := c; wr_method := wr_method w; wr_buffer := b;
     wr_state := st; wr_salt := wr_salt w; wr_request_salt := wr_request_salt w |}.

(** The plaintext of the header chunk. *)
Definition header_plain (stream_ty : StreamType) (now : Z) (request_salt : option bytes) (len : nat) : bytes :=
  be_bytes 1 (match stream_ty with Client => 0 | Server => 1 end) ++
  be_bytes 8 (get_now_timestamp now) ++ default [] request_salt ++ be_bytes 2 (Z.of_nat len).

(** [AssembleHeader]: the header chunk and the first data chunk. *)
Definition assemble_header (now : Z) (buf : bytes) (w : EncryptedWriter) : EncryptedWriter :=
  let '(head_pkt, c) :=
    encrypt_packet (wr_cipher w) (header_plain (wr_stream_ty w) now (wr_request_salt w) (length buf)) in
  let '(data_pkt, c) := encrypt_packet c buf in
  wr_upd c (wr_buffer w ++ head_pkt ++ data_pkt) (Writing 0) w.

(** [AssemblePacket]. *)
Definition assemble_packet (buf : bytes) (w : EncryptedWriter) : EncryptedWriter :=
  let '(len_pkt, c) := encrypt_packet (wr_cipher w) (be_bytes 2 (Z.of_nat (length buf))) in
  let '(data_pkt, c) := encrypt_packet c buf in
  wr_upd c (wr_buffer w ++ len_pkt ++ data_pkt) (Writing 0) w.

(** The [Writing] step: write the rest of the buffer, then reset. *)
Definition write_packet (pos : nat) (buf : bytes) : pollm (EncryptedWriter * wstream) io_error nat := λ '(w, s),
  let '(r, (pos, s)) := write_all_poll (wr_buffer w) (pos, s) in
  let w := wr_upd (wr_cipher w) (wr_buffer w) (Writing pos) w in
  match r with
  | Ready tt => (Ready (length buf), (wr_upd (wr_cipher w) [] AssemblePacket w, s))
  | Failed e => (Failed e, (w, s))
  | Panicked m => (Panicked m, (w, s))
  | Pending => (Pending, (w, s))
  end.

Definition poll_write_encrypted (now : Z) (buf : bytes) : pollm (EncryptedWriter * wstream) io_error nat := λ '(w, s),
  let buf := if (MAX_PACKET_SIZE <? length buf)%nat then take MAX_PACKET_SIZE buf else buf in
  match wr_state w with
  | AssembleHeader => write_packet 0 buf (assemble_header now buf w, s)
  | AssemblePacket => write_packet 0 buf (assemble_packet buf w, s)
  | Writing pos => write_packet pos buf (w, s)
  end.

End Aead2022.

(** ** The header *)
Section Header.
Context `{CS : CipherSuite, SC : !StreamCipher, B3 : Blake3, AE : Aes, BF : BloomFilter, LC : LruTimeCache}.
Context `{HSC : !StreamCipherLaws SC}.
Abbreviation rpoll := (pollm rd_env ProtocolError).

(** The fields by their position in the chunk. *)
Definition header_type (chunk : bytes) : Z := be_Z (take 1 chunk).
Definition header_timestamp (chunk : bytes) : Z := be_Z (take 8 (drop 1 chunk)).
Definition header_request_salt (n : nat) (chunk : bytes) : bytes := take n (drop 9 chunk).
Definition header_data_length (n : nat) (chunk : bytes) : Z := be_Z (take 2 (drop (9 + n) chunk)).

Lemma cur_take_at {E} n data pos :
  (pos + n ≤ length data)%nat →
  cur_take (E := E) n (Cursor data pos) = Ok (take n (drop pos data), Cursor data (pos + n)).
Proof. intros. unfold cur_take, cur_remaining, cur_rest. simpl. by len_true. Qed.

Lemma pcur_be n data pos (e : rd_env) :
  (pos + n ≤ length data)%nat →
  pcur (l ← cur_take n; mret (be_Z l)) (Cursor data pos) e =
  (Ready (be_Z (take n (drop pos data)), Cursor data (pos + n)), e).
Proof. intros. unfold pcur, mbind, parser_bind. by rewrite cur_take_at. Qed.

Lemma read_header_fields_eq now n chunk e :
  (11 + n ≤ length chunk)%nat → n = 0%nat ∨ n = salt_len (rd_method (dr e)) →
  read_header_fields now n chunk e =
  let ex := expected_stream_ty (rd_stream_ty (dr e)) in
  if negb (header_type chunk =? ex) then (Failed (InvalidStreamType ex (header_type chunk)), e) else
  if SERVER_STREAM_TIMESTAMP_MAX_DIFF <? abs_diff (get_now_timestamp now) (header_timestamp chunk)
  then (Failed (InvalidTimestamp (header_timestamp chunk) (get_now_timestamp now)), e) else
  (Ready (header_data_length n chunk),
   if (0 <? n)%nat then set_rd_request_salt (Some (header_request_salt n chunk)) e else e).
Proof.
  intros Hlen Hn. unfold read_header_fields. pstep.
  erewrite pbind_ready by (apply pcur_be; lia). cbv zeta. rewrite drop_0.
  fold (header_type chunk). destruct (negb _); [done|].
  erewrite pbind_ready by (apply pcur_be; lia). cbn [Nat.add]. fold (header_timestamp chunk).
  destruct (_ <? _); [done|].
  destruct (Nat.ltb_spec 0 n) as [Hpos|Hz].
  - destruct Hn as [->| ->]; [lia|]. unfold cur_remaining at 1. cbn [cur_data cur_pos]. len_true.
    erewrite pbind_ready; cycle 1.
    { erewrite pbind_ready by (unfold pcur; rewrite cur_take_at by lia; reflexivity). reflexivity. }
    cbv beta. erewrite pbind_ready by (apply pcur_be; lia). done.
  - assert (n = 0%nat) as -> by lia.
    erewrite pbind_ready by reflexivity. erewrite pbind_ready by (apply pcur_be; lia). done.
Qed.
End Header.

(** ** What an accepted header guarantees *)
Section HeaderSound.
Context `{CS : CipherSuite, SC : !StreamCipher, B3 : Blake3, AE : Aes, BF : BloomFilter, LC : LruTimeCache}.
Context `{HSC : !StreamCipherLaws SC}.

(** Invariant of a reader of an AEAD-2022 method. *)
Definition reader_wf (d : DecryptedReader) : Prop :=
  (0 < tag_len (rd_method d))%nat ∧
  match rd_state d with ReadHeader _ => True | _ => is_Some (rd_cipher d) end.

(** The key and identity header a header chunk belongs to: the server's key, or
    the key of the registered user the identity header names. *)
Inductive header_key (d : DecryptedReader) (key salt : bytes) : bytes → bytes → option bytes → Prop :=
| hk_server chunk :
    require_eih d = false → header_key d key salt key chunk (rd_user_key d)
| hk_user users hash user eih chunk :
    require_eih d = true → rd_user_manager d = Some users → length eih = 16%nat →
    eih_user_hash (rd_method d) key salt eih = Some hash →
    get_user_by_hash users hash = Some user →
    header_key d key salt (user_key user) (eih ++ chunk) (Some (user_key user)).

(** The header that took the reader from [e] to [e'] with a first data chunk of
    [len] bytes. *)
Record header_accepted (now : Z) (key : bytes) (e : rd_env) (len : nat) (e' : rd_env)
    (ha_salt ha_rest ha_key ha_plain : bytes) (ha_cipher : Cipher _) : Prop := {
  (** one read of the transport delivered the salt and the rest of the header *)
  ha_read : poll_read (header_len (dr e)) (strm e) = (Ready (ha_salt ++ ha_rest), strm e');
  ha_salt_len : length ha_salt = salt_len (rd_method (dr e));
  ha_len : length (ha_salt ++ ha_rest) = header_len (dr e);
  (** the key it is sealed with *)
  ha_header_key : header_key (dr e) key ha_salt ha_key ha_rest (rd_user_key (dr e'));
  (** its seal is intact *)
  ha_decrypt : decrypt_packet (Cipher_new (rd_method (dr e)) ha_key ha_salt)
                 (drop (if require_eih (dr e) then 16 else 0) ha_rest) = (Some ha_plain, ha_cipher);
  (** direction, age and length *)
  ha_type : header_type ha_plain = expected_stream_ty (rd_stream_ty (dr e));
  ha_timestamp : abs_diff (get_now_timestamp now) (header_timestamp ha_plain) ≤ 30;
  ha_length : len = Z.to_nat (header_data_length (request_salt_len (dr e)) ha_plain);
  (** the salt is new to a server, which remembers it *)
  ha_replay : match rd_stream_ty (dr e) with
              | Server => fst (check_nonce_replay now (ctx e) (rd_method (dr e)) ha_salt) = Ok tt ∧
                          ctx e' = snd (check_nonce_replay now (ctx e) (rd_method (dr e)) ha_salt)
              | Client => ctx e' = ctx e
              end;
  (** what the reader keeps *)
  ha_reader_salt : rd_salt (dr e') = Some ha_salt;
  ha_reader_cipher : rd_cipher (dr e') = Some ha_cipher;
  ha_reader_request : rd_request_salt (dr e') =
    if (0 <? request_salt_len (dr e))%nat
    then Some (header_request_salt (request_salt_len (dr e)) ha_plain) else rd_request_salt (dr e);
  ha_method : rd_method (dr e') = rd_method (dr e);
}.

Lemma header_cipher_spec key salt rest e :
  (require_eih (dr e) = true → (16 ≤ length rest)%nat) → reader_wf (dr e) →
  psafe (λ e', reader_wf (dr e'))
    (λ '(c, chunk) e', ∃ k uk,
       header_key (dr e) key salt k rest uk ∧ c = Cipher_new (rd_method (dr e)) k salt ∧
       chunk = drop (if require_eih (dr e) then 16 else 0) rest ∧ e' = set_user_key uk e)
    (header_cipher (require_eih (dr e)) key salt rest e).
Proof.
  intros Hlen Hwf. unfold header_cipher. pstep. destruct (require_eih (dr e)) eqn:Hr.
  - pstep. unfold require_eih, method_support_eih in Hr.
    destruct (rd_stream_ty (dr e)) eqn:Hty; [done|]. destruct (rd_user_manager (dr e)) as [users|] eqn:Hu; [|done].
    destruct (aes_kind (rd_method (dr e))) as [n|] eqn:Ha; [|done].
    erewrite pbind_ready by reflexivity. specialize (Hlen eq_refl). len_false.
    unfold eih_user_hash. rewrite Ha. erewrite pbind_ready by reflexivity. cbv beta.
    destruct (get_user_by_hash users _) as [user|] eqn:Hg; [|done]. pstep.
    unfold psafe. simpl. exists (user_key user), (Some (user_key user)). split; [|done].
    rewrite <- (take_drop 16 rest). eapply hk_user; try done.
    + unfold require_eih, method_support_eih. by rewrite Hty, Hu, Ha.
    + rewrite length_take. lia.
    + unfold eih_user_hash. by rewrite Ha.
  - unfold psafe. simpl. exists key, (rd_user_key (dr e)). split; [by apply hk_server|].
    split; [done|]. split; [by rewrite drop_0|]. destruct e as [[] ? ?]. done.
Qed.

Lemma check_header_salt_spec now salt e :
  reader_wf (dr e) →
  psafe (λ e', reader_wf (dr e'))
    (λ _ e', match rd_stream_ty (dr e) with
             | Server => fst (check_nonce_replay now (ctx e) (rd_method (dr e)) salt) = Ok tt ∧
                         e' = set_ctx (snd (check_nonce_replay now (ctx e) (rd_method (dr e)) salt)) e
             | Client => e' = e
             end)
    (check_header_salt now salt e).
Proof.
  intros Hwf. unfold check_header_salt. pstep. destruct (rd_stream_ty (dr e)); [done|]. pstep.
  pose proof (check_nonce_replay_no_panic now (ctx e) (rd_method (dr e)) salt) as Hn.
  destruct (check_nonce_replay now (ctx e) _ salt) as [[[]|x|m] c]; [done..|]. done.
Qed.

Lemma poll_read_header_spec now key e :
  reader_wf (dr e) →
  psafe (λ e', reader_wf (dr e'))
    (λ r e', (rs_size (strm e') ≤ rs_size (strm e))%nat ∧ rd_method (dr e') = rd_method (dr e) ∧
       match r with
       | None => reader_wf (dr e')
       | Some len => ∃ salt rest k plain c, header_accepted now key e len e' salt rest k plain c
       end)
    (poll_read_header now key e).
Proof.
  intros Hwf. unfold poll_read_header. pstep. set (hl := header_len (dr e)).
  set (e1 := set_buffer _ e).
  pose proof (poll_read_total hl (strm e)) as Ht.
  destruct (poll_read hl (strm e)) as [r s] eqn:Er. destruct Ht as [Hp Hsz].
  assert (pzoom strm set_strm IoError (poll_read hl) e1 = (perr IoError r, set_strm s e1)) as Ez.
  { unfold pzoom. change (strm e1) with (strm e). by rewrite Er. }
  destruct r as [buf|x|m|]; [|by rewrite (pbind_failed _ _ _ _ _ Ez)|done|by rewrite (pbind_pending _ _ _ _ Ez)].
  rewrite (pbind_ready _ _ _ _ _ Ez). pstep. set (e2 := set_buffer _ (set_strm s e1)).
  assert (reader_wf (dr e2)) as Hwf2 by done.
  case_bool_decide as Hnil; [done|].
  destruct (Nat.eqb_spec (length buf) hl) as [Hl|]; simpl; [|done].
  set (salt := take _ buf). set (rest := drop _ buf).
  change (require_eih (dr e)) with (require_eih (dr e2)).
  assert (hl = salt_len (rd_method (dr e)) + (if require_eih (dr e2) then 16 else 0) + 11 +
               request_salt_len (dr e) + tag_len (rd_method (dr e)))%nat as Hhl.
  { unfold hl, header_len. change (require_eih (dr e2)) with (require_eih (dr e)). lia. }
  assert (length rest = hl - salt_len (rd_method (dr e)))%nat as Hrest by (unfold rest; rewrite length_drop; lia).
  eapply psafe_bind.
  { apply (header_cipher_spec key salt rest e2); [|done]. intros Hr. rewrite Hr in Hhl. lia. }
  intros [c chunk] e3 (k & uk & Hk & -> & -> & ->). cbv beta iota.
  destruct (decrypt_packet _ _) as [[plain|] c'] eqn:Ed; [|done].
  pose proof (decrypt_length_eq _ _ _ _ Ed) as Hpl. rewrite length_drop in Hpl.
  set (e3 := set_user_key uk e2).
  assert (reader_wf (dr e3)) as Hwf3 by done.
  assert (11 + request_salt_len (dr e) ≤ length plain)%nat as Hpl' by lia.
  pose proof (read_header_fields_eq now (request_salt_len (dr e)) plain e3 Hpl') as Hf.
  unfold mbind at 1, pollm_bind at 1. rewrite Hf; clear Hf.
  2:{ unfold request_salt_len. simpl. destruct (rd_stream_ty (dr e)); auto. }
  cbv zeta. destruct (Z.eqb_spec (header_type plain) (expected_stream_ty (rd_stream_ty (dr e3)))) as [Hty|]; simpl; [|done].
  destruct (Z.ltb_spec SERVER_STREAM_TIMESTAMP_MAX_DIFF (abs_diff (get_now_timestamp now) (header_timestamp plain)))
    as [|Hts]; [done|].
  set (e4 := if (0 <? request_salt_len (dr e))%nat then _ else e3).
  assert (reader_wf (dr e4)) as Hwf4 by (unfold e4; by destruct (_ <? _)%nat).
  eapply psafe_bind; [by apply check_header_salt_spec|].
  intros [] e5 He5. pstep. unfold psafe. cbn [fst snd].
  assert (strm e4 = s ∧ ctx e4 = ctx e ∧ rd_method (dr e4) = rd_method (dr e) ∧
          rd_stream_ty (dr e4) = rd_stream_ty (dr e) ∧ rd_user_key (dr e4) = uk ∧
          rd_request_salt (dr e4) = if (0 <? request_salt_len (dr e))%nat
            then Some (header_request_salt (request_salt_len (dr e)) plain) else rd_request_salt (dr e))
    as (H1 & H2 & H3 & H4 & H5 & H6) by (unfold e4; by destruct (_ <? _)%nat).
  rewrite H2, H3, H4 in He5.
  assert (strm e5 = s ∧ dr e5 = dr e4) as [H7 H8].
  { destruct (rd_stream_ty (dr e)); [by subst e5|]. destruct He5 as [_ ->]. done. }
  split; [simpl; by rewrite H7|]. split; [simpl; by rewrite H8, H3|].
  exists salt, rest, k, plain, c'. split; simpl; rewrite ?H7, ?H8; try done.
  - unfold salt, rest. by rewrite take_drop.
  - unfold salt. rewrite length_take. lia.
  - unfold salt, rest. by rewrite take_drop.
  - rewrite H5. destruct Hk; [exact (hk_server (dr e) key salt _ H)|by eapply (hk_user (dr e))].
  - destruct (rd_stream_ty (dr e)); [by subst e5|]. destruct He5 as [? ->]. done.
Qed.

(** C2. An AEAD-2022 header is only accepted if one read delivered all of it,
    it is sealed under the server's key or under the key of the registered user
    named by its identity header, it has the right direction, its timestamp is
    within 30 seconds, and, on a server, its salt was not refused as a replay;
    the reader then holds exactly the salt, request salt, user key and length it
    carries. *)
Theorem aead_2022_header_sound now key e len e' :
  reader_wf (dr e) → poll_read_header now key e = (Ready (Some len), e') →
  ∃ salt rest k plain c, header_accepted now key e len e' salt rest k plain c.
Proof.
  intros Hwf Heq. pose proof (poll_read_header_spec now key e Hwf) as H.
  rewrite Heq in H. by destruct H as (_ & _ & H).
Qed.
End HeaderSound.

(** ** The reader on any transport *)
Section ReaderTotal.
Context `{CS : CipherSuite, SC : !StreamCipher, B3 : Blake3, AE : Aes, BF : BloomFilter, LC : LruTimeCache}.
Context `{HSC : !StreamCipherLaws SC}.

Abbreviation safe := (psafe (λ e', reader_wf (dr e'))).

Lemma poll_read_exact_safe size e :
  (0 < size)%nat → reader_wf (dr e) →
  safe (λ n e', ∃ buf s, e' = set_strm s (set_buffer buf e) ∧ (rs_size s ≤ rs_size (strm e))%nat ∧
    (n = size ∧ (size ≤ length buf)%nat ∧
     (rs_size s + length buf ≤ rs_size (strm e) + length (rd_buffer (dr e)))%nat
     ∨ n = 0%nat ∧ buf = []))
    (poll_read_exact size e).
Proof.
  intros Hs Hwf. unfold poll_read_exact, pzoom.
  pose proof (read_exact_poll_total size (rd_buffer (dr e)) (strm e) Hs) as H.
  destruct (read_exact_poll size _) as [r [buf s]]. destruct H as (Hp & Hsz & Hr).
  destruct r as [n|x|m|]; simpl in *; try done.
  exists buf, s. split; [done|]. split; [done|].
  destruct (Hr n eq_refl) as [(-> & ? & _ & ?)|(-> & -> & _)]; auto.
Qed.

Lemma decrypt_in_place_safe n err e c :
  reader_wf (dr e) → rd_cipher (dr e) = Some c → (n ≤ length (rd_buffer (dr e)))%nat →
  safe (λ m e', length m = n ∧ ∃ c' buf, e' = set_buffer buf (set_cipher (Some c') e)) (decrypt_in_place n err e).
Proof.
  intros [Ht Hwf] Hc Hn. unfold decrypt_in_place. pstep. rewrite Hc. erewrite pbind_ready by reflexivity. pstep.
  unfold slice_to. rewrite (proj2 (Nat.leb_le _ _) Hn). erewrite pbind_ready by reflexivity. cbv beta.
  destruct (decrypt_packet c _) as [[m|] c'] eqn:E; pstep.
  - apply decrypt_length_eq in E. rewrite length_take in E. split; [simpl; lia|eauto].
  - split; [done|]. simpl. destruct (rd_state (dr e)); eauto.
Qed.

(** A pass of the loop. *)
Definition pass_ok (e : rd_env) (r : option bytes) (e' : rd_env) : Prop :=
  reader_wf (dr e') ∧ (r = None → (read_measure e' < read_measure e)%nat).

Lemma header_pass_safe now room key e :
  rd_state (dr e) = ReadHeader key → reader_wf (dr e) → safe (pass_ok e) (read_pass now room e).
Proof.
  intros Hst Hwf. unfold read_pass. pstep. rewrite Hst.
  eapply psafe_bind; [by apply poll_read_header_spec|].
  intros [len|] e' (Hsz & Hm & H); [|by split].
  destruct H as (salt & rest & k & plain & c & Hacc). pstep. split; simpl.
  - destruct Hwf as [Ht _]. split; simpl; [by rewrite Hm|]. rewrite (ha_reader_cipher _ _ _ _ _ _ _ _ _ _ Hacc). eauto.
  - intros _. unfold read_measure. simpl. rewrite Hst. lia.
Qed.

Lemma length_pass_safe now room e :
  rd_state (dr e) = ReadLength → reader_wf (dr e) → safe (pass_ok e) (read_pass now room e).
Proof.
  intros Hst Hwf. unfold read_pass. pstep. rewrite Hst.
  pose proof Hwf as [Ht Hs]. rewrite Hst in Hs. destruct Hs as [c Hc].
  eapply psafe_bind with (P := λ r e', reader_wf (dr e') ∧
    match r with None => True | Some _ => is_Some (rd_cipher (dr e')) ∧
      (4 * rs_size (strm e') + 2 < read_measure e)%nat end).
  - unfold poll_read_length. pstep.
    eapply psafe_bind; [apply poll_read_exact_safe; [lia|done]|].
    intros n e' (buf & s & -> & Hsz & Hn). cbv beta.
    assert (reader_wf (dr (set_buffer buf e))) as Hwf' by (split; simpl; [done|rewrite Hst; eauto]).
    case_bool_decide as Hz; [done|].
    destruct Hn as [(-> & Hlen & Hsz')|(-> & ->)]; [|done].
    assert (4 * rs_size s + 2 < read_measure e)%nat as Hmeas.
    { unfold read_measure. rewrite Hst. case_bool_decide as Hb; [rewrite Hb in Hsz'; simpl in Hsz'|]; lia. }
    set (e1 := set_strm s (set_buffer buf e)). unfold decrypt_length.
    eapply psafe_bind with (P := λ _ e', reader_wf (dr e') ∧ is_Some (rd_cipher (dr e')) ∧ strm e' = s).
    + eapply psafe_bind; [by eapply (decrypt_in_place_safe _ _ e1 c)|].
      intros m e' (Hml & c' & buf' & ->). unfold slice_to. rewrite (proj2 (Nat.leb_le _ _)) by lia.
      erewrite pbind_ready by reflexivity. unfold psafe. simpl. split; [|eauto].
      split; simpl; [done|]. rewrite Hst. eauto.
    + intros l e' (Hw & Hci & Hstr). unfold psafe. simpl. by rewrite Hstr.
  - intros [l|] e' [Hw H]; pstep; [|by split].
    destruct H as [Hci Hme]. split; simpl.
    + destruct Hw as [Ht' _]. split; simpl; [done|]. by destruct (rd_cipher (dr e')).
    + intros _. unfold read_measure at 1. simpl. lia.
Qed.

Lemma data_pass_safe now room len e :
  rd_state (dr e) = ReadData len → reader_wf (dr e) → safe (pass_ok e) (read_pass now room e).
Proof.
  intros Hst Hwf. unfold read_pass. pstep. rewrite Hst.
  pose proof Hwf as [Ht Hs]. rewrite Hst in Hs. destruct Hs as [c Hc].
  eapply psafe_bind with (P := λ _ e', reader_wf (dr e') ∧ is_Some (rd_cipher (dr e')) ∧
    (rs_size (strm e') ≤ rs_size (strm e))%nat).
  - unfold poll_read_data. pstep.
    eapply psafe_bind; [apply poll_read_exact_safe; [lia|done]|].
    intros n e' (buf & s & -> & Hsz & Hn). cbv beta.
    assert (reader_wf (dr (set_buffer buf e))) as Hwf' by (split; simpl; [done|rewrite Hst; eauto]).
    case_bool_decide as Hz; [done|].
    destruct Hn as [(-> & Hlen & _)|(-> & ->)]; [|done].
    eapply psafe_bind; [by eapply (decrypt_in_place_safe _ _ (set_strm s (set_buffer buf e)) c)|].
    intros m e' (Hml & c' & buf' & ->). unfold psafe. simpl. split; [|eauto].
    split; simpl; [done|]. rewrite Hst. eauto.
  - intros [] e' (Hw & Hci & Hsz). pstep. split; simpl.
    + destruct Hw as [Ht' _]. by split.
    + intros _. unfold read_measure. simpl. rewrite Hst. lia.
Qed.

Lemma buffered_pass_safe now room pos e :
  rd_state (dr e) = BufferedData pos → reader_wf (dr e) → safe (pass_ok e) (read_pass now room e).
Proof.
  intros Hst Hwf. unfold read_pass. pstep. rewrite Hst. pstep.
  pose proof Hwf as [Ht Hs]. rewrite Hst in Hs.
  destruct (pos <? length (rd_buffer (dr e)))%nat; pstep; (split; [by split|]); [done|].
  intros _. unfold read_measure. simpl. rewrite Hst. lia.
Qed.

Lemma read_pass_safe now room e : reader_wf (dr e) → safe (pass_ok e) (read_pass now room e).
Proof.
  intros Hwf. destruct (rd_state (dr e)) eqn:Hst;
    eauto using header_pass_safe, length_pass_safe, data_pass_safe, buffered_pass_safe.
Qed.

Lemma read_loop_safe fuel now room e :
  (read_measure e < fuel)%nat → reader_wf (dr e) →
  safe (λ _ e', reader_wf (dr e')) (poll_read_decrypted_loop fuel now room e).
Proof.
  revert e. induction fuel as [|fuel IH]; intros e Hf Hwf; [lia|]. cbn [poll_read_decrypted_loop].
  eapply psafe_bind; [by apply read_pass_safe|].
  intros [out|] e' [Hw Hmeas]; [done|]. specialize (Hmeas eq_refl). apply IH; [lia|done].
Qed.

Lemma reader_new_wf_2022 ty method key users :
  (0 < tag_len method)%nat → reader_wf (DecryptedReader_with_user_manager ty method key users).
Proof. intros. unfold DecryptedReader_with_user_manager, reader_wf. by case_match. Qed.

(** The AEAD-2022 reader is total: whatever the transport delivers, every
    poll of a reader that was only ever polled returns, on clients and servers,
    with and without users: the loop ends, and no cursor, slice, [expect] or
    [unreachable!] panics. *)
Theorem aead_2022_reader_total ty method key users c0 (polls : list (Z * nat * rstream)) :
  (0 < tag_len method)%nat →
  let e := foldl (λ e '(now, room, more),
             snd (poll_read_decrypted now room (set_strm (strm e ++ more) e)))
             {| dr := DecryptedReader_with_user_manager ty method key users; strm := []; ctx := c0 |} polls in
  ∀ now room more,
    is_panicked (fst (poll_read_decrypted now room (set_strm (strm e ++ more) e))) = false.
Proof.
  intros Ht. cbv zeta.
  assert (∀ e, reader_wf (dr e) → reader_wf (dr (foldl (λ e '(now, room, more),
    snd (poll_read_decrypted now room (set_strm (strm e ++ more) e))) e polls))) as Hfold.
  { induction polls as [|[[now room] more] polls IH]; intros e Hwf; [done|]. simpl. apply IH.
    pose proof (read_loop_safe (S (read_measure (set_strm (strm e ++ more) e))) now room
      (set_strm (strm e ++ more) e) ltac:(lia) Hwf) as H.
    unfold poll_read_decrypted. destruct (poll_read_decrypted_loop _ _ _ _) as [[]]; done. }
  intros now room more. unfold poll_read_decrypted. eapply psafe_no_panic, read_loop_safe; [lia|].
  apply (Hfold {| dr := _; strm := []; ctx := c0 |}). by apply reader_new_wf_2022.
Qed.
End ReaderTotal.

(** ** The reader on a well-formed stream *)
Section ReaderWire.
Context `{CS : CipherSuite, SC : !StreamCipher, B3 : Blake3, AE : Aes, BF : BloomFilter, LC : LruTimeCache}.
Context `{HSC : !StreamCipherLaws SC}.

Definition chunk_ok (chunk : bytes) : Prop := (length chunk ≤ MAX_PACKET_SIZE)%nat.

(** A header [salt ++ eih ++ seal] that the reader [d], with the server key
    [key], accepts at time [now]; [k] is the key of the stream. *)
Record good_header (now : Z) (d : DecryptedReader) (key : bytes) (c0 : Context)
    (salt eih k plain : bytes) : Prop := {
  gh_salt : length salt = salt_len (rd_method d);
  gh_eih : length eih = (if require_eih d then 16 else 0)%nat;
  gh_key : if require_eih d
           then ∃ users hash user, rd_user_manager d = Some users ∧
                  eih_user_hash (rd_method d) key salt eih = Some hash ∧
                  get_user_by_hash users hash = Some user ∧ k = user_key user
           else k = key;
  gh_len : length plain = (11 + request_salt_len d)%nat;
  gh_type : header_type plain = expected_stream_ty (rd_stream_ty d);
  gh_time : abs_diff (get_now_timestamp now) (header_timestamp plain) ≤ 30;
  gh_replay : rd_stream_ty d = Server → fst (check_nonce_replay now c0 (rd_method d) salt) = Ok tt;
}.

Definition seal (c : Cipher _) (p : bytes) : bytes := fst (encrypt_packet c p).
Definition after (c : Cipher _) (p : bytes) : Cipher _ := snd (encrypt_packet c p).

(** [sees now e rest]: what the reader holds and the transport still delivers is
    the encryption of [rest].  The header has to arrive in one piece. *)
Inductive sees (now : Z) (e : rd_env) (rest : bytes) : Prop :=
| sees_header key salt eih k plain chunk cs n d s :
    rd_state (dr e) = ReadHeader key → good_header now (dr e) key (ctx e) salt eih k plain →
    strm e = replicate n RdPending ++ RdData ((salt ++ eih ++ seal (Cipher_new (rd_method (dr e)) k salt) plain) ++ d) :: s →
    header_data_length (request_salt_len (dr e)) plain = Z.of_nat (length chunk) →
    (let c := after (Cipher_new (rd_method (dr e)) k salt) plain in
     d ++ rs_bytes s = seal c chunk ++ TcpAead.frames (after c chunk) cs) →
    rs_clean s = true →
    Forall chunk_ok cs → rest = chunk ++ concat cs → sees now e rest
| sees_length c cs :
    rd_state (dr e) = ReadLength → rd_cipher (dr e) = Some c → cipher_tag_len c = tag_len (rd_method (dr e)) →
    (length (rd_buffer (dr e)) ≤ 2 + tag_len (rd_method (dr e)))%nat →
    rd_buffer (dr e) ++ rs_bytes (strm e) = TcpAead.frames c cs →
    Forall chunk_ok cs → rest = concat cs → sees now e rest
| sees_data c chunk cs :
    rd_state (dr e) = ReadData (length chunk) → rd_cipher (dr e) = Some c →
    cipher_tag_len c = tag_len (rd_method (dr e)) →
    (length (rd_buffer (dr e)) ≤ length chunk + tag_len (rd_method (dr e)))%nat →
    rd_buffer (dr e) ++ rs_bytes (strm e) = seal c chunk ++ TcpAead.frames (after c chunk) cs →
    Forall chunk_ok cs → rest = chunk ++ concat cs → sees now e rest
| sees_buffered pos c cs :
    rd_state (dr e) = BufferedData pos → rd_cipher (dr e) = Some c →
    cipher_tag_len c = tag_len (rd_method (dr e)) →
    rs_bytes (strm e) = TcpAead.frames c cs →
    Forall chunk_ok cs → rest = drop pos (rd_buffer (dr e)) ++ concat cs → sees now e rest.

(** Outcome of a pass of such a reader. *)
Inductive pass_sees (now : Z) (room : nat) (e : rd_env) (rest : bytes)
  : pres ProtocolError (option bytes) * rd_env → Prop :=
| ps_pending e' :
    sees now e' rest → rs_clean (strm e') = true → (rs_pendings (strm e') < rs_pendings (strm e))%nat →
    pass_sees now room e rest (Pending, e')
| ps_again e' :
    sees now e' rest → rs_clean (strm e') = true → (rs_pendings (strm e') ≤ rs_pendings (strm e))%nat →
    pass_sees now room e rest (Ready None, e')
| ps_out out rest' e' :
    rest = out ++ rest' → (out = [] → rest = [] ∨ room = 0%nat) →
    sees now e' rest' → rs_clean (strm e') = true → (rs_pendings (strm e') ≤ rs_pendings (strm e))%nat →
    pass_sees now room e rest (Ready (Some out), e').

Lemma poll_read_exact_eq_2022 size e :
  poll_read_exact size e =
  let '(r, (b, s)) := read_exact_poll size (rd_buffer (dr e), strm e) in
  (perr IoError r, set_strm s (set_buffer b e)).
Proof. unfold poll_read_exact, pzoom. by destruct (read_exact_poll _ _) as [r [b s]]. Qed.

Lemma length_seal c p n : cipher_tag_len c = n → length (seal c p) = (length p + n)%nat.
Proof. intros <-. apply encrypt_length. Qed.

Lemma decrypt_in_place_sealed p err e c :
  rd_cipher (dr e) = Some c → rd_buffer (dr e) = seal c p →
  ∃ t, length t = cipher_tag_len c ∧
    decrypt_in_place (length p + cipher_tag_len c) err e =
    (Ready (p ++ t), set_buffer (p ++ t) (set_cipher (Some (after c p)) e)).
Proof.
  intros Hc Hb. destruct (decrypt_encrypt c p) as (t & Ht & Hd). exists t. split; [done|].
  unfold decrypt_in_place. pstep. rewrite Hc. erewrite pbind_ready by reflexivity. pstep.
  rewrite Hb. unfold seal in *. rewrite <- (encrypt_length c p).
  rewrite <- (app_nil_r (fst (encrypt_packet c p))) at 2.
  erewrite pbind_ready by by apply slice_to_app. cbv beta. rewrite Hd. pstep.
  by rewrite skipn_all, app_nil_r.
Qed.

(** The header as the reader's cipher choice sees it. *)
Lemma header_cipher_good now key salt eih k plain sealed e e1 :
  good_header now (dr e) key (ctx e) salt eih k plain →
  dr e1 = dr (set_buffer (rd_buffer (dr e1)) e) →
  ∃ uk, header_cipher (require_eih (dr e)) key salt (eih ++ sealed) e1 =
        (Ready (Cipher_new (rd_method (dr e)) k salt, sealed), set_user_key uk e1).
Proof.
  intros Hg He1. destruct Hg as [_ Heih Hk _ _ _ _]. unfold header_cipher. pstep. rewrite He1.
  cbn [rd_method dr set_buffer set_dr upd].
  destruct (require_eih (dr e)) eqn:Hr.
  - destruct Hk as (users & hash & user & Hu & Hh & Hg & ->).
    pstep. rewrite He1. cbn [rd_user_manager dr set_buffer set_dr upd]. rewrite Hu.
    erewrite pbind_ready by reflexivity. cbv beta. rewrite length_app, Heih.
    replace (16 + length sealed <? 16)%nat with false by (symmetry; apply Nat.ltb_ge; lia).
    rewrite take_app_length', drop_app_length' by done. rewrite Hh. erewrite pbind_ready by reflexivity.
    cbv beta. rewrite Hg. pstep. by eexists.
  - subst k. destruct eih; [|done]. exists (rd_user_key (dr e1)). simpl. unfold mret, pollm_ret. f_equal.
    destruct e1 as [[] ? ?]. done.
Qed.

Lemma header_type_app p t : (1 ≤ length p)%nat → header_type (p ++ t) = header_type p.
Proof. intros. unfold header_type. by rewrite take_app_le. Qed.

Lemma header_timestamp_app p t : (9 ≤ length p)%nat → header_timestamp (p ++ t) = header_timestamp p.
Proof.
  intros. unfold header_timestamp. rewrite drop_app_le by lia. rewrite take_app_le; [done|]. rewrite length_drop. lia.
Qed.

Lemma header_data_length_app n p t :
  (11 + n ≤ length p)%nat → header_data_length n (p ++ t) = header_data_length n p.
Proof.
  intros. unfold header_data_length. rewrite drop_app_le by lia. rewrite take_app_le; [done|].
  rewrite length_drop. lia.
Qed.

Lemma good_header_buffer now d key c0 salt eih k plain b :
  good_header now d key c0 salt eih k plain →
  good_header now (upd (rd_state d) (rd_cipher d) b d) key c0 salt eih k plain.
Proof. intros []. by constructor. Qed.

Lemma header_len_good now d key c0 salt eih k plain :
  good_header now d key c0 salt eih k plain →
  header_len d = length (salt ++ eih ++ seal (Cipher_new (rd_method d) k salt) plain).
Proof.
  intros []. rewrite !length_app, (length_seal _ _ _ (cipher_tag_new _ _ _)), gh_salt0, gh_eih0, gh_len0.
  unfold header_len. lia.
Qed.

Lemma check_header_salt_good now salt e :
  (rd_stream_ty (dr e) = Server → fst (check_nonce_replay now (ctx e) (rd_method (dr e)) salt) = Ok tt) →
  ∃ c', check_header_salt now salt e = (Ready tt, set_ctx c' e).
Proof.
  intros H. unfold check_header_salt. pstep. destruct (rd_stream_ty (dr e)).
  - exists (ctx e). unfold mret, pollm_ret. by destruct e.
  - specialize (H eq_refl). pstep. destruct (check_nonce_replay now (ctx e) _ salt) as [r c']. simpl in H. subst r.
    pstep. by exists c'.
Qed.

(** A good header that is there is accepted: the reader then holds the stream's
    cipher. *)
Lemma poll_read_header_good now key salt eih k plain len d s e :
  good_header now (dr e) key (ctx e) salt eih k plain →
  strm e = RdData ((salt ++ eih ++ seal (Cipher_new (rd_method (dr e)) k salt) plain) ++ d) :: s →
  header_data_length (request_salt_len (dr e)) plain = Z.of_nat len →
  ∃ e', poll_read_header now key e = (Ready (Some len), e') ∧
    rd_cipher (dr e') = Some (after (Cipher_new (rd_method (dr e)) k salt) plain) ∧
    rd_method (dr e') = rd_method (dr e) ∧
    strm e' = (if bool_decide (d = []) then s else RdData d :: s).
Proof.
  intros Hg Hs Hl. pose proof (header_len_good _ _ _ _ _ _ _ _ Hg) as Hhl.
  pose proof Hg as [Hsl _ _ Hpl Hty Hts Hrep].
  set (H := salt ++ eih ++ seal (Cipher_new (rd_method (dr e)) k salt) plain) in *.
  assert (H ≠ []) as Hne.
  { intros Hnil. rewrite Hnil in Hhl. unfold header_len in Hhl. simpl in Hhl. lia. }
  unfold poll_read_header. pstep. set (e1 := set_buffer _ e).
  assert (pzoom strm set_strm IoError (poll_read (header_len (dr e))) e1 =
          (Ready H, set_strm (if bool_decide (d = []) then s else RdData d :: s) e1)) as Ez.
  { unfold pzoom. change (strm e1) with (strm e). rewrite Hs, Hhl. unfold poll_read.
    rewrite bool_decide_false by (by destruct H). by rewrite take_app_length, drop_app_length. }
  rewrite (pbind_ready _ _ _ _ _ Ez). pstep. rewrite bool_decide_false by done.
  rewrite Hhl, Nat.eqb_refl. cbn [negb].
  replace (take (salt_len (rd_method (dr e))) H) with salt by (unfold H; by rewrite take_app_length').
  replace (drop (salt_len (rd_method (dr e))) H)
    with (eih ++ seal (Cipher_new (rd_method (dr e)) k salt) plain) by (unfold H; by rewrite drop_app_length').
  set (e2 := set_buffer _ (set_strm _ e1)).
  destruct (header_cipher_good now key salt eih k plain (seal (Cipher_new (rd_method (dr e)) k salt) plain) e e2 Hg eq_refl)
    as [uk Hc].
  rewrite (pbind_ready _ _ _ _ _ Hc). cbv beta iota.
  destruct (decrypt_encrypt (Cipher_new (rd_method (dr e)) k salt) plain) as (t & Ht & Hd).
  fold (seal (Cipher_new (rd_method (dr e)) k salt) plain) in Hd. rewrite Hd.
  set (e3 := set_user_key uk e2).
  pose proof (read_header_fields_eq now (request_salt_len (dr e)) (plain ++ t) e3) as Hf.
  rewrite header_type_app, header_timestamp_app, header_data_length_app in Hf by lia.
  cbv zeta in Hf. change (rd_stream_ty (dr e3)) with (rd_stream_ty (dr e)) in Hf.
  rewrite Hty, Z.eqb_refl in Hf. cbn [negb] in Hf.
  unfold SERVER_STREAM_TIMESTAMP_MAX_DIFF in Hf. rewrite (proj2 (Z.ltb_ge _ _)) in Hf by done.
  erewrite pbind_ready; cycle 1.
  { apply Hf; [rewrite length_app; lia|]. unfold request_salt_len. simpl. destruct (rd_stream_ty (dr e)); auto. }
  cbv beta. set (e4 := if (0 <? _)%nat then _ else e3).
  assert (strm e4 = (if bool_decide (d = []) then s else RdData d :: s) ∧ ctx e4 = ctx e ∧
          rd_method (dr e4) = rd_method (dr e) ∧ rd_stream_ty (dr e4) = rd_stream_ty (dr e))
    as (H1 & H2 & H3 & H4) by (unfold e4; by destruct (_ <? _)%nat).
  destruct (check_header_salt_good now salt e4) as [c' Hcs]; [by rewrite H2, H3, H4|].
  rewrite (pbind_ready _ _ _ _ _ Hcs). pstep. rewrite Hl, Nat2Z.id. by eexists.
Qed.

Lemma header_pass_sees now room key salt eih k plain chunk cs n d s rest e :
  rd_state (dr e) = ReadHeader key → good_header now (dr e) key (ctx e) salt eih k plain →
  strm e = replicate n RdPending ++ RdData ((salt ++ eih ++ seal (Cipher_new (rd_method (dr e)) k salt) plain) ++ d) :: s →
  header_data_length (request_salt_len (dr e)) plain = Z.of_nat (length chunk) →
  (let c := after (Cipher_new (rd_method (dr e)) k salt) plain in
   d ++ rs_bytes s = seal c chunk ++ TcpAead.frames (after c chunk) cs) →
  rs_clean s = true → Forall chunk_ok cs → rest = chunk ++ concat cs →
  pass_sees now room e rest (read_pass now room e).
Proof.
  intros Hst Hg Hs Hl Hd Hc Hcs ->. unfold read_pass. pstep. rewrite Hst.
  destruct n as [|n]; simpl in Hs.
  - destruct (poll_read_header_good _ _ _ _ _ _ _ _ _ _ Hg Hs Hl) as (e' & He & Hci & Hm & Hs').
    rewrite (pbind_ready _ _ _ _ _ He). pstep. apply ps_again.
    + eapply sees_data; simpl; try done; rewrite ?Hm; [| |].
      * unfold after. rewrite cipher_tag_enc. apply cipher_tag_new.
      * lia.
      * rewrite Hs', <- Hd. case_bool_decide; [by subst d|done].
    + simpl. rewrite Hs'. case_bool_decide; [done|]. simpl. by rewrite bool_decide_false.
    + simpl. rewrite Hs', Hs. by case_bool_decide.
  - erewrite pbind_pending.
    2:{ unfold poll_read_header. pstep. apply pbind_pending. unfold pzoom. simpl. rewrite Hs. reflexivity. }
    apply ps_pending.
    + eapply sees_header; simpl; try done. by apply good_header_buffer.
    + simpl. unfold rs_clean. rewrite forallb_app. simpl. rewrite bool_decide_false.
      * unfold rs_clean in Hc. rewrite Hc. simpl. clear. by induction n.
      * pose proof (header_len_good _ _ _ _ _ _ _ _ Hg) as Hhl. intros Hnil. apply app_nil in Hnil as [Hnil _].
        rewrite Hnil in Hhl. unfold header_len in Hhl. simpl in Hhl. lia.
    + rewrite Hs. simpl. lia.
Qed.

(** Reading [size] bytes that are there: done or not yet. *)
Lemma read_available_2022 size e w rest :
  (0 < size)%nat → rs_clean (strm e) = true → (length (rd_buffer (dr e)) ≤ size)%nat →
  rd_buffer (dr e) ++ rs_bytes (strm e) = w ++ rest → length w = size →
  (∃ s, poll_read_exact size e = (Ready size, set_strm s (set_buffer w e)) ∧
        rs_bytes s = rest ∧ rs_clean s = true ∧ (rs_pendings s ≤ rs_pendings (strm e))%nat) ∨
  (∃ b s, poll_read_exact size e = (Pending, set_strm s (set_buffer b e)) ∧
        b ++ rs_bytes s = w ++ rest ∧ (length b ≤ size)%nat ∧
        rs_clean s = true ∧ (rs_pendings s < rs_pendings (strm e))%nat).
Proof.
  intros Hs Hc Hb Heq Hw. rewrite poll_read_exact_eq_2022.
  destruct (read_exact_available _ _ _ _ _ Hs Hc Hb Heq Hw)
    as [(s & -> & ?)|(b & s & -> & ?)]; [left|right]; eauto 10.
Qed.

Lemma frames_cons c chunk cs :
  TcpAead.frames c (chunk :: cs) =
  let lb := be_bytes 2 (Z.of_nat (length chunk)) in
  seal c lb ++ seal (after c lb) chunk ++ TcpAead.frames (after (after c lb) chunk) cs.
Proof.
  simpl. unfold TcpAead.frame, seal, after. destruct (encrypt_packet c _) as [l c1].
  destruct (encrypt_packet c1 chunk) as [d c2] eqn:E. simpl. rewrite E. by rewrite <- app_assoc.
Qed.

Lemma length_pass_sees_2022 now room c cs rest e :
  rs_clean (strm e) = true →
  rd_state (dr e) = ReadLength → rd_cipher (dr e) = Some c → cipher_tag_len c = tag_len (rd_method (dr e)) →
  (length (rd_buffer (dr e)) ≤ 2 + tag_len (rd_method (dr e)))%nat →
  rd_buffer (dr e) ++ rs_bytes (strm e) = TcpAead.frames c cs →
  Forall chunk_ok cs → rest = concat cs →
  pass_sees now room e rest (read_pass now room e).
Proof.
  intros Hc Hst Hci Htag Hb Heq Hcs ->. unfold read_pass. pstep. rewrite Hst.
  unfold poll_read_length. destruct cs as [|chunk cs].
  - simpl in Heq. apply app_nil in Heq as [Hbuf Hrs].
    pose proof (poll_read_exact_eq_2022 (2 + tag_len (rd_method (dr e))) e) as Hp. rewrite Hbuf in Hp.
    destruct (read_exact_at_end (2 + tag_len (rd_method (dr e))) _ ltac:(lia) Hc Hrs)
      as [Hre|(s & Hre & Hrs' & Hcl & Hpe)]; rewrite Hre in Hp; simpl in Hp.
    + erewrite pbind_ready; [|pstep; by erewrite pbind_ready by exact Hp].
      apply (ps_out _ _ _ _ [] []); [done|by left| |done|simpl; lia].
      eapply sees_length with (cs := []); simpl; try done. lia.
    + erewrite pbind_pending; [|pstep; by erewrite pbind_pending by exact Hp].
      apply ps_pending; [|done|done]. eapply sees_length with (cs := []); simpl; try done. lia.
  - inversion_clear Hcs as [|? ? Hch Hcs']. rewrite frames_cons in Heq. cbv zeta in Heq.
    assert (be_Z (be_bytes 2 (Z.of_nat (length chunk))) = Z.of_nat (length chunk)) as Hz.
    { apply be_Z_be_bytes_small. unfold chunk_ok, MAX_PACKET_SIZE in Hch. simpl in *. lia. }
    pose proof (length_be_bytes 2 (Z.of_nat (length chunk))) as Hlb.
    remember (be_bytes 2 (Z.of_nat (length chunk))) as lb eqn:Elb.
    pose proof (length_seal c lb _ Htag) as Hlen. rewrite Hlb in Hlen.
    destruct (read_available_2022 (2 + tag_len (rd_method (dr e))) e _ _ ltac:(lia) Hc Hb Heq Hlen)
      as [(s & Hp & Hrs & Hcl & Hpe)|(b & s & Hp & Hrs & Hbl & Hcl & Hpe)].
    + destruct (decrypt_in_place_sealed lb (IoError (io_Error_from_ProtocolError DecryptLengthError))
        (set_strm s (set_buffer (seal c lb) e)) c) as (t & Ht & Hd); [done|done|].
      rewrite Hlb, Htag in Hd.
      erewrite pbind_ready; cycle 1.
      { pstep. erewrite pbind_ready by exact Hp. cbv beta. rewrite bool_decide_false by lia.
        unfold decrypt_length. erewrite pbind_ready; [reflexivity|].
        erewrite pbind_ready by exact Hd. erewrite pbind_ready by by apply slice_to_app. reflexivity. }
      pstep. rewrite Hz, Nat2Z.id. apply ps_again; [|done|done].
      eapply sees_data; simpl; try done; [|lia]. unfold after. by rewrite cipher_tag_enc.
    + erewrite pbind_pending; [|pstep; by erewrite pbind_pending by exact Hp].
      apply ps_pending; [|done|done]. eapply sees_length with (cs := chunk :: cs); simpl; try done.
      { trans (TcpAead.frames c (chunk :: cs)); [|done]. rewrite frames_cons. cbv zeta. by rewrite <- Elb. }
      by constructor.
Qed.

Lemma data_pass_sees_2022 now room c chunk cs rest e :
  (0 < tag_len (rd_method (dr e)))%nat → rs_clean (strm e) = true →
  rd_state (dr e) = ReadData (length chunk) → rd_cipher (dr e) = Some c →
  cipher_tag_len c = tag_len (rd_method (dr e)) →
  (length (rd_buffer (dr e)) ≤ length chunk + tag_len (rd_method (dr e)))%nat →
  rd_buffer (dr e) ++ rs_bytes (strm e) = seal c chunk ++ TcpAead.frames (after c chunk) cs →
  Forall chunk_ok cs → rest = chunk ++ concat cs →
  pass_sees now room e rest (read_pass now room e).
Proof.
  intros Htl Hc Hst Hci Htag Hb Heq Hcs ->. unfold read_pass. pstep. rewrite Hst. unfold poll_read_data.
  pose proof (length_seal c chunk _ Htag) as Hlen.
  destruct (read_available_2022 (length chunk + tag_len (rd_method (dr e))) e _ _ ltac:(lia) Hc Hb Heq Hlen)
    as [(s & Hp & Hrs & Hcl & Hpe)|(b & s & Hp & Hrs & Hbl & Hcl & Hpe)].
  - destruct (decrypt_in_place_sealed chunk DecryptDataError
      (set_strm s (set_buffer (seal c chunk) e)) c) as (t & Ht & Hd); [done|done|]. rewrite Htag in Hd.
    erewrite pbind_ready; cycle 1.
    { pstep. erewrite pbind_ready by exact Hp. cbv beta. rewrite bool_decide_false by lia.
      erewrite pbind_ready by exact Hd. reflexivity. }
    pstep. apply ps_again; [|done|done]. eapply sees_buffered; simpl; try done.
    + unfold after. by rewrite cipher_tag_enc.
    + by rewrite take_app_length, drop_0.
  - erewrite pbind_pending; [|pstep; by erewrite pbind_pending by exact Hp].
    apply ps_pending; [|done|done]. by eapply sees_data.
Qed.

Lemma buffered_pass_sees_2022 now room pos c cs rest e :
  rs_clean (strm e) = true →
  rd_state (dr e) = BufferedData pos → rd_cipher (dr e) = Some c →
  cipher_tag_len c = tag_len (rd_method (dr e)) →
  rs_bytes (strm e) = TcpAead.frames c cs →
  Forall chunk_ok cs → rest = drop pos (rd_buffer (dr e)) ++ concat cs →
  pass_sees now room e rest (read_pass now room e).
Proof.
  intros Hc Hst Hci Htag Hrs Hcs ->. unfold read_pass. pstep. rewrite Hst. pstep.
  destruct (Nat.ltb_spec pos (length (rd_buffer (dr e)))) as [Hlt|Hge]; pstep.
  - set (k := Nat.min _ room).
    apply (ps_out _ _ _ _ _ (drop (pos + k) (rd_buffer (dr e)) ++ concat cs)); [| | |done|done].
    + by rewrite <- drop_drop, app_assoc, take_drop.
    + intros Hnil. right. apply (f_equal length) in Hnil. rewrite length_take in Hnil. simpl in Hnil.
      subst k. rewrite length_drop in *. lia.
    + by eapply sees_buffered.
  - apply ps_again; [|done|done]. eapply sees_length; simpl; try done; [lia|]. by rewrite drop_ge.
Qed.

Lemma read_pass_sees_2022 now room rest e :
  reader_wf (dr e) → sees now e rest → rs_clean (strm e) = true →
  pass_sees now room e rest (read_pass now room e).
Proof.
  intros [Ht _] Hsee Hc. destruct Hsee as [|c cs Hst|c chunk cs Hst|pos c cs Hst];
    [eapply header_pass_sees|eapply length_pass_sees_2022|eapply data_pass_sees_2022|eapply buffered_pass_sees_2022]; eauto.
Qed.

(** A poll gives a non-empty prefix of what is left, or has to wait, or is at
    the end. *)
Lemma poll_sees_2022 now room rest e :
  reader_wf (dr e) → sees now e rest → rs_clean (strm e) = true →
  (∃ e', poll_read_decrypted now room e = (Pending, e') ∧ reader_wf (dr e') ∧
     sees now e' rest ∧ rs_clean (strm e') = true ∧ (rs_pendings (strm e') < rs_pendings (strm e))%nat) ∨
  (∃ out rest' e', poll_read_decrypted now room e = (Ready out, e') ∧ reader_wf (dr e') ∧
     rest = out ++ rest' ∧ (out = [] → rest = [] ∨ room = 0%nat) ∧
     sees now e' rest' ∧ rs_clean (strm e') = true ∧ (rs_pendings (strm e') ≤ rs_pendings (strm e))%nat).
Proof.
  unfold poll_read_decrypted. assert (read_measure e < S (read_measure e))%nat as Hf by lia. revert Hf.
  generalize (S (read_measure e)) as fuel. intros fuel. revert e.
  induction fuel as [|fuel IH]; intros e Hf Hwf Hsee Hc; [lia|].
  cbn [poll_read_decrypted_loop]. unfold mbind, pollm_bind.
  pose proof (read_pass_safe now room e Hwf) as Hok. unfold psafe in Hok.
  destruct (read_pass_sees_2022 now room rest e Hwf Hsee Hc) as [e' H1 H2 H3|e' H1 H2 H3|out rest' e' H1 H2 H3 H4 H5];
    simpl in Hok.
  - left. eauto 10.
  - destruct Hok as [Hwf' Hm]. specialize (Hm eq_refl).
    destruct (IH e' ltac:(lia) Hwf' H1 H2) as [(e2 & -> & ? & ? & ? & ?)|(out & rest' & e2 & -> & ? & ? & ? & ? & ? & ?)].
    + left. eexists. split; [done|]. split_and!; try done. lia.
    + right. do 3 eexists. split; [done|]. split_and!; try done. lia.
  - destruct Hok as [Hwf' _]. right. eauto 10.
Qed.

(** Polls until the end of the stream, collecting what they give. *)
Definition drain_reader (polls : nat) (now : Z) (room : nat) : rd_env → option bytes :=
  drain (poll_read_decrypted now room) polls.

Lemma drain_sees_2022 polls now room rest e :
  (0 < room)%nat → reader_wf (dr e) → sees now e rest → rs_clean (strm e) = true →
  (rs_pendings (strm e) + length rest < polls)%nat →
  drain_reader polls now room e = Some rest.
Proof.
  intros Hr Hwf Hsee Hc. apply (drain_spec _
    (λ e rest, reader_wf (dr e) ∧ sees now e rest ∧ rs_clean (strm e) = true) (λ e, rs_pendings (strm e))); [|done].
  clear e rest Hwf Hsee Hc. intros e rest (Hwf & Hsee & Hc). unfold read_step_ok.
  destruct (poll_sees_2022 now room rest e Hwf Hsee Hc)
    as [(e' & -> & ? & ? & ? & ?)|(out & rest' & e' & -> & ? & -> & Hout & ? & ? & ?)]; [by left|right].
  exists out, rest'. split_and!; try done. intros Hn. destruct (Hout Hn); [done|lia].
Qed.
End ReaderWire.

(** ** The writer *)
Section WriterWire.
Context `{CS : CipherSuite, SC : !StreamCipher, B3 : Blake3, AE : Aes}.

(** The chunk a write of [buf] sends. *)
Definition chunk_of (buf : bytes) : bytes := take MAX_PACKET_SIZE buf.

(** Writes of the buffers in order, at time [now]. *)
Definition drive_writer (polls : nat) (now : Z)
  : list bytes → EncryptedWriter * wstream → bool * (EncryptedWriter * wstream) :=
  drive (poll_write_encrypted now) polls.

(** The wire image of a first chunk with its header, and of the ones after. *)
Definition header_frames (now : Z) (ty : StreamType) (request_salt : option bytes) (c : Cipher _) (chunks : list bytes)
  : bytes :=
  match chunks with
  | [] => []
  | chunk :: chunks =>
      let p := header_plain ty now request_salt (length chunk) in
      seal c p ++ seal (after c p) chunk ++ TcpAead.frames (after (after c p) chunk) chunks
  end.

(** What is still to be sent. *)
Definition tosend (now : Z) (w : EncryptedWriter) (bufs : list bytes) : bytes :=
  match wr_state w with
  | AssembleHeader =>
      wr_buffer w ++ header_frames now (wr_stream_ty w) (wr_request_salt w) (wr_cipher w) (chunk_of <$> bufs)
  | AssemblePacket => wr_buffer w ++ TcpAead.frames (wr_cipher w) (chunk_of <$> bufs)
  | Writing pos => drop pos (wr_buffer w) ++ TcpAead.frames (wr_cipher w) (chunk_of <$> tail bufs)
  end.

Definition writer_wf (w : EncryptedWriter) (bufs : list bytes) : Prop :=
  match wr_state w with
  | Writing pos => (pos ≤ length (wr_buffer w))%nat ∧ bufs ≠ []
  | _ => True
  end.

Lemma chunk_of_eq_2022 buf :
  (if (MAX_PACKET_SIZE <? length buf)%nat then take MAX_PACKET_SIZE buf else buf) = chunk_of buf.
Proof.
  unfold chunk_of. destruct (Nat.ltb_spec MAX_PACKET_SIZE (length buf)); [done|]. by rewrite take_ge.
Qed.

Lemma chunk_of_ok_2022 buf : chunk_ok (chunk_of buf).
Proof. unfold chunk_ok, chunk_of. rewrite length_take. lia. Qed.

Definition writer_idle (w : EncryptedWriter) : Prop := wr_state w = AssemblePacket ∧ wr_buffer w = [].

Abbreviation step_spec now := (write_step_ok (tosend now) writer_wf writer_idle).

Lemma write_packet_step_2022 now pos buf bufs w s :
  wr_state w = Writing pos → (pos ≤ length (wr_buffer w))%nat → forallb wr_clean (wr_script s) = true →
  (length (drop pos (wr_buffer w) ++ TcpAead.frames (wr_cipher w) (chunk_of <$> bufs)) ≤ wr_accepts (wr_script s))%nat →
  step_spec now buf bufs (wr_out s ++ drop pos (wr_buffer w) ++ TcpAead.frames (wr_cipher w) (chunk_of <$> bufs)) s
    (write_packet pos (chunk_of buf) (w, s)).
Proof.
  intros Hst Hpos Hc Hroom. rewrite length_app, length_drop in Hroom.
  destruct (write_all_step (wr_buffer w) pos _ s Hpos Hc Hroom)
    as (s' & Hc' & Hl & [(Hw & Hout & Hroom')|(pos' & Hw & Hpos' & Hout & Hroom' & Hlt)]);
    unfold write_step_ok, write_packet; rewrite Hw; do 3 eexists; (split; [done|]).
  - split; [left; split; [by eexists|]; split; [done|]; by split|].
    unfold tosend. simpl. rewrite Hout, <- app_assoc. by split_and!.
  - split; [right; by split_and!|].
    unfold writer_wf, tosend. simpl. rewrite app_assoc, Hout, <- app_assoc, length_app, length_drop. by split_and!.
Qed.

(** The two [Assemble] states append what is to be sent to the buffer. *)
Lemma assemble_tosend now buf bufs w w1 :
  wr_state w = AssembleHeader ∧ w1 = assemble_header now (chunk_of buf) w ∨
  wr_state w = AssemblePacket ∧ w1 = assemble_packet (chunk_of buf) w →
  wr_state w1 = Writing 0 ∧
  tosend now w (buf :: bufs) = drop 0 (wr_buffer w1) ++ TcpAead.frames (wr_cipher w1) (chunk_of <$> bufs).
Proof.
  unfold tosend, assemble_header, assemble_packet.
  intros [[-> ->]|[-> ->]]; cbn [fmap list_fmap header_frames].
  - unfold seal, after. destruct (encrypt_packet (wr_cipher w) _) as [l c1]. simpl.
    destruct (encrypt_packet c1 _) as [d c2]. simpl. by rewrite drop_0, <- !app_assoc.
  - rewrite frames_cons. unfold seal, after. destruct (encrypt_packet (wr_cipher w) _) as [l c1]. simpl.
    destruct (encrypt_packet c1 _) as [d c2]. simpl. by rewrite drop_0, <- !app_assoc.
Qed.

Lemma poll_write_step_2022 now buf bufs w s :
  writer_wf w (buf :: bufs) → forallb wr_clean (wr_script s) = true →
  (length (tosend now w (buf :: bufs)) ≤ wr_accepts (wr_script s))%nat →
  step_spec now buf bufs (wr_out s ++ tosend now w (buf :: bufs)) s (poll_write_encrypted now buf (w, s)).
Proof.
  intros Hwf Hc Hroom. unfold poll_write_encrypted. rewrite chunk_of_eq_2022.
  destruct (wr_state w) as [| |pos] eqn:Hst.
  - destruct (assemble_tosend now buf bufs w (assemble_header now (chunk_of buf) w)) as [Hst1 Heq]; [by left|].
    rewrite Heq in Hroom |- *. apply write_packet_step_2022; try done. lia.
  - destruct (assemble_tosend now buf bufs w (assemble_packet (chunk_of buf) w)) as [Hst1 Heq]; [by right|].
    rewrite Heq in Hroom |- *. apply write_packet_step_2022; try done. lia.
  - unfold tosend at 2. unfold tosend in Hroom. unfold writer_wf in Hwf. rewrite Hst in *.
    destruct Hwf as [Hwf _]. by apply write_packet_step_2022.
Qed.

Lemma drive_writer_spec_2022 polls now bufs w s :
  writer_wf w bufs → forallb wr_clean (wr_script s) = true →
  (length (tosend now w bufs) ≤ wr_accepts (wr_script s))%nat →
  (length (wr_script s) + length bufs ≤ polls)%nat → bufs ≠ [] →
  ∃ w' s', drive_writer polls now bufs (w, s) = (true, (w', s')) ∧ wr_out s' = wr_out s ++ tosend now w bufs.
Proof.
  intros. apply (drive_spec _ (tosend now) writer_wf writer_idle (poll_write_step_2022 now)); [|done..|by left].
  intros w0 [Hst Hb]. unfold tosend. by rewrite Hst, Hb.
Qed.
End WriterWire.

(** ** End to end *)
Section EndToEnd.
Context `{CS : CipherSuite, SC : !StreamCipher, B3 : Blake3, AE : Aes, BF : BloomFilter, LC : LruTimeCache}.
Context `{HSC : !StreamCipherLaws SC, HB3 : !Blake3Laws B3, HAE : !AesLaws AE}.

(** The identity header a client makes from a server key is the one the server
    decrypts to the hash of the client's key. *)
Lemma eih_roundtrip method ipsk k salt eih :
  make_eih method (blake3_derive_key AEAD2022_EIH_SUBKEY_CONTEXT (ipsk ++ salt)) k = Some eih →
  length eih = 16%nat ∧ eih_user_hash method ipsk salt eih = Some (take 16 (blake3_hash k)).
Proof.
  unfold make_eih, eih_user_hash. destruct (aes_kind method) as [n|]; [|done]. intros [= <-].
  assert (length (take 16 (blake3_hash k)) = 16%nat) as Hl by (rewrite length_take, blake3_hash_length; done).
  split; [by apply aes_encrypt_length|]. by rewrite aes_decrypt_encrypt.
Qed.

Definition opposite (ty : StreamType) : StreamType := match ty with Client => Server | Server => Client end.

(** How the two ends are keyed: they share [k] and there are no users, or the
    writer is a client that knows the server's key [key] and whose own key [k]
    belongs to a registered user. *)
Inductive keyed (ty : StreamType) (method : CipherKind) (k key : bytes)
  : list bytes → option ServerUserManager → Prop :=
| keyed_same users :
    k = key → ty = Server ∨ users = None ∨ method_support_eih method = false → keyed ty method k key [] users
| keyed_user users user :
    ty = Client → method_support_eih method = true →
    get_user_by_hash users (take 16 (blake3_hash k)) = Some user → user_key user = k →
    keyed ty method k key [key] (Some users).

(** The header the writer makes is good for the reader at the other end. *)
Lemma header_plain_good ty method key k salt eih users c0 rsalt tw tr len :
  let d := DecryptedReader_with_user_manager (opposite ty) method key users in
  (0 < salt_len method)%nat → length salt = salt_len method →
  (rsalt = match ty with Client => None | Server => Some (default [] rsalt) end) →
  (ty = Server → length (default [] rsalt) = salt_len method) →
  length eih = (if require_eih d then 16 else 0)%nat →
  (if require_eih d
   then ∃ um hash user, users = Some um ∧ eih_user_hash method key salt eih = Some hash ∧
          get_user_by_hash um hash = Some user ∧ k = user_key user
   else k = key) →
  in_u64 (get_now_timestamp tw) → abs_diff (get_now_timestamp tr) (get_now_timestamp tw) ≤ 30 →
  (ty = Client → fst (check_nonce_replay tr c0 method salt) = Ok tt) → Z.of_nat len < 65536 →
  good_header tr d key c0 salt eih k (header_plain ty tw rsalt len) ∧
  header_data_length (request_salt_len d) (header_plain ty tw rsalt len) = Z.of_nat len.
Proof.
  intros d Hsl Hsalt Hrs Hrl Heih Hk Hu64 Hts Hrep Hlen.
  assert (rd_method d = method ∧ rd_stream_ty d = opposite ty ∧ rd_user_manager d = users) as (Hm & Hty & Hum).
  { unfold d, DecryptedReader_with_user_manager. by destruct (_ <? _)%nat. }
  assert (request_salt_len d = length (default [] rsalt)) as Hrsl.
  { unfold request_salt_len. rewrite Hty, Hm. destruct ty; simpl; [by rewrite Hrs|by rewrite Hrl]. }
  assert (length (header_plain ty tw rsalt len) = 11 + request_salt_len d)%nat as Hpl.
  { unfold header_plain. rewrite !length_app, !length_be_bytes, Hrsl. lia. }
  split; [split|].
  - by rewrite Hm.
  - done.
  - rewrite Hm, Hum. done.
  - done.
  - rewrite Hty. unfold header_type, header_plain. rewrite take_app_length' by (by rewrite length_be_bytes).
    rewrite be_Z_be_bytes_small by (destruct ty; simpl; lia). by destruct ty.
  - unfold header_timestamp, header_plain. rewrite drop_app_length' by (by rewrite length_be_bytes).
    rewrite take_app_length' by (by rewrite length_be_bytes). rewrite be_Z_be_bytes_small; done.
  - rewrite Hty, Hm. destruct ty; [|done]. intros _. by apply Hrep.
  - unfold header_data_length, header_plain.
    rewrite (app_assoc (be_bytes 1 _)), (app_assoc (_ ++ _)). rewrite drop_app_length'.
    + rewrite take_ge by (rewrite length_be_bytes; lia). apply be_Z_be_bytes_small. simpl. lia.
    + rewrite !length_app, !length_be_bytes, Hrsl. done.
Qed.

(** The writer at the start of a stream. *)
Definition start_writer (ty : StreamType) (method : CipherKind) (k salt : bytes) (ids : list bytes) (rsalt : option bytes)
  : outcome io_error EncryptedWriter :=
  w ← EncryptedWriter_with_identity ty method k salt ids;
  Ok (match rsalt with Some r => set_request_salt r w | None => w end).

Lemma start_writer_keyed ty method k key salt ids users rsalt w :
  keyed ty method k key ids users → start_writer ty method k salt ids rsalt = Ok w →
  let d := DecryptedReader_with_user_manager (opposite ty) method key users in
  ∃ eih, length eih = (if require_eih d then 16 else 0)%nat ∧
    (if require_eih d
     then ∃ um hash user, users = Some um ∧ eih_user_hash method key salt eih = Some hash ∧
            get_user_by_hash um hash = Some user ∧ k = user_key user
     else k = key) ∧
    wr_state w = AssembleHeader ∧ wr_buffer w = salt ++ eih ∧ wr_stream_ty w = ty ∧
    wr_request_salt w = rsalt ∧ wr_cipher w = Cipher_new method k salt.
Proof.
  intros Hk Hw d. unfold start_writer, EncryptedWriter_with_identity in Hw.
  assert (require_eih d = match opposite ty, users with Server, Some _ => method_support_eih method | _, _ => false end) as Hr.
  { unfold require_eih, d, DecryptedReader_with_user_manager. by destruct (_ <? _)%nat. }
  destruct Hk as [users -> Hno|users user -> Hs Hg Hu].
  - assert (require_eih d = false) as ->.
    { rewrite Hr. destruct Hno as [->|[->| ->]]; [done|by destruct ty|by destruct ty, users]. }
    exists []. assert ((if bool_decide (ty = Client) && method_support_eih method
      then identity_headers method key salt None [] else Some []) = Some []) as E by (by destruct (_ && _)).
    rewrite E in Hw. simpl in Hw. injection Hw as <-. destruct rsalt; simpl; by rewrite app_nil_r.
  - simpl in Hr. rewrite Hr, Hs. rewrite Hs in Hw. simpl in Hw.
    destruct (make_eih method _ k) as [eih|] eqn:E; [|done]. simpl in Hw.
    destruct (eih_roundtrip _ _ _ _ _ E) as [Hl Hh]. exists eih. split; [done|].
    split; [by eauto 10|]. injection Hw as <-. destruct rsalt; done.
Qed.

(** C1. Transparency of the AEAD-2022 stream, in both directions: what the
    writer at one end was given is what the reader at the other end gives, when
    they share a key or the server knows the client's user by its identity
    header, the clocks differ by at most 30 seconds, the salt is new to the
    server and the header arrives in one piece; the rest may be cut in any
    pieces, and polls on either side may find the transport not ready. *)
Theorem aead_2022_stream_transparent ty method k key salt ids users rsalt w bufs script wpolls tw tr c0 n h pre s room rpolls :
  (0 < tag_len method)%nat → (0 < salt_len method)%nat → length salt = salt_len method →
  (rsalt = match ty with Client => None | Server => Some (default [] rsalt) end) →
  (ty = Server → length (default [] rsalt) = salt_len method) →
  keyed ty method k key ids users → start_writer ty method k salt ids rsalt = Ok w → bufs ≠ [] →
  forallb wr_clean script = true → (length (tosend tw w bufs) ≤ wr_accepts script)%nat →
  (length script + length bufs ≤ wpolls)%nat →
  let sent := wr_out (snd (snd (drive_writer wpolls tw bufs (w, {| wr_script := script; wr_out := [] |})))) in
  let d := DecryptedReader_with_user_manager (opposite ty) method key users in
  in_u64 (get_now_timestamp tw) → abs_diff (get_now_timestamp tr) (get_now_timestamp tw) ≤ 30 →
  (ty = Client → fst (check_nonce_replay tr c0 method salt) = Ok tt) →
  length h = header_len d → h ++ pre ++ rs_bytes s = sent → rs_clean s = true → (0 < room)%nat →
  (n + rs_pendings s + length (concat (chunk_of <$> bufs)) < rpolls)%nat →
  drain_reader rpolls tr room {| dr := d; strm := replicate n RdPending ++ RdData (h ++ pre) :: s; ctx := c0 |} =
  Some (concat (chunk_of <$> bufs)).
Proof.
  intros Ht Hsl Hsalt Hrs Hrl Hk Hw Hne Hsc Hroom Hwp sent d Hu64 Hts Hrep Hh Hsent Hc Hr Hrp.
  destruct (start_writer_keyed _ _ _ _ _ _ _ _ _ Hk Hw) as (eih & Heih & Hkey & Hst & Hbuf & Hty & Hwrs & Hci).
  fold d in Heih, Hkey.
  destruct (drive_writer_spec_2022 wpolls tw bufs w {| wr_script := script; wr_out := [] |}) as (w' & s' & H1 & H2);
    [by unfold writer_wf; rewrite Hst|done|done|done|done|].
  unfold sent in Hsent. rewrite H1 in Hsent. simpl in Hsent. rewrite H2 in Hsent. simpl in Hsent.
  destruct bufs as [|buf bufs]; [done|]. unfold tosend in Hsent.
  rewrite Hst, Hbuf, Hty, Hwrs, Hci in Hsent. cbn [fmap list_fmap header_frames] in Hsent.
  pose proof (chunk_of_ok_2022 buf) as Hck. unfold chunk_ok, MAX_PACKET_SIZE in Hck.
  destruct (header_plain_good ty method key k salt eih users c0 rsalt tw tr (length (chunk_of buf)))
    as [Hgood Hdl]; try done; [lia|]. fold d in Hgood, Hdl.
  set (plain := header_plain ty tw rsalt (length (chunk_of buf))) in *.
  assert (rd_method d = method ∧ rd_state d = ReadHeader key) as [Hm Hrst].
  { unfold d, DecryptedReader_with_user_manager. by rewrite (proj2 (Nat.ltb_lt _ _)). }
  pose proof (header_len_good _ _ _ _ _ _ _ _ Hgood) as Hhl. rewrite Hm in Hhl.
  rewrite <- app_assoc, (app_assoc eih), (app_assoc salt) in Hsent.
  apply app_inj_1 in Hsent as [-> Hrest]; [|by rewrite Hh, Hhl, ?app_assoc].
  apply drain_sees_2022; try done.
  - simpl. by apply reader_new_wf_2022.
  - eapply (sees_header _ _ _ key salt eih k plain (chunk_of buf) (chunk_of <$> bufs) n pre s); simpl; try done.
    + by rewrite Hm.
    + by rewrite Hm.
    + apply Forall_fmap, Forall_true. intros b. apply chunk_of_ok_2022.
  - simpl. unfold rs_clean. rewrite forallb_app. simpl. unfold rs_clean in Hc. rewrite Hc, bool_decide_false.
    + simpl. clear. by induction n.
    + intros Hnil. apply app_nil in Hnil as [Hnil _]. rewrite Hnil in Hh. unfold header_len in Hh. simpl in Hh. lia.
  - simpl. assert (rs_pendings (replicate n RdPending ++ RdData
      ((salt ++ eih ++ seal (Cipher_new method k salt) plain) ++ pre) :: s) = n + rs_pendings s)%nat as ->.
    { clear. induction n; simpl; [done|]. by rewrite IHn. }
    done.
Qed.
End EndToEnd.

(** ** What the header leaves behind *)
Section Handshake.
Context `{CS : CipherSuite, SC : !StreamCipher, B3 : Blake3, AE : Aes, BF : BloomFilter, LC : LruTimeCache}.
Context `{HSC : !StreamCipherLaws SC}.

(** [p] does not change what [f] observes of the reader. *)
Definition keeps {X A} (f : DecryptedReader → X) (p : pollm rd_env ProtocolError A) : Prop :=
  ∀ e, f (dr (snd (p e))) = f (dr e).

Section Keeps.
Context {X : Type} (f : DecryptedReader → X).

Lemma keeps_bind {A B} (p : pollm rd_env ProtocolError A) (k : A → pollm rd_env ProtocolError B) :
  keeps f p → (∀ a, keeps f (k a)) → keeps f (p ≫= k).
Proof.
  intros Hp Hf e. specialize (Hp e). unfold mbind, pollm_bind. destruct (p e) as [[a|x|m|] e']; simpl in *; try done.
  by rewrite (Hf a e').
Qed.

Lemma keeps_id {A} (g : rd_env → pres ProtocolError A) : keeps f (λ e, (g e, e)).
Proof. by intros e. Qed.

Lemma keeps_get {A} (g : rd_env → A) : keeps f (pget g).
Proof. by intros e. Qed.

Lemma keeps_mod g : (∀ e, f (dr (g e)) = f (dr e)) → keeps f (pmod g).
Proof. intros H e. apply H. Qed.

Lemma keeps_slice n l : keeps f (slice_to n l).
Proof. intros e. unfold slice_to. by destruct (_ <=? _)%nat. Qed.

Lemma keeps_result {E A} (g : E → ProtocolError) (c : outcome E A) : keeps f (presult g c).
Proof. intros e. by destruct c. Qed.

Lemma keeps_expect {A} (o : option A) m : keeps f (pexpect o m).
Proof. intros e. by destruct o. Qed.
End Keeps.

(** What the header sets once and for all, with state and count. *)
Definition ident (d : DecryptedReader) := (rd_salt d, rd_request_salt d, rd_user_key d, has_handshaked d).
Definition after_header (d : DecryptedReader) := (ident d, rd_state d, data_chunk_count d).
(** What reading a header that is not accepted leaves alone. *)
Definition before_header (d : DecryptedReader) := (rd_salt d, has_handshaked d, rd_state d, data_chunk_count d).

Lemma keeps_exact size : keeps after_header (poll_read_exact size).
Proof. intros e. unfold poll_read_exact, pzoom. by destruct (read_exact_poll size _) as [r [b s]]. Qed.

Lemma keeps_decrypt n err : keeps after_header (decrypt_in_place n err).
Proof.
  unfold decrypt_in_place. apply keeps_bind; [apply keeps_get|]. intros c.
  apply keeps_bind; [apply keeps_expect|]. intros c'. apply keeps_bind; [apply keeps_get|]. intros b.
  apply keeps_bind; [apply keeps_slice|]. intros m. destruct (decrypt_packet c' m) as [[m'|] c''];
    (apply keeps_bind; [by apply keeps_mod|]); intros []; [|apply keeps_id].
  apply keeps_bind; [by apply keeps_mod|]. intros []. apply keeps_id.
Qed.

Lemma keeps_length : keeps after_header poll_read_length.
Proof.
  unfold poll_read_length, decrypt_length. apply keeps_bind; [apply keeps_get|]. intros m. cbv zeta.
  apply keeps_bind; [apply keeps_exact|]. intros n. case_bool_decide; [apply keeps_id|].
  apply keeps_bind; [|intros l; apply keeps_id]. apply keeps_bind; [apply keeps_decrypt|]. intros l.
  apply keeps_bind; [apply keeps_slice|]. intros l'. apply keeps_id.
Qed.

Lemma keeps_data size : keeps after_header (poll_read_data size).
Proof.
  unfold poll_read_data. apply keeps_bind; [apply keeps_get|]. intros m. cbv zeta.
  apply keeps_bind; [apply keeps_exact|]. intros n. case_bool_decide; [apply keeps_id|].
  apply keeps_bind; [apply keeps_decrypt|]. intros l. by apply keeps_mod.
Qed.

Lemma keeps_header_cipher r key salt chunk : keeps before_header (header_cipher r key salt chunk).
Proof.
  unfold header_cipher. apply keeps_bind; [apply keeps_get|]. intros m. destruct r; [|apply keeps_id].
  apply keeps_bind; [apply keeps_get|]. intros um. apply keeps_bind; [apply keeps_expect|]. intros um'.
  destruct (_ <? _)%nat; [apply keeps_id|]. cbv zeta. apply keeps_bind; [apply keeps_expect|]. intros h.
  destruct (get_user_by_hash um' h); [|apply keeps_id]. apply keeps_bind; [by apply keeps_mod|]. intros []. apply keeps_id.
Qed.

Lemma keeps_header_fields now n chunk : keeps before_header (read_header_fields now n chunk).
Proof.
  unfold read_header_fields, pcur. apply keeps_bind; [apply keeps_get|]. intros ty. apply keeps_bind; [apply keeps_get|].
  intros m. apply keeps_bind; [apply keeps_result|]. intros [t cur].
  destruct (negb _); [apply keeps_id|]. apply keeps_bind; [apply keeps_result|]. intros [ts cur']. cbv zeta.
  destruct (_ <? _); [apply keeps_id|]. apply keeps_bind.
  - destruct (0 <? n)%nat; [|apply keeps_id]. destruct (_ <=? _)%nat; [|apply keeps_id].
    apply keeps_bind; [apply keeps_result|]. intros [rs cur'']. apply keeps_bind; [by apply keeps_mod|]. intros []. apply keeps_id.
  - intros cur''. apply keeps_bind; [apply keeps_result|]. intros [dl cur3]. apply keeps_id.
Qed.

Lemma keeps_header_salt now salt : keeps before_header (check_header_salt now salt).
Proof.
  unfold check_header_salt. apply keeps_bind; [apply keeps_get|]. intros ty. apply keeps_bind; [apply keeps_get|].
  intros m. destruct ty; [apply keeps_id|]. apply keeps_bind; [apply keeps_get|]. intros c.
  destruct (check_nonce_replay now c m salt) as [r c']. apply keeps_bind; [by apply keeps_mod|]. intros [].
  apply keeps_result.
Qed.

(** [p] keeps what [f] observes unless it is ready with a header. *)
Definition keeps_unless (p : pollm rd_env ProtocolError (option nat)) : Prop :=
  ∀ e, match p e with
       | (Ready (Some _), e') => is_Some (rd_salt (dr e')) ∧ has_handshaked (dr e') = has_handshaked (dr e) ∧
                                 data_chunk_count (dr e') = data_chunk_count (dr e)
       | (_, e') => before_header (dr e') = before_header (dr e)
       end.

Lemma keeps_unless_bind {A} (p : pollm rd_env ProtocolError A) k :
  keeps before_header p → (∀ a, keeps_unless (k a)) → keeps_unless (p ≫= k).
Proof.
  intros Hp Hk e. specialize (Hp e). unfold mbind, pollm_bind. destruct (p e) as [[a|x|m|] e'] eqn:E; try exact Hp.
  specialize (Hk a e'). simpl in Hp. destruct (k a e') as [[[n|]|x|m|] e'']; try congruence.
  destruct Hk as (H1 & H2 & H3). unfold before_header in Hp. injection Hp as ? ? ? ?. split_and!; congruence.
Qed.

Lemma keeps_unless_id r : (∀ n, r ≠ Ready (Some n)) → keeps_unless (λ e, (r, e)).
Proof. intros Hr e. destruct r as [[n|]|x|m|]; try done. by destruct (Hr n). Qed.

Lemma poll_read_header_keeps now key : keeps_unless (poll_read_header now key).
Proof.
  unfold poll_read_header. apply keeps_unless_bind; [apply keeps_get|]. intros d. cbv zeta.
  apply keeps_unless_bind; [by apply keeps_mod|]. intros [].
  apply keeps_unless_bind; [intros e; unfold pzoom; by destruct (poll_read _ _)|]. intros buf.
  apply keeps_unless_bind; [by apply keeps_mod|]. intros [].
  case_bool_decide; [by apply keeps_unless_id|]. destruct (negb _); [by apply keeps_unless_id|].
  apply keeps_unless_bind; [apply keeps_header_cipher|]. intros [c chunk].
  destruct (decrypt_packet c chunk) as [[plain|] c']; [|by apply keeps_unless_id].
  apply keeps_unless_bind; [apply keeps_header_fields|]. intros dl.
  apply keeps_unless_bind; [apply keeps_header_salt|]. intros [] e. simpl. by split; [eexists|].
Qed.

(** The handshake flag and the salt follow the state; the count of chunks is
    not zero once there is a chunk. *)
Definition hs_ok (d : DecryptedReader) : Prop :=
  0 ≤ data_chunk_count d ∧
  match rd_state d with
  | ReadHeader _ => has_handshaked d = false ∧ rd_salt d = None ∧ data_chunk_count d = 0
  | BufferedData _ => has_handshaked d = true ∧ is_Some (rd_salt d) ∧ 1 ≤ data_chunk_count d
  | _ => has_handshaked d = true ∧ is_Some (rd_salt d)
  end.

(** The result of a step from a reader in which [hs_ok] holds. *)
Definition hs_step {A} (data : A → Prop) (e : rd_env) (r : pres ProtocolError A * rd_env) : Prop :=
  hs_ok (dr (snd r)) ∧
  (has_handshaked (dr e) = true → ident (dr (snd r)) = ident (dr e)) ∧
  (∀ out, fst r = Ready out → data out → has_handshaked (dr (snd r)) = true ∧ 1 ≤ data_chunk_count (dr (snd r))).

Definition some_data (out : option bytes) : Prop := match out with Some (_ :: _) => True | _ => False end.

Lemma hs_ok_same d d' : hs_ok d → after_header d' = after_header d → hs_ok d' ∧ ident d' = ident d.
Proof. unfold hs_ok, after_header, ident. intros H [= -> -> -> -> -> ->]. done. Qed.

Lemma read_pass_hs now room e :
  hs_ok (dr e) → data_chunk_count (dr e) + 1 < u64_max →
  hs_step some_data e (read_pass now room e) ∧
  data_chunk_count (dr (snd (read_pass now room e))) ≤ data_chunk_count (dr e) + 1.
Proof.
  intros Hok Hw. unfold read_pass. pstep. destruct (rd_state (dr e)) as [key| |len|pos] eqn:Hst.
  - pose proof (poll_read_header_keeps now key e) as Hk. unfold mbind, pollm_bind.
    destruct (poll_read_header now key e) as [[[n|]|x|m|] e'].
    { destruct Hk as (Hs & Hh & Hc). unfold hs_step. simpl. unfold hs_ok in *. rewrite Hst in Hok. simpl. rewrite Hc.
      destruct Hok as (? & Hf & _). split_and!; try done; try lia; try congruence. intros out [= <-] []. }
    all: unfold before_header in Hk; injection Hk as H1 H2 H3 H4; unfold hs_step, hs_ok in *; simpl;
      rewrite H1, H2, H3, H4, Hst in *; destruct Hok as (? & ? & ? & ?);
      (split; [|lia]); split_and!; try done; try congruence.
    intros out [= <-] [].
  - pose proof (keeps_length e) as Hk. destruct (hs_ok_same _ _ Hok Hk) as [Hok' Hid].
    unfold after_header in Hk. injection Hk as _ _ _ _ H2 H3. unfold mbind, pollm_bind.
    destruct (poll_read_length e) as [[[n|]|x|m|] e']; simpl in *; unfold hs_step; simpl;
      (split; [|rewrite ?H3; lia]); split_and!; try done; try (intros out [= <-] []).
    unfold hs_ok in *. rewrite Hst in Hok. simpl. rewrite H3. destruct Hok as (? & ? & ?).
    by injection Hid as -> _ _ ->.
  - pose proof (keeps_data len e) as Hk. destruct (hs_ok_same _ _ Hok Hk) as [Hok' Hid].
    unfold after_header in Hk. injection Hk as _ _ _ _ H2 H3. unfold mbind, pollm_bind.
    assert (0 ≤ data_chunk_count (dr e)) as H0 by apply Hok.
    destruct (poll_read_data len e) as [[[]|x|m|] e']; simpl in *; unfold hs_step; simpl; rewrite H3;
      (split; [split_and!; try done; try (intros out [= <-] [])|rewrite ?Z.mod_small by lia; lia]).
    unfold hs_ok in *. rewrite Hst in Hok. simpl. rewrite ?H3. destruct Hok as (? & ? & ?).
    rewrite Z.mod_small by lia. injection Hid as -> _ _ ->. split_and!; try done; lia.
  - pstep. destruct (pos <? length (rd_buffer (dr e)))%nat; pstep; unfold hs_step, hs_ok in *; simpl;
      rewrite Hst in Hok; destruct Hok as (? & ? & ? & ?); (split; [split_and!; try done; try (intros out [= <-] [])|lia]).
Qed.

Lemma read_loop_hs fuel now room e :
  (read_measure e < fuel)%nat → reader_wf (dr e) → hs_ok (dr e) →
  data_chunk_count (dr e) + 1 + Z.of_nat (read_measure e) < u64_max →
  hs_step (λ out, out ≠ []) e (poll_read_decrypted_loop fuel now room e).
Proof.
  revert e. induction fuel as [|fuel IH]; intros e Hf Hwf Hok Hw; [lia|]. cbn [poll_read_decrypted_loop].
  destruct (read_pass_hs now room e Hok ltac:(lia)) as [(H1 & H2 & H3) H4].
  pose proof (read_pass_safe now room e Hwf) as Hs. unfold mbind, pollm_bind.
  destruct (read_pass now room e) as [[[out|]|x|m|] e']; unfold psafe in Hs; cbn [fst snd] in *.
  - split_and!; [done..|]. intros o [= <-] Hne. apply (H3 (Some out) eq_refl). by destruct out.
  - destruct Hs as [Hwf' Hm]. specialize (Hm eq_refl). destruct (IH e') as (K1 & K2 & K3); [lia|done|done|lia|].
    split_and!; [done| |done]. intros Hh. specialize (H2 Hh). rewrite K2; [done|].
    unfold ident in H2. congruence.
  - by split_and!.
  - done.
  - by split_and!.
Qed.

Lemma reader_new_hs ty method key users : hs_ok (DecryptedReader_with_user_manager ty method key users).
Proof. unfold DecryptedReader_with_user_manager, hs_ok. by case_match. Qed.
End Handshake.

(** ** Examples *)
#[local] Existing Instances Toy.suite Toy.cipher Toy.blake3 Toy.aes Toy.bloom Toy.lru.

Definition toy_salt : bytes := be_bytes 16 0x1122334455.
Definition toy_server_key : bytes := be_bytes 16 77.
Definition toy_user_key : bytes := be_bytes 16 99.
Definition toy_users : ServerUserManager := manager_of [("alice"%string, toy_user_key)].
Definition toy_bufs : list bytes := [be_bytes 3 0x010203; be_bytes 5 0xaabbccddee].
Definition toy_script : list wr_event := [WrAccept 30; WrPending] ++ replicate 80 (WrAccept 1).
Definition toy_writer : EncryptedWriter :=
  match start_writer Client Toy.Aead2022_16 toy_user_key toy_salt [toy_server_key] None with
  | Ok w => w
  | _ => {| wr_stream_ty := Client; wr_cipher := Cipher_new Toy.Plain [] []; wr_method := Toy.Plain;
            wr_buffer := []; wr_state := AssembleHeader; wr_salt := []; wr_request_salt := None |}
  end.
Definition toy_reader : DecryptedReader :=
  DecryptedReader_with_user_manager Server Toy.Aead2022_16 toy_server_key (Some toy_users).
Definition toy_wire : bytes := tosend 20000 toy_writer toy_bufs.
Definition toy_pieces : rstream :=
  replicate 1 RdPending ++ RdData (take 45 toy_wire ++ take 2 (drop 45 toy_wire)) :: [RdData (drop 47 toy_wire)].

Lemma aead_2022_header_sound_witness :
  let e := {| dr := toy_reader; strm := tail toy_pieces; ctx := toy_context |} in
  ∃ salt rest k plain c,
    header_accepted 45000 toy_server_key e 3 (snd (poll_read_header 45000 toy_server_key e)) salt rest k plain c.
Proof.
  cbv zeta. apply (aead_2022_header_sound (HSC := Toy.cipher_laws)).
  - split; [simpl; lia|exact I].
  - rewrite (surjective_pairing (poll_read_header _ _ _)) at 1. f_equal.
Defined.

Lemma aead_2022_reader_total_witness :
  is_panicked (fst (poll_read_decrypted 45000 10
    (set_strm ([] ++ toy_pieces) {| dr := toy_reader; strm := []; ctx := toy_context |}))) = false.
Proof.
  apply (aead_2022_reader_total (HSC := Toy.cipher_laws) Server Toy.Aead2022_16 toy_server_key (Some toy_users)
           toy_context [] ltac:(simpl; lia) 45000 10 toy_pieces).
Defined.

Lemma aead_2022_stream_transparent_witness :
  drain_reader 20 45000 2 {| dr := toy_reader; strm := toy_pieces; ctx := toy_context |} =
  Some (be_bytes 3 0x010203 ++ be_bytes 5 0xaabbccddee).
Proof.
  change (be_bytes 3 0x010203 ++ be_bytes 5 0xaabbccddee) with (concat (chunk_of <$> toy_bufs)).
  apply (aead_2022_stream_transparent (HSC := Toy.cipher_laws) (HB3 := Toy.blake3_laws) (HAE := Toy.aes_laws)
    Client Toy.Aead2022_16 toy_user_key toy_server_key toy_salt [toy_server_key] (Some toy_users) None toy_writer
    toy_bufs toy_script 100 20000 45000 toy_context 1 (take 45 toy_wire) (take 2 (drop 45 toy_wire))
    [RdData (drop 47 toy_wire)] 2 20).
  all: try discriminate; try reflexivity; try (vm_compute; lia).
  - eapply (keyed_user _ _ _ _ _ (ServerUser_new "alice" toy_user_key)); reflexivity.
  - vm_compute. split; [discriminate|reflexivity].
Defined.
