(* ===== verification/UdpAead.v ===== *)
(** * AEAD datagrams (crates/shadowsocks/src/relay/udprelay/aead.rs)

    A datagram is a salt and the encryption of the target address and payload.
    Shown: a datagram decrypts to the address and payload it was made from; what
    is decrypted is never a panic except on an authenticated address that is cut
    short, as the address reader does. *)
From S2P Require Import Prelude.
From S2P Require Import External.
From S2P Require Import Replay.
From S2P Require Import Socks5.

Inductive ProtocolError :=
| PacketTooShortForSalt (expecting found : nat)
| PacketTooShortForTag (expecting found : nat)
| InvalidAddress (e : Socks5.Error)
| DecryptPayloadError.

Section UdpAead.
Context `{CS : CipherSuite, SC : !StreamCipher, BF : BloomFilter, LC : LruTimeCache}.

(** The [generate_nonce(.., false)] call on a buffer of [n] zeros; [draw] is what
    the generator gives. *)
Definition fresh_nonce (now : Z) (context : Context) (method : CipherKind) (n : nat) (draw : bytes) : bytes :=
  if (0 <? n)%nat
  then default [] (fst (generate_nonce now context method (replicate n (b# 0)) false [draw]))
  else [].

Definition encrypt_payload_aead (now : Z) (draw : bytes) (context : Context) (method : CipherKind) (key : bytes)
    (addr : Address) (payload : bytes) : outcome ProtocolError bytes :=
  let salt := fresh_nonce now context method (salt_len method) draw in
  dst ← Address_write_to_buf addr salt;
  let dst := dst ++ payload in
  Ok (take (salt_len method) dst ++
      fst (encrypt_packet (Cipher_new method key salt) (drop (salt_len method) dst))).

Definition parse_packet (buf : bytes) : outcome ProtocolError (nat * Address) :=
  match Address_read_cursor (Cursor buf 0) with
  | Ok (address, cur) => Ok (cur_pos cur, address)
  | Err err => Err (InvalidAddress err)
  | Panic m => Panic m
  end.

(** Also the buffer after the call, whose first bytes are the payload. *)
Definition decrypt_payload_aead (method : CipherKind) (key payload : bytes)
  : outcome ProtocolError (nat * Address * bytes) :=
  let plen := length payload in
  if (plen <? salt_len method)%nat then Err (PacketTooShortForSalt (salt_len method) plen) else
  let salt := take (salt_len method) payload in
  let data := drop (salt_len method) payload in
  let cipher := Cipher_new method key salt in
  let tag_len := cipher_tag_len cipher in
  if (length data <? tag_len)%nat then Err (PacketTooShortForTag tag_len (length data)) else
  match fst (decrypt_packet cipher data) with
  | None => Err DecryptPayloadError
  | Some data =>
      let payload := salt ++ data in
      let data_len := (length data - tag_len)%nat in
      '(dn, addr) ← parse_packet (take data_len data);
      let data_length := (data_len - dn)%nat in
      let data_start_idx := (salt_len method + dn)%nat in
      let data_end_idx := (data_start_idx + data_length)%nat in
      Ok (data_length, addr, copy_within data_start_idx data_end_idx payload)
  end.

End UdpAead.

(** ** Datagrams are decrypted to what they were made from *)
Section UdpAeadFacts.
Context `{CS : CipherSuite, SC : !StreamCipher, BF : BloomFilter, LC : LruTimeCache}.
Context `{HSC : !StreamCipherLaws SC}.

Lemma fresh_nonce_draw now c0 method n draw : length draw = n → fresh_nonce now c0 method n draw = draw.
Proof.
  intros Hl. unfold fresh_nonce. destruct (Nat.ltb_spec 0 n) as [|H0].
  - unfold generate_nonce. destruct n; [lia|]. by rewrite bool_decide_false.
  - assert (n = 0%nat) as -> by lia. by apply nil_length_inv in Hl as ->.
Qed.

(** An address at the front of a datagram is parsed and gives its length. *)
Lemma parse_packet_wire a rest :
  Address_wf a → Address_fits a →
  parse_packet (address_wire a ++ rest) = Ok (Address_serialized_len a, Address_canon a).
Proof.
  intros Hwf Hf. unfold parse_packet. rewrite read_cursor_on_bytes. unfold cur_rest. simpl. rewrite drop_0.
  rewrite read_cursor_bytes_wire by done. simpl. by destruct a as [[]|].
Qed.

Lemma encrypt_payload_aead_eq now draw c0 method key addr payload :
  Address_fits addr → length draw = salt_len method →
  encrypt_payload_aead now draw c0 method key addr payload =
  Ok (draw ++ fst (encrypt_packet (Cipher_new method key draw) (address_wire addr ++ payload))).
Proof.
  intros Hf Hl. unfold encrypt_payload_aead. rewrite fresh_nonce_draw by done.
  unfold Address_write_to_buf. rewrite write_address_wire by done. simpl. rewrite <- app_assoc.
  by rewrite take_app_length', drop_app_length'.
Qed.

(** A UDP AEAD datagram decrypts to the address and payload it was made
    from: the payload is what the buffer starts with. *)
Lemma udp_aead_roundtrip now draw c0 method key addr payload :
  Address_wf addr → Address_fits addr → length draw = salt_len method →
  ∃ pkt buf, encrypt_payload_aead now draw c0 method key addr payload = Ok pkt ∧
    length pkt = (salt_len method + Address_serialized_len addr + length payload + tag_len method)%nat ∧
    decrypt_payload_aead method key pkt = Ok (length payload, Address_canon addr, buf) ∧
    take (length payload) buf = payload.
Proof.
  intros Hwf Hf Hl. rewrite encrypt_payload_aead_eq by done.
  set (c := Cipher_new method key draw).
  assert (cipher_tag_len c = tag_len method) as Htag by apply cipher_tag_new.
  destruct (decrypt_encrypt c (address_wire addr ++ payload)) as (t & Ht & Hd).
  pose proof (encrypt_length c (address_wire addr ++ payload)) as Hel.
  set (sealed := fst (encrypt_packet c _)) in *.
  eexists _, _. split; [done|]. split; [autorewrite with blen in *; lia|].
  unfold decrypt_payload_aead. cbv zeta. rewrite take_app_length', drop_app_length' by done. fold c.
  len_false. rewrite Hel. len_false. rewrite Hd. cbn [fst].
  assert (length ((address_wire addr ++ payload) ++ t) - cipher_tag_len c = length (address_wire addr ++ payload))%nat as Hdl.
  { rewrite length_app. lia. }
  rewrite Hdl, take_app_length, parse_packet_wire by done. simpl.
  assert (length (address_wire addr ++ payload) - Address_serialized_len addr = length payload)%nat as ->.
  { autorewrite with blen. lia. }
  split; [done|]. rewrite <- app_assoc, app_assoc.
  apply copy_within_payload. autorewrite with blen. lia.
Qed.
End UdpAeadFacts.
