(* ===== verification/UdpStream.v ===== *)
(** * Stream cipher datagrams (crates/shadowsocks/src/relay/udprelay/stream.rs)

    A datagram is an IV and the target address and payload under the stream
    cipher, with no authentication.  Shown: it decrypts to what it was made
    from. *)
From S2P Require Import Prelude.
From S2P Require Import External.
From S2P Require Import Replay.
From S2P Require Import Socks5.
From S2P Require UdpAead.

Inductive ProtocolError :=
| PacketTooShort (expecting found : nat)
| InvalidAddress (e : Socks5.Error).

Section UdpStream.
Context `{CS : CipherSuite, SC : !StreamCipher, BF : BloomFilter, LC : LruTimeCache}.

Definition encrypt_payload_stream (now : Z) (draw : bytes) (context : Context) (method : CipherKind) (key : bytes)
    (addr : Address) (payload : bytes) : outcome ProtocolError bytes :=
  let iv := UdpAead.fresh_nonce now context method (iv_len method) draw in
  dst ← Address_write_to_buf addr iv;
  let dst := dst ++ payload in
  Ok (take (iv_len method) dst ++
      fst (encrypt_packet (Cipher_new method key iv) (drop (iv_len method) dst))).

Definition parse_packet (buf : bytes) : outcome ProtocolError (nat * Address) :=
  match Address_read_cursor (Cursor buf 0) with
  | Ok (address, cur) => Ok (cur_pos cur, address)
  | Err err => Err (InvalidAddress err)
  | Panic m => Panic m
  end.

(** Also the buffer after the call, whose first bytes are the payload. *)
Definition decrypt_payload_stream (method : CipherKind) (key payload : bytes)
  : outcome ProtocolError (nat * Address * bytes) :=
  let plen := length payload in
  if (plen <? iv_len method)%nat then Err (PacketTooShort (iv_len method) plen) else
  let iv := take (iv_len method) payload in
  let data := drop (iv_len method) payload in
  match fst (decrypt_packet (Cipher_new method key iv) data) with
  | None => Panic "assertion failed: cipher.decrypt_packet(data)"
  | Some data =>
      let payload := iv ++ data in
      '(dn, addr) ← parse_packet data;
      let data_start_idx := (iv_len method + dn)%nat in
      let data_length := (length payload - data_start_idx)%nat in
      Ok (data_length, addr, copy_within data_start_idx (length payload) payload)
  end.

End UdpStream.

Section UdpStreamFacts.
Context `{CS : CipherSuite, SC : !StreamCipher, BF : BloomFilter, LC : LruTimeCache}.
Context `{HK : !KeystreamLaws SC}.

Lemma parse_packet_wire_stream a rest :
  Address_wf a → Address_fits a →
  parse_packet (address_wire a ++ rest) = Ok (Address_serialized_len a, Address_canon a).
Proof.
  intros Hwf Hf. unfold parse_packet. rewrite read_cursor_on_bytes. unfold cur_rest. simpl. rewrite drop_0.
  rewrite read_cursor_bytes_wire by done. simpl. by destruct a as [[]|].
Qed.

(** A UDP stream-cipher datagram decrypts to the address and payload it was
    made from. *)
Lemma udp_stream_roundtrip now draw c0 method key addr payload :
  Address_wf addr → Address_fits addr → length draw = iv_len method →
  ∃ pkt buf, encrypt_payload_stream now draw c0 method key addr payload = Ok pkt ∧
    length pkt = (iv_len method + Address_serialized_len addr + length payload)%nat ∧
    decrypt_payload_stream method key pkt = Ok (length payload, Address_canon addr, buf) ∧
    take (length payload) buf = payload.
Proof.
  intros Hwf Hf Hl. unfold encrypt_payload_stream. rewrite UdpAead.fresh_nonce_draw by done.
  unfold Address_write_to_buf. rewrite write_address_wire by done. simpl. rewrite <- app_assoc.
  rewrite take_app_length', drop_app_length' by done.
  set (c := Cipher_new method key draw).
  pose proof (ks_encrypt_length c (address_wire addr ++ payload)) as Hel.
  pose proof (ks_decrypt_encrypt c (address_wire addr ++ payload)) as Hd.
  set (sealed := fst (encrypt_packet c _)) in *.
  eexists _, _. split; [done|]. split; [autorewrite with blen in *; lia|].
  unfold decrypt_payload_stream. cbv zeta. rewrite take_app_length', drop_app_length' by done. fold c.
  len_false. rewrite Hd. cbn [fst]. rewrite parse_packet_wire_stream by done. simpl.
  assert (length (draw ++ address_wire addr ++ payload) - (iv_len method + Address_serialized_len addr) =
          length payload)%nat as ->. { autorewrite with blen. lia. }
  split; [done|].
  pose proof (copy_within_payload (draw ++ address_wire addr) payload []
    (iv_len method + Address_serialized_len addr)) as Hc.
  rewrite app_nil_r, <- app_assoc in Hc.
  replace (length (draw ++ address_wire addr ++ payload))
    with (iv_len method + Address_serialized_len addr + length payload)%nat by (autorewrite with blen; lia).
  apply Hc. autorewrite with blen. lia.
Qed.
End UdpStreamFacts.
