(* ===== verification/UdpAead2022.v ===== *)
(** * AEAD-2022 datagrams (crates/shadowsocks/src/relay/udprelay/aead_2022.rs, options.rs)

    A datagram carries a session id, a packet id, identity headers, a typed and
    timestamped header, padding, the target address and the payload.  For the AES
    kinds the session and packet id are a block encrypted with the (identity) key
    and serve as nonce; the ChaCha kinds have a random nonce in front.  Shown:
    datagrams decrypt to what they were made from in both directions, with and
    without a user; an accepted datagram was authentic, of the right direction
    and fresh; and the length check of the client does not cover the session id
    that responses carry, so that a short authentic response makes it panic. *)
From S2P Require Import Prelude.
From S2P Require Import External.
From S2P Require Import Users.
From S2P Require Import Replay.
From S2P Require Import Socks5.
From S2P Require UdpAead.

Definition CLIENT_SOCKET_TYPE : Z := 0.
Definition SERVER_SOCKET_TYPE : Z := 1.
Definition SERVER_PACKET_TIMESTAMP_MAX_DIFF : Z := 30.
Definition AEAD2022_MAX_PADDING_SIZE : nat := Z.to_nat 900.

Inductive ProtocolError :=
| PacketTooShort (expecting found : nat)
| InvalidAddress (e : Socks5.Error)
| DecryptPayloadError
| InvalidClientUser (hash : bytes)
| InvalidSocketType (expecting found : Z)
| InvalidTimestamp (timestamp now : Z)
| IoError (e : io_error).

(** [split_at_mut]. *)
Definition split_at (n : nat) (l : bytes) : outcome ProtocolError (bytes * bytes) :=
  if (n <=? length l)%nat then Ok (take n l, drop n l) else Panic "mid > len".

(** [padding] is what the generator and the uninitialised memory give for an
    empty payload: a random length up to [AEAD2022_MAX_PADDING_SIZE] and bytes
    that are not written. *)
Definition padding_of (padding payload : bytes) : bytes :=
  if bool_decide (payload = []) then padding else [].

Section Udp2022.
Context `{CS : CipherSuite, DC : !DatagramCipher, B3 : Blake3, AE : Aes, BF : BloomFilter, LC : LruTimeCache}.

Record UdpSocketControlData := {
  client_session_id : Z;
  server_session_id : Z;
  packet_id : Z;
  user : option ServerUser;
}.

(** The cache of ciphers gives the cipher that would be made: it is keyed by the
    method, the key and the session, and a cipher has no state. *)
Definition get_cipher : CipherKind → bytes → Z → UdpCipher := UdpCipher_new.

(** [Aes128::new_from_slice(key).expect(..)] and the block operation. *)
Definition aes_block (op : bytes → bytes → bytes) (n : nat) (key block : bytes) : outcome ProtocolError bytes :=
  if negb (length key =? n)%nat then Panic "AES init"
  else if negb (length block =? 16)%nat then Panic "block length mismatch"
  else Ok (op key block).

Definition encrypt_message (method : CipherKind) (ipsk key packet : bytes) (session_id : Z) (eih_len : nat)
  : outcome ProtocolError bytes :=
  match chacha_kind method, aes_kind method with
  | Some nonce_size, _ =>
      '(nonce, message) ← split_at nonce_size packet;
      Ok (nonce ++ udp_encrypt (get_cipher method key session_id) nonce message)
  | None, Some n =>
      '(packet_header, message) ← split_at 16 packet;
      let nonce := drop 4 packet_header in
      '(eih, message) ← split_at eih_len message;
      let message := udp_encrypt (get_cipher method key session_id) nonce message in
      packet_header ← aes_block aes_encrypt_block n ipsk packet_header;
      Ok (packet_header ++ eih ++ message)
  | None, None => Panic "not an AEAD 2022 cipher"
  end.

(** The user and the packet after the decryption in place. *)
Definition decrypt_message (method : CipherKind) (key packet : bytes) (user_manager : option ServerUserManager)
  : outcome ProtocolError (option ServerUser * bytes) :=
  match chacha_kind method, aes_kind method with
  | Some nonce_size, _ =>
      '(nonce, message) ← split_at nonce_size packet;
      '(session_id_buf, _) ← split_at 8 message;
      match udp_decrypt (get_cipher method key (be_Z session_id_buf)) nonce message with
      | None => Err DecryptPayloadError
      | Some message => Ok (None, nonce ++ message)
      end
  | None, Some n =>
      '(packet_header, message) ← split_at 16 packet;
      packet_header ← aes_block aes_decrypt_block n key packet_header;
      let session_id := be_Z (take 8 packet_header) in
      '(client_user, cipher, eih, message) ←
        match user_manager with
        | Some user_manager =>
            '(eih, message) ← split_at 16 message;
            eih ← aes_block aes_decrypt_block n key eih;
            let eih := xor_bytes eih packet_header in
            match get_user_by_hash user_manager eih with
            | None => Err (InvalidClientUser eih)
            | Some user => Ok (Some user, get_cipher method (user_key user) session_id, eih, message)
            end
        | None => Ok (None, get_cipher method key session_id, [], message)
        end;
      let nonce := drop 4 packet_header in
      match udp_decrypt cipher nonce message with
      | None => Err DecryptPayloadError
      | Some message => Ok (client_user, packet_header ++ eih ++ message)
      end
  | None, None => Panic "not an AEAD 2022 cipher"
  end.

Definition get_nonce_len (method : CipherKind) : outcome ProtocolError nat :=
  match aes_kind method, chacha_kind method with
  | Some _, _ => Ok 0%nat
  | None, Some _ => Ok (nonce_len method)
  | None, None => Panic "not an AEAD 2022 cipher"
  end.

(** [make_eih]: the header of the next key in the chain, [ipskn], under [ipsk]. *)
Definition make_eih (method : CipherKind) (ipsk ipskn session_id_packet_id : bytes) : outcome ProtocolError bytes :=
  let identity_header := xor_bytes (take 16 (blake3_hash ipskn)) session_id_packet_id in
  match aes_kind method with
  | Some n => aes_block aes_encrypt_block n ipsk identity_header
  | None => Panic "doesn't support EIH"
  end.

(** The loop over the pairs of a key and the one after it. *)
Fixpoint identity_headers (method : CipherKind) (pairs : list (bytes * bytes)) (session_id_packet_id dst : bytes)
  : outcome ProtocolError bytes :=
  match pairs with
  | [] => Ok dst
  | (ipsk, ipskn) :: pairs =>
      identity_header ← make_eih method ipsk ipskn session_id_packet_id;
      identity_headers method pairs session_id_packet_id (dst ++ identity_header)
  end.

Definition encrypt_client_payload_aead_2022 (now : Z) (draw padding : bytes) (context : Context) (method : CipherKind)
    (key : bytes) (addr : Address) (control : UdpSocketControlData) (identity_keys : list bytes) (payload : bytes)
  : outcome ProtocolError bytes :=
  let padding := padding_of padding payload in
  nonce_size ← get_nonce_len method;
  let require_eih := method_support_eih method && negb (bool_decide (identity_keys = [])) in
  let eih_size := if require_eih then (length identity_keys * 16)%nat else 0%nat in
  let dst := UdpAead.fresh_nonce now context method nonce_size draw in
  let dst := dst ++ be_bytes 8 (client_session_id control) in
  let dst := dst ++ be_bytes 8 (packet_id control) in
  dst ← (if require_eih
         then identity_headers method (zip identity_keys (tail identity_keys ++ [key]))
                (take 16 (drop nonce_size dst)) dst
         else Ok dst);
  let dst := dst ++ be_bytes 1 CLIENT_SOCKET_TYPE in
  let dst := dst ++ be_bytes 8 (get_now_timestamp now) in
  let dst := dst ++ be_bytes 2 (Z.of_nat (length padding)) in
  let dst := dst ++ padding in
  dst ← Address_write_to_buf addr dst;
  let dst := dst ++ payload in
  let ipsk := default key (head identity_keys) in
  encrypt_message method ipsk key dst (client_session_id control) eih_size.

(** The parts of the two [decrypt] functions that read the decrypted packet. *)
Definition read_type (expecting : Z) : parser cursor ProtocolError unit :=
  socket_type ← get_u8;
  if negb (socket_type =? expecting) then fail (InvalidSocketType expecting socket_type) else mret tt.

Definition read_timestamp (now : Z) : parser cursor ProtocolError unit :=
  timestamp ← get_u64;
  let now := get_now_timestamp now in
  if SERVER_PACKET_TIMESTAMP_MAX_DIFF <? abs_diff now timestamp then fail (InvalidTimestamp timestamp now) else mret tt.

Definition skip_padding : parser cursor ProtocolError unit :=
  padding_size ← get_u16;
  if 0 <? padding_size then cur_seek (Z.to_nat padding_size) else mret tt.

Definition read_client_packet (now : Z) (require_eih : bool) (user : option ServerUser)
  : parser cursor ProtocolError (Address * UdpSocketControlData) :=
  client_session_id ← get_u64;
  packet_id ← get_u64;
  _ ← (if require_eih then cur_advance 16 else mret tt);
  _ ← read_type CLIENT_SOCKET_TYPE;
  _ ← read_timestamp now;
  _ ← skip_padding;
  let control := {| client_session_id := client_session_id; server_session_id := 0;
                    packet_id := packet_id; user := user |} in
  addr ← parse_err InvalidAddress Address_read_cursor;
  mret (addr, control).

Definition read_server_packet (now : Z) : parser cursor ProtocolError (Address * UdpSocketControlData) :=
  server_session_id ← get_u64;
  packet_id ← get_u64;
  _ ← read_type SERVER_SOCKET_TYPE;
  _ ← read_timestamp now;
  client_session_id ← get_u64;
  _ ← skip_padding;
  let control := {| client_session_id := client_session_id; server_session_id := server_session_id;
                    packet_id := packet_id; user := None |} in
  addr ← parse_err InvalidAddress Address_read_cursor;
  mret (addr, control).

(** [data] of a decrypted packet, its parse, and the payload moved to the front. *)
Definition finish_decrypt (nonce_len tag_len : nat) (payload : bytes)
    (read : parser cursor ProtocolError (Address * UdpSocketControlData))
  : outcome ProtocolError (nat * Address * UdpSocketControlData * bytes) :=
  let data := drop nonce_len (take (length payload - tag_len) payload) in
  '(addr, control, cur) ← read (Cursor data 0);
  let payload_start := cur_pos cur in
  let payload_len := (length data - payload_start)%nat in
  Ok (payload_len, addr, control,
      copy_within (nonce_len + payload_start) (nonce_len + payload_start + payload_len) payload).

Definition decrypt_client_payload_aead_2022 (now : Z) (method : CipherKind) (key payload : bytes)
    (user_manager : option ServerUserManager)
  : outcome ProtocolError (nat * Address * UdpSocketControlData * bytes) :=
  nonce_len ← get_nonce_len method;
  let tag_len := tag_len method in
  let require_eih := method_support_eih method && match user_manager with Some _ => true | None => false end in
  let eih_len := if require_eih then 16%nat else 0%nat in
  let header_len := (nonce_len + tag_len + 8 + 8 + eih_len + 1 + 8 + 2)%nat in
  if (length payload <? header_len)%nat then Err (PacketTooShort header_len (length payload)) else
  '(user, payload) ← decrypt_message method key payload user_manager;
  finish_decrypt nonce_len tag_len payload (read_client_packet now require_eih user).

Definition encrypt_server_payload_aead_2022 (now : Z) (draw padding : bytes) (context : Context) (method : CipherKind)
    (key : bytes) (addr : Address) (control : UdpSocketControlData) (payload : bytes)
  : outcome ProtocolError bytes :=
  let padding := padding_of padding payload in
  nonce_size ← get_nonce_len method;
  let dst := UdpAead.fresh_nonce now context method nonce_size draw in
  let dst := dst ++ be_bytes 8 (server_session_id control) in
  let dst := dst ++ be_bytes 8 (packet_id control) in
  let dst := dst ++ be_bytes 1 SERVER_SOCKET_TYPE in
  let dst := dst ++ be_bytes 8 (get_now_timestamp now) in
  let dst := dst ++ be_bytes 8 (client_session_id control) in
  let dst := dst ++ be_bytes 2 (Z.of_nat (length padding)) in
  let dst := dst ++ padding in
  dst ← Address_write_to_buf addr dst;
  let dst := dst ++ payload in
  encrypt_message method key key dst (server_session_id control) 0.

Definition decrypt_server_payload_aead_2022 (now : Z) (method : CipherKind) (key payload : bytes)
  : outcome ProtocolError (nat * Address * UdpSocketControlData * bytes) :=
  nonce_len ← get_nonce_len method;
  let tag_len := tag_len method in
  let header_len := (nonce_len + tag_len + 8 + 8 + 1 + 8 + 2)%nat in
  if (length payload <? header_len)%nat then Err (PacketTooShort header_len (length payload)) else
  '(_, payload) ← decrypt_message method key payload None;
  finish_decrypt nonce_len tag_len payload (read_server_packet now).

End Udp2022.

(** ** Parsing what was written *)
Section Parsing.
Context `{CS : CipherSuite, DC : !DatagramCipher, B3 : Blake3, AE : Aes}.

Lemma bind_be_rest {E B} n l rest (k : Z → parser cursor E B) c :
  cur_rest c = l ++ rest → length l = n →
  ((l ← cur_take n; mret (be_Z l)) ≫= k) c = k (be_Z l) (cur_skip n c).
Proof.
  intros Hc <-. unfold mbind, parser_bind, cur_take. rewrite cur_remaining_rest, Hc. len_true.
  by rewrite take_app_length.
Qed.

Lemma cur_rest_skip_app n l rest c :
  cur_rest c = l ++ rest → length l = n → cur_rest (cur_skip n c) = rest.
Proof. intros Hc <-. by rewrite cur_rest_skip, Hc, drop_app_length. Qed.

Lemma cur_rest_skip_be n v rest c : cur_rest c = be_bytes n v ++ rest → cur_rest (cur_skip n c) = rest.
Proof. intros Hc. by apply (cur_rest_skip_app _ _ _ _ Hc), length_be_bytes. Qed.

Lemma read_type_ok ty rest c :
  0 ≤ ty < 256 → cur_rest c = be_bytes 1 ty ++ rest → read_type ty c = Ok (tt, cur_skip 1 c).
Proof.
  intros Hty Hc. unfold read_type, get_u8. rewrite (bind_be_rest 1 _ _ _ _ Hc) by done.
  rewrite be_Z_be_bytes_small by done. by rewrite Z.eqb_refl.
Qed.

Lemma read_timestamp_ok now ts rest c :
  in_u64 ts → abs_diff (get_now_timestamp now) ts ≤ 30 →
  cur_rest c = be_bytes 8 ts ++ rest → read_timestamp now c = Ok (tt, cur_skip 8 c).
Proof.
  intros Hts Hd Hc. unfold read_timestamp, get_u64. rewrite (bind_be_rest 8 _ _ _ _ Hc) by apply length_be_bytes.
  rewrite be_Z_be_bytes_small by done. cbv zeta. unfold SERVER_PACKET_TIMESTAMP_MAX_DIFF.
  by rewrite (proj2 (Z.ltb_ge _ _)).
Qed.

Lemma skip_padding_ok padding rest c :
  (length padding ≤ AEAD2022_MAX_PADDING_SIZE)%nat →
  cur_rest c = be_bytes 2 (Z.of_nat (length padding)) ++ padding ++ rest →
  skip_padding c = Ok (tt, cur_skip (2 + length padding) c).
Proof.
  intros Hp Hc. unfold skip_padding, get_u16. rewrite (bind_be_rest 2 _ _ _ _ Hc) by apply length_be_bytes.
  unfold AEAD2022_MAX_PADDING_SIZE in Hp. rewrite be_Z_be_bytes_small by (simpl; lia).
  destruct (Z.ltb_spec 0 (Z.of_nat (length padding))) as [|H0].
  - unfold cur_seek. rewrite Nat2Z.id. unfold cur_skip. simpl. do 3 f_equal. lia.
  - unfold mret, parser_ret. assert (length padding = 0)%nat as -> by lia. done.
Qed.

(** The part from the padding on, common to both directions. *)
Definition tail_of (padding : bytes) (addr : Address) (payload : bytes) : bytes :=
  be_bytes 2 (Z.of_nat (length padding)) ++ padding ++ address_wire addr ++ payload.

Lemma read_tail_ok {B} padding addr payload c (k : Address → parser cursor ProtocolError B) :
  (length padding ≤ AEAD2022_MAX_PADDING_SIZE)%nat → Address_wf addr → Address_fits addr →
  cur_rest c = tail_of padding addr payload →
  (_ ← skip_padding; addr ← parse_err InvalidAddress Address_read_cursor; k addr) c =
  k (Address_canon addr) (cur_skip (length (tail_of padding addr payload) - length payload) c).
Proof.
  intros Hp Hwf Hf Hc. unfold mbind, parser_bind at 1. rewrite (skip_padding_ok _ _ _ Hp Hc).
  unfold parser_bind, parse_err. rewrite read_cursor_on_bytes.
  assert (cur_rest (cur_skip (2 + length padding) c) = address_wire addr ++ payload) as ->.
  { rewrite cur_rest_skip, Hc. unfold tail_of. rewrite app_assoc. apply drop_app_length'.
    by rewrite length_app, length_be_bytes. }
  rewrite read_cursor_bytes_wire by done. simpl. rewrite cur_skip_skip. do 2 f_equal.
  unfold tail_of. autorewrite with blen. replace (Address_serialized_len (Address_canon addr))
    with (Address_serialized_len addr) by (by destruct addr as [[]|]). lia.
Qed.

Lemma finish_decrypt_ok nonce data t read addr control n payload :
  read (Cursor data 0) = Ok (addr, control, cur_skip n (Cursor data 0)) →
  drop n data = payload → (n ≤ length data)%nat →
  ∃ buf, finish_decrypt (length nonce) (length t) (nonce ++ data ++ t) read =
         Ok (length payload, addr, control, buf) ∧ take (length payload) buf = payload.
Proof.
  intros Hr Hd Hn. unfold finish_decrypt. cbv zeta.
  assert (length (nonce ++ data ++ t) - length t = length (nonce ++ data))%nat as Hl by (rewrite !length_app; lia).
  rewrite Hl, app_assoc, take_app_length, drop_app_length, Hr. simpl.
  assert (length data - n = length payload)%nat as -> by (rewrite <- Hd, length_drop; done).
  eexists. split; [done|].
  pose proof (copy_within_payload (nonce ++ take n data) payload t (length nonce + n)) as Hc.
  rewrite <- app_assoc, (app_assoc (take n data)), <- Hd, take_drop, Hd, app_assoc in Hc.
  apply Hc. rewrite length_app, length_take. lia.
Qed.

Lemma parser_step {S E A B} (p : parser S E A) (k : A → parser S E B) s a s' :
  p s = Ok (a, s') → (p ≫= k) s = k a s'.
Proof. intros H. unfold mbind, parser_bind. by rewrite H. Qed.

Lemma get_u64_ok {E} v rest c :
  in_u64 v → cur_rest c = be_bytes 8 v ++ rest → get_u64 (E := E) c = Ok (v, cur_skip 8 c).
Proof.
  intros Hv Hc. unfold get_u64. rewrite (parser_step _ _ c (be_bytes 8 v) (cur_skip 8 c)).
  - by rewrite be_Z_be_bytes_small.
  - unfold cur_take. rewrite cur_remaining_rest, Hc. len_true. by rewrite (take_app_length' _ _ 8) by (by rewrite length_be_bytes).
Qed.

Lemma advance_eih_ok (eih rest : bytes) c :
  length eih = 16%nat ∨ eih = [] → cur_rest c = eih ++ rest →
  (if negb (bool_decide (eih = [])) then cur_advance 16 else mret tt) c =
  Ok (E := ProtocolError) (tt, cur_skip (length eih) c).
Proof.
  intros [Heih| ->] Hc.
  - rewrite bool_decide_false by (by intros ->). simpl. unfold cur_advance. rewrite cur_remaining_rest, Hc.
    len_true. by rewrite Heih.
  - simpl. unfold mret, parser_ret, cur_skip. destruct c. simpl. do 3 f_equal. lia.
Qed.

(** The decrypted client packet: [eih] is empty without a user. *)
Lemma read_client_packet_ok now eih u sid pid ts padding addr payload :
  in_u64 sid → in_u64 pid → in_u64 ts → abs_diff (get_now_timestamp now) ts ≤ 30 →
  (length padding ≤ AEAD2022_MAX_PADDING_SIZE)%nat → Address_wf addr → Address_fits addr →
  length eih = 16%nat ∨ eih = [] →
  let data := (be_bytes 8 sid ++ be_bytes 8 pid) ++ eih ++ be_bytes 1 CLIENT_SOCKET_TYPE ++ be_bytes 8 ts ++
              tail_of padding addr payload in
  read_client_packet now (negb (bool_decide (eih = []))) u (Cursor data 0) =
  Ok (Address_canon addr,
      {| client_session_id := sid; server_session_id := 0; packet_id := pid; user := u |},
      cur_skip (length data - length payload) (Cursor data 0)).
Proof.
  intros Hsid Hpid Hts Hd Hp Hwf Hf Heih data. unfold read_client_packet.
  set (c := Cursor data 0). assert (cur_rest c = data) as Hc by (unfold cur_rest; simpl; apply drop_0).
  unfold data in Hc. rewrite <- !app_assoc in Hc.
  rewrite (parser_step _ _ _ _ _ (get_u64_ok _ _ _ Hsid Hc)). apply cur_rest_skip_be in Hc.
  rewrite (parser_step _ _ _ _ _ (get_u64_ok _ _ _ Hpid Hc)). apply cur_rest_skip_be in Hc.
  rewrite (parser_step _ _ _ _ _ (advance_eih_ok _ _ _ Heih Hc)). apply (cur_rest_skip_app (length eih)) in Hc; [|done].
  rewrite (parser_step _ _ _ _ _ (read_type_ok _ _ _ ltac:(done) Hc)).
  apply cur_rest_skip_be in Hc.
  rewrite (parser_step _ _ _ _ _ (read_timestamp_ok _ _ _ _ Hts Hd Hc)).
  apply cur_rest_skip_be in Hc.
  rewrite (read_tail_ok _ _ _ _ _ Hp Hwf Hf Hc). rewrite !cur_skip_skip.
  unfold mret, parser_ret. do 3 f_equal. unfold data, tail_of. autorewrite with blen. lia.
Qed.

(** The decrypted response. *)
Lemma read_server_packet_ok now sid pid ts csid padding addr payload :
  in_u64 sid → in_u64 pid → in_u64 ts → in_u64 csid → abs_diff (get_now_timestamp now) ts ≤ 30 →
  (length padding ≤ AEAD2022_MAX_PADDING_SIZE)%nat → Address_wf addr → Address_fits addr →
  let data := (be_bytes 8 sid ++ be_bytes 8 pid) ++ be_bytes 1 SERVER_SOCKET_TYPE ++ be_bytes 8 ts ++
              be_bytes 8 csid ++ tail_of padding addr payload in
  read_server_packet now (Cursor data 0) =
  Ok (Address_canon addr,
      {| client_session_id := csid; server_session_id := sid; packet_id := pid; user := None |},
      cur_skip (length data - length payload) (Cursor data 0)).
Proof.
  intros Hsid Hpid Hts Hcsid Hd Hp Hwf Hf data. unfold read_server_packet.
  set (c := Cursor data 0). assert (cur_rest c = data) as Hc by (unfold cur_rest; simpl; apply drop_0).
  unfold data in Hc. rewrite <- !app_assoc in Hc.
  rewrite (parser_step _ _ _ _ _ (get_u64_ok _ _ _ Hsid Hc)). apply cur_rest_skip_be in Hc.
  rewrite (parser_step _ _ _ _ _ (get_u64_ok _ _ _ Hpid Hc)). apply cur_rest_skip_be in Hc.
  rewrite (parser_step _ _ _ _ _ (read_type_ok SERVER_SOCKET_TYPE _ _ ltac:(done) Hc)).
  apply cur_rest_skip_be in Hc.
  rewrite (parser_step _ _ _ _ _ (read_timestamp_ok _ _ _ _ Hts Hd Hc)).
  apply cur_rest_skip_be in Hc.
  rewrite (parser_step _ _ _ _ _ (get_u64_ok _ _ _ Hcsid Hc)). apply cur_rest_skip_be in Hc.
  rewrite (read_tail_ok _ _ _ _ _ Hp Hwf Hf Hc). rewrite !cur_skip_skip.
  unfold mret, parser_ret. do 3 f_equal. unfold data, tail_of. autorewrite with blen. lia.
Qed.
End Parsing.

(** ** Sealed messages are opened *)
Section Messages.
Context `{CS : CipherSuite, DC : !DatagramCipher, B3 : Blake3, AE : Aes, BF : BloomFilter, LC : LruTimeCache}.
Context `{HDC : !DatagramCipherLaws DC, HB3 : !Blake3Laws B3, HAE : !AesLaws AE}.

Lemma split_at_app n l1 l2 : length l1 = n → split_at n (l1 ++ l2) = Ok (l1, l2).
Proof. intros <-. unfold split_at. len_true. by rewrite take_app_length, drop_app_length. Qed.

Lemma aes_block_ok op n key block :
  length key = n → length block = 16%nat → aes_block op n key block = Ok (op key block).
Proof. intros <- Hb. unfold aes_block. by rewrite Nat.eqb_refl, Hb. Qed.

Definition id_header (sid pid : Z) : bytes := be_bytes 8 sid ++ be_bytes 8 pid.

Lemma length_id_header sid pid : length (id_header sid pid) = 16%nat.
Proof. unfold id_header. by rewrite length_app, !length_be_bytes. Qed.

Lemma id_header_session sid pid : in_u64 sid → be_Z (take 8 (id_header sid pid)) = sid.
Proof.
  intros Hs. unfold id_header. rewrite take_app_length' by (by rewrite length_be_bytes).
  by apply be_Z_be_bytes_small.
Qed.

(** The identity header of the user whose key is [key] under [ipsk]. *)
Definition eih_of (ipsk key header : bytes) : bytes :=
  aes_encrypt_block ipsk (xor_bytes (take 16 (blake3_hash key)) header).

Lemma length_hash16 key : length (take 16 (blake3_hash key)) = 16%nat.
Proof. rewrite length_take, blake3_hash_length. done. Qed.

Lemma length_hash_xor key header : length header = 16%nat → length (xor_bytes (take 16 (blake3_hash key)) header) = 16%nat.
Proof. intros Hh. rewrite length_xor_bytes; rewrite length_hash16; [done|lia]. Qed.

Lemma make_eih_ok method n ipsk key header :
  aes_kind method = Some n → length ipsk = n → length header = 16%nat →
  make_eih method ipsk key header = Ok (eih_of ipsk key header).
Proof. intros Ha Hk Hh. unfold make_eih. rewrite Ha, aes_block_ok; [done..|by apply length_hash_xor]. Qed.

Lemma encrypt_message_aes method n ipsk key header eih data sid :
  aes_kind method = Some n → chacha_kind method = None → length ipsk = n → length header = 16%nat →
  encrypt_message method ipsk key (header ++ eih ++ data) sid (length eih) =
  Ok (aes_encrypt_block ipsk header ++ eih ++ udp_encrypt (get_cipher method key sid) (drop 4 header) data).
Proof.
  intros Ha Hc Hk Hh. unfold encrypt_message. rewrite Hc, Ha, split_at_app by done. simpl.
  rewrite split_at_app by done. simpl. by rewrite aes_block_ok.
Qed.

Lemma encrypt_message_chacha method n ipsk key nonce data sid eih_len :
  chacha_kind method = Some n → length nonce = n →
  encrypt_message method ipsk key (nonce ++ data) sid eih_len =
  Ok (nonce ++ udp_encrypt (get_cipher method key sid) nonce data).
Proof. intros Hc Hl. unfold encrypt_message. rewrite Hc, split_at_app by done. done. Qed.

Lemma decrypt_message_chacha method n key nonce data sid um :
  chacha_kind method = Some n → length nonce = n → (8 ≤ length data)%nat →
  ∃ t, length t = tag_len method ∧
    decrypt_message method key (nonce ++ udp_encrypt (get_cipher method key sid) nonce data) um =
    Ok (None, nonce ++ data ++ t).
Proof.
  intros Hc Hl H8. unfold get_cipher.
  destruct (udp_decrypt_encrypt (DC := DC) method key sid nonce data) as (t & Ht & Hd).
  exists t. split; [done|]. unfold decrypt_message. rewrite Hc, split_at_app by done. simpl.
  unfold split_at at 1. rewrite udp_encrypt_length. len_true. unfold get_cipher.
  simpl.
  rewrite (udp_chacha_session method key (be_Z _) sid) by (by rewrite Hc). by rewrite Hd.
Qed.

Lemma decrypt_message_aes method n key sid pid data :
  aes_kind method = Some n → chacha_kind method = None → length key = n → in_u64 sid →
  ∃ t, length t = tag_len method ∧
    decrypt_message method key
      (aes_encrypt_block key (id_header sid pid) ++
       udp_encrypt (get_cipher method key sid) (drop 4 (id_header sid pid)) data) None =
    Ok (None, id_header sid pid ++ data ++ t).
Proof.
  intros Ha Hc Hk Hs. pose proof (length_id_header sid pid) as Hh. unfold get_cipher.
  destruct (udp_decrypt_encrypt (DC := DC) method key sid (drop 4 (id_header sid pid)) data) as (t & Ht & Hd).
  exists t. split; [done|]. unfold decrypt_message. rewrite Hc, Ha, split_at_app by (by apply aes_encrypt_length). cbn [mbind outcome_bind].
  rewrite aes_block_ok by (done || by apply aes_encrypt_length). cbn [mbind outcome_bind].
  rewrite aes_decrypt_encrypt by done. unfold get_cipher. by rewrite id_header_session, Hd.
Qed.

Lemma decrypt_message_user method n ipsk key sid pid data um u :
  aes_kind method = Some n → chacha_kind method = None → length ipsk = n → in_u64 sid →
  get_user_by_hash um (take 16 (blake3_hash key)) = Some u → user_key u = key →
  ∃ t, length t = tag_len method ∧
    decrypt_message method ipsk
      (aes_encrypt_block ipsk (id_header sid pid) ++ eih_of ipsk key (id_header sid pid) ++
       udp_encrypt (get_cipher method key sid) (drop 4 (id_header sid pid)) data) (Some um) =
    Ok (Some u, id_header sid pid ++ take 16 (blake3_hash key) ++ data ++ t).
Proof.
  intros Ha Hc Hk Hs Hu Huk. pose proof (length_id_header sid pid) as Hh. unfold get_cipher.
  destruct (udp_decrypt_encrypt (DC := DC) method key sid (drop 4 (id_header sid pid)) data) as (t & Ht & Hd).
  exists t. split; [done|]. unfold decrypt_message. rewrite Hc, Ha, split_at_app by (by apply aes_encrypt_length). cbn [mbind outcome_bind].
  rewrite aes_block_ok by (done || by apply aes_encrypt_length). cbn [mbind outcome_bind].
  rewrite aes_decrypt_encrypt by done. unfold get_cipher. rewrite id_header_session by done.
  unfold eih_of. rewrite split_at_app by (by apply aes_encrypt_length, length_hash_xor). cbn [mbind outcome_bind].
  rewrite aes_block_ok by (done || by apply aes_encrypt_length, length_hash_xor). cbn [mbind outcome_bind].
  rewrite aes_decrypt_encrypt, xor_bytes_involutive, Hu
    by (by apply length_hash_xor || (rewrite length_hash16; lia)).
  cbn [mbind outcome_bind]. by rewrite Huk, Hd.
Qed.
End Messages.

(** ** Datagrams are decrypted to what they were made from *)
Section RoundTrip.
Context `{CS : CipherSuite, DC : !DatagramCipher, B3 : Blake3, AE : Aes, BF : BloomFilter, LC : LruTimeCache}.
Context `{HDC : !DatagramCipherLaws DC, HB3 : !Blake3Laws B3, HAE : !AesLaws AE}.

(** A client that has [key] and [identity_keys] and a server that has [skey] and
    [user_manager] belong together, and the server sees the user [u]. *)
Inductive serves (method : CipherKind) (key : bytes)
  : list bytes → bytes → option ServerUserManager → option ServerUser → Prop :=
| serves_chacha n identity_keys user_manager :
    chacha_kind method = Some n → serves method key identity_keys key user_manager None
| serves_aes n :
    chacha_kind method = None → aes_kind method = Some n → length key = n →
    serves method key [] key None None
| serves_user n ipsk um u :
    chacha_kind method = None → aes_kind method = Some n → length ipsk = n →
    get_user_by_hash um (take 16 (blake3_hash key)) = Some u → user_key u = key →
    serves method key [ipsk] ipsk (Some um) (Some u).

Definition nonce_size (method : CipherKind) : nat := default 0%nat (chacha_kind method).

Lemma get_nonce_len_ok method n :
  chacha_kind method = Some n ∨ aes_kind method = Some n ∧ chacha_kind method = None →
  get_nonce_len method = Ok (nonce_size method).
Proof.
  unfold get_nonce_len, nonce_size. intros [Hc|[Ha Hc]]; rewrite Hc; [|by rewrite Ha].
  rewrite chacha_not_aes by (by rewrite Hc). simpl. by rewrite (chacha_nonce_len _ _ Hc).
Qed.

Lemma nonce_size_aes method : chacha_kind method = None → nonce_size method = 0%nat.
Proof. unfold nonce_size. by intros ->. Qed.

Lemma no_eih_chacha method n : chacha_kind method = Some n → method_support_eih method = false.
Proof. intros Hc. unfold method_support_eih. by rewrite chacha_not_aes by (by rewrite Hc). Qed.

(** The plaintext after the identity headers of a client packet. *)
Definition client_body (now : Z) (padding : bytes) (addr : Address) (payload : bytes) : bytes :=
  be_bytes 1 CLIENT_SOCKET_TYPE ++ be_bytes 8 (get_now_timestamp now) ++ tail_of padding addr payload.

(** The datagram a client makes. *)
Lemma encrypt_client_chacha now draw padding c0 method n key addr control ikeys payload :
  chacha_kind method = Some n → length draw = n → Address_fits addr →
  encrypt_client_payload_aead_2022 now draw padding c0 method key addr control ikeys payload =
  Ok (draw ++ udp_encrypt (get_cipher method key (client_session_id control)) draw
        (id_header (client_session_id control) (packet_id control) ++
         client_body now (padding_of padding payload) addr payload)).
Proof.
  intros Hc Hl Hf. unfold encrypt_client_payload_aead_2022. cbv zeta.
  rewrite (get_nonce_len_ok _ n) by eauto. cbn [mbind outcome_bind].
  rewrite (no_eih_chacha _ _ Hc). cbn [andb mbind outcome_bind].
  rewrite UdpAead.fresh_nonce_draw by (unfold nonce_size; by rewrite Hc).
  unfold Address_write_to_buf. rewrite write_address_wire by done. cbn [mbind outcome_bind].
  rewrite <- !app_assoc. rewrite (encrypt_message_chacha _ n) by done.
  unfold id_header, client_body, tail_of. by rewrite <- !app_assoc.
Qed.

Lemma encrypt_client_aes now draw padding c0 method n key addr control payload :
  chacha_kind method = None → aes_kind method = Some n → length key = n → Address_fits addr →
  encrypt_client_payload_aead_2022 now draw padding c0 method key addr control [] payload =
  let h := id_header (client_session_id control) (packet_id control) in
  Ok (aes_encrypt_block key h ++ udp_encrypt (get_cipher method key (client_session_id control)) (drop 4 h)
        (client_body now (padding_of padding payload) addr payload)).
Proof.
  intros Hc Ha Hl Hf. unfold encrypt_client_payload_aead_2022. cbv zeta.
  rewrite (get_nonce_len_ok _ n) by eauto. cbn [mbind outcome_bind].
  rewrite bool_decide_true, andb_false_r by done. cbn [mbind outcome_bind default head].
  rewrite nonce_size_aes by done.
  unfold Address_write_to_buf. rewrite write_address_wire by done. cbn [mbind outcome_bind].
  pose proof (encrypt_message_aes method n key key (id_header (client_session_id control) (packet_id control)) []
    (client_body now (padding_of padding payload) addr payload) (client_session_id control)
    Ha Hc Hl (length_id_header _ _)) as He.
  unfold client_body, tail_of, id_header in *. by rewrite <- !app_assoc in *.
Qed.

Lemma encrypt_client_user now draw padding c0 method n ipsk key addr control payload :
  chacha_kind method = None → aes_kind method = Some n → length ipsk = n → Address_fits addr →
  encrypt_client_payload_aead_2022 now draw padding c0 method key addr control [ipsk] payload =
  let h := id_header (client_session_id control) (packet_id control) in
  Ok (aes_encrypt_block ipsk h ++ eih_of ipsk key h ++
      udp_encrypt (get_cipher method key (client_session_id control)) (drop 4 h)
        (client_body now (padding_of padding payload) addr payload)).
Proof.
  intros Hc Ha Hl Hf. unfold encrypt_client_payload_aead_2022. cbv zeta.
  rewrite (get_nonce_len_ok _ n) by eauto. cbn [mbind outcome_bind].
  rewrite nonce_size_aes by done. unfold method_support_eih. rewrite Ha. rewrite bool_decide_false by done.
  cbn [negb andb tail app zip zip_with identity_headers drop length Nat.mul Nat.add default head UdpAead.fresh_nonce Nat.ltb Nat.leb].
  fold (id_header (client_session_id control) (packet_id control)).
  set (h := id_header (client_session_id control) (packet_id control)).
  pose proof (length_id_header (client_session_id control) (packet_id control) : length h = 16%nat) as Hh.
  rewrite (take_ge h) by lia. rewrite (make_eih_ok _ n) by done. cbn [mbind outcome_bind].
  unfold Address_write_to_buf. rewrite write_address_wire by done. cbn [mbind outcome_bind].
  pose proof (encrypt_message_aes method n ipsk key h (eih_of ipsk key h)
    (client_body now (padding_of padding payload) addr payload) (client_session_id control) Ha Hc Hl Hh) as He.
  unfold client_body, tail_of in *.
  rewrite <- !app_assoc in *. rewrite <- He. f_equal.
  unfold eih_of. by rewrite aes_encrypt_length by (by apply length_hash_xor).
Qed.

(** The server's side once the message is opened. *)
Lemma decrypt_client_opened now method skey um u pkt nonce eih t sid pid ts padding addr payload :
  get_nonce_len method = Ok (length nonce) → length t = tag_len method →
  method_support_eih method && (match um with Some _ => true | None => false end) = negb (bool_decide (eih = [])) →
  length eih = 16%nat ∨ eih = [] →
  in_u64 sid → in_u64 pid → in_u64 ts → abs_diff (get_now_timestamp now) ts ≤ 30 →
  (length padding ≤ AEAD2022_MAX_PADDING_SIZE)%nat → Address_wf addr → Address_fits addr →
  let data := id_header sid pid ++ eih ++ be_bytes 1 CLIENT_SOCKET_TYPE ++ be_bytes 8 ts ++
              tail_of padding addr payload in
  length pkt = length (nonce ++ data ++ t) →
  decrypt_message method skey pkt um = Ok (u, nonce ++ data ++ t) →
  ∃ buf, decrypt_client_payload_aead_2022 now method skey pkt um =
    Ok (length payload, Address_canon addr,
        {| client_session_id := sid; server_session_id := 0; packet_id := pid; user := u |}, buf) ∧
    take (length payload) buf = payload.
Proof.
  intros Hn Ht Hr Heih Hsid Hpid Hts Hd Hp Hwf Hf data Hlen Hdec.
  unfold decrypt_client_payload_aead_2022. rewrite Hn. cbn [mbind outcome_bind]. cbv zeta. rewrite Hr, <- Ht.
  assert ((length payload ≤ length data)%nat ∧
          length nonce + length t + 8 + 8 + (if negb (bool_decide (eih = [])) then 16 else 0) + 1 + 8 + 2 ≤ length pkt)%nat
    as [Hpl Hhl].
  { rewrite Hlen. unfold data, id_header, tail_of. autorewrite with blen.
    destruct Heih as [Heih| ->]; [rewrite bool_decide_false by (by intros ->)|]; simpl; lia. }
  len_false. rewrite Hdec. cbn [mbind outcome_bind].
  apply (finish_decrypt_ok _ _ _ _ _ _ (length data - length payload)).
  - by apply read_client_packet_ok.
  - assert (∃ pre, data = pre ++ payload) as [pre ->].
    { unfold data, tail_of. rewrite !app_assoc. by eexists. }
    apply drop_app_length'. rewrite length_app. lia.
  - lia.
Qed.

Lemma padding_of_bound padding payload :
  (length padding ≤ AEAD2022_MAX_PADDING_SIZE)%nat →
  (length (padding_of padding payload) ≤ AEAD2022_MAX_PADDING_SIZE)%nat.
Proof. unfold padding_of. intros. case_bool_decide; simpl; lia. Qed.

(** What the server gets from the datagram: the nonce, the ids, the hash of the
    user's key in place of the identity header, and the rest as it was written. *)
Lemma client_datagram_opens now draw padding c0 method key ikeys skey um u addr control payload :
  serves method key ikeys skey um u → length draw = nonce_size method → Address_fits addr →
  in_u64 (client_session_id control) →
  ∃ pkt nonce eih t,
    encrypt_client_payload_aead_2022 now draw padding c0 method key addr control ikeys payload = Ok pkt ∧
    let data := id_header (client_session_id control) (packet_id control) ++ eih ++
                client_body now (padding_of padding payload) addr payload in
    get_nonce_len method = Ok (length nonce) ∧ length t = tag_len method ∧
    method_support_eih method && (match um with Some _ => true | None => false end) = negb (bool_decide (eih = [])) ∧
    (length eih = 16%nat ∨ eih = []) ∧
    length pkt = length (nonce ++ data ++ t) ∧
    decrypt_message method skey pkt um = Ok (u, nonce ++ data ++ t).
Proof.
  intros Hs Hl Hf Hsid.
  set (sid := client_session_id control) in *. set (pid := packet_id control).
  set (body := client_body now (padding_of padding payload) addr payload).
  pose proof (length_id_header sid pid) as Hh.
  unfold nonce_size in Hl. destruct Hs as [n ikeys um Hc|n Hc Ha Hk|n ipsk um u Hc Ha Hk Hu Huk]; rewrite Hc in Hl; simpl in Hl.
  - rewrite (encrypt_client_chacha _ _ _ _ _ n) by done. fold sid pid body.
    destruct (decrypt_message_chacha method n key draw (id_header sid pid ++ body) sid um) as (t & Ht & Hm);
      [done..|rewrite length_app; lia|].
    eexists _, draw, [], t. split; [done|]. cbv zeta. rewrite app_nil_l. split_and!; [|done| |by right| |by rewrite Hm, <- ?app_assoc].
    + rewrite (get_nonce_len_ok _ n) by eauto. unfold nonce_size. rewrite Hc. simpl. by rewrite <- Hl.
    + by rewrite (no_eih_chacha _ n).
    + unfold get_cipher. rewrite !length_app, udp_encrypt_length, Ht, !length_app. lia.
  - rewrite (encrypt_client_aes _ _ _ _ _ n) by done. cbv zeta. fold sid pid body.
    destruct (decrypt_message_aes method n key sid pid body) as (t & Ht & Hm); [done..|].
    eexists _, [], [], t. split; [done|]. split_and!; [|done| |by right| |by rewrite Hm, <- ?app_assoc].
    + rewrite (get_nonce_len_ok _ n) by eauto. by rewrite nonce_size_aes.
    + by rewrite andb_false_r.
    + unfold get_cipher. autorewrite with blen. rewrite udp_encrypt_length, Ht, aes_encrypt_length by done. simpl. lia.
  - rewrite (encrypt_client_user _ _ _ _ _ n) by done. cbv zeta. fold sid pid body.
    destruct (decrypt_message_user method n ipsk key sid pid body um u) as (t & Ht & Hm); [done..|].
    eexists _, [], (take 16 (blake3_hash key)), t. split; [done|]. split_and!; [|done| |left; apply (length_hash16 key)| |by rewrite Hm, <- !app_assoc].
    + rewrite (get_nonce_len_ok _ n) by eauto. by rewrite nonce_size_aes.
    + unfold method_support_eih. rewrite Ha, bool_decide_false; [done|].
      intros He. pose proof (length_hash16 key) as H16. by rewrite He in H16.
    + unfold get_cipher, eih_of. rewrite !length_app, udp_encrypt_length, Ht, !aes_encrypt_length
        by (done || by apply length_hash_xor). rewrite length_hash16, Hh. simpl. lia.
Qed.

(** A client datagram is decrypted by the server it is meant for to the
    address and payload it was made from, with the session and packet id the
    client used and the user whose key it has, for the AES kinds with and
    without identity headers and the ChaCha kinds, when the clocks differ by at
    most 30 seconds; the payload is what the buffer starts with. *)
Lemma udp_2022_client_roundtrip now now' draw padding c0 method key ikeys skey um u addr control payload :
  serves method key ikeys skey um u →
  length draw = nonce_size method → (length padding ≤ AEAD2022_MAX_PADDING_SIZE)%nat →
  Address_wf addr → Address_fits addr →
  in_u64 (client_session_id control) → in_u64 (packet_id control) → in_u64 (get_now_timestamp now) →
  abs_diff (get_now_timestamp now') (get_now_timestamp now) ≤ 30 →
  ∃ pkt buf,
    encrypt_client_payload_aead_2022 now draw padding c0 method key addr control ikeys payload = Ok pkt ∧
    decrypt_client_payload_aead_2022 now' method skey pkt um =
      Ok (length payload, Address_canon addr,
          {| client_session_id := client_session_id control; server_session_id := 0;
             packet_id := packet_id control; user := u |}, buf) ∧
    take (length payload) buf = payload.
Proof.
  intros Hs Hl Hp Hwf Hf Hsid Hpid Hts Hd.
  destruct (client_datagram_opens now draw padding c0 _ _ _ _ _ _ addr control payload Hs Hl Hf Hsid)
    as (pkt & nonce & eih & t & He & Hn & Ht & Hr & Heih & Hlen & Hm).
  unfold client_body in Hlen, Hm.
  destruct (decrypt_client_opened now' method skey um u pkt nonce eih t _ _ _ _ _ _ Hn Ht Hr Heih Hsid Hpid Hts Hd
              (padding_of_bound _ payload Hp) Hwf Hf Hlen Hm) as (buf & Hb & Htk).
  by exists pkt, buf.
Qed.

(** *** The other direction *)
Definition server_body (now csid : Z) (padding : bytes) (addr : Address) (payload : bytes) : bytes :=
  be_bytes 1 SERVER_SOCKET_TYPE ++ be_bytes 8 (get_now_timestamp now) ++ be_bytes 8 csid ++
  tail_of padding addr payload.

Definition datagram_key (method : CipherKind) (key : bytes) : Prop :=
  is_Some (chacha_kind method) ∨
  ∃ n, chacha_kind method = None ∧ aes_kind method = Some n ∧ length key = n.

(** Without identity headers, what is sealed with a key is opened with it. *)
Lemma message_opens method key nonce sid pid body :
  datagram_key method key → length nonce = nonce_size method → in_u64 sid →
  ∃ pkt t,
    encrypt_message method key key (nonce ++ id_header sid pid ++ body) sid 0 = Ok pkt ∧
    get_nonce_len method = Ok (length nonce) ∧ length t = tag_len method ∧
    length pkt = length (nonce ++ (id_header sid pid ++ body) ++ t) ∧
    decrypt_message method key pkt None = Ok (None, nonce ++ (id_header sid pid ++ body) ++ t).
Proof.
  intros Hkey Hl Hsid. pose proof (length_id_header sid pid) as Hh. rewrite Hl. unfold nonce_size in Hl.
  destruct Hkey as [[n Hc]|(n & Hc & Ha & Hk)]; rewrite Hc in Hl; simpl in Hl.
  - rewrite (get_nonce_len_ok _ n), (encrypt_message_chacha _ n) by eauto.
    destruct (decrypt_message_chacha method n key nonce (id_header sid pid ++ body) sid None) as (t & Ht & Hm);
      [done..|rewrite length_app; lia|].
    eexists _, t. split_and!; [done..| |exact Hm].
    unfold get_cipher. rewrite length_app, udp_encrypt_length, <- Ht, !length_app. lia.
  - rewrite (get_nonce_len_ok _ n) by eauto. apply nil_length_inv in Hl as ->.
    pose proof (encrypt_message_aes method n key key (id_header sid pid) [] body sid Ha Hc Hk Hh) as He.
    rewrite !app_nil_l in He. simpl length in He.
    destruct (decrypt_message_aes method n key sid pid body) as (t & Ht & Hm); [done..|].
    eexists _, t. split; [exact He|]. split_and!; [done|done| |by rewrite app_nil_l, Hm, <- app_assoc].
    unfold get_cipher. rewrite app_nil_l, !length_app, udp_encrypt_length, Ht, aes_encrypt_length by done. lia.
Qed.

Lemma datagram_key_nonce method key : datagram_key method key → get_nonce_len method = Ok (nonce_size method).
Proof. intros [[n Hc]|(n & Hc & Ha & Hk)]; eapply get_nonce_len_ok; eauto. Qed.

Lemma server_datagram_eq now draw padding c0 method key addr control payload :
  datagram_key method key → length draw = nonce_size method → Address_fits addr →
  encrypt_server_payload_aead_2022 now draw padding c0 method key addr control payload =
  encrypt_message method key key
    (draw ++ id_header (server_session_id control) (packet_id control) ++
     server_body now (client_session_id control) (padding_of padding payload) addr payload)
    (server_session_id control) 0.
Proof.
  intros Hkey Hl Hf. unfold encrypt_server_payload_aead_2022. cbv zeta.
  rewrite (datagram_key_nonce _ key) by done. cbn [mbind outcome_bind].
  rewrite UdpAead.fresh_nonce_draw by done. unfold Address_write_to_buf.
  rewrite write_address_wire by done. cbn [mbind outcome_bind]. unfold id_header, server_body, tail_of.
  by rewrite <- !app_assoc.
Qed.

(** A response is decrypted by the client to the address and payload it was
    made from, with both session ids and the packet id, when the clocks differ
    by at most 30 seconds. *)
Lemma udp_2022_server_roundtrip now now' draw padding c0 method key addr control payload :
  datagram_key method key → length draw = nonce_size method →
  (length padding ≤ AEAD2022_MAX_PADDING_SIZE)%nat → Address_wf addr → Address_fits addr →
  in_u64 (client_session_id control) → in_u64 (server_session_id control) → in_u64 (packet_id control) →
  in_u64 (get_now_timestamp now) → abs_diff (get_now_timestamp now') (get_now_timestamp now) ≤ 30 →
  ∃ pkt buf,
    encrypt_server_payload_aead_2022 now draw padding c0 method key addr control payload = Ok pkt ∧
    decrypt_server_payload_aead_2022 now' method key pkt =
      Ok (length payload, Address_canon addr,
          {| client_session_id := client_session_id control; server_session_id := server_session_id control;
             packet_id := packet_id control; user := None |}, buf) ∧
    take (length payload) buf = payload.
Proof.
  intros Hk Hl Hp Hwf Hf Hcsid Hsid Hpid Hts Hd. pose proof (padding_of_bound _ payload Hp) as Hp'.
  rewrite server_datagram_eq by done. destruct (message_opens method key draw (server_session_id control)
    (packet_id control) (server_body now (client_session_id control) (padding_of padding payload) addr payload) Hk Hl Hsid)
    as (pkt & t & He & Hn & Ht & Hlen & Hm).
  pose proof (read_server_packet_ok now' _ _ _ _ _ addr payload Hsid Hpid Hts Hcsid Hd Hp' Hwf Hf) as Hr.
  cbv zeta in Hr. fold (id_header (server_session_id control) (packet_id control)) in Hr.
  fold (server_body now (client_session_id control) (padding_of padding payload) addr payload) in Hr.
  set (data := id_header _ _ ++ server_body _ _ _ _ _) in *.
  assert (∃ pre, data = pre ++ payload ∧ 27 ≤ length pre)%nat as (pre & Hpre & H27).
  { unfold data, server_body, tail_of, id_header. rewrite !app_assoc. eexists. split; [done|].
    autorewrite with blen. lia. }
  edestruct (finish_decrypt_ok draw data t _ _ _ _ payload Hr) as (buf & Hb & Htk).
  { rewrite Hpre. apply drop_app_length'. rewrite length_app. lia. }
  { lia. }
  exists pkt, buf. split; [done|]. split; [|done]. unfold decrypt_server_payload_aead_2022.
  rewrite Hn. cbn [mbind outcome_bind]. cbv zeta. rewrite <- Ht.
  assert (length draw + length t + 27 ≤ length pkt)%nat by (rewrite Hlen, Hpre, !length_app; lia).
  len_false. rewrite Hm. cbn [mbind outcome_bind]. exact Hb.
Qed.

Lemma get_short {E} n c : (length (cur_rest c) < n)%nat → ∃ m, cur_take (E := E) n c = Panic m.
Proof. intros H. unfold cur_take. rewrite cur_remaining_rest. len_false. by eexists. Qed.

(** The length check for a response does not count the client session id:
    an authentic response whose plaintext ends inside the client session id or
    the padding length passes it, and reading that field panics. *)
Theorem udp_2022_short_response_panics now method key nonce sid pid ts tail :
  datagram_key method key → length nonce = nonce_size method → in_u64 sid → in_u64 pid → in_u64 ts →
  abs_diff (get_now_timestamp now) ts ≤ 30 → (2 ≤ length tail < 10)%nat →
  ∃ pkt,
    encrypt_message method key key
      (nonce ++ id_header sid pid ++ be_bytes 1 SERVER_SOCKET_TYPE ++ be_bytes 8 ts ++ tail) sid 0 = Ok pkt ∧
    is_panic (decrypt_server_payload_aead_2022 now method key pkt) = true.
Proof.
  intros Hk Hl Hsid Hpid Hts Hd Htl.
  destruct (message_opens method key nonce sid pid
    (be_bytes 1 SERVER_SOCKET_TYPE ++ be_bytes 8 ts ++ tail) Hk Hl Hsid) as (pkt & t & He & Hn & Ht & Hlen & Hm).
  exists pkt. split; [exact He|]. unfold decrypt_server_payload_aead_2022. rewrite Hn. cbn [mbind outcome_bind].
  cbv zeta. rewrite <- Ht.
  assert (length nonce + length t + 27 ≤ length pkt)%nat
    by (rewrite Hlen, !length_app, length_id_header, !length_be_bytes; lia).
  len_false. rewrite Hm. cbn [mbind outcome_bind]. unfold finish_decrypt. cbv zeta.
  set (data := id_header sid pid ++ _).
  assert (length (nonce ++ data ++ t) - length t = length (nonce ++ data))%nat as -> by (rewrite !length_app; lia).
  rewrite (app_assoc nonce), take_app_length, drop_app_length.
  assert (∃ m, read_server_packet now (Cursor data 0) = Panic m) as [m ->]; [|done].
  unfold read_server_packet. set (c := Cursor data 0).
  assert (cur_rest c = data) as Hc by (unfold cur_rest; simpl; apply drop_0).
  unfold data, id_header in Hc. rewrite <- !app_assoc in Hc.
  rewrite (parser_step _ _ _ _ _ (get_u64_ok _ _ _ Hsid Hc)). apply cur_rest_skip_be in Hc.
  rewrite (parser_step _ _ _ _ _ (get_u64_ok _ _ _ Hpid Hc)). apply cur_rest_skip_be in Hc.
  rewrite (parser_step _ _ _ _ _ (read_type_ok SERVER_SOCKET_TYPE _ _ ltac:(done) Hc)). apply cur_rest_skip_be in Hc.
  rewrite (parser_step _ _ _ _ _ (read_timestamp_ok _ _ _ _ Hts Hd Hc)). apply cur_rest_skip_be in Hc.
  set (c' := cur_skip 8 _) in *. rewrite <- Hc in Htl. clearbody c'. clear -Htl.
  unfold get_u64, skip_padding, get_u16, mbind, parser_bind. destruct (Nat.lt_ge_cases (length (cur_rest c')) 8) as [H8|H8].
  - destruct (get_short (E := ProtocolError) 8 c' H8) as [m ->]. by eexists.
  - unfold cur_take at 1. rewrite cur_remaining_rest. len_true. unfold mret, parser_ret.
    destruct (get_short (E := ProtocolError) 2 (Cursor (cur_data c') (cur_pos c' + 8))) as [m ->]; [|by eexists].
    fold (cur_skip 8 c'). rewrite cur_rest_skip, length_drop. lia.
Qed.
End RoundTrip.

(** ** What is accepted *)
Section Accepted.
Context `{CS : CipherSuite, DC : !DatagramCipher, B3 : Blake3, AE : Aes}.
Context `{HDC : !DatagramCipherLaws DC, HAE : !AesLaws AE}.

Lemma parser_bind_Ok {S E A B} (p : parser S E A) (k : A → parser S E B) s b s' :
  (p ≫= k) s = Ok (b, s') → ∃ a s1, p s = Ok (a, s1) ∧ k a s1 = Ok (b, s').
Proof. unfold mbind, parser_bind. destruct (p s) as [[a s1]| |]; naive_solver. Qed.

(** A [get_*] that succeeds: the value it gives is what the bytes are. *)
Lemma get_inv {E} n c v c' :
  (l ← cur_take (E := E) n; mret (be_Z l)) c = Ok (v, c') →
  cur_rest c = be_bytes n v ++ cur_rest c' ∧ cur_data c' = cur_data c.
Proof.
  intros (l & c1 & (Hl & Hd & _ & Hr)%cur_take_Ok & [= <- <-])%parser_bind_Ok.
  by rewrite be_bytes_be_Z.
Qed.

Lemma read_type_inv ty c c' : read_type ty c = Ok (tt, c') →
  cur_rest c = be_bytes 1 ty ++ cur_rest c' ∧ cur_data c' = cur_data c.
Proof.
  intros (v & c1 & Hg%get_inv & H)%parser_bind_Ok. destruct (Z.eqb_spec v ty) as [->|]; [|done].
  by injection H as ->.
Qed.

Lemma read_timestamp_inv now c c' :
  read_timestamp now c = Ok (tt, c') →
  ∃ ts, cur_rest c = be_bytes 8 ts ++ cur_rest c' ∧ abs_diff (get_now_timestamp now) ts ≤ 30 ∧ cur_data c' = cur_data c.
Proof.
  intros (v & c1 & [Hg Hd]%get_inv & H)%parser_bind_Ok. exists v. cbv zeta in H.
  unfold SERVER_PACKET_TIMESTAMP_MAX_DIFF in H. destruct (Z.ltb_spec 30 (abs_diff (get_now_timestamp now) v)); [done|].
  by injection H as ->.
Qed.

Lemma skip_padding_inv c c' :
  skip_padding c = Ok (tt, c') →
  ∃ n rest, cur_rest c = be_bytes 2 n ++ rest ∧ cur_rest c' = drop (Z.to_nat n) rest ∧ cur_data c' = cur_data c.
Proof.
  intros (v & c1 & [Hg Hd]%get_inv & H)%parser_bind_Ok. exists v, (cur_rest c1). split; [done|].
  destruct (Z.ltb_spec 0 v).
  - unfold cur_seek in H. injection H as <-. unfold cur_rest. simpl. by rewrite drop_drop.
  - injection H as ->. by replace (Z.to_nat v) with 0%nat by lia.
Qed.

Lemma read_addr_inv c a c' :
  parse_err InvalidAddress Address_read_cursor c = Ok (a, c') →
  cur_rest c = address_wire a ++ cur_rest c' ∧ Address_wf a ∧
  (cur_pos c' ≤ length (cur_data c))%nat ∧ cur_data c' = cur_data c.
Proof.
  unfold parse_err. rewrite read_cursor_on_bytes.
  destruct (read_cursor_bytes (cur_rest c)) as [a'| |] eqn:E; [|done..]. intros [= -> <-].
  apply read_cursor_bytes_inv in E as (Hd & _ & Hwf & Hf & Hc). simpl in Hd. rewrite cur_rest_skip.
  split; [done|]. split; [done|]. simpl. split; [|done].
  assert (Address_serialized_len a ≤ length (cur_rest c))%nat as Hle
    by (rewrite Hd, length_app, length_address_wire; lia).
  unfold cur_rest in Hle. rewrite length_drop in Hle. destruct a as [[]|]; simpl in *; lia.
Qed.

(** What an accepted client packet says, field by field. *)
Definition client_fields (now : Z) (require_eih : bool) (data : bytes) (addr : Address)
    (control : UdpSocketControlData) (payload : bytes) : Prop :=
  ∃ eih ts n rest,
    data = id_header (client_session_id control) (packet_id control) ++ eih ++
           be_bytes 1 CLIENT_SOCKET_TYPE ++ be_bytes 8 ts ++ be_bytes 2 n ++ rest ∧
    length eih = (if require_eih then 16 else 0)%nat ∧
    abs_diff (get_now_timestamp now) ts ≤ 30 ∧
    drop (Z.to_nat n) rest = address_wire addr ++ payload.

Lemma read_client_packet_inv now req u data a control c' :
  read_client_packet now req u (Cursor data 0) = Ok (a, control, c') →
  client_fields now req data a control (cur_rest c') ∧ user control = u ∧ server_session_id control = 0 ∧
  (cur_pos c' ≤ length data)%nat ∧ cur_data c' = data.
Proof.
  intros (sid & c1 & [H1 D1]%get_inv & (pid & c2 & [H2 D2]%get_inv & H)%parser_bind_Ok)%parser_bind_Ok.
  apply parser_bind_Ok in H as ([] & c3 & H3 & ([] & c4 & [H4 D4]%read_type_inv & H)%parser_bind_Ok).
  apply parser_bind_Ok in H as ([] & c5 & (ts & H5 & Hts & D5)%read_timestamp_inv & H).
  apply parser_bind_Ok in H as ([] & c6 & (n & rest & H6 & Hpad & D6)%skip_padding_inv & H).
  apply parser_bind_Ok in H as (a' & c7 & H7 & [= -> <- ->]).
  assert (∃ eih, cur_rest c2 = eih ++ cur_rest c3 ∧ length eih = (if req then 16 else 0)%nat ∧ cur_data c3 = cur_data c2) as (eih & He & Hel & D3).
  { destruct req.
    - unfold cur_advance in H3. rewrite cur_remaining_rest in H3.
      destruct (Nat.leb_spec 16 (length (cur_rest c2))); [|done]. injection H3 as <-.
      exists (take 16 (cur_rest c2)). fold (cur_skip 16 c2). rewrite cur_rest_skip, take_drop, length_take.
      split_and!; [done|lia|done].
    - injection H3 as ->. by exists []. }
  assert (cur_data c6 = data) as Hdata by (simpl in D1; congruence).
  apply read_addr_inv in H7 as (H7 & Hwf & Hpos & Hcd).
  unfold cur_rest in H1 at 1. simpl in H1. rewrite drop_0 in H1.
  split; [|split_and!; [done|done|by rewrite <- Hdata|by rewrite Hcd]].
  exists eih, ts, n, rest. cbn [client_session_id packet_id]. split_and!; [|done|done|by rewrite <- Hpad].
  unfold id_header. by rewrite H1, H2, He, H4, H5, H6, <- !app_assoc.
Qed.

Lemma get_nonce_len_chacha method n nl :
  chacha_kind method = Some n → get_nonce_len method = Ok nl → nl = n.
Proof.
  intros Hc. unfold get_nonce_len. rewrite chacha_not_aes, Hc by (by rewrite Hc).
  rewrite (chacha_nonce_len _ _ Hc). by intros [= <-].
Qed.

Definition has_users (method : CipherKind) (um : option ServerUserManager) : bool :=
  method_support_eih method && match um with Some _ => true | None => false end.

Lemma split_at_Ok n l l1 l2 : split_at n l = Ok (l1, l2) → l = l1 ++ l2 ∧ length l1 = n.
Proof.
  unfold split_at. destruct (Nat.leb_spec n (length l)); [|done]. intros [= <- <-].
  rewrite take_drop, length_take. split; [done|lia].
Qed.

Lemma aes_block_Ok op n key block b : aes_block op n key block = Ok b → b = op key block ∧ length block = 16%nat.
Proof.
  unfold aes_block. destruct (Nat.eqb_spec (length key) n); [|done].
  destruct (Nat.eqb_spec (length block) 16); [|done]. by intros [= <-].
Qed.

(** An opened message was authentic under the key of the user that is found, or
    the server's key when there are no users. *)
Definition opened (method : CipherKind) (key pkt : bytes) (um : option ServerUserManager) (u : option ServerUser)
    (plain : bytes) : Prop :=
  ∃ sid nonce sealed,
    sealed `suffix_of` pkt ∧
    udp_decrypt (UdpCipher_new method (match u with Some u => user_key u | None => key end) sid) nonce sealed = Some plain ∧
    match u with
    | Some u => ∃ m h, um = Some m ∧ get_user_by_hash m h = Some u
    | None => has_users method um = false
    end.

Lemma decrypt_message_inv method key pkt um u pkt' nl :
  decrypt_message method key pkt um = Ok (u, pkt') → get_nonce_len method = Ok nl →
  ∃ pre plain, pkt' = pre ++ plain ∧ length pkt' = length pkt ∧
    (length pre ≤ nl + 16 + if has_users method um then 16 else 0)%nat ∧ opened method key pkt um u plain.
Proof.
  unfold decrypt_message, get_cipher. destruct (chacha_kind method) as [k|] eqn:Hc.
  { intros ([nonce m] & [-> Hn]%split_at_Ok & H)%outcome_bind_Ok Hnl.
    apply outcome_bind_Ok in H as ([s ?] & _ & H).
    destruct (udp_decrypt _ nonce m) as [plain|] eqn:Hd; [|done]. injection H as <- <-.
    apply (get_nonce_len_chacha _ k) in Hnl as ->; [|done].
    exists nonce, plain. rewrite !length_app, (udp_decrypt_length _ _ _ _ Hd). split_and!; [done..|lia|].
    exists (be_Z s), nonce, m. split_and!; [by apply suffix_app_r|done|].
    unfold has_users. by rewrite (no_eih_chacha _ k). }
  destruct (aes_kind method) as [k|] eqn:Ha; [|done].
  intros ([h m] & [-> Hh]%split_at_Ok & H)%outcome_bind_Ok _.
  apply outcome_bind_Ok in H as (h' & [Hh' _]%aes_block_Ok & H).
  assert (length h' = 16%nat) as Hl by (subst h'; by apply aes_decrypt_length).
  assert (has_users method um = match um with Some _ => true | None => false end) as Hus
    by (unfold has_users, method_support_eih; by rewrite Ha).
  apply outcome_bind_Ok in H as ([[[u' c] e] m'] & Hu & H).
  destruct (udp_decrypt _ _ m') as [plain|] eqn:Hd; [|done]. injection H as -> <-.
  pose proof (udp_decrypt_length _ _ _ _ Hd) as Hpl.
  exists (h' ++ e), plain. split; [by rewrite app_assoc|]. destruct um as [um|]; cbn in Hus; unfold opened; rewrite Hus.
  - apply outcome_bind_Ok in Hu as ([e0 m0] & [-> He0]%split_at_Ok & Hu).
    apply outcome_bind_Ok in Hu as (e1 & [He1 _]%aes_block_Ok & Hu).
    destruct (get_user_by_hash um (xor_bytes e1 h')) as [u0|] eqn:Hg; [|done]. injection Hu as <- <- <- <-.
    assert (length e1 = 16%nat) by (subst e1; by apply aes_decrypt_length).
    assert (length (xor_bytes e1 h') = 16%nat) by (rewrite length_xor_bytes; lia).
    rewrite !length_app. split; [lia|]. split; [lia|]. eexists _, _, _. split; [|by eauto].
    by apply suffix_app_r, suffix_app_r.
  - injection Hu as <- <- <- <-. rewrite !length_app. simpl. split; [lia|]. split; [lia|].
    eexists _, _, _. split; [|by eauto]. by apply suffix_app_r.
Qed.

(** C16. Every client datagram the server accepts was authentic: the AEAD cipher
    of the user it reports (found among its users) or, without users, of its own
    key opened it, and the opened plaintext holds the client's packet type, a
    timestamp within 30 seconds of the clock, the padding, the address that is
    reported and the payload left at the front of the buffer. *)
Theorem udp_2022_accepted_sound now method key pkt um n addr control buf :
  decrypt_client_payload_aead_2022 now method key pkt um = Ok (n, addr, control, buf) →
  ∃ plain data tag,
    opened method key pkt um (user control) plain ∧
    drop (16 + if has_users method um then 16 else 0)%nat (data ++ tag) `suffix_of` plain ∧
    length tag = tag_len method ∧
    client_fields now (has_users method um) data addr control (take n buf).
Proof.
  unfold decrypt_client_payload_aead_2022. intros (nl & Hnl & H)%outcome_bind_Ok. cbv zeta in H.
  fold (has_users method um) in H. destruct (Nat.ltb_spec (length pkt)
    (nl + tag_len method + 8 + 8 + (if has_users method um then 16 else 0) + 1 + 8 + 2)) as [|Hlen]; [done|].
  apply outcome_bind_Ok in H as ([u pkt'] & Hdec & H).
  destruct (decrypt_message_inv _ _ _ _ _ _ _ Hdec Hnl) as (pre & plain & Hpp & Hl & Hpre & Ho).
  unfold finish_decrypt in H. cbv zeta in H.
  set (data := drop nl (take (length pkt' - tag_len method) pkt')) in *.
  apply outcome_bind_Ok in H as ([[a ctl] c'] & (Hf & Hu & _ & Hpos & Hcd)%read_client_packet_inv & [= <- <- <- <-]).
  exists plain, data, (drop (length pkt' - tag_len method) pkt').
  assert (length data = (length pkt' - tag_len method - nl)%nat) as Hdl
    by (unfold data; rewrite length_drop, length_take; lia).
  split_and!.
  - by rewrite Hu.
  - assert (data ++ drop (length pkt' - tag_len method) pkt' = drop nl pkt') as ->.
    { rewrite <- (take_drop (length pkt' - tag_len method) pkt') at 3.
      rewrite drop_app_le; [done|]. rewrite length_take. lia. }
    rewrite drop_drop, Hpp, drop_app_ge by lia. apply suffix_drop.
  - rewrite length_drop. lia.
  - replace (take _ _) with (cur_rest c'); [exact Hf|]. unfold cur_rest. rewrite Hcd.
    pose proof (take_copy_within (nl + cur_pos c') (nl + cur_pos c' + (length data - cur_pos c')) pkt') as Hcw.
    replace (nl + cur_pos c' + (length data - cur_pos c') - (nl + cur_pos c'))%nat
      with (length data - cur_pos c')%nat in Hcw by lia.
    rewrite Hcw by lia. unfold data at 1. rewrite drop_drop, skipn_firstn_comm. f_equal. lia.
Qed.
End Accepted.

(** ** Examples *)
#[local] Existing Instances Toy.suite Toy.udp_cipher Toy.blake3 Toy.aes Toy.bloom Toy.lru.

Definition toy_key : bytes := be_bytes 16 77.
Definition toy_user_key : bytes := be_bytes 16 5.
Definition toy_users : ServerUserManager := manager_of [("bob"%string, toy_user_key)].
Definition toy_control : UdpSocketControlData :=
  {| client_session_id := 3; server_session_id := 4; packet_id := 9; user := None |}.

Lemma udp_2022_short_response_panics_witness :
  ∃ pkt,
    encrypt_message Toy.Aead2022_16 toy_key toy_key
      ([] ++ id_header 4 9 ++ be_bytes 1 SERVER_SOCKET_TYPE ++ be_bytes 8 2 ++ be_bytes 5 0) 4 0 = Ok pkt ∧
    is_panic (decrypt_server_payload_aead_2022 2000 Toy.Aead2022_16 toy_key pkt) = true.
Proof.
  apply (udp_2022_short_response_panics (HDC := Toy.udp_cipher_laws) (HAE := Toy.aes_laws)
    2000 Toy.Aead2022_16 toy_key [] 4 9 2 (be_bytes 5 0)).
  - right. by exists 16%nat.
  - reflexivity.
  - unfold in_u64, in_u. lia.
  - unfold in_u64, in_u. lia.
  - unfold in_u64, in_u. lia.
  - vm_compute. congruence.
  - rewrite length_be_bytes. lia.
Defined.

(** A packet the server accepts: the plain AES kind, no users. *)
Definition toy_packet : bytes :=
  match encrypt_client_payload_aead_2022 1000 [] [] toy_context Toy.Aead2022_16 toy_key
          (SocketAddress (V4 167772161 53)) toy_control [] (be_bytes 3 7) with
  | Ok pkt => pkt
  | _ => []
  end.
Definition toy_opened : bytes :=
  match decrypt_client_payload_aead_2022 2000 Toy.Aead2022_16 toy_key toy_packet None with
  | Ok (_, _, _, buf) => buf
  | _ => []
  end.

Lemma udp_2022_accepted_sound_witness :
  ∃ plain data tag,
    opened (CS := Toy.suite) Toy.Aead2022_16 toy_key toy_packet None None plain ∧
    drop 16 (data ++ tag) `suffix_of` plain ∧ length tag = 2%nat ∧
    client_fields 2000 false data (SocketAddress (V4 167772161 53))
      {| client_session_id := 3; server_session_id := 0; packet_id := 9; user := None |} (take 3 toy_opened).
Proof.
  apply (udp_2022_accepted_sound (HDC := Toy.udp_cipher_laws) (HAE := Toy.aes_laws)
    2000 Toy.Aead2022_16 toy_key toy_packet None 3 (SocketAddress (V4 167772161 53))
    {| client_session_id := 3; server_session_id := 0; packet_id := 9; user := None |} toy_opened).
  reflexivity.
Defined.
