(* ===== verification/UdpCryptoIo.v ===== *)
(** * Datagrams of every cipher (crates/shadowsocks/src/relay/udprelay/crypto_io.rs)

    The four functions the UDP relay calls choose the format by the category of
    the cipher.  Shown: for every category a datagram is decrypted by the peer
    to what it was made from, in both directions; and exactly which datagrams
    panic when there is no authentication. *)
From S2P Require Import Prelude.
From S2P Require Import External.
From S2P Require Import Users.
From S2P Require Import Replay.
From S2P Require Import Socks5.
From S2P Require Import UdpAead2022.
From S2P Require UdpAead.
From S2P Require UdpStream.

Inductive ProtocolError :=
| InvalidAddress (e : Socks5.Error)
| StreamError (e : UdpStream.ProtocolError)
| AeadError (e : UdpAead.ProtocolError)
| Aead2022Error (e : UdpAead2022.ProtocolError).

Section CryptoIo.
(** [KS] and [SC] are [v1::Cipher] for the stream and for the AEAD kinds. *)
Context `{CS : CipherSuite, KS : !StreamCipher, SC : !StreamCipher, DC : !DatagramCipher}.
Context `{B3 : Blake3, AE : Aes, BF : BloomFilter, LC : LruTimeCache}.

Abbreviation decrypted := (outcome ProtocolError (nat * Address * option UdpSocketControlData * bytes)).

(** The [None] category: the address and the payload in the clear. *)
Definition encrypt_plain (addr : Address) (payload : bytes) : outcome ProtocolError bytes :=
  dst ← Address_write_to_buf addr [];
  Ok (dst ++ payload).

Definition decrypt_plain (payload : bytes) : decrypted :=
  match Address_read_cursor (Cursor payload 0) with
  | Ok (address, cur) =>
      let pos := cur_pos cur in
      Ok ((length payload - pos)%nat, address, None, copy_within pos (length payload) payload)
  | Err err => Err (InvalidAddress err)
  | Panic m => Panic m
  end.

(** [.map(|(n, a)| (n, a, None))] and [.map(|(n, a, c)| (n, a, Some(c)))], with
    the buffer. *)
Definition no_control : nat * Address * bytes → nat * Address * option UdpSocketControlData * bytes :=
  λ '(n, a, buf), (n, a, None, buf).
Definition with_control : nat * Address * UdpSocketControlData * bytes →
    nat * Address * option UdpSocketControlData * bytes :=
  λ '(n, a, c, buf), (n, a, Some c, buf).

Definition encrypt_client_payload (now : Z) (draw padding : bytes) (context : Context) (method : CipherKind)
    (key : bytes) (addr : Address) (control : UdpSocketControlData) (identity_keys : list bytes) (payload : bytes)
  : outcome ProtocolError bytes :=
  match category method with
  | Cat_None => encrypt_plain addr payload
  | Cat_Stream => map_err StreamError (UdpStream.encrypt_payload_stream (SC := KS) now draw context method key addr payload)
  | Cat_Aead => map_err AeadError (UdpAead.encrypt_payload_aead (SC := SC) now draw context method key addr payload)
  | Cat_Aead2022 =>
      map_err Aead2022Error
        (encrypt_client_payload_aead_2022 now draw padding context method key addr control identity_keys payload)
  end.

Definition encrypt_server_payload (now : Z) (draw padding : bytes) (context : Context) (method : CipherKind)
    (key : bytes) (addr : Address) (control : UdpSocketControlData) (payload : bytes)
  : outcome ProtocolError bytes :=
  match category method with
  | Cat_None => encrypt_plain addr payload
  | Cat_Stream => map_err StreamError (UdpStream.encrypt_payload_stream (SC := KS) now draw context method key addr payload)
  | Cat_Aead => map_err AeadError (UdpAead.encrypt_payload_aead (SC := SC) now draw context method key addr payload)
  | Cat_Aead2022 =>
      map_err Aead2022Error
        (encrypt_server_payload_aead_2022 now draw padding context method key addr control payload)
  end.

Definition decrypt_client_payload (now : Z) (method : CipherKind) (key payload : bytes)
    (user_manager : option ServerUserManager) : decrypted :=
  match category method with
  | Cat_None => decrypt_plain payload
  | Cat_Stream => no_control <$> map_err StreamError (UdpStream.decrypt_payload_stream (SC := KS) method key payload)
  | Cat_Aead => no_control <$> map_err AeadError (UdpAead.decrypt_payload_aead (SC := SC) method key payload)
  | Cat_Aead2022 =>
      with_control <$> map_err Aead2022Error (decrypt_client_payload_aead_2022 now method key payload user_manager)
  end.

Definition decrypt_server_payload (now : Z) (method : CipherKind) (key payload : bytes) : decrypted :=
  match category method with
  | Cat_None => decrypt_plain payload
  | Cat_Stream => no_control <$> map_err StreamError (UdpStream.decrypt_payload_stream (SC := KS) method key payload)
  | Cat_Aead => no_control <$> map_err AeadError (UdpAead.decrypt_payload_aead (SC := SC) method key payload)
  | Cat_Aead2022 =>
      with_control <$> map_err Aead2022Error (decrypt_server_payload_aead_2022 now method key payload)
  end.

End CryptoIo.

Section CryptoIoFacts.
Context `{CS : CipherSuite, KS : !StreamCipher, SC : !StreamCipher, DC : !DatagramCipher}.
Context `{B3 : Blake3, AE : Aes, BF : BloomFilter, LC : LruTimeCache}.
Context `{HK : !KeystreamLaws KS, HSC : !StreamCipherLaws SC, HDC : !DatagramCipherLaws DC}.
Context `{HB3 : !Blake3Laws B3, HAE : !AesLaws AE}.

Lemma plain_roundtrip addr payload :
  Address_wf addr → Address_fits addr →
  ∃ pkt buf, encrypt_plain addr payload = Ok pkt ∧
    decrypt_plain pkt = Ok (length payload, Address_canon addr, None, buf) ∧
    take (length payload) buf = payload.
Proof.
  intros Hwf Hf. unfold encrypt_plain, Address_write_to_buf. rewrite write_address_wire by done.
  cbn [mbind outcome_bind]. rewrite app_nil_l.
  eexists _, _. split; [done|]. unfold decrypt_plain.
  rewrite read_cursor_on_bytes. unfold cur_rest. cbn [cur_pos cur_data]. rewrite drop_0, read_cursor_bytes_wire by done.
  cbn [fmap outcome_fmap cur_skip cur_pos Nat.add].
  assert (Address_serialized_len (Address_canon addr) = length (address_wire addr)) as ->
    by (rewrite length_address_wire; by destruct addr as [[]|]).
  rewrite length_app. replace (length (address_wire addr) + length payload - length (address_wire addr))%nat
    with (length payload) by lia.
  split; [done|]. pose proof (copy_within_payload (address_wire addr) payload [] _ eq_refl) as H.
  by rewrite app_nil_r in H.
Qed.

(** The bytes of randomness a datagram starts with. *)
Definition draw_len (method : CipherKind) : nat :=
  match category method with
  | Cat_None => 0
  | Cat_Stream => iv_len method
  | Cat_Aead => salt_len method
  | Cat_Aead2022 => nonce_size method
  end.

(** Client and server have the same key; for AEAD-2022 identity keys and users
    match as well. *)
Definition peers (method : CipherKind) (key : bytes) (ikeys : list bytes) (skey : bytes)
    (um : option ServerUserManager) (u : option ServerUser) : Prop :=
  match category method with
  | Cat_Aead2022 => serves method key ikeys skey um u
  | _ => skey = key
  end.

(** The control data the receiver gets: only AEAD-2022 datagrams carry any. *)
Definition control_of (method : CipherKind) (c : UdpSocketControlData) : option UdpSocketControlData :=
  if is_aead_2022 method then Some c else None.

(** A datagram a client makes with [encrypt_client_payload] is decrypted by
    the server's [decrypt_client_payload] to the address and payload it was made
    from, whatever the cipher; with AEAD-2022 the session, packet id and user
    come with it, given clocks within 30 seconds of each other. *)
Theorem client_datagram_roundtrip now now' draw padding c0 method key ikeys skey um u addr control payload :
  peers method key ikeys skey um u → length draw = draw_len method →
  (length padding ≤ AEAD2022_MAX_PADDING_SIZE)%nat → Address_wf addr → Address_fits addr →
  in_u64 (client_session_id control) → in_u64 (packet_id control) → in_u64 (get_now_timestamp now) →
  abs_diff (get_now_timestamp now') (get_now_timestamp now) ≤ 30 →
  ∃ pkt buf,
    encrypt_client_payload (KS := KS) (SC := SC) now draw padding c0 method key addr control ikeys payload =
      Ok pkt ∧
    decrypt_client_payload (KS := KS) (SC := SC) now' method skey pkt um =
      Ok (length payload, Address_canon addr,
          control_of method {| client_session_id := client_session_id control; server_session_id := 0;
                               packet_id := packet_id control; user := u |}, buf) ∧
    take (length payload) buf = payload.
Proof.
  unfold peers, draw_len, encrypt_client_payload, decrypt_client_payload, control_of, is_aead_2022.
  intros Hp Hl Hpad Hwf Hf Hsid Hpid Hts Hd. destruct (category method).
  - by apply plain_roundtrip.
  - subst skey. destruct (UdpStream.udp_stream_roundtrip (SC := KS) now draw c0 method key addr payload)
      as (pkt & buf & -> & _ & H & Ht); [done..|].
    exists pkt, buf. by rewrite H.
  - subst skey. destruct (UdpAead.udp_aead_roundtrip (SC := SC) now draw c0 method key addr payload)
      as (pkt & buf & -> & _ & H & Ht); [done..|].
    exists pkt, buf. by rewrite H.
  - destruct (udp_2022_client_roundtrip now now' draw padding c0 method key ikeys skey um u addr control payload)
      as (pkt & buf & -> & H & Ht); [done..|].
    exists pkt, buf. by rewrite H.
Qed.

(** The same for the datagrams a server answers with. *)
Theorem server_datagram_roundtrip now now' draw padding c0 method key addr control payload :
  (category method = Cat_Aead2022 → datagram_key method key) → length draw = draw_len method →
  (length padding ≤ AEAD2022_MAX_PADDING_SIZE)%nat → Address_wf addr → Address_fits addr →
  in_u64 (client_session_id control) → in_u64 (server_session_id control) → in_u64 (packet_id control) →
  in_u64 (get_now_timestamp now) → abs_diff (get_now_timestamp now') (get_now_timestamp now) ≤ 30 →
  ∃ pkt buf,
    encrypt_server_payload (KS := KS) (SC := SC) now draw padding c0 method key addr control payload = Ok pkt ∧
    decrypt_server_payload (KS := KS) (SC := SC) now' method key pkt =
      Ok (length payload, Address_canon addr,
          control_of method {| client_session_id := client_session_id control;
                               server_session_id := server_session_id control;
                               packet_id := packet_id control; user := None |}, buf) ∧
    take (length payload) buf = payload.
Proof.
  unfold draw_len, encrypt_server_payload, decrypt_server_payload, control_of, is_aead_2022.
  intros Hp Hl Hpad Hwf Hf Hcsid Hsid Hpid Hts Hd. destruct (category method).
  - by apply plain_roundtrip.
  - destruct (UdpStream.udp_stream_roundtrip (SC := KS) now draw c0 method key addr payload)
      as (pkt & buf & -> & _ & H & Ht); [done..|].
    exists pkt, buf. by rewrite H.
  - destruct (UdpAead.udp_aead_roundtrip (SC := SC) now draw c0 method key addr payload)
      as (pkt & buf & -> & _ & H & Ht); [done..|].
    exists pkt, buf. by rewrite H.
  - destruct (udp_2022_server_roundtrip now now' draw padding c0 method key addr control payload)
      as (pkt & buf & -> & H & Ht); [by auto|done..|].
    exists pkt, buf. by rewrite H.
Qed.

(** A domain address that is cut short inside its port. *)
Definition cut_in_port (l : bytes) : Prop :=
  ∃ n tail, l = b# SOCKS5_ADDR_TYPE_DOMAIN_NAME :: n :: tail ∧
    (Z.to_nat (byte.unsigned n) ≤ length tail < Z.to_nat (byte.unsigned n) + 2)%nat.

Lemma cut_in_port_panics l : is_panic (Address_read_cursor (Cursor l 0)) = true ↔ cut_in_port l.
Proof. rewrite read_cursor_panics. unfold cur_rest, cut_in_port. cbn [cur_pos cur_data]. by rewrite drop_0. Qed.

(** Without authentication a datagram can make the receiver panic: with no
    cipher exactly the datagrams that end inside the port of a domain address
    do, and with a stream cipher exactly those that decrypt to such bytes; every
    other datagram is decrypted or refused. *)
Theorem unauthenticated_datagram_panics now method key pkt um :
  (category method = Cat_None →
     (is_panic (decrypt_client_payload (KS := KS) (SC := SC) now method key pkt um) = true ↔ cut_in_port pkt) ∧
     (is_panic (decrypt_server_payload (KS := KS) (SC := SC) now method key pkt) = true ↔ cut_in_port pkt)) ∧
  (category method = Cat_Stream →
     (is_panic (decrypt_client_payload (KS := KS) (SC := SC) now method key pkt um) = true ↔
      (iv_len method ≤ length pkt)%nat ∧
      match fst (decrypt_packet (StreamCipher := KS) (Cipher_new method key (take (iv_len method) pkt))
                   (drop (iv_len method) pkt)) with
      | Some data => cut_in_port data
      | None => True
      end)).
Proof.
  split; intros Hc; unfold decrypt_client_payload, decrypt_server_payload; rewrite Hc.
  - assert (is_panic (decrypt_plain pkt) = true ↔ cut_in_port pkt); [|done].
    rewrite <- cut_in_port_panics. unfold decrypt_plain. by destruct (Address_read_cursor _) as [[]| |].
  - unfold UdpStream.decrypt_payload_stream. cbv zeta.
    destruct (Nat.ltb_spec (length pkt) (iv_len method)) as [Hlt|Hge]; [split; [done|lia]|].
    destruct (fst (decrypt_packet _ _)) as [data|]; [|done].
    rewrite <- cut_in_port_panics. unfold UdpStream.parse_packet.
    destruct (Address_read_cursor _) as [[]| |]; simpl; naive_solver.
Qed.
End CryptoIoFacts.

(** ** Examples *)
#[local] Existing Instances Toy.suite Toy.udp_cipher Toy.blake3 Toy.aes Toy.bloom Toy.lru.

Lemma client_datagram_roundtrip_witness :
  ∃ pkt buf,
    encrypt_client_payload (KS := Toy.stream_cipher) (SC := Toy.cipher) 1000 [] [] toy_context Toy.Aead2022_16
      toy_user_key (SocketAddress (V4 167772161 53)) toy_control [toy_key] (be_bytes 3 7) = Ok pkt ∧
    decrypt_client_payload (KS := Toy.stream_cipher) (SC := Toy.cipher) 2000 Toy.Aead2022_16 toy_key pkt (Some toy_users) =
      Ok (3%nat, SocketAddress (V4 167772161 53),
          Some {| client_session_id := 3; server_session_id := 0; packet_id := 9;
                  user := Some (ServerUser_new "bob" toy_user_key) |}, buf) ∧
    take 3 buf = be_bytes 3 7.
Proof.
  apply (client_datagram_roundtrip (KS := Toy.stream_cipher) (SC := Toy.cipher)
    (HK := Toy.keystream_laws) (HSC := Toy.cipher_laws)
    (HDC := Toy.udp_cipher_laws) (HB3 := Toy.blake3_laws) (HAE := Toy.aes_laws)
    1000 2000 [] [] toy_context Toy.Aead2022_16 toy_user_key [toy_key] toy_key (Some toy_users)
    (Some (ServerUser_new "bob" toy_user_key)) (SocketAddress (V4 167772161 53)) toy_control (be_bytes 3 7)).
  - by apply (serves_user (CS := Toy.suite) Toy.Aead2022_16 toy_user_key 16).
  - reflexivity.
  - simpl. lia.
  - split; unfold in_u; lia.
  - exact I.
  - unfold in_u64, in_u. simpl. lia.
  - unfold in_u64, in_u. simpl. lia.
  - vm_compute. split; congruence.
  - vm_compute. congruence.
Defined.

Lemma server_datagram_roundtrip_witness :
  ∃ pkt buf,
    encrypt_server_payload (KS := Toy.stream_cipher) (SC := Toy.cipher) 1000 (be_bytes 6 1) (be_bytes 2 0) toy_context
      Toy.Chacha2022 toy_key (SocketAddress (V4 167772161 53)) toy_control [] = Ok pkt ∧
    decrypt_server_payload (KS := Toy.stream_cipher) (SC := Toy.cipher) 2000 Toy.Chacha2022 toy_key pkt =
      Ok (0%nat, SocketAddress (V4 167772161 53),
          Some {| client_session_id := 3; server_session_id := 4; packet_id := 9; user := None |}, buf) ∧
    take 0 buf = [].
Proof.
  apply (server_datagram_roundtrip (KS := Toy.stream_cipher) (SC := Toy.cipher)
    (HK := Toy.keystream_laws) (HSC := Toy.cipher_laws)
    (HDC := Toy.udp_cipher_laws) (HAE := Toy.aes_laws)
    1000 2000 (be_bytes 6 1) (be_bytes 2 0) toy_context Toy.Chacha2022 toy_key
    (SocketAddress (V4 167772161 53)) toy_control []).
  - left. by exists 6%nat.
  - reflexivity.
  - unfold AEAD2022_MAX_PADDING_SIZE. rewrite length_be_bytes. lia.
  - split; unfold in_u; lia.
  - exact I.
  - unfold in_u64, in_u. simpl. lia.
  - unfold in_u64, in_u. simpl. lia.
  - unfold in_u64, in_u. simpl. lia.
  - vm_compute. split; congruence.
  - vm_compute. congruence.
Defined.

Lemma unauthenticated_datagram_panics_witness :
  is_panic (decrypt_client_payload (KS := Toy.stream_cipher) (SC := Toy.cipher) 0 Toy.Plain []
              [b# 3; b# 1; b# 0x61; b# 0] None) = true.
Proof.
  apply (proj1 (unauthenticated_datagram_panics (KS := Toy.stream_cipher) (SC := Toy.cipher) 0 Toy.Plain []
                  [b# 3; b# 1; b# 0x61; b# 0] None) eq_refl).
  exists (b# 1), [b# 0x61; b# 0]. split; [reflexivity|]. vm_compute. lia.
Defined.
