(* ===== verification/TcpProtocol.v ===== *)
(** * The request header of a tunnel (relay/tcprelay/proxy_stream/protocol, client.rs)

    What a client sends first on a tunnel: the target address, for AEAD-2022 a
    padding as well, and the first payload.  Shown: a server reads from the
    first packet the client's address and finds the payload behind it, for every
    cipher; and the serialiser of the AEAD-2022 header leaves the address out. *)
From S2P Require Import Prelude.
From S2P Require Import External.
From S2P Require Import Socks5.
From S2P Require Import UdpAead2022.

Definition MAX_PADDING_SIZE : Z := 900.

(** ** v1 *)
Record StreamTcpRequestHeader := { st_addr : Address }.

(** [Address::read_from(reader).await?] in a function that returns [io::Result]. *)
Definition read_address_io : parser reader io_error Address := parse_err io_Error_from Address_read_from.

Definition StreamTcpRequestHeader_read_from : parser reader io_error StreamTcpRequestHeader :=
  addr ← read_address_io;
  mret {| st_addr := addr |}.

(** [write_to_buf] and [serialized_len] of the owned header are those of the
    borrowed one, here and below. *)
Definition StreamTcpRequestHeader_write_to_buf (self : StreamTcpRequestHeader) (buf : bytes) : outcome io_error bytes :=
  Address_write_to_buf (st_addr self) buf.
Definition StreamTcpRequestHeader_serialized_len (self : StreamTcpRequestHeader) : nat :=
  Address_serialized_len (st_addr self).

(** ** v2 *)
Record Aead2022TcpRequestHeader := { v2_addr : Address; padding_size : Z }.

(** The [read] calls on [reader.take(n)] until one gives no byte: as many as
    there are of the next [n] bytes, and the error the stream ends with if it
    ends before.  A plain end of the stream ends the loop like the limit does. *)
Definition discard_padding (n : nat) : parser reader io_error unit := λ r,
  if (n <=? length (rd_data r))%nat then Ok (tt, Reader (drop n (rd_data r)) (rd_end r))
  else match rd_end r with
       | Some e => Err e
       | None => Ok (tt, Reader [] None)
       end.

Definition Aead2022TcpRequestHeader_read_from : parser reader io_error Aead2022TcpRequestHeader :=
  addr ← read_address_io;
  padding_size_buffer ← read_exact 2;
  let padding_size := be_Z padding_size_buffer in
  _ ← (if 0 <? padding_size then discard_padding (Z.to_nat padding_size) else mret tt);
  mret {| v2_addr := addr; padding_size := padding_size |}.

(** [padding] is the uninitialised memory [advance_mut] uncovers. *)
Definition Aead2022TcpRequestHeader_write_to_buf (self : Aead2022TcpRequestHeader) (padding buf : bytes)
  : outcome io_error bytes :=
  _ ← rust_assert (padding_size self <=? MAX_PADDING_SIZE) "padding length must be in [0, 900]";
  let buf := buf ++ be_bytes 2 (padding_size self) in
  Ok (if 0 <? padding_size self then buf ++ take (Z.to_nat (padding_size self)) padding else buf).
Definition Aead2022TcpRequestHeader_serialized_len (self : Aead2022TcpRequestHeader) : nat :=
  (Address_serialized_len (v2_addr self) + 2 + Z.to_nat (padding_size self))%nat.

(** ** The header of either version *)
Inductive TcpRequestHeader :=
| HdrStream (h : StreamTcpRequestHeader)
| HdrAead2022 (h : Aead2022TcpRequestHeader).

Section Protocol.
Context `{CS : CipherSuite}.

Definition TcpRequestHeader_read_from (method : CipherKind) : parser reader io_error TcpRequestHeader :=
  match category method with
  | Cat_None | Cat_Aead | Cat_Stream => h ← StreamTcpRequestHeader_read_from; mret (HdrStream h)
  | Cat_Aead2022 => h ← Aead2022TcpRequestHeader_read_from; mret (HdrAead2022 h)
  end.

Definition TcpRequestHeader_write_to_buf (self : TcpRequestHeader) (padding buf : bytes) : outcome io_error bytes :=
  match self with
  | HdrStream h => StreamTcpRequestHeader_write_to_buf h buf
  | HdrAead2022 h => Aead2022TcpRequestHeader_write_to_buf h padding buf
  end.

Definition TcpRequestHeader_addr (self : TcpRequestHeader) : Address :=
  match self with
  | HdrStream h => st_addr h
  | HdrAead2022 h => v2_addr h
  end.

Definition TcpRequestHeader_serialized_len (self : TcpRequestHeader) : nat :=
  match self with
  | HdrStream h => StreamTcpRequestHeader_serialized_len h
  | HdrAead2022 h => Aead2022TcpRequestHeader_serialized_len h
  end.

(** [make_first_packet_buffer]; [padding] as in [padding_of]. *)
Definition make_first_packet_buffer (method : CipherKind) (addr : Address) (padding buf : bytes) : outcome io_error bytes :=
  buffer ← Address_write_to_buf addr [];
  let padding := padding_of padding buf in
  let buffer := if is_aead_2022 method then buffer ++ be_bytes 2 (Z.of_nat (length padding)) ++ padding else buffer in
  Ok (buffer ++ buf).

End Protocol.

Section ProtocolFacts.
Context `{CS : CipherSuite}.

Lemma bind_reader_step {A B E} (p : parser reader E A) (k : A → parser reader E B) r a r' :
  p r = Ok (a, r') → (p ≫= k) r = k a r'.
Proof. intros H. unfold mbind, parser_bind. by rewrite H. Qed.

Lemma read_address_io_wire addr rest e :
  Address_wf addr → Address_fits addr →
  read_address_io (Reader (address_wire addr ++ rest) e) = Ok (Address_canon addr, Reader rest e).
Proof. intros. unfold read_address_io, parse_err. by rewrite read_from_wire. Qed.

Lemma discard_padding_app padding rest e :
  discard_padding (length padding) (Reader (padding ++ rest) e) = Ok (tt, Reader rest e).
Proof. unfold discard_padding. cbn [rd_data rd_end]. len_true. by rewrite drop_app_length. Qed.

(** The header the server gets from a first packet. *)
Definition first_header (method : CipherKind) (addr : Address) (padding buf : bytes) : TcpRequestHeader :=
  if is_aead_2022 method
  then HdrAead2022 {| v2_addr := Address_canon addr; padding_size := Z.of_nat (length (padding_of padding buf)) |}
  else HdrStream {| st_addr := Address_canon addr |}.

Lemma padding_of_bound' padding buf :
  (length padding ≤ AEAD2022_MAX_PADDING_SIZE)%nat → Z.of_nat (length (padding_of padding buf)) ≤ 900.
Proof.
  intros Hp. pose proof (padding_of_bound padding buf Hp) as H.
  unfold AEAD2022_MAX_PADDING_SIZE in H. lia.
Qed.

(** The server reads from the client's first packet the header with the
    client's target address, and what is left to read is exactly the client's
    payload and whatever comes after it, for every kind of cipher. *)
Lemma first_packet_read method addr padding buf rest e :
  (length padding ≤ AEAD2022_MAX_PADDING_SIZE)%nat → Address_wf addr → Address_fits addr →
  ∃ packet,
    make_first_packet_buffer method addr padding buf = Ok packet ∧
    length packet = (TcpRequestHeader_serialized_len (first_header method addr padding buf) + length buf)%nat ∧
    TcpRequestHeader_read_from method (Reader (packet ++ rest) e) =
      Ok (first_header method addr padding buf, Reader (buf ++ rest) e) ∧
    TcpRequestHeader_addr (first_header method addr padding buf) = Address_canon addr.
Proof.
  intros Hp Hwf Hf. pose proof (padding_of_bound' padding buf Hp) as Hb.
  unfold make_first_packet_buffer, Address_write_to_buf, first_header, TcpRequestHeader_read_from, is_aead_2022.
  rewrite write_address_wire by done. cbn [mbind outcome_bind]. rewrite app_nil_l. eexists. split; [done|].
  assert (Address_serialized_len (Address_canon addr) = Address_serialized_len addr) as Hlen by by destruct addr as [[]|].
  destruct (category method); simpl bool_decide; cbv iota.
  1-3: unfold StreamTcpRequestHeader_read_from; rewrite <- app_assoc; split_and!;
    [simpl; unfold StreamTcpRequestHeader_serialized_len; simpl; autorewrite with blen; lia| |done];
    by rewrite (bind_reader_step _ _ _ _ _ (bind_reader_step _ _ _ _ _ (read_address_io_wire _ _ _ Hwf Hf))).
  set (pad := padding_of padding buf) in *. split_and!; [|
    |done].
  - simpl. unfold Aead2022TcpRequestHeader_serialized_len. simpl. autorewrite with blen. lia.
  - rewrite <- !app_assoc.
    assert (Aead2022TcpRequestHeader_read_from
              (Reader (address_wire addr ++ be_bytes 2 (Z.of_nat (length pad)) ++ pad ++ buf ++ rest) e) =
            Ok ({| v2_addr := Address_canon addr; padding_size := Z.of_nat (length pad) |}, Reader (buf ++ rest) e)) as H.
    { unfold Aead2022TcpRequestHeader_read_from.
      rewrite (bind_reader_step _ _ _ _ _ (read_address_io_wire _ _ _ Hwf Hf)).
      rewrite (bind_reader_step _ _ _ _ _ (read_exact_app 2 _ _ _ (length_be_bytes 2 _))).
      rewrite be_Z_be_bytes_small by (simpl; lia). cbv zeta.
      destruct (Z.ltb_spec 0 (Z.of_nat (length pad))) as [_|H0].
      - rewrite Nat2Z.id. by rewrite (bind_reader_step _ _ _ _ _ (discard_padding_app _ _ _)).
      - by assert (pad = []) as -> by (apply nil_length_inv; lia). }
    by rewrite (bind_reader_step _ _ _ _ _ H).
Qed.

(** The serialiser of the AEAD-2022 request header does not write the
    address: what it writes is shorter than the announced length by exactly the
    address, and with a padding below 256 bytes no reader gets a header back
    from it. *)
Theorem aead_2022_header_write_omits_address addr p padding buf rest e :
  0 ≤ p ≤ 900 → (Z.to_nat p ≤ length padding)%nat →
  let h := {| v2_addr := addr; padding_size := p |} in
  ∃ w, Aead2022TcpRequestHeader_write_to_buf h padding buf = Ok (buf ++ w) ∧
    (length w + Address_serialized_len addr = Aead2022TcpRequestHeader_serialized_len h)%nat ∧
    (p < 256 → is_ok (Aead2022TcpRequestHeader_read_from (Reader (w ++ rest) e)) = false).
Proof.
  intros Hp Hl h. unfold Aead2022TcpRequestHeader_write_to_buf, rust_assert, h. cbn [padding_size].
  unfold MAX_PADDING_SIZE. rewrite (proj2 (Z.leb_le p 900)) by lia. cbn [mbind outcome_bind]. cbv zeta.
  exists (be_bytes 2 p ++ take (Z.to_nat p) padding). split; [|split].
  - destruct (Z.ltb_spec 0 p); [by rewrite app_assoc|].
    assert (p = 0) as -> by lia. by rewrite take_0, app_nil_r.
  - unfold Aead2022TcpRequestHeader_serialized_len. simpl. autorewrite with blen. lia.
  - intros Hlt. unfold Aead2022TcpRequestHeader_read_from, read_address_io, parse_err, mbind at 1, parser_bind at 1.
    destruct (Address_read_from _) as [[a r']| |] eqn:E; [|done..]. exfalso.
    apply read_from_inv in E as (Hd & _).
    change (be_bytes 2 p) with [b# (Z.shiftr p 8); b# p] in Hd.
    rewrite Z.shiftr_div_pow2, Z.div_small in Hd by lia.
    apply (f_equal head) in Hd.
    destruct a as [[]|]; cbn [rd_data app head address_wire] in Hd; injection Hd as Hd; by vm_compute in Hd.
Qed.
End ProtocolFacts.

(** ** Examples *)
Lemma aead_2022_header_write_omits_address_witness :
  ∃ w, Aead2022TcpRequestHeader_write_to_buf
         {| v2_addr := DomainNameAddress [b# 0x61] 443; padding_size := 0 |} [] [] = Ok ([] ++ w) ∧
    (length w + 5 = 7)%nat ∧
    (0 < 256 → is_ok (Aead2022TcpRequestHeader_read_from (Reader (w ++ []) None)) = false).
Proof.
  apply (aead_2022_header_write_omits_address (DomainNameAddress [b# 0x61] 443) 0 [] [] [] None); simpl; lia.
Defined.
