(* ===== verification/CryptoIo.v ===== *)
(** * Encrypted streams of every cipher (crates/shadowsocks/src/relay/tcprelay/crypto_io.rs)

    [DecryptedReader] and [EncryptedWriter] choose the protocol by the category
    of the cipher; a [CryptoStream] has one of each and gives the writer the key
    of the user the reader has authenticated.  Shown: no operation of a stream
    ever panics, whatever the transport does; and once a server has read data,
    its writer encrypts with the key of the user it read the header of. *)
From S2P Require Import Prelude.
From S2P Require Import External.
From S2P Require Import AsyncIo.
From S2P Require Import Users.
From S2P Require Import Replay.
From S2P Require TcpStream.
From S2P Require TcpAead.
From S2P Require TcpAead2022.

Abbreviation StreamType := TcpAead2022.StreamType.
Abbreviation Client := TcpAead2022.Client.
Abbreviation Server := TcpAead2022.Server.

Inductive ProtocolError :=
| IoError (e : io_error)
| StreamError (e : TcpStream.ProtocolError)
| AeadError (e : TcpAead.ProtocolError)
| Aead2022Error (e : TcpAead2022.ProtocolError).

Definition io_Error_from_ProtocolError (e : ProtocolError) : io_error :=
  match e with
  | IoError err => err
  | StreamError err => TcpStream.io_Error_from_ProtocolError err
  | AeadError err => TcpAead.io_Error_from_ProtocolError err
  | Aead2022Error err => TcpAead2022.io_Error_from_ProtocolError err
  end.

Section CryptoIo.
(** [KS] and [SC] are [v1::Cipher] for the stream and the AEAD kinds, [TC] is
    [v2::tcp::TcpCipher]. *)
Context `{CS : CipherSuite, KS : !StreamCipher, SC : !StreamCipher, TC : !StreamCipher}.
Context `{B3 : Blake3, AE : Aes, BF : BloomFilter, LC : LruTimeCache}.

(** ** DecryptedReader *)
Inductive DecryptedReader :=
| DecNone
| DecAead (reader : TcpAead.DecryptedReader (SC := SC))
| DecStream (reader : TcpStream.DecryptedReader (SC := KS))
| DecAead2022 (reader : TcpAead2022.DecryptedReader (SC := TC)).

Definition DecryptedReader_with_user_manager (stream_ty : StreamType) (method : CipherKind) (key : bytes)
    (user_manager : option ServerUserManager) : DecryptedReader :=
  match category method with
  | Cat_Stream => DecStream (TcpStream.DecryptedReader_new method key)
  | Cat_Aead => DecAead (TcpAead.DecryptedReader_new method key)
  | Cat_None => DecNone
  | Cat_Aead2022 => DecAead2022 (TcpAead2022.DecryptedReader_with_user_manager stream_ty method key user_manager)
  end.

Definition DecryptedReader_new (stream_ty : StreamType) (method : CipherKind) (key : bytes) : DecryptedReader :=
  DecryptedReader_with_user_manager stream_ty method key None.

(** The reader, the transport and the context; a poll gives what is put into a
    buffer with [room] bytes left. *)
Definition poll_read_decrypted (now : Z) (room : nat)
  : pollm (DecryptedReader * rstream * Context) ProtocolError bytes := λ '(self, s, c),
  match self with
  | DecStream reader =>
      let '(r, e) := TcpStream.poll_read_decrypted now room {| TcpStream.dr := reader; TcpStream.strm := s; TcpStream.ctx := c |} in
      (perr StreamError r, (DecStream (TcpStream.dr e), TcpStream.strm e, TcpStream.ctx e))
  | DecAead reader =>
      let '(r, e) := TcpAead.poll_read_decrypted now room {| TcpAead.dr := reader; TcpAead.strm := s; TcpAead.ctx := c |} in
      (perr AeadError r, (DecAead (TcpAead.dr e), TcpAead.strm e, TcpAead.ctx e))
  | DecNone =>
      let '(r, s) := poll_read room s in (perr IoError r, (DecNone, s, c))
  | DecAead2022 reader =>
      let '(r, e) := TcpAead2022.poll_read_decrypted now room {| TcpAead2022.dr := reader; TcpAead2022.strm := s; TcpAead2022.ctx := c |} in
      (perr Aead2022Error r, (DecAead2022 (TcpAead2022.dr e), TcpAead2022.strm e, TcpAead2022.ctx e))
  end.

Definition DecryptedReader_nonce (self : DecryptedReader) : option bytes :=
  match self with
  | DecStream reader => TcpStream.rd_iv reader
  | DecAead reader => TcpAead.rd_salt reader
  | DecNone => None
  | DecAead2022 reader => TcpAead2022.rd_salt reader
  end.

Definition request_nonce (self : DecryptedReader) : option bytes :=
  match self with
  | DecAead2022 reader => TcpAead2022.DecryptedReader_request_salt reader
  | _ => None
  end.

Definition DecryptedReader_user_key (self : DecryptedReader) : option bytes :=
  match self with
  | DecAead2022 reader => TcpAead2022.rd_user_key reader
  | _ => None
  end.

Definition handshaked (self : DecryptedReader) : bool :=
  match self with
  | DecStream reader => TcpStream.has_handshaked reader
  | DecAead reader => TcpAead.has_handshaked reader
  | DecNone => true
  | DecAead2022 reader => TcpAead2022.has_handshaked reader
  end.

(** ** EncryptedWriter *)
Inductive EncryptedWriter :=
| EncNone
| EncAead (writer : TcpAead.EncryptedWriter (SC := SC))
| EncStream (writer : TcpStream.EncryptedWriter (SC := KS))
| EncAead2022 (writer : TcpAead2022.EncryptedWriter (SC := TC)).

Definition EncryptedWriter_with_identity (stream_ty : StreamType) (method : CipherKind) (key nonce : bytes)
    (identity_keys : list bytes) : outcome io_error EncryptedWriter :=
  match category method with
  | Cat_Stream => Ok (EncStream (TcpStream.EncryptedWriter_new method key nonce))
  | Cat_Aead => Ok (EncAead (TcpAead.EncryptedWriter_new method key nonce))
  | Cat_None => Ok EncNone
  | Cat_Aead2022 =>
      EncAead2022 <$> TcpAead2022.EncryptedWriter_with_identity stream_ty method key nonce identity_keys
  end.

Definition EncryptedWriter_new (stream_ty : StreamType) (method : CipherKind) (key nonce : bytes)
  : outcome io_error EncryptedWriter :=
  match category method with
  | Cat_Stream => Ok (EncStream (TcpStream.EncryptedWriter_new method key nonce))
  | Cat_Aead => Ok (EncAead (TcpAead.EncryptedWriter_new method key nonce))
  | Cat_None => Ok EncNone
  | Cat_Aead2022 => EncAead2022 <$> TcpAead2022.EncryptedWriter_new stream_ty method key nonce
  end.

Definition poll_write_encrypted (now : Z) (buf : bytes)
  : pollm (EncryptedWriter * wstream) ProtocolError nat := λ '(self, s),
  match self with
  | EncStream writer =>
      let '(r, (w, s)) := TcpStream.poll_write_encrypted buf (writer, s) in (perr StreamError r, (EncStream w, s))
  | EncAead writer =>
      let '(r, (w, s)) := TcpAead.poll_write_encrypted buf (writer, s) in
      (perr IoError r, (EncAead w, s))
  | EncNone => let '(r, s) := poll_write buf s in (perr IoError r, (EncNone, s))
  | EncAead2022 writer =>
      let '(r, (w, s)) := TcpAead2022.poll_write_encrypted now buf (writer, s) in
      (perr IoError r, (EncAead2022 w, s))
  end.

Definition EncryptedWriter_nonce (self : EncryptedWriter) : bytes :=
  match self with
  | EncStream writer => TcpStream.wr_iv writer
  | EncAead writer => TcpAead.wr_salt writer
  | EncNone => []
  | EncAead2022 writer => TcpAead2022.wr_salt writer
  end.

Definition set_request_nonce (nonce : bytes) (self : EncryptedWriter) : outcome io_error EncryptedWriter :=
  match self with
  | EncAead2022 writer => Ok (EncAead2022 (TcpAead2022.set_request_salt nonce writer))
  | _ => Panic "only AEAD-2022 cipher could send request salt"
  end.

Definition reset_cipher_with_key (key : bytes) (self : EncryptedWriter) : outcome io_error EncryptedWriter :=
  match self with
  | EncAead2022 writer => Ok (EncAead2022 (TcpAead2022.reset_cipher_with_key key writer))
  | _ => Panic "only AEAD-2022 cipher could authenticate with multiple users"
  end.

(** ** CryptoStream *)
Record CryptoStream := {
  cs_dec : DecryptedReader;
  cs_enc : EncryptedWriter;
  cs_method : CipherKind;
  cs_has_handshaked : bool;
}.

(** The stream with the two directions of its transport and the context. *)
Record cs_env := { cs : CryptoStream; cs_in : rstream; cs_out : wstream; cs_ctx : Context }.

Definition CryptoStream_new_none (method : CipherKind) : CryptoStream :=
  {| cs_dec := DecNone; cs_enc := EncNone; cs_method := method; cs_has_handshaked := false |}.

(** The length of the nonce and whether it has to be new. *)
Definition nonce_plan (category : CipherCategory) (method : CipherKind) : nat * bool :=
  match category with
  | Cat_Stream => (iv_len method, true)
  | Cat_Aead => (salt_len method, true)
  | Cat_None => (0%nat, false)
  | Cat_Aead2022 => (salt_len method, false)
  end.

(** [None] when [generate_nonce] is still drawing nonces after [draws]. *)
Definition from_stream_with_identity (now : Z) (draws : list bytes) (context : Context) (stream_ty : StreamType)
    (method : CipherKind) (key : bytes) (identity_keys : list bytes) (user_manager : option ServerUserManager)
  : option (outcome io_error CryptoStream * Context) :=
  let category := category method in
  if bool_decide (category = Cat_None) then Some (Ok (CryptoStream_new_none method), context) else
  let '(prev_len, unique) := nonce_plan category method in
  let '(iv, context) := generate_nonce now context method (replicate prev_len (b# 0)) unique draws in
  iv ← iv;
  Some
    (enc ← EncryptedWriter_with_identity stream_ty method key iv identity_keys;
     Ok {| cs_dec := DecryptedReader_with_user_manager stream_ty method key user_manager;
           cs_enc := enc; cs_method := method; cs_has_handshaked := false |},
     context).

Definition received_nonce (self : CryptoStream) : option bytes := DecryptedReader_nonce (cs_dec self).
Definition CryptoStream_user_key (self : CryptoStream) : option bytes := DecryptedReader_user_key (cs_dec self).
Definition sent_nonce (self : CryptoStream) : bytes := EncryptedWriter_nonce (cs_enc self).
Definition received_request_nonce (self : CryptoStream) : option bytes := request_nonce (cs_dec self).

Definition with_enc (enc : EncryptedWriter) (self : CryptoStream) : CryptoStream :=
  {| cs_dec := cs_dec self; cs_enc := enc; cs_method := cs_method self; cs_has_handshaked := cs_has_handshaked self |}.

Definition set_request_nonce_with_received (self : CryptoStream) : outcome io_error (bool * CryptoStream) :=
  match DecryptedReader_nonce (cs_dec self) with
  | None => Ok (false, self)
  | Some nonce => enc ← set_request_nonce nonce (cs_enc self); Ok (true, with_enc enc self)
  end.

Definition CryptoStream_current_data_chunk_remaining (self : CryptoStream) : outcome io_error (Z * nat) :=
  match cs_dec self with
  | DecAead2022 dec => Ok (TcpAead2022.current_data_chunk_remaining dec)
  | _ => Panic "only AEAD-2022 protocol has data chunk counter"
  end.

(** After a successful read: the first one after the handshake gives the writer
    the key of the user. *)
Definition after_read (self : CryptoStream) : outcome io_error CryptoStream :=
  if negb (cs_has_handshaked self) && handshaked (cs_dec self) then
    enc ← match DecryptedReader_user_key (cs_dec self) with
          | Some user_key => reset_cipher_with_key user_key (cs_enc self)
          | None => Ok (cs_enc self)
          end;
    Ok {| cs_dec := cs_dec self; cs_enc := enc; cs_method := cs_method self; cs_has_handshaked := true |}
  else Ok self.

Definition CryptoStream_poll_read_decrypted (now : Z) (room : nat) : pollm cs_env ProtocolError bytes := λ e,
  let '(r, (dec, s, c)) := poll_read_decrypted now room (cs_dec (cs e), cs_in e, cs_ctx e) in
  let self := {| cs_dec := dec; cs_enc := cs_enc (cs e); cs_method := cs_method (cs e);
                 cs_has_handshaked := cs_has_handshaked (cs e) |} in
  let env self := {| cs := self; cs_in := s; cs_out := cs_out e; cs_ctx := c |} in
  match r with
  | Ready out =>
      match after_read self with
      | Ok self => (Ready out, env self)
      | Err err => (Failed (IoError err), env self)
      | Panic m => (Panicked m, env self)
      end
  | r => (r, env self)
  end.

Definition CryptoStream_poll_write_encrypted (now : Z) (buf : bytes) : pollm cs_env ProtocolError nat := λ e,
  let '(r, (enc, s)) := poll_write_encrypted now buf (cs_enc (cs e), cs_out e) in
  (r, {| cs := with_enc enc (cs e); cs_in := cs_in e; cs_out := s; cs_ctx := cs_ctx e |}).

End CryptoIo.

(** ** Streams never panic *)
Section Total.
Context `{CS : CipherSuite, KS : !StreamCipher, SC : !StreamCipher, TC : !StreamCipher}.
Context `{B3 : Blake3, AE : Aes, BF : BloomFilter, LC : LruTimeCache}.
Context `{HSC : !StreamCipherLaws SC, HTC : !StreamCipherLaws TC}.

Abbreviation stream := (CryptoStream (KS := KS) (SC := SC) (TC := TC)).
Abbreviation env := (cs_env (KS := KS) (SC := SC) (TC := TC)).

(** Reader and writer are of the same kind, and the reader is in a good state. *)
Definition cs_wf (self : stream) : Prop :=
  match cs_dec self, cs_enc self with
  | DecNone, EncNone => True
  | DecStream r, EncStream w => TcpStream.stream_reader_wf r
  | DecAead r, EncAead w => TcpAead.reader_wf r
  | DecAead2022 r, EncAead2022 w => TcpAead2022.reader_wf r
  | _, _ => False
  end.

(** The AEAD kinds have a tag. *)
Definition has_tag (method : CipherKind) : Prop :=
  match category method with Cat_Aead | Cat_Aead2022 => (0 < tag_len method)%nat | _ => True end.

Lemma identity_headers_ok method key nonce sub ids :
  method_support_eih method = true → is_Some (TcpAead2022.identity_headers method key nonce sub ids).
Proof.
  intros Hm. unfold method_support_eih in Hm. destruct (aes_kind method) as [n|] eqn:Ha; [|done].
  revert sub. induction ids as [|ipsk ids IH]; intros sub; simpl.
  - destruct sub; [|by eexists]. unfold TcpAead2022.make_eih. rewrite Ha. by eexists.
  - unfold TcpAead2022.make_eih. rewrite Ha.
    edestruct IH as [rest Hr]. destruct sub; simpl; rewrite Hr; by eexists.
Qed.

Lemma with_identity_ok ty method key nonce ids :
  ∃ w, TcpAead2022.EncryptedWriter_with_identity (SC := TC) ty method key nonce ids = Ok w.
Proof.
  unfold TcpAead2022.EncryptedWriter_with_identity. destruct (_ && _) eqn:Hc; [|by eexists].
  apply andb_prop in Hc as [_ Hc]. destruct (identity_headers_ok method key nonce None ids Hc) as [e ->]. by eexists.
Qed.

Lemma from_stream_wf now draws context ty method key ids um o context' :
  has_tag method →
  from_stream_with_identity now draws context ty method key ids um = Some (o, context') →
  ∃ self : stream, o = Ok self ∧ cs_wf self.
Proof.
  unfold has_tag, from_stream_with_identity. intros Ht. cbv zeta. case_bool_decide as Hc.
  { intros [= <- <-]. by eexists. }
  destruct (nonce_plan _ _) as [n u]. destruct (generate_nonce _ _ _ _ _ _) as [[iv|] c]; [|done]. simpl.
  intros [= <- <-]. unfold EncryptedWriter_with_identity, DecryptedReader_with_user_manager.
  destruct (category method); simpl; [done|..].
  - eexists. split; [done|]. apply TcpStream.stream_reader_new_wf.
  - eexists. split; [done|]. by apply TcpAead.reader_new_wf.
  - destruct (with_identity_ok ty method key iv ids) as [w ->]. simpl. eexists. split; [done|].
    by apply TcpAead2022.reader_new_wf_2022.
Qed.

Lemma write_all_no_panic buffer pos s : is_panicked (fst (write_all_poll buffer (pos, s))) = false.
Proof.
  destruct (Nat.le_gt_cases pos (length buffer)) as [Hle|Hgt].
  - pose proof (write_all_poll_spec buffer pos s Hle) as H.
    destruct (write_all_poll buffer (pos, s)) as [r [pos' s']]. destruct H as [H _]. by destruct H.
  - unfold write_all_poll. cbn [write_loop]. by rewrite (proj2 (Nat.ltb_ge _ _)) by lia.
Qed.

Lemma write_no_panic now buf (w : EncryptedWriter (KS := KS) (SC := SC) (TC := TC)) s :
  let '(r, (w', s')) := poll_write_encrypted now buf (w, s) in
  is_panicked r = false ∧
  match w, w' with
  | EncNone, EncNone | EncStream _, EncStream _ | EncAead _, EncAead _ | EncAead2022 _, EncAead2022 _ => True
  | _, _ => False
  end.
Proof.
  unfold poll_write_encrypted. destruct w as [|w|w|w].
  - unfold poll_write. by destruct (wr_script s) as [|[] ].
  - unfold TcpAead.poll_write_encrypted, TcpAead.write_packet.
    destruct (TcpAead.wr_state w); match goal with |- context [write_all_poll ?b (?p, ?s)] =>
      pose proof (write_all_no_panic b p s) as H; destruct (write_all_poll b (p, s)) as [[[]|x|m|] [pos' s']] end; done.
  - unfold TcpStream.poll_write_encrypted, TcpStream.write_packet.
    destruct (TcpStream.wr_state w); match goal with |- context [write_all_poll ?b (?p, ?s)] =>
      pose proof (write_all_no_panic b p s) as H; destruct (write_all_poll b (p, s)) as [[[]|x|m|] [pos' s']] end; done.
  - unfold TcpAead2022.poll_write_encrypted, TcpAead2022.write_packet.
    destruct (TcpAead2022.wr_state w); match goal with |- context [write_all_poll ?b (?p, ?s)] =>
      pose proof (write_all_no_panic b p s) as H; destruct (write_all_poll b (p, s)) as [[[]|x|m|] [pos' s']] end; done.
Qed.

Lemma after_read_wf (self : stream) : cs_wf self → ∃ self', after_read self = Ok self' ∧ cs_wf self'.
Proof.
  intros Hwf. unfold after_read. destruct (negb _ && _); [|by eexists].
  unfold cs_wf in *. destruct self as [dec enc m h]; simpl in *.
  destruct dec as [|r|r|r], enc as [|w|w|w]; try done; simpl; try by eexists.
  destruct (TcpAead2022.rd_user_key r); simpl; by eexists.
Qed.

Lemma read_dispatch_wf now room (e : env) :
  cs_wf (cs e) →
  let '(r, (dec, s, c)) := poll_read_decrypted now room (cs_dec (cs e), cs_in e, cs_ctx e) in
  is_panicked r = false ∧
  cs_wf {| cs_dec := dec; cs_enc := cs_enc (cs e); cs_method := cs_method (cs e);
           cs_has_handshaked := cs_has_handshaked (cs e) |}.
Proof.
  intros Hwf. unfold cs_wf in Hwf. unfold poll_read_decrypted.
  destruct (cs_dec (cs e)) as [|r|r|r], (cs_enc (cs e)) as [|w|w|w] eqn:Ew; try done.
  - pose proof (poll_read_total room (cs_in e)) as H. destruct (poll_read room (cs_in e)) as [[] s]; by destruct H.
  - pose proof (TcpAead.read_loop_ok (S (TcpAead.read_measure {| TcpAead.dr := r; TcpAead.strm := cs_in e; TcpAead.ctx := cs_ctx e |}))
      now room {| TcpAead.dr := r; TcpAead.strm := cs_in e; TcpAead.ctx := cs_ctx e |} ltac:(lia) Hwf) as (H1 & _ & H3).
    unfold TcpAead.poll_read_decrypted. destruct (TcpAead.poll_read_decrypted_loop _ _ _ _) as [[] e']; done.
  - pose proof (TcpStream.stream_read_safe now room {| TcpStream.dr := r; TcpStream.strm := cs_in e; TcpStream.ctx := cs_ctx e |} Hwf) as H.
    destruct (TcpStream.poll_read_decrypted _ _ _) as [[] e']; done.
  - pose proof (TcpAead2022.read_loop_safe (S (TcpAead2022.read_measure {| TcpAead2022.dr := r; TcpAead2022.strm := cs_in e; TcpAead2022.ctx := cs_ctx e |}))
      now room {| TcpAead2022.dr := r; TcpAead2022.strm := cs_in e; TcpAead2022.ctx := cs_ctx e |} ltac:(lia) Hwf) as H.
    unfold TcpAead2022.poll_read_decrypted. destruct (TcpAead2022.poll_read_decrypted_loop _ _ _ _) as [[] e']; done.
Qed.

Lemma read_wf now room (e : env) :
  cs_wf (cs e) →
  is_panicked (fst (CryptoStream_poll_read_decrypted now room e)) = false ∧
  cs_wf (cs (snd (CryptoStream_poll_read_decrypted now room e))).
Proof.
  intros Hwf. pose proof (read_dispatch_wf now room e Hwf) as H. unfold CryptoStream_poll_read_decrypted.
  destruct (poll_read_decrypted now room _) as [r [[dec s] c]]. destruct H as [Hp Hw].
  destruct r as [out|x|m|]; try done. destruct (after_read_wf _ Hw) as (self' & -> & Hw'). done.
Qed.

Lemma write_wf now buf (e : env) :
  cs_wf (cs e) →
  is_panicked (fst (CryptoStream_poll_write_encrypted now buf e)) = false ∧
  cs_wf (cs (snd (CryptoStream_poll_write_encrypted now buf e))).
Proof.
  intros Hwf. pose proof (write_no_panic now buf (cs_enc (cs e)) (cs_out e)) as H.
  unfold CryptoStream_poll_write_encrypted. destruct (poll_write_encrypted now buf _) as [r [w s]].
  destruct H as [Hp Hw]. split; [done|]. unfold cs_wf in *. simpl.
  destruct (cs_dec (cs e)), (cs_enc (cs e)), w; done.
Qed.

(** What is done with a stream: polls to read and to write, while the transport
    delivers and accepts more. *)
Inductive cs_op :=
| OpRead (now : Z) (room : nat)
| OpWrite (now : Z) (buf : bytes)
| OpFeed (more : rstream) (script : list wr_event).

Definition cs_step (e : env) (o : cs_op) : bool * env :=
  match o with
  | OpRead now room => let '(r, e) := CryptoStream_poll_read_decrypted now room e in (is_panicked r, e)
  | OpWrite now buf => let '(r, e) := CryptoStream_poll_write_encrypted now buf e in (is_panicked r, e)
  | OpFeed more script =>
      (false, {| cs := cs e; cs_in := cs_in e ++ more;
                 cs_out := {| wr_script := wr_script (cs_out e) ++ script; wr_out := wr_out (cs_out e) |};
                 cs_ctx := cs_ctx e |})
  end.

Definition cs_run (ops : list cs_op) (e : env) : env := foldl (λ e o, snd (cs_step e o)) e ops.

Lemma cs_step_wf (e : env) o : cs_wf (cs e) → fst (cs_step e o) = false ∧ cs_wf (cs (snd (cs_step e o))).
Proof.
  intros Hwf. destruct o as [now room|now buf|more script]; simpl; [| |done].
  - pose proof (read_wf now room e Hwf). by destruct (CryptoStream_poll_read_decrypted now room e).
  - pose proof (write_wf now buf e Hwf). by destruct (CryptoStream_poll_write_encrypted now buf e).
Qed.

(** C18. An encrypted stream is made without a panic, and none of its operations
    panics: for every cipher, on clients and servers, with and without identity
    keys and users, whatever the transport delivers and accepts and in whatever
    order reads and writes are polled. *)
Theorem crypto_stream_total now draws context ty method key ids um o context' script ops op :
  has_tag method →
  from_stream_with_identity now draws context ty method key ids um = Some (o, context') →
  ∃ self : stream, o = Ok self ∧
    fst (cs_step (cs_run ops {| cs := self; cs_in := []; cs_out := {| wr_script := script; wr_out := [] |};
                                cs_ctx := context' |}) op) = false.
Proof.
  intros Ht Hf. destruct (from_stream_wf _ _ _ _ _ _ _ _ _ _ Ht Hf) as (self & -> & Hwf).
  exists self. split; [done|]. apply cs_step_wf.
  set (e0 := {| cs := self; cs_in := _; cs_out := _; cs_ctx := _ |}). assert (cs_wf (cs e0)) as H0 by exact Hwf.
  clearbody e0. clear Hwf Hf. revert e0 H0. unfold cs_run. induction ops as [|op' ops IH]; intros e0 H0; [done|].
  simpl. apply IH. by apply cs_step_wf.
Qed.
End Total.

(** ** The writer gets the key of the user *)
Section UserKey.
Context `{CS : CipherSuite, KS : !StreamCipher, SC : !StreamCipher, TC : !StreamCipher}.
Context `{B3 : Blake3, AE : Aes, BF : BloomFilter, LC : LruTimeCache}.
Context `{HTC : !StreamCipherLaws TC}.

Abbreviation env := (cs_env (KS := KS) (SC := SC) (TC := TC)).

Definition env_2022 (r : TcpAead2022.DecryptedReader (SC := TC)) (e : env) : TcpAead2022.rd_env :=
  {| TcpAead2022.dr := r; TcpAead2022.strm := cs_in e; TcpAead2022.ctx := cs_ctx e |}.

(** The 64-bit count of chunks does not overflow in a read: fewer than 2^64
    chunks have been and can be read. *)
Definition count_bounded (e : env) : Prop :=
  match cs_dec (cs e) with
  | DecAead2022 r => TcpAead2022.data_chunk_count r + 1 + Z.of_nat (TcpAead2022.read_measure (env_2022 r e)) < u64_max
  | _ => True
  end.

Definition feed (more : rstream) (e : env) : env :=
  {| cs := cs e; cs_in := cs_in e ++ more; cs_out := cs_out e; cs_ctx := cs_ctx e |}.

(** The states a stream that is only read from can be in. *)
Inductive read_run (e0 : env) : env → Prop :=
| run_start : read_run e0 e0
| run_feed e more : read_run e0 e → read_run e0 (feed more e)
| run_read e now room :
    read_run e0 e → count_bounded e → read_run e0 (snd (CryptoStream_poll_read_decrypted now room e)).

(** The reader and writer after reads, from a stream with writer [w0]. *)
Definition read_inv (w0 : TcpAead2022.EncryptedWriter (SC := TC)) (e : env) : Prop :=
  ∃ r w, cs_dec (cs e) = DecAead2022 r ∧ cs_enc (cs e) = EncAead2022 w ∧
    TcpAead2022.reader_wf r ∧ TcpAead2022.hs_ok r ∧
    (cs_has_handshaked (cs e) = true → TcpAead2022.has_handshaked r = true) ∧
    w = if cs_has_handshaked (cs e)
        then match TcpAead2022.rd_user_key r with Some k => TcpAead2022.reset_cipher_with_key k w0 | None => w0 end
        else w0.

Lemma read_inv_step w0 (e : env) now room :
  read_inv w0 e → count_bounded e →
  let '(res, e') := CryptoStream_poll_read_decrypted now room e in
  read_inv w0 e' ∧
  (∀ out, res = Ready out → out ≠ [] →
    cs_has_handshaked (cs e') = true ∧
    ∃ r, cs_dec (cs e') = DecAead2022 r ∧ 1 ≤ TcpAead2022.data_chunk_count r).
Proof.
  intros (r & w & Hd & He & Hwf & Hok & Hh & Hw) Hb. unfold count_bounded in Hb. rewrite Hd in Hb.
  unfold CryptoStream_poll_read_decrypted, poll_read_decrypted. rewrite Hd.
  fold (env_2022 r e). set (e2 := env_2022 r e) in *. change (TcpAead2022.data_chunk_count r)
    with (TcpAead2022.data_chunk_count (TcpAead2022.dr e2)) in Hb.
  pose proof (TcpAead2022.read_loop_safe (S (TcpAead2022.read_measure e2)) now room e2 ltac:(lia) Hwf) as Hs.
  pose proof (TcpAead2022.read_loop_hs (S (TcpAead2022.read_measure e2)) now room e2 ltac:(lia) Hwf Hok Hb) as (H1 & H2 & H3).
  unfold TcpAead2022.poll_read_decrypted. destruct (TcpAead2022.poll_read_decrypted_loop _ _ _ _) as [res e3].
  cbn [fst snd] in *. set (h := cs_has_handshaked (cs e)) in *.
  assert (h = true → TcpAead2022.ident (TcpAead2022.dr e3) = TcpAead2022.ident r) as Hid by (intros; apply H2; by apply Hh).
  assert (TcpAead2022.reader_wf (TcpAead2022.dr e3)) as Hwf3 by (unfold psafe in Hs; by destruct res).
  assert (h = true → TcpAead2022.has_handshaked (TcpAead2022.dr e3) = true ∧
          TcpAead2022.rd_user_key (TcpAead2022.dr e3) = TcpAead2022.rd_user_key r) as Hid2.
  { intros Ht. specialize (Hid Ht). unfold TcpAead2022.ident in Hid. injection Hid as _ _ -> ->. split; [by apply Hh|done]. }
  assert (∀ h' w', h' = h → w' = w → read_inv w0 {| cs := {| cs_dec := DecAead2022 (TcpAead2022.dr e3); cs_enc := EncAead2022 w';
     cs_method := cs_method (cs e); cs_has_handshaked := h' |}; cs_in := TcpAead2022.strm e3; cs_out := cs_out e;
     cs_ctx := TcpAead2022.ctx e3 |}) as Hinv.
  { intros ? ? -> ->. exists (TcpAead2022.dr e3), w. cbn [cs cs_dec cs_enc cs_has_handshaked]. split_and!; try done.
    - intros Ht. by apply Hid2.
    - subst w. destruct h; [|done]. by destruct (Hid2 eq_refl) as [_ ->]. }
  destruct res as [out|x|m|]; cbn [perr]; rewrite He; [|split; [by apply Hinv|done]..].
  unfold after_read. cbn [cs_has_handshaked cs_dec cs_enc handshaked cs_method]. fold h.
  destruct h eqn:Eh; cbn [negb andb].
  { split; [by apply Hinv|]. intros out' [= <-] Hne. split; [done|]. eexists. split; [done|]. by apply (H3 out eq_refl). }
  destruct (TcpAead2022.has_handshaked (TcpAead2022.dr e3)) eqn:Eh3.
  2:{ split; [by apply Hinv|]. intros out' [= <-] Hne. destruct (H3 out eq_refl Hne). congruence. }
  cbn [DecryptedReader_user_key]. subst w.
  destruct (TcpAead2022.rd_user_key (TcpAead2022.dr e3)) as [k|] eqn:Ek; cbn [reset_cipher_with_key mbind outcome_bind];
    (split; [eexists (TcpAead2022.dr e3), _; cbn [cs cs_dec cs_enc cs_has_handshaked]; rewrite Ek; by split_and!|]);
    intros out' [= <-] Hne; (split; [done|]); eexists; (split; [done|]); by apply (H3 out eq_refl).
Qed.

(** When a read of a server stream has delivered data, the stream has taken
    over the user: its writer is the one it was made with, with the cipher made
    anew from the key of the user the reader has authenticated, if there is one,
    and its own salt; so answers are encrypted for that user. *)
Theorem user_key_takes_over now draws context method key um self context' script e nowr room out e' :
  (0 < tag_len method)%nat → category method = Cat_Aead2022 →
  from_stream_with_identity now draws context Server method key [] um = Some (Ok self, context') →
  read_run {| cs := self; cs_in := []; cs_out := {| wr_script := script; wr_out := [] |}; cs_ctx := context' |} e →
  count_bounded e →
  CryptoStream_poll_read_decrypted nowr room e = (Ready out, e') → out ≠ [] →
  ∃ r w0, cs_dec (cs e') = DecAead2022 r ∧ cs_enc self = EncAead2022 w0 ∧
    cs_enc (cs e') =
      EncAead2022 match TcpAead2022.rd_user_key r with
                  | Some k => TcpAead2022.reset_cipher_with_key k w0
                  | None => w0
                  end.
Proof.
  intros Ht Hc Hf Hrun Hb Hread Hne.
  assert (∃ w0, cs_enc self = EncAead2022 w0 ∧ read_inv w0 {| cs := self; cs_in := [];
            cs_out := {| wr_script := script; wr_out := [] |}; cs_ctx := context' |}) as (w0 & Hw0 & Hinv).
  { unfold from_stream_with_identity in Hf. rewrite Hc in Hf. cbn [nonce_plan] in Hf. rewrite bool_decide_false in Hf by done.
    destruct (generate_nonce _ _ _ _ _ _) as [[iv|] c]; [|done]. simpl in Hf.
    unfold EncryptedWriter_with_identity, DecryptedReader_with_user_manager in Hf. rewrite Hc in Hf.
    destruct (with_identity_ok (TC := TC) Server method key iv []) as [w Hw]. rewrite Hw in Hf. simpl in Hf.
    injection Hf as <- <-. exists w. split; [done|].
    eexists _, w. split_and!; [done..| | |done|done].
    - by apply TcpAead2022.reader_new_wf_2022.
    - apply TcpAead2022.reader_new_hs. }
  assert (read_inv w0 e) as He.
  { clear Hread Hb. induction Hrun as [|e1 more _ IH|e1 now1 room1 _ IH Hb1]; [done| |].
    - exact IH.
    - pose proof (read_inv_step w0 e1 now1 room1 IH Hb1) as H.
      destruct (CryptoStream_poll_read_decrypted now1 room1 e1). by destruct H. }
  pose proof (read_inv_step w0 e nowr room He Hb) as H. rewrite Hread in H.
  destruct H as [(r & w & Hd & Hen & _ & _ & _ & Hw) H2]. destruct (H2 out eq_refl Hne) as [Hh _]. rewrite Hh in Hw.
  exists r, w0. split_and!; [done|done|]. by rewrite Hen, Hw.
Qed.
End UserKey.

(** ** Examples *)
#[local] Existing Instances Toy.suite Toy.blake3 Toy.aes Toy.bloom Toy.lru.

Definition toy_stream (ty : StreamType) (method : CipherKind (CipherSuite := Toy.suite)) (um : option ServerUserManager)
  : option (outcome io_error (CryptoStream (KS := Toy.stream_cipher) (SC := Toy.cipher) (TC := Toy.cipher)) * Context) :=
  from_stream_with_identity 0 [be_bytes (salt_len method) 9] toy_context ty method TcpAead2022.toy_server_key [] um.

Definition toy_self (ty : StreamType) (method : CipherKind (CipherSuite := Toy.suite)) (um : option ServerUserManager)
  : CryptoStream (KS := Toy.stream_cipher) (SC := Toy.cipher) (TC := Toy.cipher) :=
  match toy_stream ty method um with
  | Some (Ok self, _) => self
  | _ => CryptoStream_new_none method
  end.

Lemma crypto_stream_total_witness :
  ∃ self, Ok (E := io_error) (toy_self Client Toy.Aead4 None) = Ok self ∧
    fst (cs_step (cs_run [OpFeed [RdData (be_bytes 40 7)] [WrAccept 5]; OpRead 5 100]
           {| cs := self; cs_in := []; cs_out := {| wr_script := []; wr_out := [] |};
              cs_ctx := default toy_context (snd <$> toy_stream Client Toy.Aead4 None) |}) (OpWrite 6 [b# 1])) = false.
Proof.
  apply (crypto_stream_total (KS := Toy.stream_cipher) (HSC := Toy.cipher_laws) (HTC := Toy.cipher_laws)
    0 [be_bytes 4 9] toy_context Client Toy.Aead4 TcpAead2022.toy_server_key [] None).
  - unfold has_tag. simpl. lia.
  - reflexivity.
Defined.

(** A server with a user reads the stream of the user's client. *)
Definition toy_env : cs_env (KS := Toy.stream_cipher) (SC := Toy.cipher) (TC := Toy.cipher) :=
  {| cs := toy_self Server Toy.Aead2022_16 (Some TcpAead2022.toy_users); cs_in := [];
     cs_out := {| wr_script := []; wr_out := [] |}; cs_ctx := toy_context |}.
Definition toy_fed := feed (tail TcpAead2022.toy_pieces) toy_env.
Definition toy_read := CryptoStream_poll_read_decrypted 45000 2 toy_fed.

Lemma user_key_takes_over_witness :
  ∃ r w0, cs_dec (cs (snd toy_read)) = DecAead2022 r ∧
    cs_enc (toy_self Server Toy.Aead2022_16 (Some TcpAead2022.toy_users)) = EncAead2022 w0 ∧
    cs_enc (cs (snd toy_read)) =
      EncAead2022 match TcpAead2022.rd_user_key r with
                  | Some k => TcpAead2022.reset_cipher_with_key k w0
                  | None => w0
                  end.
Proof.
  apply (user_key_takes_over (CS := Toy.suite) (KS := Toy.stream_cipher) (SC := Toy.cipher) (HTC := Toy.cipher_laws) 0 [be_bytes 16 9] toy_context Toy.Aead2022_16
    TcpAead2022.toy_server_key (Some TcpAead2022.toy_users) (toy_self Server Toy.Aead2022_16 (Some TcpAead2022.toy_users))
    toy_context [] toy_fed 45000 2 (be_bytes 2 0x0102) (snd toy_read)).
  - simpl. lia.
  - reflexivity.
  - reflexivity.
  - apply run_feed. apply run_start.
  - unfold count_bounded. simpl. unfold u64_max. vm_compute. reflexivity.
  - unfold toy_read. rewrite (surjective_pairing (CryptoStream_poll_read_decrypted 45000 2 toy_fed)) at 1.
    f_equal.
  - discriminate.
Defined.
