(* ===== verification/ProxyStream.v ===== *)
(** * The tunnel's two ends (relay/tcprelay/proxy_stream/client.rs, server.rs)

    [ProxyClientStream] sends the target address with the first write and checks
    that an AEAD-2022 response answers its own request; [ProxyServerStream] reads
    the request header and, for AEAD-2022, only answers once it knows the salt to
    answer to.  Shown: what a client delivers belongs to its request; a write of
    a server waits without losing its waker; a first write that does not fit one
    packet loses its end, and an empty one can be refused by the server. *)
From S2P Require Import Prelude.
From S2P Require Import External.
From S2P Require Import AsyncIo.
From S2P Require Import Users.
From S2P Require Import Replay.
From S2P Require Import Socks5.
From S2P Require Import CryptoIo.
From S2P Require Import TcpProtocol.
From S2P Require TcpAead.
From S2P Require TcpAead2022.
From S2P Require UdpAead2022.

Section ProxyStream.
Context `{CS : CipherSuite, KS : !StreamCipher, SC : !StreamCipher, TC : !StreamCipher}.
Context `{B3 : Blake3, AE : Aes, BF : BloomFilter, LC : LruTimeCache}.

Abbreviation stream := (CryptoStream (KS := KS) (SC := SC) (TC := TC)).
Abbreviation env := (cs_env (KS := KS) (SC := SC) (TC := TC)).

(** ** Client *)
Inductive ProxyClientStreamWriteState :=
| Connect (addr : Address)
| Connecting (buffer : bytes)
| Connected.

Inductive ProxyClientStreamReadState := CheckRequestNonce | ClientEstablished.

(** The client with its encrypted stream, the transport and the context. *)
Record ProxyClientStream := {
  pc_stream : env;
  pc_writer_state : ProxyClientStreamWriteState;
  pc_reader_state : ProxyClientStreamReadState;
}.

(** [from_stream] with the encrypted stream already made from [svr_cfg]. *)
Definition ProxyClientStream_from_stream (e : env) (addr : Address) : ProxyClientStream :=
  {| pc_stream := e; pc_writer_state := Connect addr;
     pc_reader_state := if is_aead_2022 (cs_method (cs e)) then CheckRequestNonce else ClientEstablished |}.

Definition with_client_stream (e : env) (self : ProxyClientStream) : ProxyClientStream :=
  {| pc_stream := e; pc_writer_state := pc_writer_state self; pc_reader_state := pc_reader_state self |}.

(** The comparison of the salt that was sent with the one the response names. *)
Definition nonce_matches (self : stream) : bool :=
  let sent_nonce := if bool_decide (sent_nonce self = []) then None else Some (sent_nonce self) in
  bool_decide (sent_nonce = received_request_nonce self).

Definition client_poll_read (now : Z) (room : nat) : pollm ProxyClientStream io_error bytes := λ self,
  match CryptoStream_poll_read_decrypted now room (pc_stream self) with
  | (Ready out, e) =>
      let self := with_client_stream e self in
      match pc_reader_state self with
      | ClientEstablished => (Ready out, self)
      | CheckRequestNonce =>
          match CryptoStream_current_data_chunk_remaining (cs e) with
          | Ok (data_chunk_count, _) =>
              if 0 <? data_chunk_count then
                if nonce_matches (cs e)
                then (Ready out, {| pc_stream := e; pc_writer_state := pc_writer_state self;
                                    pc_reader_state := ClientEstablished |})
                else (Failed (OtherKind "received TCP response header with unmatched salt"), self)
              else (Ready out, self)
          | Err err => (Failed err, self)
          | Panic m => (Panicked m, self)
          end
      end
  | (r, e) => (perr io_Error_from_ProtocolError r, with_client_stream e self)
  end.

(** The [Connecting] arm; [buf] is what the caller wants written. *)
Definition client_connecting (now : Z) (buffer buf : bytes) : pollm ProxyClientStream io_error nat := λ self,
  let '(r, e) := CryptoStream_poll_write_encrypted now buffer (pc_stream self) in
  let next st := {| pc_stream := e; pc_writer_state := st; pc_reader_state := pc_reader_state self |} in
  match r with
  | Ready _ => (Ready (length buf), next Connected)
  | Failed err => (Failed (io_Error_from_ProtocolError err), next (Connecting buffer))
  | Panicked m => (Panicked m, next (Connecting buffer))
  | Pending => (Pending, next (Connecting buffer))
  end.

(** [padding] as in [make_first_packet_buffer]. *)
Definition client_poll_write (now : Z) (padding buf : bytes) : pollm ProxyClientStream io_error nat := λ self,
  match pc_writer_state self with
  | Connect addr =>
      match make_first_packet_buffer (cs_method (cs (pc_stream self))) addr padding buf with
      | Ok buffer => client_connecting now buffer buf self
      | Err err => (Failed err, self)
      | Panic m => (Panicked m, self)
      end
  | Connecting buffer => client_connecting now buffer buf self
  | Connected =>
      let '(r, e) := CryptoStream_poll_write_encrypted now buf (pc_stream self) in
      (perr io_Error_from_ProtocolError r, with_client_stream e self)
  end.

(** ** Server *)
(** A waker is the number of the task it wakes. *)
Inductive ProxyServerStreamWriteState :=
| PrepareHeader (waker : option nat)
| ServerEstablished.

(** The server with its encrypted stream, the transport and the context, and
    the tasks it has woken. *)
Record ProxyServerStream := {
  ps_stream : env;
  ps_writer_state : ProxyServerStreamWriteState;
  ps_has_handshaked : bool;
  ps_woken : list nat;
}.

Definition ProxyServerStream_from_stream (e : env) : ProxyServerStream :=
  {| ps_stream := e;
     ps_writer_state := if is_aead_2022 (cs_method (cs e)) then PrepareHeader None else ServerEstablished;
     ps_has_handshaked := false; ps_woken := [] |}.

Definition with_server (e : env) (w : ProxyServerStreamWriteState) (woken : list nat) (self : ProxyServerStream)
  : ProxyServerStream :=
  {| ps_stream := e; ps_writer_state := w; ps_has_handshaked := ps_has_handshaked self; ps_woken := ps_woken self ++ woken |}.

Definition server_poll_read (now : Z) (room : nat) : pollm ProxyServerStream io_error bytes := λ self,
  if negb (ps_has_handshaked self) then (Failed (OtherKind "stream is not handshaked yet"), self) else
  match CryptoStream_poll_read_decrypted now room (ps_stream self) with
  | (Ready out, e) =>
      match ps_writer_state self with
      | PrepareHeader (Some waker) => (Ready out, with_server e (PrepareHeader None) [waker] self)
      | st => (Ready out, with_server e st [] self)
      end
  | (r, e) => (perr io_Error_from_ProtocolError r, with_server e (ps_writer_state self) [] self)
  end.

(** [cx] is the task that polls. *)
Definition server_poll_write (now : Z) (cx : nat) (buf : bytes) : pollm ProxyServerStream io_error nat := λ self,
  let established e :=
    let '(r, e) := CryptoStream_poll_write_encrypted now buf e in
    (perr io_Error_from_ProtocolError r, with_server e ServerEstablished [] self) in
  match ps_writer_state self with
  | ServerEstablished => established (ps_stream self)
  | PrepareHeader waker =>
      let e := ps_stream self in
      match set_request_nonce_with_received (cs e) with
      | Ok (true, s) => established {| cs := s; cs_in := cs_in e; cs_out := cs_out e; cs_ctx := cs_ctx e |}
      | Ok (false, s) =>
          let woken := match waker with Some w => if (w =? cx)%nat then [] else [w] | None => [] end in
          (Pending, with_server e (PrepareHeader (Some cx)) woken self)
      | Err err => (Failed err, self)
      | Panic m => (Panicked m, self)
      end
  end.

(** [handshake], on the bytes of the stream: [chunk] is what
    [current_data_chunk_remaining] gives once the header has been read. *)
Definition server_handshake (has_handshaked : bool) (method : CipherKind) (chunk : Z * nat)
  : parser reader io_error Address :=
  if has_handshaked then fail (OtherKind "stream is already handshaked") else
  header ← TcpRequestHeader_read_from method;
  match header with
  | HdrAead2022 h =>
      if (padding_size h =? 0) && (fst chunk =? 1) && (snd chunk =? 0)%nat
      then fail (OtherKind "no payload in first data chunk, and padding is 0")
      else mret (TcpRequestHeader_addr header)
  | _ => mret (TcpRequestHeader_addr header)
  end.

End ProxyStream.

(** ** What a client delivers belongs to its request *)
Section ClientReads.
Context `{CS : CipherSuite, KS : !StreamCipher, SC : !StreamCipher, TC : !StreamCipher}.
Context `{B3 : Blake3, AE : Aes, BF : BloomFilter, LC : LruTimeCache}.
Context `{HTC : !StreamCipherLaws TC}.

Abbreviation env := (cs_env (KS := KS) (SC := SC) (TC := TC)).
Abbreviation client := (ProxyClientStream (KS := KS) (SC := SC) (TC := TC)).

(** An AEAD-2022 stream with salt [salt], request salt [rs] and reader [r]. *)
Definition is_2022 (salt : bytes) (rs : option bytes) (r : TcpAead2022.DecryptedReader (SC := TC)) (e : env) : Prop :=
  cs_dec (cs e) = DecAead2022 r ∧ sent_nonce (cs e) = salt ∧
  (∃ w, cs_enc (cs e) = EncAead2022 w ∧ TcpAead2022.wr_request_salt w = rs) ∧ TcpAead2022.reader_wf r ∧ TcpAead2022.hs_ok r.

Lemma after_read_2022 salt rs r (e : env) :
  is_2022 salt rs r e → ∃ self, after_read (cs e) = Ok self ∧
    is_2022 salt rs r {| cs := self; cs_in := cs_in e; cs_out := cs_out e; cs_ctx := cs_ctx e |}.
Proof.
  intros (Hd & Hs & (w & Hw & Hrs) & Hwf & Hok). unfold after_read, is_2022, sent_nonce in *. rewrite Hd, Hw in *.
  destruct (negb _ && _).
  - simpl. destruct (TcpAead2022.rd_user_key r); simpl; eexists; (split; [done|]); simpl; by eauto 10.
  - eexists. split; [done|]. cbn [cs]. rewrite Hd, Hw. by eauto 10.
Qed.

Lemma read_2022 salt rs r (e : env) now room :
  is_2022 salt rs r e → count_bounded e →
  let '(res, e') := CryptoStream_poll_read_decrypted now room e in
  ∃ r', is_2022 salt rs r' e' ∧ cs_out e' = cs_out e ∧
    (TcpAead2022.has_handshaked r = true → TcpAead2022.ident r' = TcpAead2022.ident r) ∧
    (∀ out, res = Ready out → out ≠ [] →
       TcpAead2022.has_handshaked r' = true ∧ 1 ≤ TcpAead2022.data_chunk_count r').
Proof.
  intros (Hd & Hs & (w & Hw & Hrs) & Hwf & Hok) Hb. unfold count_bounded in Hb. rewrite Hd in Hb.
  unfold CryptoStream_poll_read_decrypted, poll_read_decrypted. rewrite Hd. fold (env_2022 r e).
  set (e2 := env_2022 r e) in *.
  pose proof (TcpAead2022.read_loop_safe (S (TcpAead2022.read_measure e2)) now room e2 ltac:(lia) Hwf) as Hsafe.
  pose proof (TcpAead2022.read_loop_hs (S (TcpAead2022.read_measure e2)) now room e2 ltac:(lia) Hwf Hok Hb) as (H1 & H2 & H3).
  unfold TcpAead2022.poll_read_decrypted. destruct (TcpAead2022.poll_read_decrypted_loop _ _ _ _) as [res e3].
  cbn [fst snd] in *.
  set (self := {| cs_dec := DecAead2022 (TcpAead2022.dr e3); cs_enc := _; cs_method := _; cs_has_handshaked := _ |}).
  assert (is_2022 salt rs (TcpAead2022.dr e3)
    {| cs := self; cs_in := TcpAead2022.strm e3; cs_out := cs_out e; cs_ctx := TcpAead2022.ctx e3 |}) as Hi.
  { unfold is_2022, self, sent_nonce in *. simpl. split_and!; try done; [by exists w|]. unfold psafe in Hsafe. by destruct res. }
  destruct res as [out|x|m|]; cbn [perr].
  - destruct (after_read_2022 _ _ _ _ Hi) as (self' & Ha & Hi'). cbn [cs] in Ha. rewrite Ha.
    exists (TcpAead2022.dr e3). split_and!; [exact Hi'|done|done|].
    intros out' [= <-] Hne. by apply (H3 out).
  - exists (TcpAead2022.dr e3). by split_and!.
  - by unfold psafe in Hsafe.
  - exists (TcpAead2022.dr e3). by split_and!.
Qed.

Lemma write_2022 salt rs r (e : env) now buf :
  is_2022 salt rs r e → is_2022 salt rs r (snd (CryptoStream_poll_write_encrypted now buf e)).
Proof.
  intros (Hd & Hs & (w & Hw & Hrs) & Hwf & Hok). unfold CryptoStream_poll_write_encrypted, poll_write_encrypted, is_2022, sent_nonce in *.
  rewrite Hw in *. unfold TcpAead2022.poll_write_encrypted, TcpAead2022.write_packet, TcpAead2022.assemble_header,
    TcpAead2022.assemble_packet.
  destruct (TcpAead2022.wr_state w); repeat match goal with |- context [encrypt_packet ?c ?p] => destruct (encrypt_packet c p) end;
    destruct (write_all_poll _ _) as [[[]|x|m|] [pos' s]]; simpl; by eauto 10.
Qed.

(** The states of a client: it reads and writes, and its transport delivers and
    accepts more. *)
Inductive client_run (p0 : client) : client → Prop :=
| client_start : client_run p0 p0
| client_feed p more script :
    client_run p0 p →
    client_run p0 (with_client_stream
      {| cs := cs (pc_stream p); cs_in := cs_in (pc_stream p) ++ more;
         cs_out := {| wr_script := wr_script (cs_out (pc_stream p)) ++ script; wr_out := wr_out (cs_out (pc_stream p)) |};
         cs_ctx := cs_ctx (pc_stream p) |} p)
| client_read p now room :
    client_run p0 p → count_bounded (pc_stream p) → client_run p0 (snd (client_poll_read now room p))
| client_write p now padding buf :
    client_run p0 p → client_run p0 (snd (client_poll_write now padding buf p)).

(** Once the reader is established, the response named the salt that was sent. *)
Definition client_inv (salt : bytes) (p : client) : Prop :=
  ∃ rs r, is_2022 salt rs r (pc_stream p) ∧
    (pc_reader_state p = ClientEstablished →
     TcpAead2022.has_handshaked r = true ∧ TcpAead2022.DecryptedReader_request_salt r = Some salt).

Lemma nonce_matches_2022 salt rs r (e : env) :
  is_2022 salt rs r e → salt ≠ [] → nonce_matches (cs e) = true → TcpAead2022.DecryptedReader_request_salt r = Some salt.
Proof.
  intros (Hd & Hs & _) Hne. unfold nonce_matches, received_request_nonce, request_nonce. rewrite Hd, Hs.
  rewrite (bool_decide_false (salt = [])) by done. by intros H%bool_decide_eq_true.
Qed.

Lemma client_read_inv salt p now room :
  client_inv salt p → salt ≠ [] → count_bounded (pc_stream p) →
  let '(res, p') := client_poll_read now room p in
  client_inv salt p' ∧ (∀ out, res = Ready out → out ≠ [] → pc_reader_state p' = ClientEstablished).
Proof.
  intros (rs & r & Hi & He) Hne Hb. pose proof (read_2022 salt rs r (pc_stream p) now room Hi Hb) as H.
  unfold client_poll_read. destruct (CryptoStream_poll_read_decrypted now room (pc_stream p)) as [res e].
  destruct H as (r' & Hi' & _ & Hid & Hdata).
  assert (pc_reader_state p = ClientEstablished →
          TcpAead2022.has_handshaked r' = true ∧ TcpAead2022.DecryptedReader_request_salt r' = Some salt) as He'.
  { intros Hst. destruct (He Hst) as [Hh Hrs]. specialize (Hid Hh). unfold TcpAead2022.ident in Hid.
    injection Hid as _ Hq _ ->. split; [done|]. unfold TcpAead2022.DecryptedReader_request_salt in *. by rewrite Hq. }
  assert (client_inv salt (with_client_stream e p)) as Hinv by (exists rs, r'; by split).
  destruct res as [out|x|m|]; [|by split..]. cbn [pc_reader_state with_client_stream].
  destruct (pc_reader_state p) eqn:Hst; [|by split].
  destruct Hi' as (Hd' & Hi'). unfold CryptoStream_current_data_chunk_remaining. rewrite Hd'.
  assert (fst (TcpAead2022.current_data_chunk_remaining r') = TcpAead2022.data_chunk_count r') as Hc
    by (unfold TcpAead2022.current_data_chunk_remaining; by destruct (TcpAead2022.rd_state r')).
  destruct (TcpAead2022.current_data_chunk_remaining r') as [count rem]. simpl in Hc. subst count.
  destruct (Z.ltb_spec 0 (TcpAead2022.data_chunk_count r')) as [Hpos|Hneg].
  - destruct (nonce_matches (cs e)) eqn:Hm; [|by split]. split; [|done]. exists rs, r'. split; [by split|].
    intros _. split; [|by eapply (nonce_matches_2022 _ _ _ e); [split|..]].
    destruct Hi' as (_ & _ & _ & _ & Hok). destruct (TcpAead2022.rd_state r'); naive_solver lia.
  - split; [done|]. intros out' [= <-] Hout. destruct (Hdata out eq_refl Hout). lia.
Qed.

Lemma client_write_inv salt p now padding buf :
  client_inv salt p → client_inv salt (snd (client_poll_write now padding buf p)).
Proof.
  intros (rs & r & Hi & He).
  assert (∀ b, client_inv salt (snd (client_connecting now b buf p))) as Hconn.
  { intros b. pose proof (write_2022 salt rs r _ now b Hi) as Hw. unfold client_connecting.
    destruct (CryptoStream_poll_write_encrypted now b (pc_stream p)) as [[n|x|m|] e]; exists rs, r; by split. }
  unfold client_poll_write. destruct (pc_writer_state p).
  - destruct (make_first_packet_buffer _ _ _ _); [apply Hconn|exists rs, r; by split..].
  - apply Hconn.
  - pose proof (write_2022 salt rs r _ now buf Hi) as Hw.
    destruct (CryptoStream_poll_write_encrypted now buf (pc_stream p)) as [res e]. exists rs, r. by split.
Qed.

Lemma from_stream_2022 now draws context ty method key ids um self context' script :
  (0 < tag_len method)%nat → category method = Cat_Aead2022 →
  from_stream_with_identity now draws context ty method key ids um = Some (Ok self, context') →
  cs_method self = method ∧
  ∃ r, is_2022 (sent_nonce self) None r {| cs := self; cs_in := []; cs_out := script; cs_ctx := context' |}.
Proof.
  intros Ht Hc Hf. unfold from_stream_with_identity in Hf. rewrite Hc in Hf. cbn [nonce_plan] in Hf.
  rewrite bool_decide_false in Hf by done.
  destruct (generate_nonce _ _ _ _ _ _) as [[iv|] c]; [|done]. simpl in Hf.
  unfold EncryptedWriter_with_identity, DecryptedReader_with_user_manager in Hf. rewrite Hc in Hf.
  destruct (with_identity_ok (TC := TC) ty method key iv ids) as [w Hw]. rewrite Hw in Hf. simpl in Hf.
  injection Hf as <- <-. split; [done|]. eexists. split_and!; [done|done| | |apply TcpAead2022.reader_new_hs].
  - exists w. split; [done|]. unfold TcpAead2022.EncryptedWriter_with_identity in Hw. case_match; [|done..]. by injection Hw as <-.
  - by apply TcpAead2022.reader_new_wf_2022.
Qed.

(** C3. Whatever an AEAD-2022 client delivers to its caller comes from a
    response that names the salt of this client's own request: in every state
    the client can get to by reads and writes, a read that gives data has seen
    a response header with exactly the salt that was sent. *)
Theorem client_response_bound now draws context method key ids addr self context' script (p : client) nowr room out p' :
  (0 < tag_len method)%nat → category method = Cat_Aead2022 → sent_nonce self ≠ [] →
  from_stream_with_identity now draws context Client method key ids None = Some (Ok self, context') →
  client_run (ProxyClientStream_from_stream
    {| cs := self; cs_in := []; cs_out := {| wr_script := script; wr_out := [] |}; cs_ctx := context' |} addr) p →
  count_bounded (pc_stream p) →
  client_poll_read nowr room p = (Ready out, p') → out ≠ [] →
  received_request_nonce (cs (pc_stream p')) = Some (sent_nonce self).
Proof.
  intros Ht Hc Hne Hf Hrun Hb Hread Hout.
  destruct (from_stream_2022 _ _ _ _ _ _ _ _ _ _ {| wr_script := script; wr_out := [] |} Ht Hc Hf) as (Hm & r0 & Hi0).
  assert (client_inv (sent_nonce self) p) as Hinv.
  { clear Hread Hb. induction Hrun as [|p more scr _ IH|p now1 room1 _ IH Hb1|p now1 pad buf _ IH].
    - exists None, r0. split; [exact Hi0|]. unfold ProxyClientStream_from_stream, is_aead_2022. simpl. rewrite Hm, Hc. done.
    - destruct IH as (rs & r & Hi & He). exists rs, r. by split.
    - pose proof (client_read_inv _ p now1 room1 IH Hne Hb1) as H.
      destruct (client_poll_read now1 room1 p). by destruct H.
    - by apply client_write_inv. }
  pose proof (client_read_inv _ p nowr room Hinv Hne Hb) as H. rewrite Hread in H.
  destruct H as [(rs & r & Hi & He) Hd]. specialize (Hd out eq_refl Hout). destruct (He Hd) as [_ Hr].
  unfold received_request_nonce, request_nonce. destruct Hi as (-> & _). done.
Qed.
End ClientReads.

(** ** What a server sends names the request *)
Section ServerWrites.
Context `{CS : CipherSuite, KS : !StreamCipher, SC : !StreamCipher, TC : !StreamCipher}.
Context `{B3 : Blake3, AE : Aes, BF : BloomFilter, LC : LruTimeCache}.
Context `{HTC : !StreamCipherLaws TC}.

Abbreviation env := (cs_env (KS := KS) (SC := SC) (TC := TC)).
Abbreviation server := (ProxyServerStream (KS := KS) (SC := SC) (TC := TC)).

Definition server_feed (more : rstream) (script : list wr_event) (p : server) : server :=
  with_server {| cs := cs (ps_stream p); cs_in := cs_in (ps_stream p) ++ more;
                 cs_out := {| wr_script := wr_script (cs_out (ps_stream p)) ++ script; wr_out := wr_out (cs_out (ps_stream p)) |};
                 cs_ctx := cs_ctx (ps_stream p) |} (ps_writer_state p) [] p.

(** [handshake] is started. *)
Definition server_begin (p : server) : server :=
  {| ps_stream := ps_stream p; ps_writer_state := ps_writer_state p; ps_has_handshaked := true; ps_woken := ps_woken p |}.

(** The states of a server. *)
Inductive server_run (p0 : server) : server → Prop :=
| server_start : server_run p0 p0
| server_fed p more script : server_run p0 p → server_run p0 (server_feed more script p)
| server_began p : server_run p0 p → server_run p0 (server_begin p)
| server_read p now room :
    server_run p0 p → count_bounded (ps_stream p) → server_run p0 (snd (server_poll_read now room p))
| server_write p now cx buf : server_run p0 p → server_run p0 (snd (server_poll_write now cx buf p)).

(** Before the salt is known nothing is sent; afterwards the writer has it. *)
Definition server_inv (salt : bytes) (p : server) : Prop :=
  ∃ rs r, is_2022 salt rs r (ps_stream p) ∧
    match ps_writer_state p with
    | PrepareHeader _ => wr_out (cs_out (ps_stream p)) = []
    | ServerEstablished => is_Some rs ∧ TcpAead2022.rd_salt r = rs
    end.

Lemma hs_salt r : TcpAead2022.hs_ok (SC := TC) r → is_Some (TcpAead2022.rd_salt r) → TcpAead2022.has_handshaked r = true.
Proof.
  unfold TcpAead2022.hs_ok. intros (_ & H) [s Hs]. destruct (TcpAead2022.rd_state r); try (by destruct H).
  destruct H as (_ & H & _). congruence.
Qed.

Lemma server_read_inv salt (p : server) now room :
  server_inv salt p → count_bounded (ps_stream p) → server_inv salt (snd (server_poll_read now room p)).
Proof.
  intros (rs & r & Hi & Hst) Hb. unfold server_poll_read. destruct (negb _); [exists rs, r; by split|].
  pose proof (read_2022 salt rs r (ps_stream p) now room Hi Hb) as H.
  destruct (CryptoStream_poll_read_decrypted now room (ps_stream p)) as [res e].
  destruct H as (r' & Hi' & Hout & Hid & _).
  assert (match ps_writer_state p with
          | PrepareHeader _ => wr_out (cs_out e) = []
          | ServerEstablished => is_Some rs ∧ TcpAead2022.rd_salt r' = rs
          end) as Hst'.
  { rewrite Hout. destruct (ps_writer_state p); [done|]. destruct Hst as [Hs Hr]. split; [done|].
    assert (TcpAead2022.has_handshaked r = true) as Hh by (apply hs_salt; [apply Hi|by rewrite Hr]).
    specialize (Hid Hh). unfold TcpAead2022.ident in Hid. injection Hid as -> _ _ _. done. }
  destruct res as [out|x|m|]; [destruct (ps_writer_state p) as [[w|]|] eqn:Ew|..]; exists rs, r'; simpl; rewrite ?Ew; by split.
Qed.

Lemma server_write_inv salt (p : server) now cx buf :
  server_inv salt p → server_inv salt (snd (server_poll_write now cx buf p)).
Proof.
  intros (rs & r & Hi & Hst). unfold server_poll_write. destruct (ps_writer_state p) as [waker|] eqn:Ew.
  - pose proof Hi as (Hd & Hs & (w & Hw & Hrs) & Hwf & Hok).
    unfold set_request_nonce_with_received. rewrite Hd, Hw. cbn [DecryptedReader_nonce].
    destruct (TcpAead2022.rd_salt r) as [nonce|] eqn:En.
    + cbn [set_request_nonce mbind outcome_bind].
      set (e' := {| cs := _; cs_in := _; cs_out := _; cs_ctx := _ |}).
      assert (is_2022 salt (Some nonce) r e') as Hi'.
      { unfold is_2022, e', sent_nonce in *. simpl. rewrite Hw in Hs. split_and!; try done. by eexists. }
      pose proof (write_2022 salt (Some nonce) r e' now buf Hi') as Hw'.
      destruct (CryptoStream_poll_write_encrypted now buf e') as [res e2]. exists (Some nonce), r. split; [exact Hw'|].
      simpl. split; [by eexists|done].
    + exists rs, r. by split.
  - pose proof (write_2022 salt rs r (ps_stream p) now buf Hi) as Hw'.
    destruct (CryptoStream_poll_write_encrypted now buf (ps_stream p)) as [res e2]. exists rs, r. by split.
Qed.

Lemma server_run_inv salt p0 (p : server) : server_inv salt p0 → server_run p0 p → server_inv salt p.
Proof.
  intros H0. induction 1 as [|p more scr _ IH|p _ IH|p now room _ IH Hb|p now cx buf _ IH]; [done| | | |].
  - destruct IH as (rs & r & Hi & Hst). exists rs, r. split; [exact Hi|]. simpl. by destruct (ps_writer_state p).
  - destruct IH as (rs & r & Hi & Hst). exists rs, r. by split.
  - by apply server_read_inv.
  - by apply server_write_inv.
Qed.

(** C31. An AEAD-2022 server sends nothing before it has accepted a request
    header, and whatever it has sent was sent by a writer that holds exactly the
    salt of that request to name it in the response: in every state it can get
    to by reads and writes in any order. *)
Theorem server_answers_request now draws context method key um self context' script (p : server) :
  (0 < tag_len method)%nat → category method = Cat_Aead2022 →
  from_stream_with_identity now draws context Server method key [] um = Some (Ok self, context') →
  server_run (ProxyServerStream_from_stream
    {| cs := self; cs_in := []; cs_out := {| wr_script := script; wr_out := [] |}; cs_ctx := context' |}) p →
  wr_out (cs_out (ps_stream p)) ≠ [] →
  ∃ salt w, received_nonce (cs (ps_stream p)) = Some salt ∧ cs_enc (cs (ps_stream p)) = EncAead2022 w ∧
    TcpAead2022.wr_request_salt w = Some salt.
Proof.
  intros Ht Hc Hf Hrun Hout.
  destruct (from_stream_2022 _ _ _ _ _ _ _ _ _ _ {| wr_script := script; wr_out := [] |} Ht Hc Hf) as (Hm & r0 & Hi0).
  apply (server_run_inv (sent_nonce self)) in Hrun as (rs & r & Hi & Hst).
  2:{ exists None, r0. split; [exact Hi0|]. unfold ProxyServerStream_from_stream, is_aead_2022. simpl. by rewrite Hm, Hc. }
  destruct (ps_writer_state p); [done|]. destruct Hst as [[salt ->] Hs].
  destruct Hi as (Hd & _ & (w & Hw & Hrs) & _). exists salt, w. unfold received_nonce. rewrite Hd. by split_and!.
Qed.

End ServerWrites.

(** ** Waiting writers are woken *)
Section ServerWakers.
Context `{CS : CipherSuite, KS : !StreamCipher, SC : !StreamCipher, TC : !StreamCipher}.
Context `{B3 : Blake3, AE : Aes, BF : BloomFilter, LC : LruTimeCache}.

Abbreviation server := (ProxyServerStream (KS := KS) (SC := SC) (TC := TC)).

Inductive server_op :=
| ServerRead (now : Z) (room : nat)
| ServerWrite (now : Z) (cx : nat) (buf : bytes)
| ServerFeed (more : rstream) (script : list wr_event).

Definition server_step (p : server) (o : server_op) : server :=
  match o with
  | ServerRead now room => snd (server_poll_read now room p)
  | ServerWrite now cx buf => snd (server_poll_write now cx buf p)
  | ServerFeed more script => server_feed more script p
  end.

(** Task [cx] waits. *)
Definition waiting (cx : nat) (p : server) : Prop := ps_writer_state p = PrepareHeader (Some cx).

(** Task [cx] has been woken between [p] and [q]. *)
Definition woken_since (cx : nat) (p q : server) : Prop := ∃ new, ps_woken q = ps_woken p ++ new ∧ cx ∈ new.

(** A write is polled while [cx] waits and the salt is already there, so that it
    goes on at once. *)
Definition taken_over (cx : nat) (p : server) (ops : list server_op) : Prop :=
  ∃ pre now cx' buf post s, ops = pre ++ ServerWrite now cx' buf :: post ∧ waiting cx (foldl server_step p pre) ∧
    set_request_nonce_with_received (cs (ps_stream (foldl server_step p pre))) = Ok (true, s).

Lemma server_step_woken (p : server) o : ∃ new, ps_woken (server_step p o) = ps_woken p ++ new.
Proof.
  destruct o as [now room|now cx' buf|more script]; simpl.
  - unfold server_poll_read. destruct (negb _); [exists []; by rewrite app_nil_r|].
    destruct (CryptoStream_poll_read_decrypted now room (ps_stream p)) as [[out|x|m|] e];
      [destruct (ps_writer_state p) as [[w|]|]|..]; by eexists.
  - unfold server_poll_write. destruct (ps_writer_state p) as [w|].
    + destruct (set_request_nonce_with_received (cs (ps_stream p))) as [[[] s]| |];
        [destruct (CryptoStream_poll_write_encrypted _ _ _) as [r e]; by eexists|by eexists|exists []; by rewrite app_nil_r..].
    + destruct (CryptoStream_poll_write_encrypted _ _ _) as [r e]. by eexists.
  - by eexists.
Qed.

Lemma server_step_handshaked (p : server) o : ps_has_handshaked p = true → ps_has_handshaked (server_step p o) = true.
Proof.
  intros Hh. destruct o as [now room|now cx' buf|more script]; simpl; [| |done].
  - unfold server_poll_read. rewrite Hh. cbn [negb].
    destruct (CryptoStream_poll_read_decrypted now room (ps_stream p)) as [[o|x|m|] e];
      [destruct (ps_writer_state p) as [[w|]|]|..]; done.
  - unfold server_poll_write. destruct (ps_writer_state p);
      [destruct (set_request_nonce_with_received (cs (ps_stream p))) as [[[] s]| |]|]; try done;
      by destruct (CryptoStream_poll_write_encrypted _ _ _) as [r e].
Qed.

(** A task stops waiting only by being woken or by a write that goes on. *)
Lemma server_step_waiting cx (p : server) o :
  waiting cx p →
  waiting cx (server_step p o) ∨ woken_since cx p (server_step p o) ∨
  ∃ now cx' buf s, o = ServerWrite now cx' buf ∧ set_request_nonce_with_received (cs (ps_stream p)) = Ok (true, s).
Proof.
  unfold waiting. intros Hw. destruct o as [now room|now cx' buf|more script]; simpl.
  - unfold server_poll_read. destruct (negb _); [by left|]. rewrite Hw.
    destruct (CryptoStream_poll_read_decrypted now room (ps_stream p)) as [[out|x|m|] e]; simpl; [right; left|by left..].
    exists [cx]. split; [done|set_solver].
  - unfold server_poll_write. rewrite Hw.
    destruct (set_request_nonce_with_received (cs (ps_stream p))) as [[[] s]| |] eqn:E; [|simpl|by left..].
    + right. right. by exists now, cx', buf, s.
    + destruct (Nat.eqb_spec cx cx') as [->|]; [by left|]. right. left. exists [cx]. split; [done|set_solver].
  - by left.
Qed.

Lemma woken_since_step cx (p q : server) o : woken_since cx p q → woken_since cx p (server_step q o).
Proof.
  intros (new & E & Hin). destruct (server_step_woken q o) as [new' E']. exists (new ++ new'). rewrite E', E, <- app_assoc. set_solver.
Qed.

Lemma server_steps_waiting cx (p : server) ops :
  waiting cx p →
  (∃ new, ps_woken (foldl server_step p ops) = ps_woken p ++ new) ∧
  (waiting cx (foldl server_step p ops) ∨ woken_since cx p (foldl server_step p ops) ∨ taken_over cx p ops).
Proof.
  intros Hw. induction ops as [|o ops [[new IHn] IH]] using rev_ind; [split; [exists []; by rewrite app_nil_r|by left]|].
  rewrite foldl_app. cbn [foldl]. set (q := foldl server_step p ops) in *. split.
  { destruct (server_step_woken q o) as [new' E]. exists (new ++ new'). by rewrite E, IHn, app_assoc. }
  destruct IH as [IH|[IH|(pre & now & cx' & buf & post & s & -> & Hpre & Hs)]].
  - destruct (server_step_waiting cx q o IH) as [?|[(new' & E & Hin)|(now & cx' & buf & s & -> & Hs)]]; [by left|right; left|right; right].
    + exists (new ++ new'). rewrite E, IHn, <- app_assoc. set_solver.
    + by exists ops, now, cx', buf, [], s.
  - right. left. by apply woken_since_step.
  - right. right. exists pre, now, cx', buf, (post ++ [o]), s. by rewrite <- app_assoc.
Qed.

(** C38. A write of a server that has to wait for the salt is not forgotten: through
    all reads that find nothing or fail and all other polls the waker of its task
    stays registered or is woken (a write of another task that has to wait as well
    wakes it), and as soon as a read succeeds (with [handshake] begun) the task has
    been woken since it began to wait.  The one exception is a write, by this task or
    another, that is polled while it waits and finds the salt: that write goes on at
    once and the waker is dropped.  So the last task whose write was polled, which
    is the one that has to be woken, is woken by the first read that succeeds. *)
Theorem server_waker_kept cx (p : server) ops now room out p' :
  ps_has_handshaked p = true → waiting cx p →
  server_poll_read now room (foldl server_step p ops) = (Ready out, p') →
  woken_since cx p p' ∨ taken_over cx p ops.
Proof.
  intros Hh Hw Hread.
  assert (ps_has_handshaked (foldl server_step p ops) = true) as Hh'.
  { clear Hread Hw. revert p Hh. induction ops as [|o ops IH]; intros p Hh; [done|]. simpl. by apply IH, server_step_handshaked. }
  assert (p' = server_step (foldl server_step p ops) (ServerRead now room)) as Hp' by (simpl; by rewrite Hread).
  destruct (server_steps_waiting cx p ops Hw) as [[new Hn] [H|[H|H]]]; [|left; rewrite Hp'; by apply woken_since_step|by right].
  left. unfold server_poll_read in Hread. rewrite Hh' in Hread. cbn [negb] in Hread. unfold waiting in H. rewrite H in Hread.
  destruct (CryptoStream_poll_read_decrypted _ _ _) as [[o|x|m|] e]; try done.
  injection Hread as _ <-. exists (new ++ [cx]). simpl. rewrite Hn, <- app_assoc. set_solver.
Qed.
End ServerWakers.

(** ** The first packet *)
Section FirstPacket.
Context `{CS : CipherSuite, KS : !StreamCipher, SC : !StreamCipher, TC : !StreamCipher}.
Context `{B3 : Blake3, AE : Aes, BF : BloomFilter, LC : LruTimeCache}.

Abbreviation client := (ProxyClientStream (KS := KS) (SC := SC) (TC := TC)).

(** The most a writer puts into a packet. *)
Definition max_packet (w : EncryptedWriter (KS := KS) (SC := SC) (TC := TC)) : option nat :=
  match w with
  | EncAead _ => Some TcpAead.MAX_PACKET_SIZE
  | EncAead2022 _ => Some TcpAead2022.MAX_PACKET_SIZE
  | _ => None
  end.

Lemma cap_take n (l : bytes) :
  (if (n <? length (take n l))%nat then take n (take n l) else take n l) = (if (n <? length l)%nat then take n l else l).
Proof.
  rewrite length_take. destruct (Nat.ltb_spec n (Nat.min n (length l))); [lia|].
  destruct (Nat.ltb_spec n (length l)); [done|]. by rewrite take_ge by lia.
Qed.

Lemma write_capped now buf w s n :
  max_packet w = Some n → poll_write_encrypted now buf (w, s) = poll_write_encrypted now (take n buf) (w, s).
Proof.
  destruct w as [|w|w|w]; simpl; [done| |done|]; intros [= <-].
  - unfold TcpAead.poll_write_encrypted. by rewrite cap_take.
  - unfold TcpAead2022.poll_write_encrypted. by rewrite cap_take.
Qed.

(** The header in front of a payload that is not empty. *)
Definition first_head (method : CipherKind) (addr : Address) : bytes :=
  address_wire addr ++ (if is_aead_2022 method then be_bytes 2 0 else []).

Lemma first_packet_eq method addr padding buf :
  Address_fits addr → buf ≠ [] →
  make_first_packet_buffer method addr padding buf = Ok (first_head method addr ++ buf).
Proof.
  intros Hf Hne. unfold make_first_packet_buffer, Address_write_to_buf, UdpAead2022.padding_of, first_head.
  rewrite write_address_wire by done. cbn [mbind outcome_bind]. rewrite app_nil_l, bool_decide_false by done.
  destruct (is_aead_2022 method); [|by rewrite app_nil_r]. cbn [length Z.of_nat]. by rewrite app_nil_r.
Qed.

(** A first write of a client that does not fit one packet together with
    the header loses its end: it leaves the stream exactly as the write of only
    the part that fits does, and when that is done it reports the whole buffer
    as written. *)
Theorem client_first_write_truncates now padding buf (p : client) addr n :
  pc_writer_state p = Connect addr → Address_fits addr → max_packet (cs_enc (cs (pc_stream p))) = Some n →
  let head := first_head (cs_method (cs (pc_stream p))) addr in
  (length head < n)%nat → (n < length head + length buf)%nat →
  let fits := take (n - length head) buf in
  (length fits < length buf)%nat ∧
  pc_stream (snd (client_poll_write now padding buf p)) = pc_stream (snd (client_poll_write now padding fits p)) ∧
  (fst (client_poll_write now padding fits p) = Ready (length fits) →
   fst (client_poll_write now padding buf p) = Ready (length buf)).
Proof.
  intros Hst Hf Hmax head Hn Hbuf fits.
  assert (length fits = n - length head)%nat as Hl by (unfold fits; rewrite length_take; lia).
  split; [lia|]. unfold client_poll_write. rewrite Hst.
  rewrite !first_packet_eq by (done || (intros Hnil; rewrite Hnil in *; simpl in *; lia)). fold head.
  unfold client_connecting, CryptoStream_poll_write_encrypted.
  rewrite (write_capped _ (head ++ buf) _ _ n) by done.
  assert (take n (head ++ buf) = head ++ fits) as ->.
  { rewrite take_app_ge by lia. done. }
  destruct (poll_write_encrypted now (head ++ fits) _) as [[k|x|m|] [w s]]; done.
Qed.

(** The server reads the first packet of a client. *)
Lemma handshake_first_read method addr padding buf rest e :
  (length padding ≤ UdpAead2022.AEAD2022_MAX_PADDING_SIZE)%nat → Address_wf addr → Address_fits addr →
  ∃ packet,
    make_first_packet_buffer method addr padding buf = Ok packet ∧
    server_handshake false method (1, length buf) (Reader (packet ++ rest) e) =
      if is_aead_2022 method && bool_decide (buf = []) && bool_decide (padding = [])
      then Err (OtherKind "no payload in first data chunk, and padding is 0")
      else Ok (Address_canon addr, Reader (buf ++ rest) e).
Proof.
  intros Hp Hwf Hf. destruct (first_packet_read method addr padding buf rest e Hp Hwf Hf) as (packet & Hm & _ & Hr & Ha).
  exists packet. split; [exact Hm|]. unfold server_handshake. rewrite (bind_reader_step _ _ _ _ _ Hr).
  unfold first_header in *. destruct (is_aead_2022 method); [|done]. cbn [padding_size andb fst snd].
  unfold UdpAead2022.padding_of. destruct buf as [|b buf]; [|by rewrite andb_false_r].
  rewrite bool_decide_true by done. destruct padding as [|x padding]; [done|].
  rewrite (bool_decide_false (x :: padding = [])) by done. cbn [length andb].
  by rewrite (proj2 (Z.eqb_neq _ 0)) by lia.
Qed.

(** A server's handshake on what a client sent with its first write gives
    the client's target address and leaves the payload to be read, for every
    cipher, when the first packet comes in one chunk; except that an AEAD-2022
    client whose first write is empty and whose random padding has length 0
    (which [get_aead_2022_padding_size] can give) is refused. *)
Theorem handshake_first_packet method addr padding buf rest e :
  (length padding ≤ UdpAead2022.AEAD2022_MAX_PADDING_SIZE)%nat → Address_wf addr → Address_fits addr →
  ∃ packet,
    make_first_packet_buffer method addr padding buf = Ok packet ∧
    server_handshake false method (1, length buf) (Reader (packet ++ rest) e) =
      if is_aead_2022 method && bool_decide (buf = []) && bool_decide (padding = [])
      then Err (OtherKind "no payload in first data chunk, and padding is 0")
      else Ok (Address_canon addr, Reader (buf ++ rest) e).
Proof. apply handshake_first_read. Qed.
End FirstPacket.

(** ** Examples *)
#[local] Existing Instances Toy.suite Toy.blake3 Toy.aes Toy.bloom Toy.lru.

Definition toy_addr : Address := SocketAddress (V4 167772161 53).
Definition toy_cs_env (ty : StreamType) (method : CipherKind (CipherSuite := Toy.suite)) (um : option ServerUserManager)
    (script : list wr_event) : cs_env (KS := Toy.stream_cipher) (SC := Toy.cipher) (TC := Toy.cipher) :=
  {| cs := toy_self ty method um; cs_in := []; cs_out := {| wr_script := script; wr_out := [] |};
     cs_ctx := default toy_context (snd <$> toy_stream ty method um) |}.

(** A response of a server to the request with salt 9. *)
Definition toy_response : bytes :=
  match TcpAead2022.start_writer (SC := Toy.cipher) Server Toy.Aead2022_16 TcpAead2022.toy_server_key (be_bytes 16 1) []
          (Some (be_bytes 16 9)) with
  | Ok w => TcpAead2022.tosend 20000 w [be_bytes 3 0x010203]
  | _ => []
  end.

Definition toy_client := ProxyClientStream_from_stream (toy_cs_env Client Toy.Aead2022_16 None []) toy_addr.
Definition toy_client_fed :=
  with_client_stream {| cs := cs (pc_stream toy_client); cs_in := [] ++ [RdData toy_response];
                        cs_out := {| wr_script := [] ++ []; wr_out := [] |}; cs_ctx := cs_ctx (pc_stream toy_client) |} toy_client.

Lemma client_response_bound_witness :
  received_request_nonce (cs (pc_stream (snd (client_poll_read 30000 8 toy_client_fed)))) = Some (be_bytes 16 9).
Proof.
  apply (client_response_bound (CS := Toy.suite) (KS := Toy.stream_cipher) (SC := Toy.cipher) (HTC := Toy.cipher_laws)
    0 [be_bytes 16 9] toy_context Toy.Aead2022_16 TcpAead2022.toy_server_key [] toy_addr
    (toy_self Client Toy.Aead2022_16 None) toy_context [] toy_client_fed 30000 8 (be_bytes 3 0x010203)).
  - simpl. lia.
  - reflexivity.
  - discriminate.
  - reflexivity.
  - apply (client_feed _ toy_client [RdData toy_response] []). apply client_start.
  - unfold count_bounded. vm_compute. reflexivity.
  - rewrite (surjective_pairing (client_poll_read 30000 8 toy_client_fed)) at 1. f_equal.
  - discriminate.
Defined.

Definition toy_server :=
  ProxyServerStream_from_stream (toy_cs_env Server Toy.Aead2022_16 (Some TcpAead2022.toy_users) [WrAccept 1000]).
Definition toy_server_fed := server_begin (server_feed (tail TcpAead2022.toy_pieces) [] toy_server).
Definition toy_server_read := snd (server_poll_read 45000 2 toy_server_fed).
Definition toy_server_written := snd (server_poll_write 45000 1 (be_bytes 2 7) toy_server_read).

Lemma server_answers_request_witness :
  ∃ salt w, received_nonce (cs (ps_stream toy_server_written)) = Some salt ∧
    cs_enc (cs (ps_stream toy_server_written)) = EncAead2022 w ∧ TcpAead2022.wr_request_salt w = Some salt.
Proof.
  apply (server_answers_request (CS := Toy.suite) (KS := Toy.stream_cipher) (SC := Toy.cipher) (HTC := Toy.cipher_laws)
    0 [be_bytes 16 9] toy_context Toy.Aead2022_16 TcpAead2022.toy_server_key (Some TcpAead2022.toy_users)
    (toy_self Server Toy.Aead2022_16 (Some TcpAead2022.toy_users)) toy_context [WrAccept 1000] toy_server_written).
  - simpl. lia.
  - reflexivity.
  - reflexivity.
  - apply server_write. apply (server_read _ toy_server_fed).
    + apply server_began, server_fed, server_start.
    + unfold count_bounded. vm_compute. reflexivity.
  - intros H. vm_compute in H. discriminate H.
Defined.

(** A write waits for the salt; the read that brings it wakes task 4. *)
Definition toy_server_waiting := snd (server_poll_write 45000 4 (be_bytes 2 7) (server_begin toy_server)).
Definition toy_ops := [ServerFeed (tail TcpAead2022.toy_pieces) []].

Lemma server_waker_kept_witness :
  woken_since 4 toy_server_waiting (snd (server_poll_read 45000 2 (foldl server_step toy_server_waiting toy_ops))).
Proof.
  destruct (server_waker_kept (CS := Toy.suite) (KS := Toy.stream_cipher) (SC := Toy.cipher) (TC := Toy.cipher)
    4 toy_server_waiting toy_ops 45000 2 (be_bytes 2 0x0102) (snd (server_poll_read 45000 2 (foldl server_step toy_server_waiting toy_ops))))
    as [H|(pre & now & cx' & buf & post & s & E & _)].
  - reflexivity.
  - reflexivity.
  - rewrite (surjective_pairing (server_poll_read 45000 2 _)) at 1. f_equal.
  - exact H.
  - exfalso. destruct pre as [|? []]; discriminate E.
Defined.

Definition toy_aead_client := ProxyClientStream_from_stream (toy_cs_env Client Toy.Aead4 None []) toy_addr.
Definition toy_big : bytes := replicate (Z.to_nat 20000) (b# 0).

Lemma client_first_write_truncates_witness :
  let fits := take (TcpAead.MAX_PACKET_SIZE - 7) toy_big in
  (length fits < length toy_big)%nat ∧
  pc_stream (snd (client_poll_write 0 [] toy_big toy_aead_client)) =
    pc_stream (snd (client_poll_write 0 [] fits toy_aead_client)) ∧
  (fst (client_poll_write 0 [] fits toy_aead_client) = Ready (length fits) →
   fst (client_poll_write 0 [] toy_big toy_aead_client) = Ready (length toy_big)).
Proof.
  apply (client_first_write_truncates (CS := Toy.suite) 0 [] toy_big toy_aead_client toy_addr TcpAead.MAX_PACKET_SIZE).
  - reflexivity.
  - exact I.
  - reflexivity.
  - change (length (first_head _ toy_addr)) with 7%nat. unfold TcpAead.MAX_PACKET_SIZE. lia.
  - change (length (first_head _ toy_addr)) with 7%nat. unfold TcpAead.MAX_PACKET_SIZE, toy_big.
    rewrite length_replicate. lia.
Defined.

Lemma handshake_first_packet_witness :
  ∃ packet, make_first_packet_buffer Toy.Aead2022_16 toy_addr [] [] = Ok packet ∧
    server_handshake false Toy.Aead2022_16 (1, 0%nat) (Reader (packet ++ []) None) =
      Err (OtherKind "no payload in first data chunk, and padding is 0").
Proof.
  apply (handshake_first_packet (CS := Toy.suite) Toy.Aead2022_16 toy_addr [] [] [] None).
  - simpl. lia.
  - split; unfold in_u; lia.
  - exact I.
Defined.
