(* ===== verification/TcpCopy.v ===== *)
(** * Copying between the two ends (crates/shadowsocks/src/relay/tcprelay/utils.rs)

    A tunnel copies in both directions between an encrypted and a plain stream
    until both have ended.  The streams are given by the interface
    [AsyncDuplex]; its laws say what their polls do, in terms of the bytes read
    from and accepted by them so far.  Shown: at any time what was written to
    one side is what was read from the other up to the bytes in the buffer, a
    direction that is done has copied everything up to the end of its source
    and closed its destination, the counts are right, and every poll returns. *)
From S2P Require Import Prelude.
From S2P Require Import External.
From S2P Require Import AsyncIo.
From S2P Require TcpAead.
From S2P Require TcpAead2022.

(** ** The streams *)
Class AsyncDuplex (S : Type) := {
  dx_poll_read : nat → pollm S io_error bytes;
  dx_poll_write : bytes → pollm S io_error nat;
  dx_poll_flush : pollm S io_error unit;
  dx_poll_shutdown : pollm S io_error unit;
}.

(** What is observed of a stream: the bytes read from it and accepted by it,
    whether a read has reported its end and whether it has been shut down.
    [dx_work] bounds the reads with data and the writes that can succeed before
    more arrives or is sent off. *)
Record dx_view := DxView { dx_received : bytes; dx_sent : bytes; dx_ended : bool; dx_closed : bool }.

Class DuplexLaws {S : Type} (D : AsyncDuplex S) (view : S → dx_view) (dx_work : S → nat) : Prop := {
  dx_read_law n s : (0 < n)%nat →
    match dx_poll_read n s with
    | (Ready out, s') =>
        (length out ≤ n)%nat ∧
        view s' = DxView (dx_received (view s) ++ out) (dx_sent (view s))
                    (dx_ended (view s) || bool_decide (out = [])) (dx_closed (view s)) ∧
        (dx_work s' ≤ dx_work s)%nat ∧ (out ≠ [] → (dx_work s' < dx_work s)%nat)
    | (Panicked _, _) => False
    | (_, s') => view s' = view s ∧ (dx_work s' ≤ dx_work s)%nat
    end;
  dx_write_law buf s :
    match dx_poll_write buf s with
    | (Ready n, s') =>
        (n ≤ length buf)%nat ∧
        view s' = DxView (dx_received (view s)) (dx_sent (view s) ++ take n buf) (dx_ended (view s)) (dx_closed (view s)) ∧
        (dx_work s' < dx_work s)%nat
    | (Panicked _, _) => False
    | (_, s') => view s' = view s ∧ (dx_work s' ≤ dx_work s)%nat
    end;
  dx_flush_law s :
    match dx_poll_flush s with
    | (Panicked _, _) => False
    | (_, s') => view s' = view s ∧ (dx_work s' ≤ dx_work s)%nat
    end;
  dx_shutdown_law s :
    match dx_poll_shutdown s with
    | (Ready _, s') =>
        view s' = DxView (dx_received (view s)) (dx_sent (view s)) (dx_ended (view s)) true ∧
        (dx_work s' ≤ dx_work s)%nat
    | (Panicked _, _) => False
    | (_, s') => view s' = view s ∧ (dx_work s' ≤ dx_work s)%nat
    end;
}.

(** ** CopyBuffer *)
Record CopyBuffer := {
  read_done : bool;
  cb_pos : nat;
  cb_cap : nat;
  cb_amt : Z;
  cb_buf : bytes;
}.

Definition CopyBuffer_new (buffer_size : nat) : CopyBuffer :=
  {| read_done := false; cb_pos := 0; cb_cap := 0; cb_amt := 0; cb_buf := replicate buffer_size (b# 0) |}.

Definition plain_read_buffer_size `{CipherSuite} (method : CipherKind) : nat :=
  match category method with
  | Cat_Aead => TcpAead.MAX_PACKET_SIZE
  | Cat_Stream | Cat_None => Z.to_nat (Z.shiftl 1 14)
  | Cat_Aead2022 => TcpAead2022.MAX_PACKET_SIZE
  end.

(** [&buf[pos..cap]]. *)
Definition cb_pending (self : CopyBuffer) : bytes := drop (cb_pos self) (take (cb_cap self) (cb_buf self)).

Section Copy.
Context {A B : Type} `{DA : !AsyncDuplex A, DB : !AsyncDuplex B}.

(** [self.pos += i; self.amt += i as u64]. *)
Definition cb_advance (i : nat) (self : CopyBuffer) : CopyBuffer :=
  {| read_done := read_done self; cb_pos := (cb_pos self + i)%nat; cb_cap := cb_cap self;
     cb_amt := (cb_amt self + Z.of_nat i) mod u64_max; cb_buf := cb_buf self |}.

(** What a read of [out] does to the buffer. *)
Definition cb_filled (out : bytes) (self : CopyBuffer) : CopyBuffer :=
  if bool_decide (out = [])
  then {| read_done := true; cb_pos := cb_pos self; cb_cap := cb_cap self; cb_amt := cb_amt self; cb_buf := cb_buf self |}
  else {| read_done := read_done self; cb_pos := 0; cb_cap := length out; cb_amt := cb_amt self;
          cb_buf := out ++ drop (length out) (cb_buf self) |}.

Definition cb_empty (self : CopyBuffer) : bool := (cb_pos self =? cb_cap self)%nat.

(** The read at the start of a turn. *)
Definition cb_read : pollm (CopyBuffer * A) io_error unit := λ '(self, r),
  if cb_empty self && negb (read_done self) then
    match dx_poll_read (length (cb_buf self)) r with
    | (Ready out, r) => (Ready tt, (cb_filled out self, r))
    | (Failed e, r) => (Failed e, (self, r))
    | (Panicked m, r) => (Panicked m, (self, r))
    | (Pending, r) => (Pending, (self, r))
    end
  else (Ready tt, (self, r)).

(** The [while self.pos < self.cap] loop. *)
Fixpoint cb_write (fuel : nat) : pollm (CopyBuffer * B) io_error unit := λ '(self, w),
  if (cb_pos self <? cb_cap self)%nat then
    match fuel with
    | O => (Panicked "out of fuel", (self, w))
    | Datatypes.S fuel =>
        match dx_poll_write (cb_pending self) w with
        | (Ready i, w) =>
            if bool_decide (i = 0%nat) then (Failed WriteZero, (self, w)) else cb_write fuel (cb_advance i self, w)
        | (Failed e, w) => (Failed e, (self, w))
        | (Panicked m, w) => (Panicked m, (self, w))
        | (Pending, w) => (Pending, (self, w))
        end
    end
  else (Ready tt, (self, w)).

(** [poll_copy]: [fuel] turns, and [wfuel] writes in each. *)
Fixpoint poll_copy (fuel wfuel : nat) : pollm (CopyBuffer * A * B) io_error Z := λ '(self, r, w),
  match fuel with
  | O => (Panicked "out of fuel", (self, r, w))
  | Datatypes.S fuel =>
      let '(p, (self, r)) := cb_read (self, r) in
      match p with
      | Ready _ =>
          let '(p, (self, w)) := cb_write wfuel (self, w) in
          match p with
          | Ready _ =>
              if cb_empty self && read_done self then
                let '(p, w) := dx_poll_flush w in
                match p with
                | Ready _ => (Ready (cb_amt self), (self, r, w))
                | Failed e => (Failed e, (self, r, w))
                | Panicked m => (Panicked m, (self, r, w))
                | Pending => (Pending, (self, r, w))
                end
              else poll_copy fuel wfuel (self, r, w)
          | Failed e => (Failed e, (self, r, w))
          | Panicked m => (Panicked m, (self, r, w))
          | Pending => (Pending, (self, r, w))
          end
      | Failed e => (Failed e, (self, r, w))
      | Panicked m => (Panicked m, (self, r, w))
      | Pending => (Pending, (self, r, w))
      end
  end.

(** ** One direction *)
Inductive TransferState :=
| Running (buf : CopyBuffer)
| ShuttingDown (count : Z)
| Done (count : Z).

Definition shut_down (count : Z) : pollm (TransferState * A * B) io_error Z := λ '(_, r, w),
  let '(p, w) := dx_poll_shutdown w in
  match p with
  | Ready _ => (Ready count, (Done count, r, w))
  | Failed e => (Failed e, (ShuttingDown count, r, w))
  | Panicked m => (Panicked m, (ShuttingDown count, r, w))
  | Pending => (Pending, (ShuttingDown count, r, w))
  end.

Definition transfer_one_direction (fuel wfuel : nat) : pollm (TransferState * A * B) io_error Z := λ '(state, r, w),
  match state with
  | Running buf =>
      let '(p, (buf, r, w)) := poll_copy fuel wfuel (buf, r, w) in
      match p with
      | Ready count => shut_down count (ShuttingDown count, r, w)
      | Failed e => (Failed e, (Running buf, r, w))
      | Panicked m => (Panicked m, (Running buf, r, w))
      | Pending => (Pending, (Running buf, r, w))
      end
  | ShuttingDown count => shut_down count (ShuttingDown count, r, w)
  | Done count => (Ready count, (Done count, r, w))
  end.
End Copy.

(** ** Both directions *)
Section Bidirectional.
Context {A B : Type} `{DA : !AsyncDuplex A, DB : !AsyncDuplex B}.

Record CopyBidirectional := { bi_a : A; bi_b : B; a_to_b : TransferState; b_to_a : TransferState }.

(** [transfer_one_direction(..)?] leaves on an error only; a direction that has
    to wait does not keep the other from being polled. *)
Definition poll_impl (fuel wfuel : nat) : pollm CopyBidirectional io_error (Z * Z) := λ self,
  let '(p1, (ab, a, b)) := transfer_one_direction fuel wfuel (a_to_b self, bi_a self, bi_b self) in
  match p1 with
  | Failed e => (Failed e, {| bi_a := a; bi_b := b; a_to_b := ab; b_to_a := b_to_a self |})
  | Panicked m => (Panicked m, {| bi_a := a; bi_b := b; a_to_b := ab; b_to_a := b_to_a self |})
  | _ =>
      let '(p2, (ba, b, a)) := transfer_one_direction fuel wfuel (b_to_a self, b, a) in
      let self := {| bi_a := a; bi_b := b; a_to_b := ab; b_to_a := ba |} in
      match p1, p2 with
      | _, Failed e => (Failed e, self)
      | _, Panicked m => (Panicked m, self)
      | Ready n, Ready m => (Ready (n, m), self)
      | _, _ => (Pending, self)
      end
  end.

(** The future both entry points start with. *)
Definition bidirectional_with (size : nat) (a : A) (b : B) : CopyBidirectional :=
  {| bi_a := a; bi_b := b; a_to_b := Running (CopyBuffer_new size); b_to_a := Running (CopyBuffer_new size) |}.

Definition copy_encrypted_bidirectional `{CipherSuite} (method : CipherKind) (encrypted : A) (plain : B) : CopyBidirectional :=
  bidirectional_with (plain_read_buffer_size method) encrypted plain.

Definition copy_bidirectional (a : A) (b : B) : CopyBidirectional := bidirectional_with (Z.to_nat 8192) a b.
End Bidirectional.

(** ** A direction copies everything *)
Section CopyFacts.
Context {A B : Type} `{DA : !AsyncDuplex A, DB : !AsyncDuplex B}.
Context (va : A → dx_view) (wa : A → nat) `{LA : !DuplexLaws DA va wa}.
Context (vb : B → dx_view) (wb : B → nat) `{LB : !DuplexLaws DB vb wb}.

(** The buffer after [put] was written: it holds [rest]. *)
Definition cb_ok (buf : CopyBuffer) (put rest : bytes) (ended : bool) : Prop :=
  (0 < length (cb_buf buf))%nat ∧ (cb_pos buf ≤ cb_cap buf ≤ length (cb_buf buf))%nat ∧
  cb_pending buf = rest ∧ cb_amt buf = Z.of_nat (length put) mod u64_max ∧ (read_done buf = true → ended = true).

(** The state of a direction that began when [rx] had been read from its source
    and [tx] written to its destination. *)
Definition dir_ok (rx tx : bytes) (st : TransferState) (vr vw : dx_view) : Prop :=
  ∃ put rest, dx_received vr = rx ++ put ++ rest ∧ dx_sent vw = tx ++ put ∧
  match st with
  | Running buf => cb_ok buf put rest (dx_ended vr)
  | ShuttingDown n => rest = [] ∧ n = Z.of_nat (length put) mod u64_max ∧ dx_ended vr = true
  | Done n => rest = [] ∧ n = Z.of_nat (length put) mod u64_max ∧ dx_ended vr = true ∧ dx_closed vw = true
  end.

(** What a direction from [A] to [B] leaves alone. *)
Definition frame (vr vw vr' vw' : dx_view) : Prop :=
  dx_sent vr' = dx_sent vr ∧ dx_closed vr' = dx_closed vr ∧
  dx_received vw' = dx_received vw ∧ dx_ended vw' = dx_ended vw.

Lemma length_pending buf : (cb_pos buf ≤ cb_cap buf ≤ length (cb_buf buf))%nat →
  length (cb_pending buf) = (cb_cap buf - cb_pos buf)%nat.
Proof. intros. unfold cb_pending. rewrite length_drop, length_take. lia. Qed.

Lemma cb_filled_ok buf put out ended :
  cb_ok buf put [] ended → cb_empty buf = true → (length out ≤ length (cb_buf buf))%nat →
  cb_ok (cb_filled out buf) put out (ended || bool_decide (out = [])).
Proof.
  intros (H0 & Hp & Hr & Ha & Hd) He Hl. unfold cb_filled, cb_ok. case_bool_decide as Hn; simpl.
  - subst out. unfold cb_pending in *. simpl. split_and!; try done; lia.
  - rewrite length_app, length_drop, orb_false_r. split_and!; try lia; try done.
    unfold cb_pending. simpl. by rewrite take_app_length.
Qed.

Lemma cb_advance_ok i buf put rest ended :
  cb_ok buf put rest ended → (i ≤ length rest)%nat →
  cb_ok (cb_advance i buf) (put ++ take i rest) (drop i rest) ended.
Proof.
  intros (H0 & Hp & Hr & Ha & Hd) Hi. pose proof (length_pending buf Hp) as Hl. rewrite Hr in Hl.
  unfold cb_ok, cb_advance. simpl. split_and!; try done; try lia.
  - rewrite <- Hr. unfold cb_pending. simpl. by rewrite drop_drop.
  - rewrite Ha, length_app, length_take, Nat2Z.inj_add, Nat.min_l by done. by rewrite Zplus_mod_idemp_l.
Qed.

Lemma cb_write_ok fuel buf w put rest ended tx :
  cb_ok buf put rest ended → dx_sent (vb w) = tx ++ put → (wb w < fuel)%nat →
  let '(p, (buf', w')) := cb_write fuel (buf, w) in
  is_panicked p = false ∧ (wb w' ≤ wb w)%nat ∧
  dx_received (vb w') = dx_received (vb w) ∧ dx_ended (vb w') = dx_ended (vb w) ∧ read_done buf' = read_done buf ∧
  ∃ put' rest', put' ++ rest' = put ++ rest ∧ cb_ok buf' put' rest' ended ∧ dx_sent (vb w') = tx ++ put' ∧
    (p = Ready tt → rest' = [] ∧ cb_empty buf' = true).
Proof.
  revert buf w put rest. induction fuel as [|fuel IH]; intros buf w put rest Hok Hs Hf; [lia|]. cbn [cb_write].
  pose proof Hok as (H0 & Hp & Hr & Ha & Hd). destruct (Nat.ltb_spec (cb_pos buf) (cb_cap buf)) as [Hlt|Hge].
  2:{ split_and!; try done. exists put, rest. split_and!; try done. intros _.
      assert (length rest = 0)%nat as Hl by (rewrite <- Hr, length_pending by done; lia).
      apply nil_length_inv in Hl. split; [done|]. unfold cb_empty. apply Nat.eqb_eq. lia. }
  pose proof (dx_write_law (D := DB) (cb_pending buf) w) as Hw. destruct (dx_poll_write (cb_pending buf) w) as [[i|x|m|] w'].
  - destruct Hw as (Hi & Hv & Hwk). case_bool_decide as Hz.
    { subst i. rewrite take_0, app_nil_r in Hv. rewrite Hv. simpl. split_and!; try done; [lia|]. exists put, rest. by split_and!. }
    specialize (IH (cb_advance i buf) w' (put ++ take i rest) (drop i rest) (cb_advance_ok _ _ _ _ _ Hok ltac:(by rewrite <- Hr))).
    rewrite Hv in IH. simpl in IH. specialize (IH ltac:(by rewrite Hs, Hr, <- app_assoc) ltac:(lia)).
    destruct (cb_write fuel _) as [p [buf' w'']]. destruct IH as (K1 & K2 & K3 & K4 & K5 & put' & rest' & K6 & K7 & K8 & K9).
    split_and!; try done; [lia|]. exists put', rest'. split_and!; try done.
    by rewrite K6, <- app_assoc, take_drop.
  - destruct Hw as [Hv Hwk]. rewrite Hv. split_and!; try done. exists put, rest. by split_and!.
  - done.
  - destruct Hw as [Hv Hwk]. rewrite Hv. split_and!; try done. exists put, rest. by split_and!.
Qed.

(** Turns still needed for the bytes in the buffer. *)
Definition turns (buf : CopyBuffer) : nat := if cb_empty buf then 0 else 1.

Lemma cb_empty_rest buf put rest ended : cb_ok buf put rest ended → cb_empty buf = true → rest = [].
Proof.
  intros (H0 & Hp & Hr & Ha & Hd) He. apply Nat.eqb_eq in He. apply nil_length_inv.
  rewrite <- Hr, length_pending by done. lia.
Qed.

Lemma cb_read_ok buf r put rest rx :
  cb_ok buf put rest (dx_ended (va r)) → dx_received (va r) = rx ++ put ++ rest →
  let '(p, (buf', r')) := cb_read (buf, r) in
  is_panicked p = false ∧ dx_sent (va r') = dx_sent (va r) ∧ dx_closed (va r') = dx_closed (va r) ∧
  (wa r' ≤ wa r)%nat ∧
  (p = Ready tt → (wa r' + (if read_done buf' then 0 else 1) ≤ wa r + turns buf)%nat) ∧
  ∃ rest', dx_received (va r') = rx ++ put ++ rest' ∧ cb_ok buf' put rest' (dx_ended (va r')).
Proof.
  intros Hok Hr. unfold cb_read, turns. destruct (cb_empty buf) eqn:He; simpl.
  2:{ split_and!; try done; [intros _; destruct (read_done buf); lia|]. by exists rest. }
  destruct (read_done buf) eqn:Hd; simpl.
  { rewrite Hd. split_and!; try done. by exists rest. }
  pose proof (cb_empty_rest _ _ _ _ Hok He) as ->.
  pose proof (dx_read_law (D := DA) (length (cb_buf buf)) r (proj1 Hok)) as Hl.
  destruct (dx_poll_read (length (cb_buf buf)) r) as [[out|x|m|] r'].
  - destruct Hl as (Ho & -> & Hw & Hs). simpl. split_and!; try done.
    + intros _. unfold cb_filled. case_bool_decide as Hn; simpl; [lia|]. rewrite Hd. specialize (Hs Hn). lia.
    + exists out. rewrite Hr. split; [by rewrite !app_nil_r, <- app_assoc|]. by apply cb_filled_ok.
  - destruct Hl as [-> Hw]. split_and!; try done. by exists [].
  - done.
  - destruct Hl as [-> Hw]. split_and!; try done. by exists [].
Qed.

Lemma poll_copy_ok fuel wfuel buf r w rx tx :
  dir_ok rx tx (Running buf) (va r) (vb w) → (wa r + turns buf < fuel)%nat → (wb w < wfuel)%nat →
  let '(p, (buf', r', w')) := poll_copy fuel wfuel (buf, r, w) in
  is_panicked p = false ∧ (wa r' ≤ wa r)%nat ∧ (wb w' ≤ wb w)%nat ∧ frame (va r) (vb w) (va r') (vb w') ∧
  dir_ok rx tx (Running buf') (va r') (vb w') ∧
  (∀ n, p = Ready n → dir_ok rx tx (ShuttingDown n) (va r') (vb w')).
Proof.
  revert buf r w. induction fuel as [|fuel IH]; intros buf r w (put & rest & Hr & Hs & Hok) Hf Hw; [lia|]. cbn [poll_copy].
  pose proof (cb_read_ok buf r put rest rx Hok Hr) as Hrd.
  destruct (cb_read (buf, r)) as [p [buf1 r1]]. destruct Hrd as (Hp & Rs & Rc & Rw & Rt & rest1 & Hr1 & Hok1).
  destruct p as [[]|x|m|]; try done.
  2,3: split_and!; try done; exists put, rest1; by split_and!.
  specialize (Rt eq_refl). pose proof (cb_write_ok wfuel buf1 w put rest1 _ tx Hok1 Hs Hw) as Hwr.
  destruct (cb_write wfuel (buf1, w)) as [p [buf2 w2]].
  destruct Hwr as (Wp & Ww & Wr & We & Wd & put2 & rest2 & Wa & Hok2 & Hs2 & Wq). rewrite <- Wa in Hr1.
  assert (dir_ok rx tx (Running buf2) (va r1) (vb w2)) as Hdir by (exists put2, rest2; by split_and!).
  destruct p as [[]|x|m|]; try done.
  destruct (Wq eq_refl) as [-> He]. rewrite He. simpl. destruct (read_done buf2) eqn:Hd; simpl.
  - pose proof (dx_flush_law (D := DB) w2) as Hfl. destruct (dx_poll_flush w2) as [[[]|x|m|] w3]; try done;
      destruct Hfl as [Hv Hfw]; rewrite Hv; unfold frame; split_and!; try done; try lia.
    intros n [= <-]. exists put2, []. destruct Hok2 as (_ & _ & _ & Ha & He2). split_and!; try done. by apply He2.
  - rewrite <- Wd in Rt. specialize (IH buf2 r1 w2 Hdir). unfold turns at 1 in IH. rewrite He in IH.
    specialize (IH ltac:(lia) ltac:(lia)). destruct (poll_copy fuel wfuel _) as [p [[buf' r'] w']].
    destruct IH as (I1 & I2 & I3 & (F1 & F2 & F3 & F4) & I5 & I6).
    split_and!; try done; try lia. unfold frame. split_and!; congruence.
Qed.

(** What a poll of a direction guarantees. *)
Definition transfer_spec (rx tx : bytes) (r : A) (w : B) (p : pres io_error Z) (st : TransferState) (r' : A) (w' : B) : Prop :=
  is_panicked p = false ∧ (wa r' ≤ wa r)%nat ∧ (wb w' ≤ wb w)%nat ∧ frame (va r) (vb w) (va r') (vb w') ∧
  dir_ok rx tx st (va r') (vb w') ∧ (∀ n, p = Ready n → st = Done n).

Lemma shut_down_ok n st r w rx tx :
  dir_ok rx tx (ShuttingDown n) (va r) (vb w) →
  let '(p, (st', r', w')) := shut_down n (st, r, w) in transfer_spec rx tx r w p st' r' w'.
Proof.
  intros Hdir. unfold shut_down. pose proof (dx_shutdown_law (D := DB) w) as Hl.
  destruct (dx_poll_shutdown w) as [[[]|x|m|] w']; try done; destruct Hl as [Hv Hw];
    unfold transfer_spec, frame; rewrite Hv; simpl; split_and!; try done; [|congruence].
  destruct Hdir as (put & rest & Hr & Hs & H1 & H2 & H3). exists put, rest. by split_and!.
Qed.

Lemma transfer_ok fuel wfuel st r w rx tx :
  dir_ok rx tx st (va r) (vb w) → (wa r + 1 < fuel)%nat → (wb w < wfuel)%nat →
  let '(p, (st', r', w')) := transfer_one_direction fuel wfuel (st, r, w) in transfer_spec rx tx r w p st' r' w'.
Proof.
  intros Hdir Hf Hw. destruct st as [buf|n|n]; cbn [transfer_one_direction].
  - assert (turns buf ≤ 1)%nat by (unfold turns; destruct (cb_empty buf); lia).
    pose proof (poll_copy_ok fuel wfuel buf r w rx tx Hdir ltac:(lia) Hw) as Hp.
    destruct (poll_copy fuel wfuel (buf, r, w)) as [p [[buf' r'] w']]. destruct Hp as (H1 & H2 & H3 & (F1 & F2 & F3 & F4) & H5 & H6).
    destruct p as [n|x|m|]; try done.
    pose proof (shut_down_ok n (ShuttingDown n) r' w' rx tx (H6 n eq_refl)) as Hs.
    destruct (shut_down n _) as [p [[st' r''] w'']]. destruct Hs as (S1 & S2 & S3 & (G1 & G2 & G3 & G4) & S5 & S6).
    unfold transfer_spec, frame. split_and!; try done; try lia; congruence.
  - by apply shut_down_ok.
  - unfold transfer_spec, frame. split_and!; try done. congruence.
Qed.

(** A direction looks at one half of each stream only. *)
Lemma dir_ok_half rx tx st vr vw vr' vw' :
  dir_ok rx tx st vr vw → dx_received vr' = dx_received vr → dx_ended vr' = dx_ended vr →
  dx_sent vw' = dx_sent vw → dx_closed vw' = dx_closed vw → dir_ok rx tx st vr' vw'.
Proof.
  intros (put & rest & H1 & H2 & H3) E1 E2 E3 E4. exists put, rest. rewrite E1, E2, E3, E4. by split_and!.
Qed.
End CopyFacts.

(** ** Both directions, at any time *)
Section BidirectionalFacts.
Context {A B : Type} `{DA : !AsyncDuplex A, DB : !AsyncDuplex B}.
Context (va : A → dx_view) (wa : A → nat) `{LA : !DuplexLaws DA va wa}.
Context (vb : B → dx_view) (wb : B → nat) `{LB : !DuplexLaws DB vb wb}.

Implicit Types s : @CopyBidirectional A B.

Definition enough (s : CopyBidirectional) (fuel : nat) : Prop := (wa (bi_a s) + wb (bi_b s) + 1 < fuel)%nat.

(** A tunnel is polled; in between, data arrives at the streams and is sent off
    from them, which does not change what was read from or accepted by them. *)
Inductive bi_step : CopyBidirectional → CopyBidirectional → Prop :=
| bi_poll fuel s : enough s fuel → bi_step s (poll_impl fuel fuel s).2
| bi_wait s a b :
    va a = va (bi_a s) → vb b = vb (bi_b s) →
    bi_step s {| bi_a := a; bi_b := b; a_to_b := a_to_b s; b_to_a := b_to_a s |}.

Definition bi_ok (a0 : A) (b0 : B) s : Prop :=
  dir_ok (dx_received (va a0)) (dx_sent (vb b0)) (a_to_b s) (va (bi_a s)) (vb (bi_b s)) ∧
  dir_ok (dx_received (vb b0)) (dx_sent (va a0)) (b_to_a s) (vb (bi_b s)) (va (bi_a s)).

Lemma poll_impl_ok a0 b0 fuel s :
  bi_ok a0 b0 s → enough s fuel →
  let '(p, s') := poll_impl fuel fuel s in
  is_panicked p = false ∧ bi_ok a0 b0 s' ∧
  (∀ n m, p = Ready (n, m) → a_to_b s' = Done n ∧ b_to_a s' = Done m).
Proof.
  intros [Hab Hba] Hf. unfold enough in Hf. unfold poll_impl.
  pose proof (transfer_ok va wa vb wb fuel fuel _ (bi_a s) (bi_b s) _ _ Hab ltac:(lia) ltac:(lia)) as H1.
  destruct (transfer_one_direction fuel fuel _) as [p1 [[ab a1] b1]].
  destruct H1 as (P1 & A1 & B1 & (F1 & F2 & F3 & F4) & D1 & R1).
  pose proof (dir_ok_half _ _ _ _ _ (vb b1) (va a1) Hba F3 F4 F1 F2) as Hba1.
  pose proof (transfer_ok vb wb va wa fuel fuel _ b1 a1 _ _ Hba1 ltac:(lia) ltac:(lia)) as H2.
  destruct (transfer_one_direction fuel fuel (b_to_a s, b1, a1)) as [p2 [[ba b2] a2]].
  destruct H2 as (P2 & B2 & A2 & (G1 & G2 & G3 & G4) & D2 & R2).
  pose proof (dir_ok_half _ _ _ _ _ (va a2) (vb b2) D1 G3 G4 G1 G2) as D1'.
  destruct p1 as [n1|x1|m1|]; try done; destruct p2 as [n2|x2|m2|]; try done; split_and!; try done.
  intros n m [= <- <-]. simpl. eauto.
Qed.

Lemma bi_reach_ok a b size s :
  (0 < size)%nat → rtc bi_step (bidirectional_with size a b) s → bi_ok a b s.
Proof.
  intros Hz Hrun. remember (bidirectional_with size a b) as s0 eqn:E.
  assert (bi_ok a b s0) as H0.
  { subst s0. split; exists [], []; rewrite !app_nil_r; split_and!; try done;
      unfold cb_ok, CopyBuffer_new; simpl; rewrite length_replicate; split_and!; (done || lia). }
  clear E. induction Hrun as [s|s s1 s2 Hstep _ IH]; [done|]. apply IH. destruct Hstep as [fuel s Hf|s a' b' Ha Hb].
  - pose proof (poll_impl_ok a b fuel s H0 Hf) as Hp. destruct (poll_impl fuel fuel s) as [p s']. by destruct Hp as (_ & ? & _).
  - destruct H0 as [H1 H2]. split; simpl; by rewrite Ha, Hb.
Qed.
End BidirectionalFacts.

(** ** A plain stream *)
Record pipe := Pipe { p_in : rstream; p_out : wstream; p_received : bytes; p_ended : bool; p_closed : bool }.

#[export] Instance pipe_duplex : AsyncDuplex pipe := {
  dx_poll_read n := λ s,
    let '(p, i) := poll_read n (p_in s) in
    match p with
    | Ready out => (Ready out, Pipe i (p_out s) (p_received s ++ out) (p_ended s || bool_decide (out = [])) (p_closed s))
    | _ => (p, Pipe i (p_out s) (p_received s) (p_ended s) (p_closed s))
    end;
  dx_poll_write buf := λ s,
    let '(p, o) := poll_write buf (p_out s) in (p, Pipe (p_in s) o (p_received s) (p_ended s) (p_closed s));
  dx_poll_flush := λ s, (Ready tt, s);
  dx_poll_shutdown := λ s, (Ready tt, Pipe (p_in s) (p_out s) (p_received s) (p_ended s) true);
}.

Definition pipe_view (s : pipe) : dx_view := DxView (p_received s) (wr_out (p_out s)) (p_ended s) (p_closed s).
Definition pipe_work (s : pipe) : nat := (rs_size (p_in s) + length (wr_script (p_out s)))%nat.

#[export] Instance pipe_laws : DuplexLaws pipe_duplex pipe_view pipe_work.
Proof.
  split.
  - intros n [i o rx e c] Hn. simpl. destruct i as [|[bs| |x] i]; unfold pipe_view, pipe_work; simpl; [|..|].
    + split_and!; try done; lia.
    + split; [rewrite length_take; lia|]. split; [done|]. destruct (decide (bs = [])) as [->|Hb].
      { rewrite take_nil, bool_decide_true by done. split; [lia|done]. }
      pose proof (poll_read_data n bs i Hn Hb) as (s' & Heq & Hne & _ & _ & _ & Hsz & _).
      unfold poll_read in Heq. injection Heq as Heq. rewrite Heq.
      assert (0 < length (take n bs))%nat by (destruct (take n bs); [done|simpl; lia]). simpl in Hsz. split; [lia|intros _; lia].
    + split; [done|lia].
    + split; [done|lia].
  - intros buf [i [scr out] rx e c]. unfold pipe_view, pipe_work. simpl. destruct scr as [|[k| |x] scr]; simpl.
    + split; [done|lia].
    + split; [lia|]. split; [|lia]. f_equal. f_equal. destruct (Nat.le_ge_cases k (length buf)); [by rewrite Nat.min_l|].
      rewrite Nat.min_r by done. rewrite !take_ge by done. done.
    + split; [done|lia].
    + split; [done|lia].
  - intros s. simpl. by split.
  - intros s. simpl. by split.
Qed.

(** ** The tunnel *)
Section Tunnel.
Context `{CS : CipherSuite} {A B : Type} `{DA : !AsyncDuplex A, DB : !AsyncDuplex B}.
Context (va : A → dx_view) (wa : A → nat) `{LA : !DuplexLaws DA va wa}.
Context (vb : B → dx_view) (wb : B → nat) `{LB : !DuplexLaws DB vb wb}.

Lemma plain_read_buffer_size_pos method : (0 < plain_read_buffer_size method)%nat.
Proof. unfold plain_read_buffer_size. apply Nat.ltb_lt. destruct (category method); by vm_compute. Qed.

(** C32. However the polls of a tunnel and the traffic of its two streams
    interleave: what has been written to one stream is what has been read from
    the other, in order and up to the bytes in the buffer; a poll always returns;
    and when it returns the two counts, everything up to the end of both streams
    has been written to the other one, both have been shut down, and the counts
    are the numbers of bytes copied (as [u64]). *)
Theorem copy_bidirectional_sound a b s0 s :
  (s0 = copy_bidirectional a b ∨ ∃ method, s0 = copy_encrypted_bidirectional method a b) →
  rtc (bi_step va wa vb wb) s0 s →
  (∃ xs rest, dx_received (va (bi_a s)) = dx_received (va a) ++ xs ++ rest ∧ dx_sent (vb (bi_b s)) = dx_sent (vb b) ++ xs) ∧
  (∃ ys rest, dx_received (vb (bi_b s)) = dx_received (vb b) ++ ys ++ rest ∧ dx_sent (va (bi_a s)) = dx_sent (va a) ++ ys) ∧
  ∀ fuel, enough wa wb s fuel →
    let '(p, s') := poll_impl fuel fuel s in
    is_panicked p = false ∧
    ∀ n m, p = Ready (n, m) → ∃ xs ys,
      va (bi_a s') = DxView (dx_received (va a) ++ xs) (dx_sent (va a) ++ ys) true true ∧
      vb (bi_b s') = DxView (dx_received (vb b) ++ ys) (dx_sent (vb b) ++ xs) true true ∧
      n = Z.of_nat (length xs) mod u64_max ∧ m = Z.of_nat (length ys) mod u64_max.
Proof.
  intros Hs0 Hrun. assert (bi_ok va vb a b s) as Hok.
  { destruct Hs0 as [-> |[method ->]]; (eapply (bi_reach_ok va wa vb wb); [|exact Hrun]); [lia|apply plain_read_buffer_size_pos]. }
  pose proof Hok as [Hab Hba].
  split; [destruct Hab as (xs & rest & H1 & H2 & _); eauto|].
  split; [destruct Hba as (ys & rest & H1 & H2 & _); eauto|].
  intros fuel Hf. pose proof (poll_impl_ok va wa vb wb a b fuel s Hok Hf) as Hp.
  destruct (poll_impl fuel fuel s) as [p s']. destruct Hp as (P & [(xs & r1 & X1 & X2 & X3) (ys & r2 & Y1 & Y2 & Y3)] & HR).
  split; [done|]. intros n m ->. destruct (HR n m eq_refl) as [E1 E2]. rewrite E1 in X3. rewrite E2 in Y3.
  destruct X3 as (-> & X4 & X5 & X6), Y3 as (-> & Y4 & Y5 & Y6). rewrite app_nil_r in X1, Y1. exists xs, ys.
  destruct (va (bi_a s')), (vb (bi_b s')); simpl in *. subst. by split_and!.
Qed.
End Tunnel.

(** ** Examples *)
Module CopyExamples.
Definition abc : bytes := [b# 97; b# 98; b# 99].
Definition left_end : pipe := Pipe [RdData abc] {| wr_script := [WrAccept 8]; wr_out := [] |} [] false false.
Definition right_end : pipe := Pipe [RdPending; RdData [b# 1]] {| wr_script := [WrAccept 1; WrPending; WrAccept 8]; wr_out := [] |} [] false false.
Definition tunnel0 : CopyBidirectional := copy_bidirectional left_end right_end.
Definition poll1 (s : CopyBidirectional) : CopyBidirectional := (poll_impl 20 20 s).2.

(** The first poll stops at a full writer and at an idle reader, and after more
    room has appeared the tunnel ends with three bytes one way and one the other. *)
Definition tunnel2 : CopyBidirectional :=
  let s := poll1 tunnel0 in
  {| bi_a := bi_a s;
     bi_b := Pipe (p_in (bi_b s)) {| wr_script := [WrAccept 8; WrAccept 8]; wr_out := wr_out (p_out (bi_b s)) |}
               (p_received (bi_b s)) (p_ended (bi_b s)) (p_closed (bi_b s));
     a_to_b := a_to_b s; b_to_a := b_to_a s |}.

Lemma tunnel2_reachable : rtc (bi_step pipe_view pipe_work pipe_view pipe_work) tunnel0 tunnel2.
Proof.
  eapply rtc_l; [apply (bi_poll _ _ _ _ 20); unfold enough; vm_compute; lia|].
  eapply rtc_l; [|apply rtc_refl]. by apply bi_wait.
Qed.

Lemma copy_bidirectional_sound_witness :
  wr_out (p_out (bi_b (poll1 tunnel0))) = [b# 97] ∧
  (poll_impl 20 20 tunnel2).1 = Ready (3, 1) ∧
  ∃ xs ys, pipe_view (bi_a (poll1 tunnel2)) = DxView xs ys true true ∧
           pipe_view (bi_b (poll1 tunnel2)) = DxView ys xs true true.
Proof.
  split; [by vm_compute|]. split; [by vm_compute|].
  destruct (copy_bidirectional_sound (CS := Toy.suite) pipe_view pipe_work pipe_view pipe_work left_end right_end tunnel0 tunnel2
    (or_introl eq_refl) tunnel2_reachable) as (_ & _ & H).
  specialize (H 20%nat ltac:(unfold enough; vm_compute; lia)). unfold poll1.
  destruct (poll_impl 20 20 tunnel2) as [p s'] eqn:E. destruct H as [_ H].
  assert (p = Ready (3, 1)) as -> by (change p with (p, s').1; rewrite <- E; by vm_compute).
  destruct (H _ _ eq_refl) as (xs & ys & H1 & H2 & _). exists xs, ys. by split.
Defined.
End CopyExamples.
