(* ===== verification/Realm.v ===== *)
(** * Shared parts of the realm crate (crates/shadowsocks-realm)

    The crate's error type, and slices of received packets, which panic out of
    range. *)
From S2P Require Import Prelude.

(** [error.rs]; the numbers that messages show are left out of them. *)
Inductive Error :=
| Io (e : io_error)
| InvalidUrl (msg : string)
| Rendezvous (msg : string)
| Stun (msg : string)
| Punch (msg : string)
| PunchTimeout
| PortMap (msg : string).

#[export] Instance Error_eq_dec : EqDecision Error.
Proof. solve_decision. Defined.

Definition HYRLM_MAGIC : bytes :=
  [b# 72; b# 89; b# 82; b# 76; b# 77; b# 118; b# 49; b# 0].

(** [&l[s..e]]. *)
Definition slice {E} (s e : nat) (l : bytes) : outcome E bytes :=
  if (s <=? e)%nat && (e <=? length l)%nat then Ok (take (e - s) (drop s l)) else Panic "range out of bounds".

(** [uN::from_be_bytes] of the [n] bytes at [i]. *)
Definition be_at {E} (n i : nat) (l : bytes) : outcome E Z := be_Z <$> slice i (i + n) l.

Arguments slice : simpl never.
Arguments be_at : simpl never.

(** ** Facts *)
Lemma slice_app {E} s e a b c :
  length a = s → e = (s + length b)%nat → slice (E := E) s e (a ++ b ++ c) = Ok b.
Proof.
  intros <- ->. unfold slice. do 2 len_true. simpl.
  rewrite drop_app_length. replace (length a + length b - length a)%nat with (length b) by lia.
  by rewrite take_app_length.
Qed.

Lemma slice_ok {E} s e l : (s ≤ e ≤ length l)%nat →
  ∃ a b c, slice (E := E) s e l = Ok b ∧ l = a ++ b ++ c ∧ length a = s ∧ length b = (e - s)%nat.
Proof.
  intros [H1 H2]. exists (take s l), (take (e - s) (drop s l)), (drop (e - s) (drop s l)).
  rewrite !length_take, length_drop. unfold slice. rewrite take_drop.
  destruct (Nat.leb_spec s e); [|lia]. destruct (Nat.leb_spec e (length l)); [|lia].
  split_and!; try done; [by rewrite take_drop|lia..].
Qed.

Lemma be_at_app {E} n i a b c :
  length a = i → length b = n → be_at (E := E) n i (a ++ b ++ c) = Ok (be_Z b).
Proof. intros Ha Hb. unfold be_at. by rewrite (slice_app i (i + n) a b c) by lia. Qed.

Lemma be_at_bytes {E} n i z a c :
  length a = i → 0 ≤ z < 2 ^ (8 * Z.of_nat n) → be_at (E := E) n i (a ++ be_bytes n z ++ c) = Ok z.
Proof. intros Ha Hz. rewrite be_at_app by (done || apply length_be_bytes). by rewrite be_Z_be_bytes_small. Qed.

Lemma be_at_ok {E} n i l : (i + n ≤ length l)%nat → ∃ z, be_at (E := E) n i l = Ok z ∧ 0 ≤ z < 2 ^ (8 * Z.of_nat n).
Proof.
  intros H. destruct (slice_ok (E := E) i (i + n) l) as (a & b & c & Hs & _ & _ & Hb); [lia|].
  exists (be_Z b). unfold be_at. rewrite Hs. split; [done|]. pose proof (be_Z_range b) as Hr. rewrite Hb in Hr.
  by replace (i + n - i)%nat with n in Hr by lia.
Qed.

Lemma be_at_only {E} n z : 0 ≤ z < 2 ^ (8 * Z.of_nat n) → be_at (E := E) n 0 (be_bytes n z) = Ok z.
Proof. intros Hz. rewrite <- (app_nil_r (be_bytes n z)). by apply (be_at_bytes n 0 z []). Qed.

Lemma slice_prefix {E} e b c : e = length b → slice (E := E) 0 e (b ++ c) = Ok b.
Proof. intros ->. by apply (slice_app 0 _ [] b c). Qed.

Lemma slice_suffix {E} s e a b : length a = s → e = (s + length b)%nat → slice (E := E) s e (a ++ b) = Ok b.
Proof. intros Hs He. rewrite <- (app_nil_r b) at 1. by apply slice_app. Qed.

Lemma be_at_prefix {E} n z c : 0 ≤ z < 2 ^ (8 * Z.of_nat n) → be_at (E := E) n 0 (be_bytes n z ++ c) = Ok z.
Proof. intros Hz. by apply (be_at_bytes n 0 z []). Qed.

Lemma be_at_head {E} n b c : length b = n → be_at (E := E) n 0 (b ++ c) = Ok (be_Z b).
Proof. by apply (be_at_app n 0 [] b c). Qed.

Lemma split_prefix n (l : bytes) : (n ≤ length l)%nat → ∃ b c, l = b ++ c ∧ length b = n.
Proof. intros Hn. exists (take n l), (drop n l). rewrite take_drop, length_take. split; [done|lia]. Qed.
