(* ===== verification/RealmControl.v ===== *)
(** * Control messages (crates/shadowsocks-realm/src/control.rs)

    The messages the two ends of a realm session exchange on the QUIC control
    stream.  Shown: every message whose parts fit their length fields is read
    back, an offer with its first 255 addresses, and leaves what follows; and no
    stream makes the reader panic, which only returns well-formed messages. *)
From S2P Require Import Prelude.
From S2P Require Import Utf8.
From S2P Require Import Realm.

Definition TOKEN_LEN : nat := 32.
Definition MAX_BODY : Z := 64 * 1024.
Definition T_OFFER : Z := 1.
Definition T_ACK : Z := 2.
Definition T_PING : Z := 3.
Definition T_PONG : Z := 4.
Definition T_PATH_DOWN : Z := 5.

Inductive ControlMsg :=
| TcpEndpointOffer (addresses : list bytes) (token : bytes)
| TcpEndpointAck (accepted : bool)
| Ping (ts : Z)
| Pong (ts : Z)
| TcpPathDown.

#[export] Instance ControlMsg_eq_dec : EqDecision ControlMsg.
Proof. solve_decision. Defined.

Definition type_tag (self : ControlMsg) : Z :=
  match self with
  | TcpEndpointOffer _ _ => T_OFFER
  | TcpEndpointAck _ => T_ACK
  | Ping _ => T_PING
  | Pong _ => T_PONG
  | TcpPathDown => T_PATH_DOWN
  end.

(** [bytes.len() as u16] keeps the low 16 bits, as [be_bytes 2] does. *)
Definition encode_addr (a : bytes) : bytes := be_bytes 2 (Z.of_nat (length a)) ++ a.

Definition encode_body (self : ControlMsg) : bytes :=
  match self with
  | TcpEndpointOffer addresses token =>
      [b# (Z.min (Z.of_nat (length addresses)) 255)] ++ concat (encode_addr <$> take 255 addresses) ++ token
  | TcpEndpointAck accepted => [b# (if accepted then 1 else 0)]
  | Ping ts | Pong ts => be_bytes 8 ts
  | TcpPathDown => []
  end.

Definition bad (m : string) : Error := Rendezvous m.

(** The loop over the [n] addresses of an offer: the addresses and the offset
    after them. *)
Fixpoint decode_addrs (n off : nat) (body : bytes) : outcome Error (list bytes * nat) :=
  match n with
  | O => Ok ([], off)
  | S n =>
      if (length body <? off + 2)%nat then Err (bad "truncated addr len") else
      alen ← be_at 2 off body;
      let alen := Z.to_nat alen in
      let off := (off + 2)%nat in
      if (length body <? off + alen)%nat then Err (bad "truncated addr") else
      raw ← slice off (off + alen) body;
      match from_utf8 raw with
      | None => Err (bad "addr not utf8")
      | Some s => '(addresses, off) ← decode_addrs n (off + alen) body; Ok (s :: addresses, off)
      end
  end.

Definition decode_offer (body : bytes) : outcome Error ControlMsg :=
  if (length body =? 0)%nat then Err (bad "empty offer") else
  n ← be_at 1 0 body;
  '(addresses, off) ← decode_addrs (Z.to_nat n) 1 body;
  if (length body <? off + TOKEN_LEN)%nat then Err (bad "missing token") else
  token ← slice off (off + TOKEN_LEN) body;
  Ok (TcpEndpointOffer addresses token).

Definition decode (type_tag : Z) (body : bytes) : outcome Error ControlMsg :=
  if type_tag =? T_OFFER then decode_offer body
  else if type_tag =? T_ACK then
    if negb (length body =? 1)%nat then Err (bad "bad ack body") else
    accepted ← be_at 1 0 body;
    Ok (TcpEndpointAck (negb (accepted =? 0)))
  else if (type_tag =? T_PING) || (type_tag =? T_PONG) then
    if negb (length body =? 8)%nat then Err (bad "bad ping/pong body") else
    ts ← be_at 8 0 body;
    Ok (if type_tag =? T_PING then Ping ts else Pong ts)
  else if type_tag =? T_PATH_DOWN then Ok TcpPathDown
  else Err (bad "unknown type").

(** The frame that is written; [body.len() as u32] keeps the low 32 bits. *)
Definition write_msg (msg : ControlMsg) : bytes :=
  let body := encode_body msg in
  [b# (type_tag msg)] ++ be_bytes 4 (Z.of_nat (length body)) ++ body.

Definition read_msg : parser reader Error ControlMsg :=
  header ← parse_err Io (read_exact 5);
  type_tag ← lift (be_at 1 0 header);
  len ← lift (be_at 4 1 header);
  if MAX_BODY <? len then fail (Rendezvous "control frame too large") else
  body ← parse_err Io (read_exact (Z.to_nat len));
  lift (decode type_tag body).

(** ** Well-formed messages *)
Definition address_ok (a : bytes) : Prop := utf8_valid a = true ∧ Z.of_nat (length a) < 2 ^ 16.

Definition msg_ok (msg : ControlMsg) : Prop :=
  match msg with
  | TcpEndpointOffer addresses token => Forall address_ok addresses ∧ length token = TOKEN_LEN
  | Ping ts | Pong ts => in_u64 ts
  | _ => True
  end.

(** What arrives: an offer carries at most 255 addresses. *)
Definition first_addresses (msg : ControlMsg) : ControlMsg :=
  match msg with TcpEndpointOffer addresses token => TcpEndpointOffer (take 255 addresses) token | _ => msg end.

Lemma encode_addr_length a : length (encode_addr a) = (2 + length a)%nat.
Proof. unfold encode_addr. by rewrite length_app, length_be_bytes. Qed.

Lemma decode_addrs_app addrs pre post :
  Forall address_ok addrs →
  decode_addrs (length addrs) (length pre) (pre ++ concat (encode_addr <$> addrs) ++ post) =
    Ok (addrs, (length pre + length (concat (encode_addr <$> addrs)))%nat).
Proof.
  revert pre. induction addrs as [|a addrs IH]; intros pre Hok; [simpl; by rewrite Nat.add_0_r|].
  apply Forall_cons_1 in Hok as [[Hu Hl] Hok]. cbn [decode_addrs length fmap list_fmap concat].
  rewrite <- (app_assoc (encode_addr a)). set (tl := concat (encode_addr <$> addrs) ++ post) in *.
  assert (encode_addr a ++ tl = be_bytes 2 (Z.of_nat (length a)) ++ a ++ tl) as E by (unfold encode_addr; by rewrite <- app_assoc).
  rewrite E. len_false. rewrite (be_at_bytes 2) by (done || (simpl; lia)). cbn [mbind outcome_bind].
  rewrite Nat2Z.id. len_false.
  replace (pre ++ be_bytes 2 (Z.of_nat (length a)) ++ a ++ tl) with ((pre ++ be_bytes 2 (Z.of_nat (length a))) ++ a ++ tl) by (by rewrite <- app_assoc).
  rewrite slice_app by (autorewrite with blen; lia). cbn [mbind outcome_bind]. rewrite from_utf8_valid by done.
  rewrite app_assoc. unfold tl.
  replace (length pre + 2 + length a)%nat with (length ((pre ++ be_bytes 2 (Z.of_nat (length a))) ++ a)) by (autorewrite with blen; lia).
  rewrite IH by done. cbn. f_equal. f_equal. rewrite !length_app, encode_addr_length, length_be_bytes. lia.
Qed.

Lemma decode_offer_app addresses token :
  Forall address_ok addresses → length token = TOKEN_LEN →
  decode_offer (encode_body (TcpEndpointOffer addresses token)) = Ok (TcpEndpointOffer (take 255 addresses) token).
Proof.
  intros Ha Ht. unfold decode_offer, encode_body. rewrite length_app. simpl length at 1. cbn [Nat.add Nat.eqb].
  set (n := Z.min (Z.of_nat (length addresses)) 255).
  assert (be_at (E := Error) 1 0 ([b# n] ++ concat (encode_addr <$> take 255 addresses) ++ token) = Ok n) as ->.
  { rewrite <- (be_bytes_1 n). apply (be_at_bytes 1 0 n []); [done|]. subst n. simpl. lia. }
  cbn [mbind outcome_bind]. replace (Z.to_nat n) with (length (take 255 addresses)) by (rewrite length_take; subst n; lia).
  change 1%nat with (length [b# n]). rewrite decode_addrs_app by (by apply Forall_take). cbn [mbind outcome_bind].
  rewrite !length_app, Ht, (proj2 (Nat.ltb_ge _ _)) by lia.
  set (l := concat _). replace ([b# n] ++ l ++ token) with (([b# n] ++ l) ++ token ++ []) by (by rewrite app_nil_r, <- app_assoc).
  by rewrite slice_app by (rewrite ?length_app, ?Ht; done).
Qed.

Lemma decode_encode_body msg :
  msg_ok msg → decode (type_tag msg) (encode_body msg) = Ok (first_addresses msg).
Proof.
  destruct msg as [addresses token|[]|ts|ts|]; try done; intros Hok.
  - destruct Hok as [Ha Ht]. by apply decode_offer_app.
  - unfold decode. cbn -[be_bytes]. rewrite length_be_bytes. cbn -[be_bytes be_at].
    by rewrite be_at_only by apply Hok.
  - unfold decode. cbn -[be_bytes]. rewrite length_be_bytes. cbn -[be_bytes be_at].
    by rewrite be_at_only by apply Hok.
Qed.

Lemma type_tag_range msg : 0 ≤ type_tag msg < 2 ^ 8.
Proof. by destruct msg. Qed.

(** Reading the header of a written message. *)
Lemma read_msg_frame msg rest e :
  Z.of_nat (length (encode_body msg)) < 2 ^ 32 →
  read_msg (Reader (write_msg msg ++ rest) e) =
    if MAX_BODY <? Z.of_nat (length (encode_body msg)) then Err (Rendezvous "control frame too large")
    else (λ m, (m, Reader rest e)) <$> decode (type_tag msg) (encode_body msg).
Proof.
  intros Hlen. unfold write_msg, read_msg. set (body := encode_body msg) in *. rewrite <- be_bytes_1.
  rewrite <- !app_assoc, (app_assoc (be_bytes 1 _)).
  set (h := be_bytes 1 (type_tag msg) ++ be_bytes 4 (Z.of_nat (length body))).
  unfold mbind, parser_bind, parse_err, lift. rewrite (read_exact_app 5 h) by done. cbn [map_err].
  assert (be_at 1 0 h = @Ok Error Z (type_tag msg)) as -> by (apply (be_at_bytes 1 0 _ []); [done|apply type_tag_range]).
  assert (be_at 4 1 h = @Ok Error Z (Z.of_nat (length body))) as ->.
  { unfold h. rewrite <- (app_nil_r (be_bytes 4 _)). apply be_at_bytes; [done|simpl; lia]. }
  cbn [fmap outcome_fmap]. destruct (MAX_BODY <? Z.of_nat (length body)); [done|].
  rewrite Nat2Z.id, read_exact_app by done. done.
Qed.

(** A control message that was written is read back, an offer with its first
    255 addresses, and what follows it is left; a message too long for the
    receiver's limit is refused as such. *)
Theorem control_roundtrip msg rest e :
  msg_ok msg → Z.of_nat (length (encode_body msg)) < 2 ^ 32 →
  read_msg (Reader (write_msg msg ++ rest) e) =
    if Z.of_nat (length (encode_body msg)) <=? MAX_BODY then Ok (first_addresses msg, Reader rest e)
    else Err (Rendezvous "control frame too large").
Proof.
  intros Hok Hlen. rewrite read_msg_frame, decode_encode_body by done. rewrite Z.leb_antisym.
  by destruct (MAX_BODY <? Z.of_nat (length (encode_body msg))).
Qed.

(** ** Every stream *)
Lemma decode_addrs_total n off body :
  (off ≤ length body)%nat →
  match decode_addrs n off body with
  | Ok (addrs, off') => length addrs = n ∧ Forall address_ok addrs ∧ (off ≤ off' ≤ length body)%nat
  | Err _ => True
  | Panic _ => False
  end.
Proof.
  revert off. induction n as [|n IH]; intros off Hoff; cbn [decode_addrs]; [done|].
  destruct (Nat.ltb_spec (length body) (off + 2)); [done|].
  destruct (be_at_ok (E := Error) 2 off body) as (alen & -> & Ha); [lia|]. cbn [mbind outcome_bind].
  destruct (Nat.ltb_spec (length body) (off + 2 + Z.to_nat alen)); [done|].
  destruct (slice_ok (E := Error) (off + 2) (off + 2 + Z.to_nat alen) body) as (a & raw & c & -> & _ & _ & Hr); [lia|].
  cbn [mbind outcome_bind]. destruct (from_utf8 raw) as [s|] eqn:Hu; [|done].
  apply from_utf8_Some in Hu as [-> Hu]. specialize (IH (off + 2 + Z.to_nat alen)%nat ltac:(lia)).
  destruct (decode_addrs n _ body) as [[addrs off']|x|m]; cbn; try done. destruct IH as (H1 & H2 & H3).
  split_and!; try lia. constructor; [|done]. split; [done|]. simpl in Ha. lia.
Qed.

Lemma decode_total tag body :
  match decode tag body with
  | Ok m => msg_ok m ∧ type_tag m = tag ∧ first_addresses m = m
  | Err _ => True
  | Panic _ => False
  end.
Proof.
  unfold decode. destruct (Z.eqb_spec tag T_OFFER) as [->|_].
  { unfold decode_offer. destruct (Nat.eqb_spec (length body) 0); [done|].
    destruct (be_at_ok (E := Error) 1 0 body) as (z & -> & Hn); [lia|]. cbn [mbind outcome_bind].
    pose proof (decode_addrs_total (Z.to_nat z) 1 body ltac:(lia)) as Ha.
    destruct (decode_addrs _ 1 body) as [[addrs off]|x|m]; cbn [mbind outcome_bind]; try done. destruct Ha as (Hl & Ha & Ho).
    destruct (Nat.ltb_spec (length body) (off + TOKEN_LEN)); [done|].
    destruct (slice_ok (E := Error) off (off + TOKEN_LEN) body) as (a & token & c & -> & _ & _ & Ht); [lia|].
    cbn [mbind outcome_bind msg_ok type_tag first_addresses]. simpl in Hn. rewrite take_ge by lia. split_and!; try done. lia. }
  destruct (Z.eqb_spec tag T_ACK) as [->|_].
  { destruct (Nat.eqb_spec (length body) 1); simpl; [|done].
    by destruct (be_at_ok (E := Error) 1 0 body) as (z & -> & Hn); [lia|]. }
  destruct (Z.eqb_spec tag T_PING) as [->|_]; [|destruct (Z.eqb_spec tag T_PONG) as [->|_]]; simpl.
  1,2: destruct (Nat.eqb_spec (length body) 8); simpl; [|done];
       destruct (be_at_ok (E := Error) 8 0 body) as (z & -> & Hn); [lia|]; split_and!; try done; apply Hn.
  by destruct (Z.eqb_spec tag T_PATH_DOWN) as [->|_].
Qed.

(** Whatever arrives on the control stream, the reader does not panic; a
    message it returns has addresses that are UTF-8 and fit their length field, a
    token of 32 bytes and a timestamp of 64 bits, and took exactly the bytes of
    its frame, of at most 64 KiB. *)
Theorem control_read_safe r :
  match read_msg r with
  | Ok (m, r') =>
      msg_ok m ∧ ∃ body, Z.of_nat (length body) ≤ MAX_BODY ∧ rd_end r' = rd_end r ∧
        rd_data r = [b# (type_tag m)] ++ be_bytes 4 (Z.of_nat (length body)) ++ body ++ rd_data r' ∧
        decode (type_tag m) body = Ok m
  | Err _ => True
  | Panic _ => False
  end.
Proof.
  unfold read_msg, mbind, parser_bind, parse_err, lift.
  destruct (read_exact 5 r) as [[h r1]|x|m] eqn:Eh; cbn [map_err]; [|done|by unfold read_exact in Eh; case_match].
  apply read_exact_Ok in Eh as (Hh & Hd & He). destruct h as [|t [|l1 [|l2 [|l3 [|l4 [|]]]]]]; try done.
  assert (be_at 1 0 [t; l1; l2; l3; l4] = @Ok Error Z (byte.unsigned t)) as ->
    by (rewrite <- be_Z_1; by apply (be_at_app 1 0 [] [t] [l1; l2; l3; l4])).
  assert (be_at 4 1 [t; l1; l2; l3; l4] = @Ok Error Z (be_Z [l1; l2; l3; l4])) as -> by (by apply (be_at_app 4 1 [t] [l1; l2; l3; l4] [])).
  set (len := be_Z [l1; l2; l3; l4]) in *. cbn [fmap outcome_fmap]. destruct (Z.ltb_spec MAX_BODY len); [done|].
  destruct (read_exact (Z.to_nat len) r1) as [[body r2]|x|m] eqn:Eb; cbn [map_err]; [|done|by unfold read_exact in Eb; case_match].
  apply read_exact_Ok in Eb as (Hb & Hd1 & He1). pose proof (decode_total (byte.unsigned t) body) as Hdec.
  destruct (decode (byte.unsigned t) body) as [msg|x|m] eqn:Ed; cbn [fmap outcome_fmap]; try done.
  destruct Hdec as (Hok & Ht & _). split; [done|]. exists body. rewrite Ht.
  pose proof (be_Z_range [l1; l2; l3; l4]) as Hr. fold len in Hr.
  assert (Z.of_nat (length body) = len) as -> by lia. split_and!; [done|congruence| |done].
  rewrite Hd, Hd1. unfold len. rewrite be_bytes_be_Z by done. by rewrite byte.of_Z_unsigned.
Qed.

(** ** Examples *)
Module ControlExamples.
Definition offer : ControlMsg := TcpEndpointOffer [[b# 49; b# 58; b# 50]; []] (replicate 32 (b# 7)).

Lemma control_roundtrip_witness :
  read_msg (Reader (write_msg offer ++ [b# 9]) None) = Ok (offer, Reader [b# 9] None).
Proof.
  rewrite (control_roundtrip offer [b# 9] None); [done| |by vm_compute].
  split; [|done]. repeat constructor.
Defined.
End ControlExamples.
