(* ===== verification/StdNet.v ===== *)
(** * IP addresses as text

    [str::parse::<IpAddr>()] of the standard library: the parser of dotted IPv4
    and of IPv6 addresses, the parts of [str] the services use on lines of text,
    and the mapping of IPv4 addresses into IPv6. *)
From S2P Require Import Prelude.

(** The bytes of a literal. *)
Definition str (s : string) : bytes := String.list_byte_of_string s.

Inductive IpAddr := IpV4 (ip : Z) | IpV6 (ip : Z).

#[export] Instance IpAddr_eq_dec : EqDecision IpAddr.
Proof. solve_decision. Defined.

(** [Ipv4Addr::to_ipv6_mapped] and [Ipv6Addr::to_ipv4_mapped]. *)
Definition to_ipv6_mapped (ip : Z) : Z := Z.lor (Z.shiftl 65535 32) ip.
Definition to_ipv4_mapped (ip : Z) : option Z := if Z.shiftr ip 32 =? 65535 then Some (ip mod 2 ^ 32) else None.

Arguments to_ipv6_mapped : simpl never.
Arguments to_ipv4_mapped : simpl never.

(** ** Reading numbers *)
Definition digit (radix : Z) (b : byte) : option Z :=
  let z := byte.unsigned b in
  let d := if (48 <=? z) && (z <=? 57) then z - 48
           else if (97 <=? z) && (z <=? 122) then z - 87
           else if (65 <=? z) && (z <=? 90) then z - 55 else radix in
  if d <? radix then Some d else None.

(** [Parser::read_number]: at most [max_digits] digits, below [bound]; [count] is
    the number of digits read and [acc] their value. *)
Fixpoint read_digits (radix : Z) (max_digits : nat) (bound : Z) (count : nat) (acc : Z) (s : bytes) : option (Z * nat * bytes) :=
  match s with
  | b :: s' =>
      match digit radix b with
      | Some d =>
          let acc := acc * radix + d in
          if (acc <? bound) && (S count <=? max_digits)%nat then read_digits radix max_digits bound (S count) acc s' else None
      | None => Some (acc, count, s)
      end
  | [] => Some (acc, count, [])
  end.

Definition starts_with_zero (s : bytes) : bool := match s with b :: _ => bool_decide (b = b# 48) | [] => false end.

Definition read_number (radix : Z) (max_digits : nat) (allow_zero_prefix : bool) (bound : Z) (s : bytes) : option (Z * bytes) :=
  '(n, count, rest) ← read_digits radix max_digits bound 0 0 s;
  if bool_decide (count = 0%nat) then None
  else if negb allow_zero_prefix && starts_with_zero s && (1 <? count)%nat then None
  else Some (n, rest).

Definition read_given_char (c : byte) (s : bytes) : option bytes :=
  match s with b :: s => if bool_decide (b = c) then Some s else None | [] => None end.

(** [Parser::read_separator]: the separator before every item but the first. *)
Definition read_separator {A} (c : byte) (index : nat) (p : bytes → option (A * bytes)) (s : bytes) : option (A * bytes) :=
  if (0 <? index)%nat then s ← read_given_char c s; p s else p s.

(** ** IPv4 *)
Definition read_ipv4_addr (s : bytes) : option (Z * bytes) :=
  let octet i s := read_separator (b# 46) i (read_number 10 3 false 256) s in
  '(a, s) ← octet 0%nat s;
  '(b, s) ← octet 1%nat s;
  '(c, s) ← octet 2%nat s;
  '(d, s) ← octet 3%nat s;
  Some (((a * 256 + b) * 256 + c) * 256 + d, s).

(** ** IPv6 *)

(** [read_groups]: up to [limit] groups, of which [i] have been read; an IPv4
    address may stand for the last two.  The flag says that one was read. *)
Fixpoint read_groups (fuel limit i : nat) (s : bytes) : list Z * bool * bytes :=
  match fuel with
  | O => ([], false, s)
  | S fuel =>
      if (i <? limit)%nat then
        let v4 := if (i <? limit - 1)%nat then read_separator (b# 58) i read_ipv4_addr s else None in
        match v4 with
        | Some (v4, s) => ([v4 / 2 ^ 16; v4 mod 2 ^ 16], true, s)
        | None =>
            match read_separator (b# 58) i (read_number 16 4 true 65536) s with
            | Some (g, s) => let '(gs, f, s) := read_groups fuel limit (S i) s in (g :: gs, f, s)
            | None => ([], false, s)
            end
        end
      else ([], false, s)
  end.

Definition groups_Z (gs : list Z) : Z := foldl (λ z g, z * 65536 + g) 0 gs.

Definition read_ipv6_addr (s : bytes) : option (Z * bytes) :=
  let '(head, head_ipv4, s) := read_groups 8 8 0 s in
  if bool_decide (length head = 8%nat) then Some (groups_Z head, s)
  else if head_ipv4 then None
  else
    s ← read_given_char (b# 58) s;
    s ← read_given_char (b# 58) s;
    let limit := (8 - (length head + 1))%nat in
    let '(tail, _, s) := read_groups 8 limit 0 s in
    Some (groups_Z (head ++ replicate (8 - length head - length tail) 0 ++ tail), s).

(** [s.parse::<IpAddr>()]. *)
Definition parse_ip (s : bytes) : option IpAddr :=
  match read_ipv4_addr s with
  | Some (ip, rest) => if bool_decide (rest = []) then Some (IpV4 ip) else None
  | None => match read_ipv6_addr s with Some (ip, []) => Some (IpV6 ip) | _ => None end
  end.

(** [Ipv4Addr::from_str] also refuses long strings. *)
Definition parse_ipv4 (s : bytes) : option Z :=
  if (15 <? length s)%nat then None
  else match read_ipv4_addr s with Some (ip, []) => Some ip | _ => None end.

(** ** Strings *)

(** The UTF-8 forms of the characters with [char::is_whitespace]. *)
Definition whitespace : list bytes :=
  ((λ z, [b# z]) <$> [9; 10; 11; 12; 13; 32]) ++
  [[b# 194; b# 133]; [b# 194; b# 160]; [b# 225; b# 154; b# 128];
   [b# 226; b# 128; b# 168]; [b# 226; b# 128; b# 169]; [b# 226; b# 128; b# 175]; [b# 226; b# 129; b# 159]; [b# 227; b# 128; b# 128]] ++
  ((λ z, [b# 226; b# 128; b# z]) <$> [128; 129; 130; 131; 132; 133; 134; 135; 136; 137; 138]).

(** [str::strip_prefix]. *)
Definition strip_prefix (p s : bytes) : option bytes :=
  if bool_decide (take (length p) s = p) then Some (drop (length p) s) else None.

Lemma strip_prefix_app p s : strip_prefix p (p ++ s) = Some s.
Proof. unfold strip_prefix. by rewrite take_app_length, drop_app_length, bool_decide_true. Qed.

Lemma strip_prefix_Some p s r : strip_prefix p s = Some r ↔ s = p ++ r.
Proof.
  split; [|intros ->; apply strip_prefix_app]. unfold strip_prefix. case_bool_decide as E; [|done]. intros [= <-].
  rewrite <- (take_drop (length p) s) at 1. by rewrite E.
Qed.

Definition strip_suffix (p s : bytes) : option bytes :=
  reverse <$> strip_prefix (reverse p) (reverse s).

Lemma strip_suffix_Some p s r : strip_suffix p s = Some r ↔ s = r ++ p.
Proof.
  unfold strip_suffix. rewrite fmap_Some. setoid_rewrite strip_prefix_Some. split.
  - intros (x & Hx & ->). by rewrite <- (reverse_involutive s), Hx, reverse_app, reverse_involutive.
  - intros ->. exists (reverse r). by rewrite reverse_app, reverse_involutive.
Qed.

Fixpoint strip_any (ps : list bytes) (s : bytes) : option bytes :=
  match ps with
  | [] => None
  | p :: ps => match strip_prefix p s with Some s => Some s | None => strip_any ps s end
  end.

(** [trim_start_matches]: the patterns are not empty, so that every turn takes a
    byte. *)
Fixpoint trim_start_any (fuel : nat) (ps : list bytes) (s : bytes) : bytes :=
  match fuel with
  | O => s
  | S fuel => match strip_any ps s with Some s => trim_start_any fuel ps s | None => s end
  end.

Definition trim_start (ps : list bytes) (s : bytes) : bytes := trim_start_any (length s) ps s.
Definition trim_end (ps : list bytes) (s : bytes) : bytes := reverse (trim_start (reverse <$> ps) (reverse s)).

(** [str::trim]. *)
Definition trim (s : bytes) : bytes := trim_end whitespace (trim_start whitespace s).

(** ** Examples *)
Example parse_ip_v4 : parse_ip (str "192.168.1.20") = Some (IpV4 3232235796).
Proof. by vm_compute. Qed.

Example parse_ip_v4_leading_zero : parse_ip (str "192.168.01.20") = None.
Proof. by vm_compute. Qed.

Example parse_ip_v6 : parse_ip (str "2001:db8::1") = Some (IpV6 42540766411282592856903984951653826561).
Proof. by vm_compute. Qed.

Example parse_ip_v6_mapped : parse_ip (str "::ffff:1.2.3.4") = Some (IpV6 (to_ipv6_mapped 16909060)).
Proof. by vm_compute. Qed.

Example trim_example : trim (str "  a b ") = str "a b".
Proof. by vm_compute. Qed.

(** ** Mapped addresses *)
Lemma to_ipv4_mapped_mapped ip : 0 ≤ ip < 2 ^ 32 → to_ipv4_mapped (to_ipv6_mapped ip) = Some ip.
Proof.
  intros H. unfold to_ipv4_mapped, to_ipv6_mapped. rewrite Z.shiftr_lor, Z.shiftr_shiftl_l by lia.
  rewrite (Z.shiftr_div_pow2 ip), (Z.div_small ip) by lia. simpl. f_equal.
  rewrite <- Z.land_ones by lia. rewrite Z.land_lor_distr_l, !Z.land_ones by lia.
  rewrite (Z.mod_small ip) by lia. by vm_compute (Z.shiftl 65535 32 mod 2 ^ 32).
Qed.

(** ** Printing *)

(** The digits of a number, the least significant first, at most [n] of them. *)
Fixpoint digits_rev (n : nat) (radix z : Z) : list Z :=
  match n with
  | O => []
  | S n => (z mod radix) :: (if z / radix =? 0 then [] else digits_rev n radix (z / radix))
  end.

Definition digit_char (d : Z) : byte := b# (if d <? 10 then d + 48 else d + 87).

Definition show_number (n : nat) (radix z : Z) : bytes := digit_char <$> reverse (digits_rev n radix z).

(** [Ipv4Addr]'s [Display]. *)
Definition show_octet (z : Z) : bytes := show_number 3 10 z.
Definition show_ipv4 (ip : Z) : bytes :=
  show_octet (ip / 2 ^ 24 mod 256) ++ b# 46 :: show_octet (ip / 2 ^ 16 mod 256) ++ b# 46 ::
  show_octet (ip / 2 ^ 8 mod 256) ++ b# 46 :: show_octet (ip mod 256).

(** [Ipv6Addr]'s [Display]: the first of the longest runs of at least two zero
    groups is left out. *)
Definition segments (ip : Z) : list Z := (λ i, ip / 2 ^ (16 * (7 - Z.of_nat i)) mod 65536) <$> seq 0 8.

Definition span_step (acc : (nat * nat) * (nat * nat)) (g : nat * Z) : (nat * nat) * (nat * nat) :=
  let '((lstart, llen), (cstart, clen)) := acc in
  if g.2 =? 0 then
    let cstart := if (clen =? 0)%nat then g.1 else cstart in
    let clen := S clen in
    if (llen <? clen)%nat then ((cstart, clen), (cstart, clen)) else ((lstart, llen), (cstart, clen))
  else ((lstart, llen), (0%nat, 0%nat)).

Definition longest_zeroes (gs : list Z) : nat * nat := fst (foldl span_step ((0%nat, 0%nat), (0%nat, 0%nat)) (imap (λ i g, (i, g)) gs)).

Fixpoint show_groups (gs : list Z) : bytes :=
  match gs with
  | [] => []
  | [g] => show_number 4 16 g
  | g :: gs => show_number 4 16 g ++ b# 58 :: show_groups gs
  end.

Definition show_ipv6 (ip : Z) : bytes :=
  match to_ipv4_mapped ip with
  | Some v4 => str "::ffff:" ++ show_ipv4 v4
  | None =>
      let gs := segments ip in
      let '(start, len) := longest_zeroes gs in
      if (1 <? len)%nat then show_groups (take start gs) ++ str "::" ++ show_groups (drop (start + len) gs)
      else show_groups gs
  end.

(** [s.parse::<Ipv6Addr>()]. *)
Definition parse_ipv6 (s : bytes) : option Z := match read_ipv6_addr s with Some (ip, []) => Some ip | _ => None end.

Example show_ipv6_examples :
  show_ipv6 42540766411282592856903984951653826561 = str "2001:db8::1" ∧ show_ipv6 1 = str "::1" ∧ show_ipv6 0 = str "::" ∧
  show_ipv6 (to_ipv6_mapped 16909060) = str "::ffff:1.2.3.4".
Proof. by vm_compute. Qed.

(** *** Reading what was printed *)
Lemma length_digits_rev n radix z : (length (digits_rev n radix z) ≤ n)%nat.
Proof.
  revert z. induction n as [|n IH]; intros z; simpl; [done|]. specialize (IH (z / radix)). destruct (_ =? 0); simpl; lia.
Qed.

Lemma length_show_octet z : (length (show_octet z) ≤ 3)%nat.
Proof. unfold show_octet, show_number. rewrite length_fmap, length_reverse. apply length_digits_rev. Qed.

(** ** Digits *)
Section digits.
Context (radix : Z) (Hradix : 2 ≤ radix ≤ 36).

Lemma digit_char_digit d : 0 ≤ d < radix → digit radix (digit_char d) = Some d.
Proof using Hradix.
  intros Hd. unfold digit, digit_char. destruct (d <? 10) eqn:E.
  - rewrite unsigned_of_Z_small by lia. replace ((48 <=? d + 48) && (d + 48 <=? 57)) with true by lia.
    replace (d + 48 - 48) with d by lia. by replace (d <? radix) with true by lia.
  - rewrite unsigned_of_Z_small by lia. replace ((48 <=? d + 87) && (d + 87 <=? 57)) with false by lia.
    replace ((97 <=? d + 87) && (d + 87 <=? 122)) with true by lia.
    replace (d + 87 - 87) with d by lia. by replace (d <? radix) with true by lia.
Qed.

Lemma digits_rev_range n z : Forall (λ d, 0 ≤ d < radix) (digits_rev n radix z).
Proof using Hradix.
  revert z. induction n as [|n IH]; intros z; simpl; [constructor|].
  constructor; [apply Z.mod_pos_bound; lia|]. destruct (_ =? 0); [constructor|apply IH].
Qed.

Definition value (acc : Z) (ds : list Z) : Z := foldl (λ a d, a * radix + d) acc ds.

Lemma value_digits n z : 0 ≤ z < radix ^ Z.of_nat n → value 0 (reverse (digits_rev n radix z)) = z.
Proof using Hradix.
  revert z. induction n as [|n IH]; intros z Hz; cbn [digits_rev].
  - change (radix ^ Z.of_nat 0) with 1 in Hz. unfold value. simpl. lia.
  - rewrite reverse_cons. unfold value. rewrite foldl_snoc. fold (value 0).
    rewrite Nat2Z.inj_succ, Z.pow_succ_r in Hz by lia. pose proof (Z.div_mod z radix ltac:(lia)).
    assert (0 ≤ z / radix < radix ^ Z.of_nat n)
      by (split; [apply Z.div_pos; lia|apply Z.div_lt_upper_bound; lia]).
    destruct (_ =? 0) eqn:E.
    + apply Z.eqb_eq in E. change (reverse (@nil Z)) with (@nil Z). cbn [foldl value]. lia.
    + fold (value 0 (reverse (digits_rev n radix (z / radix)))). rewrite IH by done. lia.
Qed.

Lemma value_mono acc ds : 0 ≤ acc → Forall (λ d, 0 ≤ d < radix) ds → acc ≤ value acc ds.
Proof using Hradix.
  revert acc. induction ds as [|d ds IH]; intros acc Ha Hd; [done|].
  apply list.Forall_cons in Hd as [Hd Hds]. cbn [value foldl]. fold (value (acc * radix + d) ds).
  specialize (IH (acc * radix + d) ltac:(nia) Hds). nia.
Qed.

(** A rest that does not go on with a digit. *)
Definition stops (rest : bytes) : Prop := match rest with [] => True | b :: _ => digit radix b = None end.

Lemma read_digits_show maxd bound ds : ∀ count acc rest,
  0 ≤ acc → Forall (λ d, 0 ≤ d < radix) ds → value acc ds < bound → (count + length ds ≤ maxd)%nat → stops rest →
  read_digits radix maxd bound count acc ((digit_char <$> ds) ++ rest) = Some (value acc ds, (count + length ds)%nat, rest).
Proof using Hradix.
  induction ds as [|d ds IH]; intros count acc rest Ha Hds Hb Hm Hs.
  - rewrite fmap_nil. cbn [app length value foldl]. rewrite Nat.add_0_r. destruct rest as [|b rest]; [done|]. simpl in Hs. cbn [read_digits]. by rewrite Hs.
  - apply list.Forall_cons in Hds as [Hd Hds]. rewrite fmap_cons. cbn [app read_digits]. rewrite digit_char_digit by done.
    cbn [value foldl] in *. fold (value (acc * radix + d) ds) in *. simpl in Hm.
    pose proof (value_mono (acc * radix + d) ds ltac:(nia) Hds).
    replace ((acc * radix + d <? bound) && (S count <=? maxd)%nat) with true.
    2:{ symmetry. apply andb_true_intro. split; [apply Z.ltb_lt; lia|apply Nat.leb_le; lia]. }
    rewrite IH by (done || nia || lia). do 3 f_equal. simpl. lia.
Qed.

Lemma digits_rev_nonempty n z : (0 < length (digits_rev (S n) radix z))%nat.
Proof using. simpl. lia. Qed.

Lemma read_show_number n maxd bound z rest :
  0 ≤ z < radix ^ Z.of_nat (S n) → z < bound → (S n ≤ maxd)%nat → stops rest →
  read_number radix maxd true bound (show_number (S n) radix z ++ rest) = Some (z, rest).
Proof using Hradix.
  intros Hz Hb Hm Hs. unfold read_number, show_number.
  pose proof (length_digits_rev (S n) radix z) as Hl. pose proof (digits_rev_nonempty n z).
  rewrite read_digits_show, value_digits, length_reverse;
    rewrite ?value_digits, ?length_reverse; try lia; try done.
  apply Forall_reverse, digits_rev_range.
Qed.
End digits.

Lemma digit_char_decimal d : 0 ≤ d < 10 → byte.unsigned (digit_char d) = d + 48.
Proof. intros. unfold digit_char. rewrite (proj2 (Z.ltb_lt _ _)) by lia. apply unsigned_of_Z_small. lia. Qed.

(** The printed number is made of decimal digits. *)
Lemma show_number_decimal n z b : b ∈ show_number n 10 z → 48 ≤ byte.unsigned b ≤ 57.
Proof.
  unfold show_number. intros (d & -> & Hd)%list_elem_of_fmap. rewrite elem_of_reverse in Hd.
  pose proof (digits_rev_range 10 ltac:(lia) n z) as Hr. rewrite list.Forall_forall in Hr. specialize (Hr _ Hd). simpl in Hr.
  rewrite digit_char_decimal by done. lia.
Qed.

(** The most significant digit of a number other than zero is not zero. *)
Lemma digits_rev_last n z d : 0 < z < 10 ^ Z.of_nat n → list.last (digits_rev n 10 z) = Some d → d ≠ 0.
Proof.
  revert z. induction n as [|n IH]; intros z Hz; [done|]. cbn [digits_rev].
  rewrite Nat2Z.inj_succ, Z.pow_succ_r in Hz by lia. pose proof (Z.div_mod z 10 ltac:(lia)).
  assert (0 ≤ z / 10 < 10 ^ Z.of_nat n) by (split; [apply Z.div_pos; lia|apply Z.div_lt_upper_bound; lia]).
  destruct (_ =? 0) eqn:E; [apply Z.eqb_eq in E; simpl; intros [= <-]; lia|]. apply Z.eqb_neq in E.
  rewrite list.last_cons. destruct (list.last (digits_rev n 10 (z / 10))) as [d'|] eqn:El.
  - intros [= <-]. apply (IH (z / 10)); [lia|done].
  - apply list.last_None in El. destruct n; [simpl in *; lia|]. simpl in El. done.
Qed.

Lemma show_number_zero n z rest : 0 ≤ z < 10 ^ Z.of_nat (S n) → starts_with_zero (show_number (S n) 10 z ++ rest) = true → z = 0.
Proof.
  intros Hz. destruct (decide (z = 0)) as [|Hne]; [done|]. unfold show_number.
  destruct (list.last (digits_rev (S n) 10 z)) as [d|] eqn:El; [|apply list.last_None in El; done].
  pose proof (digits_rev_last (S n) z d ltac:(lia) El) as Hd.
  apply list.last_Some in El as [l El]. pose proof (digits_rev_range 10 ltac:(lia) (S n) z) as Hr.
  rewrite El in *. apply list.Forall_app in Hr as [_ Hr]. apply list.Forall_cons in Hr as [Hr _].
  rewrite reverse_snoc. simpl. case_bool_decide as Hb; [|done].
  apply (f_equal byte.unsigned) in Hb. rewrite digit_char_decimal in Hb by lia. rewrite unsigned_of_Z_small in Hb; lia.
Qed.

Lemma read_show_octet z rest : 0 ≤ z < 256 → stops 10 rest → read_number 10 3 false 256 (show_octet z ++ rest) = Some (z, rest).
Proof.
  intros Hz Hs. pose proof (read_show_number 10 ltac:(lia) 2 3 256 z rest) as E. unfold show_octet.
  specialize (E ltac:(change (10 ^ Z.of_nat 3) with 1000; lia) ltac:(lia) ltac:(lia) Hs).
  unfold read_number in *. destruct (read_digits 10 3 256 0 0 (show_number 3 10 z ++ rest)) as [[[v c] r]|] eqn:Er; [|done].
  cbn [mbind option_bind negb andb] in *. case_bool_decide; [done|].
  destruct (starts_with_zero (show_number 3 10 z ++ rest)) eqn:Ez; [|done].
  apply show_number_zero in Ez; [|change (10 ^ Z.of_nat 3) with 1000; lia]. subst z.
  change (show_number 3 10 0) with [b# 48] in Er. cbn [app] in Er. destruct rest as [|b rest].
  - vm_compute in Er. by injection Er as <- <- <-.
  - simpl in Hs. cbn [read_digits] in Er. change (digit 10 (b# 48)) with (Some 0) in Er. cbn [app] in Er.
    change ((0 * 10 + 0 <? 256) && (1 <=? 3)%nat) with true in Er. cbn match in Er. rewrite Hs in Er. injection Er as <- <- <-. done.
Qed.

Lemma stops_dot r : stops 10 (b# 46 :: r).
Proof. done. Qed.

(** An address followed by something else than a digit. *)
Lemma read_show_ipv4 ip rest : 0 ≤ ip < 2 ^ 32 → stops 10 rest → read_ipv4_addr (show_ipv4 ip ++ rest) = Some (ip, rest).
Proof.
  intros Hip Hs. unfold show_ipv4.
  set (a := ip / 2 ^ 24 mod 256). set (b := ip / 2 ^ 16 mod 256). set (c := ip / 2 ^ 8 mod 256). set (d := ip mod 256).
  assert (0 ≤ a < 256 ∧ 0 ≤ b < 256 ∧ 0 ≤ c < 256 ∧ 0 ≤ d < 256) as (Ha & Hb & Hc & Hd)
    by (unfold a, b, c, d; split_and!; apply Z.mod_pos_bound; lia).
  unfold read_ipv4_addr, read_separator. cbn [Nat.ltb Nat.leb].
  repeat (rewrite <- ?app_assoc; cbn [app]; rewrite read_show_octet by first [done|apply stops_dot];
    cbn [mbind option_bind read_given_char]; rewrite ?bool_decide_true by done; cbn [mbind option_bind]).
  do 2 f_equal. unfold a, b, c, d in *. clear a b c d Ha Hb Hc Hd.
  rewrite (Z.mod_small (ip / 2 ^ 24)) by (split; [apply Z.div_pos; lia|apply Z.div_lt_upper_bound; lia]).
  change (2 ^ 24) with (256 * 256 * 256). change (2 ^ 16) with (256 * 256). change (2 ^ 8) with 256.
  rewrite <- !Z.div_div by lia.
  pose proof (Z.div_mod ip 256). pose proof (Z.div_mod (ip / 256) 256). pose proof (Z.div_mod (ip / 256 / 256) 256). lia.
Qed.

Lemma parse_show_ipv4 ip : 0 ≤ ip < 2 ^ 32 → parse_ipv4 (show_ipv4 ip) = Some ip.
Proof.
  intros Hip. unfold parse_ipv4. pose proof (read_show_ipv4 ip [] Hip I) as E. rewrite app_nil_r in E. rewrite E.
  rewrite (proj2 (Nat.ltb_ge _ _)); [done|]. unfold show_ipv4.
  repeat first [rewrite length_app|rewrite length_cons].
  repeat match goal with |- context [length (show_octet ?z)] => pose proof (length_show_octet z); generalize dependent (length (show_octet z)); intros end.
  lia.
Qed.

Lemma show_ipv4_inj a b : 0 ≤ a < 2 ^ 32 → 0 ≤ b < 2 ^ 32 → show_ipv4 a = show_ipv4 b → a = b.
Proof. intros Ha Hb E. apply (f_equal parse_ipv4) in E. rewrite !parse_show_ipv4 in E by done. congruence. Qed.
