(* ===== verification/NetText.v ===== *)
(** * Socket addresses and numbers as text

    [Display] and [FromStr] of the standard library's integers, IPv6 addresses
    and socket addresses, as the configuration uses them.  Shown: reading what was
    printed gives the same number, IPv6 address ([parse_show_ipv6]) or socket
    address ([socket_addr_roundtrip]), and a parser that stops at a byte it cannot
    use reads the same with or without what follows. *)
From S2P Require Import Prelude.
From S2P Require Import Utf8.
From S2P Require Import Socks5.
From S2P Require Import StdNet.

Definition COLON : byte := b# 58.

(** ** Integers

    [str::parse] of an unsigned integer type below [bound]: a leading [+] is
    accepted, zeros too. *)
Fixpoint parse_digits (radix bound acc : Z) (s : bytes) : option Z :=
  match s with
  | [] => Some acc
  | b :: s => d ← digit radix b; if acc * radix + d <? bound then parse_digits radix bound (acc * radix + d) s else None
  end.

(** [from_str_radix]; [parse] is radix 10. *)
Definition from_str_radix (radix bound : Z) (s : bytes) : option Z :=
  match s with
  | [] => None
  | b :: s' =>
      if bool_decide (b = b# 43) then match s' with [] => None | _ => parse_digits radix bound 0 s' end
      else parse_digits radix bound 0 s
  end.

Definition parse_unsigned (bound : Z) (s : bytes) : option Z := from_str_radix 10 bound s.

Definition parse_u16 (s : bytes) : option Z := parse_unsigned (2 ^ 16) s.

(** [Display] of [u16] and [u32]. *)
Definition show_u16 (z : Z) : bytes := show_number 5 10 z.
Definition show_u32 (z : Z) : bytes := show_number 10 10 z.

(** ** Socket addresses *)
Definition read_port (s : bytes) : option (Z * bytes) :=
  s ← read_given_char COLON s; read_number 10 (length s) true (2 ^ 16) s.

Definition read_scope_id (s : bytes) : option (Z * bytes) :=
  s ← read_given_char (b# 37) s; read_number 10 (length s) true (2 ^ 32) s.

Definition read_socket_addr_v4 (s : bytes) : option (SocketAddr * bytes) :=
  '(ip, s) ← read_ipv4_addr s;
  '(port, s) ← read_port s;
  Some (V4 ip port, s).

Definition read_socket_addr_v6 (s : bytes) : option (SocketAddr * bytes) :=
  s ← read_given_char (b# 91) s;
  '(ip, s) ← read_ipv6_addr s;
  let '(scope_id, s) := default (0, s) (read_scope_id s) in
  s ← read_given_char (b# 93) s;
  '(port, s) ← read_port s;
  Some (V6 ip port 0 scope_id, s).

(** [s.parse::<SocketAddr>()]. *)
Definition parse_socket_addr (s : bytes) : option SocketAddr :=
  match (match read_socket_addr_v4 s with Some r => Some r | None => read_socket_addr_v6 s end) with
  | Some (a, []) => Some a
  | _ => None
  end.

(** [Display] of [SocketAddr]: the flow label is not printed. *)
Definition show_socket_addr (a : SocketAddr) : bytes :=
  match a with
  | V4 ip port => show_ipv4 ip ++ COLON :: show_u16 port
  | V6 ip port _ scope_id =>
      b# 91 :: show_ipv6 ip ++ (if scope_id =? 0 then [] else b# 37 :: show_u32 scope_id) ++ b# 93 :: COLON :: show_u16 port
  end.

Definition text_addr (a : SocketAddr) : Prop :=
  match a with
  | V4 ip port => 0 ≤ ip < 2 ^ 32 ∧ 0 ≤ port < 2 ^ 16
  | V6 ip port flowinfo scope_id => 0 ≤ ip < 2 ^ 128 ∧ 0 ≤ port < 2 ^ 16 ∧ flowinfo = 0 ∧ 0 ≤ scope_id < 2 ^ 32
  end.

Example socket_addr_examples :
  parse_socket_addr (str "127.0.0.1:8388") = Some (V4 2130706433 8388) ∧
  parse_socket_addr (str "[::1]:8388") = Some (V6 1 8388 0 0) ∧
  parse_socket_addr (str "[fe80::1%3]:80") = Some (V6 (254 * 2 ^ 120 + 128 * 2 ^ 112 + 1) 80 0 3) ∧
  parse_socket_addr (str "::1:80") = None ∧ parse_socket_addr (str "1.2.3.4:65536") = None.
Proof. by vm_compute. Qed.

(** [from_str_radix] reads what was printed; no digit is a sign. *)
Lemma parse_digits_show radix bound ds : 2 ≤ radix ≤ 36 → ∀ acc,
  0 ≤ acc → Forall (λ d, 0 ≤ d < radix) ds → value radix acc ds < bound →
  parse_digits radix bound acc (digit_char <$> ds) = Some (value radix acc ds).
Proof.
  intros Hradix. induction ds as [|d ds IH]; intros acc Ha Hd Hb; [done|]. apply list.Forall_cons in Hd as [Hd Hds].
  rewrite fmap_cons. cbn [parse_digits]. rewrite digit_char_digit by lia. cbn [mbind option_bind value foldl] in *.
  fold (value radix (acc * radix + d) ds) in *. pose proof (value_mono radix Hradix (acc * radix + d) ds ltac:(nia) Hds).
  rewrite (proj2 (Z.ltb_lt _ _)) by lia. by apply IH; [nia|..].
Qed.

Lemma from_str_radix_show radix bound d ds :
  2 ≤ radix ≤ 36 → Forall (λ d, 0 ≤ d < radix) (d :: ds) → value radix 0 (d :: ds) < bound →
  from_str_radix radix bound (digit_char <$> (d :: ds)) = Some (value radix 0 (d :: ds)).
Proof.
  intros Hr Hd Hb. pose proof (parse_digits_show radix bound (d :: ds) Hr 0 ltac:(lia) Hd Hb) as E.
  unfold from_str_radix. rewrite fmap_cons in *. rewrite bool_decide_false; [done|]. apply list.Forall_cons in Hd as [Hd _].
  intros E'. pose proof (digit_char_digit 36 ltac:(lia) d ltac:(lia)) as H. rewrite E' in H. by vm_compute in H.
Qed.

Lemma parse_show_unsigned n bound z : 0 ≤ z < 10 ^ Z.of_nat (S n) → z < bound → parse_unsigned bound (show_number (S n) 10 z) = Some z.
Proof.
  intros Hz Hb. unfold parse_unsigned, show_number.
  pose proof (value_digits 10 ltac:(lia) (S n) z Hz) as Hv. pose proof (digits_rev_range 10 ltac:(lia) (S n) z) as Hr. apply Forall_reverse in Hr.
  destruct (reverse (digits_rev (S n) 10 z)) as [|d ds] eqn:E.
  - apply (f_equal length) in E. rewrite length_reverse in E. pose proof (digits_rev_nonempty 10 n z). simpl length in *. lia.
  - rewrite from_str_radix_show; rewrite ?Hv; done.
Qed.

Lemma parse_show_u16 z : 0 ≤ z < 2 ^ 16 → parse_u16 (show_u16 z) = Some z.
Proof. intros. apply (parse_show_unsigned 4); change (10 ^ Z.of_nat 5) with 100000; lia. Qed.


(** ** IPv6 addresses before other text

    A rest that ends the groups of an address: it starts with no digit, no dot and
    no group separator followed by a digit. *)
Definition ends_groups (rest : bytes) : Prop :=
  match rest with
  | [] => True
  | b :: r => digit 16 b = None ∧ b ≠ b# 46 ∧ (b = COLON → stops 16 r ∧ head r ≠ Some (b# 46))
  end.

Lemma ends_groups_stops rest : ends_groups rest → stops 16 rest.
Proof. destruct rest; simpl; tauto. Qed.

Lemma digit_16_10 b : digit 16 b = None → digit 10 b = None.
Proof.
  unfold digit. set (z := byte.unsigned b). destruct ((48 <=? z) && (z <=? 57)) eqn:E1.
  - destruct (z - 48 <? 16) eqn:E; [done|]. lia.
  - destruct ((97 <=? z) && (z <=? 122)) eqn:E2; [destruct (z - 87 <? 16) eqn:E; [done|]; intros _; destruct (z - 87 <? 10) eqn:?; [lia|done]|].
    destruct ((65 <=? z) && (z <=? 90)) eqn:E3; [|done].
    destruct (z - 55 <? 16) eqn:E; [done|]; intros _; destruct (z - 55 <? 10) eqn:?; [lia|done].
Qed.

(** Reading digits leaves a suffix. *)
Lemma read_digits_suffix radix maxd bound count acc s v c r :
  read_digits radix maxd bound count acc s = Some (v, c, r) → ∃ ds, s = ds ++ r ∧ c = (count + length ds)%nat ∧ Forall (λ b, digit radix b ≠ None) ds.
Proof.
  revert count acc. induction s as [|b s IH]; intros count acc; cbn [read_digits].
  - intros [= <- <- <-]. exists []. split_and!; [done|simpl; lia|constructor].
  - destruct (digit radix b) as [d|] eqn:E.
    + destruct (_ && _); [|done]. intros (ds & -> & -> & Hds)%IH. exists (b :: ds). split_and!; [done|simpl; lia|constructor; [congruence|done]].
    + intros [= <- <- <-]. exists []. split_and!; [done|simpl; lia|constructor].
Qed.

Lemma read_number_suffix radix maxd z0 bound s v r :
  read_number radix maxd z0 bound s = Some (v, r) → ∃ ds, s = ds ++ r ∧ Forall (λ b, digit radix b ≠ None) ds.
Proof.
  unfold read_number. destruct (read_digits _ _ _ _ _ _) as [[[v' c] r']|] eqn:E; [|done]. cbn [mbind option_bind].
  repeat case_match; try done. intros [= <- <-]. apply read_digits_suffix in E as (ds & ? & _ & ?). eauto.
Qed.

(** A printed group is not the beginning of an IPv4 address. *)
Lemma read_ipv4_group s rest :
  Forall (λ b, b ≠ b# 46) s → head rest ≠ Some (b# 46) → stops 10 rest → read_ipv4_addr (s ++ rest) = None.
Proof.
  intros Hs Hr Hst. unfold read_ipv4_addr, read_separator. cbn [Nat.ltb Nat.leb].
  destruct (read_number 10 3 false 256 (s ++ rest)) as [[v r]|] eqn:E; [|done]. cbn [mbind option_bind].
  apply read_number_suffix in E as (ds & E & Hds). destruct r as [|b r]; [done|]. cbn [read_given_char mbind option_bind].
  rewrite bool_decide_false; [done|]. intros ->.
  assert (b# 46 ∈ s) as Hin; [|rewrite list.Forall_forall in Hs; by apply Hs in Hin].
  revert ds E Hds. induction s as [|x s IH]; intros ds E Hds.
  - simpl in E. destruct ds as [|d ds]; simpl in E.
    + subst rest. by simpl in Hr.
    + subst rest. simpl in Hst. apply list.Forall_cons in Hds as [Hd _]. congruence.
  - destruct ds as [|d ds]; simpl in E; injection E as -> E; [by left|]. right.
    apply list.Forall_cons in Hs as [_ Hs]. apply list.Forall_cons in Hds as [_ Hds]. eauto.
Qed.

Definition group (g : Z) : Prop := 0 ≤ g < 65536.

Lemma digit_char_not_dot d : 0 ≤ d < 36 → digit_char d ≠ b# 46.
Proof.
  intros Hd E. pose proof (digit_char_digit 36 ltac:(lia) d Hd) as H. rewrite E in H. by vm_compute in H.
Qed.

Lemma show_group_no_dot g : Forall (λ b, b ≠ b# 46) (show_number 4 16 g).
Proof.
  unfold show_number. apply Forall_fmap, Forall_reverse. eapply list.Forall_impl; [apply (digits_rev_range 16); lia|].
  simpl. intros d Hd. apply digit_char_not_dot. lia.
Qed.

Lemma read_show_group g rest : group g → stops 16 rest → read_number 16 4 true 65536 (show_number 4 16 g ++ rest) = Some (g, rest).
Proof. intros Hg Hs. apply (read_show_number 16 ltac:(lia) 3); [exact Hg|apply Hg|lia|done]. Qed.

(** The separator of the next group, or the end of the groups. *)
Lemma stops_16_10 rest : stops 16 rest → stops 10 rest.
Proof. destruct rest; simpl; [done|]. apply digit_16_10. Qed.

Lemma read_groups_none fuel limit i rest :
  (0 < i)%nat → ends_groups rest → read_groups fuel limit i rest = ([], false, rest).
Proof.
  intros Hi Hr. destruct fuel as [|fuel]; [done|]. cbn [read_groups]. destruct (i <? limit)%nat; [|done].
  unfold read_separator. rewrite (proj2 (Nat.ltb_lt _ _) Hi). destruct rest as [|b rest].
  { cbn [read_given_char mbind option_bind]. by destruct (i <? limit - 1)%nat. }
  cbn [read_given_char]. case_bool_decide as Hb.
  - destruct Hr as (_ & _ & Hr). specialize (Hr Hb) as [Hs Hd]. cbn [mbind option_bind].
    pose proof (read_ipv4_group [] rest (Forall_nil_2 _) Hd (stops_16_10 _ Hs)) as E4. cbn [app] in E4. rewrite E4.
    assert (read_number 16 4 true 65536 rest = None) as ->; [|by destruct (i <? limit - 1)%nat].
    unfold read_number. destruct rest as [|c rest]; [done|]. simpl in Hs. cbn [read_digits]. by rewrite Hs.
  - cbn [mbind option_bind]. by destruct (i <? limit - 1)%nat.
Qed.

Lemma read_groups_show gs : ∀ fuel limit i rest,
  gs ≠ [] → Forall group gs → (i + length gs ≤ limit)%nat → (length gs ≤ fuel)%nat → ends_groups rest →
  read_groups fuel limit i ((if (0 <? i)%nat then [COLON] else []) ++ show_groups gs ++ rest) = (gs, false, rest).
Proof.
  induction gs as [|g gs IH]; intros fuel limit i rest Hne Hg Hl Hf Hr; [done|].
  apply list.Forall_cons in Hg as [Hg Hgs]. destruct fuel as [|fuel]; [simpl in Hf; lia|]. simpl in Hl, Hf.
  set (after := match gs with [] => rest | _ => COLON :: show_groups gs ++ rest end).
  assert (show_groups (g :: gs) ++ rest = show_number 4 16 g ++ after) as ->
    by (unfold after; destruct gs; [done|]; cbn [show_groups]; by rewrite <- app_assoc).
  assert (stops 16 after ∧ head after ≠ Some (b# 46)) as [Hst Hhd].
  { unfold after. destruct gs; [|done]. destruct rest as [|b rest]; [done|]. destruct Hr as (? & ? & _). split; [done|]. simpl. congruence. }
  cbn [read_groups]. rewrite (proj2 (Nat.ltb_lt i limit)) by lia.
  assert (∀ A (p : bytes → option (A * bytes)) s, read_separator (b# 58) i p ((if (0 <? i)%nat then [COLON] else []) ++ s) = p s) as Hsep.
  { intros A p s. unfold read_separator. destruct (0 <? i)%nat; [|done]. cbn [app read_given_char]. by rewrite bool_decide_true. }
  rewrite !Hsep, read_ipv4_group by (done || apply show_group_no_dot || by apply stops_16_10).
  rewrite read_show_group by done.
  assert (read_groups fuel limit (S i) after = (gs, false, rest)) as ->; [|by destruct (i <? limit - 1)%nat].
  unfold after. destruct gs as [|g' gs']; [apply read_groups_none; [lia|done]|].
  apply (IH fuel limit (S i) rest); try done; simpl in *; lia.
Qed.

Lemma read_groups_none_first fuel limit rest :
  stops 16 rest → head rest ≠ Some (b# 46) → read_groups fuel limit 0 rest = ([], false, rest).
Proof.
  intros Hs Hd. destruct fuel as [|fuel]; [done|]. cbn [read_groups]. destruct (0 <? limit)%nat; [|done].
  unfold read_separator. cbn [Nat.ltb Nat.leb].
  pose proof (read_ipv4_group [] rest (Forall_nil_2 _) Hd (stops_16_10 _ Hs)) as E4. cbn [app] in E4. rewrite E4.
  assert (read_number 16 4 true 65536 rest = None) as ->; [|by destruct (limit - 1)%nat].
  unfold read_number. destruct rest as [|c rest]; [done|]. simpl in Hs. cbn [read_digits]. by rewrite Hs.
Qed.

Lemma read_groups_first gs fuel limit rest :
  Forall group gs → (length gs ≤ limit)%nat → (length gs ≤ fuel)%nat → ends_groups rest →
  read_groups fuel limit 0 (show_groups gs ++ rest) = (gs, false, rest).
Proof.
  intros Hg Hl Hf Hr. destruct (decide (gs = [])) as [->|Hne].
  - apply read_groups_none_first; [by apply ends_groups_stops|]. destruct rest as [|b r]; [done|]. destruct Hr as (? & ? & _). simpl. congruence.
  - apply (read_groups_show gs fuel limit 0 rest); done.
Qed.

(** *** The run of zeros that is left out *)
Definition zeros (gs : list Z) (start len : nat) : Prop :=
  (start + len ≤ length gs)%nat ∧ ∀ k, (start ≤ k < start + len)%nat → gs !! k = Some 0.

Lemma zeros_snoc gs g start len : zeros gs start len → zeros (gs ++ [g]) start len.
Proof.
  intros [Hl Hz]. split; [rewrite length_app; simpl; lia|]. intros k Hk. rewrite lookup_app_l by lia. auto.
Qed.

Lemma longest_zeroes_spans gs :
  let '((ls, ll), (cs, cl)) := foldl span_step ((0, 0), (0, 0))%nat (imap (λ i g, (i, g)) gs) in
  zeros gs ls ll ∧ (if (cl =? 0)%nat then True else zeros gs cs cl ∧ (cs + cl)%nat = length gs).
Proof.
  induction gs as [|g gs IH] using rev_ind; [simpl; split; [split; [simpl; lia|intros; lia]|done]|].
  rewrite imap_app, foldl_app. cbn [imap foldl]. destruct (foldl _ _ _) as [[ls ll] [cs cl]]. destruct IH as [Hl Hc].
  cbn [span_step fst snd]. rewrite Nat.add_0_r. unfold span_step. cbn [fst snd]. destruct (g =? 0) eqn:Eg; [|split; [by apply zeros_snoc|done]].
  apply Z.eqb_eq in Eg as ->.
  assert (zeros (gs ++ [0]) (if (cl =? 0)%nat then length gs else cs) (S cl) ∧
    ((if (cl =? 0)%nat then length gs else cs) + S cl)%nat = length (gs ++ [0])) as [Hz He].
  { destruct (cl =? 0)%nat eqn:Ec.
    - apply Nat.eqb_eq in Ec as ->. rewrite length_app. simpl. split; [|lia]. split; [rewrite length_app; simpl; lia|].
      intros k Hk. replace k with (length gs) by lia. by rewrite list_lookup_middle.
    - destruct Hc as [[Hz1 Hz2] He]. rewrite length_app. simpl. split; [|lia]. split; [rewrite length_app; simpl; lia|].
      intros k Hk. destruct (decide (k < length gs)%nat); [rewrite lookup_app_l by lia; apply Hz2; lia|].
      replace k with (length gs) by lia. by rewrite list_lookup_middle. }
  destruct (ll <? S cl)%nat; (split; [|by simpl]); [done|by apply zeros_snoc].
Qed.

Lemma longest_zeroes_zeros gs : let '(start, len) := longest_zeroes gs in zeros gs start len.
Proof. pose proof (longest_zeroes_spans gs) as H. unfold longest_zeroes. destruct (foldl _ _ _) as [[ls ll] [cs cl]]. apply H. Qed.

Lemma zeros_split gs start len : zeros gs start len → take start gs ++ replicate len 0 ++ drop (start + len) gs = gs.
Proof.
  intros [Hl Hz]. rewrite <- (take_drop start gs) at 3. f_equal. rewrite <- (take_drop len (drop start gs)), drop_drop. f_equal.
  apply list_eq. intros k. destruct (decide (k < len)%nat).
  - rewrite lookup_replicate_2, lookup_take_lt, lookup_drop by lia. symmetry. apply Hz. lia.
  - rewrite lookup_ge_None_2, lookup_take_ge by (rewrite ?length_replicate; lia). done.
Qed.

(** *** Addresses as groups *)
Lemma segments_group ip : Forall group (segments ip).
Proof.
  unfold segments. apply Forall_fmap, list.Forall_forall. intros i _. unfold group, compose. apply Z.mod_pos_bound. lia.
Qed.

Lemma groups_segments ip : 0 ≤ ip < 2 ^ 128 → groups_Z (segments ip) = ip.
Proof.
  intros Hip. unfold segments, groups_Z. cbn [seq fmap list_fmap foldl].
  change (16 * (7 - Z.of_nat 0)) with 112. change (16 * (7 - Z.of_nat 1)) with 96. change (16 * (7 - Z.of_nat 2)) with 80.
  change (16 * (7 - Z.of_nat 3)) with 64. change (16 * (7 - Z.of_nat 4)) with 48. change (16 * (7 - Z.of_nat 5)) with 32.
  change (16 * (7 - Z.of_nat 6)) with 16. change (16 * (7 - Z.of_nat 7)) with 0.
  assert (∀ k, 0 ≤ k → ip / 2 ^ (16 + k) * 65536 + (ip / 2 ^ k) mod 65536 = ip / 2 ^ k) as Hstep.
  { intros k Hk. rewrite (Z.add_comm 16 k), Z.pow_add_r, <- Z.div_div by lia. change (2 ^ 16) with 65536.
    pose proof (Z.div_mod (ip / 2 ^ k) 65536). lia. }
  rewrite (Z.mod_small (ip / 2 ^ 112)).
  2:{ split; [apply Z.div_pos; lia|]. apply Z.div_lt_upper_bound; [lia|]. change (2 ^ 112 * 65536) with (2 ^ 128). lia. }
  rewrite Z.mul_0_l, Z.add_0_l.
  pose proof (Hstep 96 ltac:(lia)) as E; change (16 + 96) with 112 in E; rewrite E; clear E.
  pose proof (Hstep 80 ltac:(lia)) as E; change (16 + 80) with 96 in E; rewrite E; clear E.
  pose proof (Hstep 64 ltac:(lia)) as E; change (16 + 64) with 80 in E; rewrite E; clear E.
  pose proof (Hstep 48 ltac:(lia)) as E; change (16 + 48) with 64 in E; rewrite E; clear E.
  pose proof (Hstep 32 ltac:(lia)) as E; change (16 + 32) with 48 in E; rewrite E; clear E.
  pose proof (Hstep 16 ltac:(lia)) as E; change (16 + 16) with 32 in E; rewrite E; clear E.
  pose proof (Hstep 0 ltac:(lia)) as E; change (16 + 0) with 16 in E; rewrite E; clear E.
  rewrite Z.pow_0_r. apply Z.div_1_r.
Qed.

(** What follows an address inside a socket address. *)
Definition after_ip (rest : bytes) : Prop := stops 16 rest ∧ head rest ≠ Some (b# 46) ∧ head rest ≠ Some COLON.

Lemma after_ip_ends rest : after_ip rest → ends_groups rest.
Proof. intros (Hs & Hd & Hc). destruct rest as [|b r]; [done|]. simpl in *. split_and!; [done|congruence|]. intros ->. done. Qed.

Lemma ends_groups_gap s : ends_groups (str "::" ++ s).
Proof. change (str "::") with [COLON; COLON]. simpl. split_and!; [done|by vm_compute|]. intros _. split; [done|]. by vm_compute. Qed.

(** A gap between two lists of groups. *)
Lemma read_ipv6_gap head tail rest :
  Forall group head → Forall group tail → (length head + length tail < 8)%nat → after_ip rest →
  read_ipv6_addr (show_groups head ++ str "::" ++ show_groups tail ++ rest) =
  Some (groups_Z (head ++ replicate (8 - length head - length tail) 0 ++ tail), rest).
Proof.
  intros Hh Ht Hl Hr. unfold read_ipv6_addr.
  rewrite read_groups_first by (done || lia || apply ends_groups_gap).
  rewrite bool_decide_false by lia. change (str "::") with [COLON; COLON]. cbn [app read_given_char].
  rewrite !bool_decide_true by done. cbn [mbind option_bind read_given_char]. rewrite !bool_decide_true by done. cbn [mbind option_bind].
  rewrite read_groups_first by (done || lia || by apply after_ip_ends). done.
Qed.

Lemma read_ipv6_full gs rest :
  Forall group gs → length gs = 8%nat → after_ip rest → read_ipv6_addr (show_groups gs ++ rest) = Some (groups_Z gs, rest).
Proof.
  intros Hg Hl Hr. unfold read_ipv6_addr. rewrite read_groups_first by (done || lia || by apply after_ip_ends).
  by rewrite bool_decide_true.
Qed.

Lemma to_ipv4_mapped_Some ip v4 : 0 ≤ ip → to_ipv4_mapped ip = Some v4 → ip = 65535 * 2 ^ 32 + v4 ∧ 0 ≤ v4 < 2 ^ 32.
Proof.
  intros H0. unfold to_ipv4_mapped. destruct (_ =? _) eqn:E; [|done]. intros [= <-]. apply Z.eqb_eq in E.
  rewrite Z.shiftr_div_pow2 in E by lia. pose proof (Z.div_mod ip (2 ^ 32)). pose proof (Z.mod_pos_bound ip (2 ^ 32)). lia.
Qed.

(** An IPv4-mapped address. *)
Lemma read_ipv6_mapped v4 rest :
  0 ≤ v4 < 2 ^ 32 → after_ip rest → read_ipv6_addr (str "::ffff:" ++ show_ipv4 v4 ++ rest) = Some (65535 * 2 ^ 32 + v4, rest).
Proof.
  intros Hv Hr. unfold read_ipv6_addr.
  change (str "::ffff:" ++ show_ipv4 v4 ++ rest) with (COLON :: COLON :: show_number 4 16 65535 ++ COLON :: show_ipv4 v4 ++ rest).
  rewrite read_groups_none_first by (done || by vm_compute).
  rewrite bool_decide_false by done. cbn [read_given_char]. rewrite !bool_decide_true by done. cbn [mbind option_bind read_given_char].
  rewrite !bool_decide_true by done. cbn [mbind option_bind length Nat.add Nat.sub].
  assert (read_groups 8 7 0 (show_number 4 16 65535 ++ COLON :: show_ipv4 v4 ++ rest) = ([65535; v4 / 2 ^ 16; v4 mod 2 ^ 16], true, rest)) as ->.
  { cbn [read_groups]. unfold read_separator. cbn [Nat.ltb Nat.leb Nat.sub].
    rewrite read_ipv4_group by (done || apply show_group_no_dot || by vm_compute).
    rewrite read_show_group by (done || by vm_compute).
    cbn [read_groups Nat.ltb Nat.leb Nat.sub read_given_char]. rewrite bool_decide_true by done. cbn [mbind option_bind].
    rewrite read_show_ipv4 by (done || by apply stops_16_10, Hr). done. }
  cbn [length app Nat.sub replicate]. f_equal. f_equal. unfold groups_Z. cbn [foldl].
  pose proof (Z.div_mod v4 (2 ^ 16)). lia.
Qed.

Lemma read_show_ipv6 ip rest : 0 ≤ ip < 2 ^ 128 → after_ip rest → read_ipv6_addr (show_ipv6 ip ++ rest) = Some (ip, rest).
Proof.
  intros Hip Hr. unfold show_ipv6. destruct (to_ipv4_mapped ip) as [v4|] eqn:E4.
  { apply to_ipv4_mapped_Some in E4 as [-> Hv]; [|lia]. rewrite <- app_assoc. by apply read_ipv6_mapped. }
  pose proof (segments_group ip) as Hg. pose proof (groups_segments ip Hip) as Hv.
  assert (length (segments ip) = 8%nat) as Hl by done.
  pose proof (longest_zeroes_zeros (segments ip)) as Hz. destruct (longest_zeroes (segments ip)) as [start len].
  destruct (1 <? len)%nat eqn:El; [|rewrite read_ipv6_full, Hv; done]. apply Nat.ltb_lt in El.
  rewrite <- !app_assoc. pose proof (zeros_split _ _ _ Hz) as Hs. destruct Hz as [Hz _].
  rewrite read_ipv6_gap; [|by apply Forall_take|by apply Forall_drop| |done].
  - rewrite length_take, length_drop, Hl. replace (8 - start `min` 8 - (8 - (start + len)))%nat with len by lia. by rewrite Hs, Hv.
  - rewrite length_take, length_drop, Hl. lia.
Qed.

Lemma parse_show_ipv6 ip : 0 ≤ ip < 2 ^ 128 → parse_ipv6 (show_ipv6 ip) = Some ip.
Proof.
  intros Hip. unfold parse_ipv6. pose proof (read_show_ipv6 ip [] Hip) as E. rewrite app_nil_r in E. rewrite E; [done|]. by split_and!.
Qed.

(** ** Socket addresses *)
Lemma show_number_length n radix z : (length (show_number n radix z) ≤ n)%nat.
Proof. unfold show_number. rewrite length_fmap, length_reverse. apply length_digits_rev. Qed.

Lemma read_number_all n bound z rest :
  0 ≤ z < 10 ^ Z.of_nat (S n) → z < bound → stops 10 rest →
  ∀ maxd, (length (show_number (S n) 10 z ++ rest) ≤ maxd)%nat → read_number 10 maxd true bound (show_number (S n) 10 z ++ rest) = Some (z, rest).
Proof.
  intros Hz Hb Hs maxd Hm. unfold read_number, show_number in *. rewrite length_app, length_fmap, length_reverse in Hm.
  rewrite read_digits_show, value_digits; rewrite ?value_digits, ?length_reverse; try lia; try done.
  apply Forall_reverse, digits_rev_range. lia.
Qed.

Lemma read_show_port port : 0 ≤ port < 2 ^ 16 → read_port (COLON :: show_u16 port) = Some (port, []).
Proof.
  intros Hp. unfold read_port. cbn [read_given_char]. rewrite bool_decide_true by done. cbn [mbind option_bind].
  pose proof (read_number_all 4 (2 ^ 16) port []) as E. rewrite app_nil_r in E. apply E; try done; [|apply Hp].
  change (10 ^ Z.of_nat 5) with 100000. lia.
Qed.

Lemma read_show_scope_id scope_id rest :
  0 ≤ scope_id < 2 ^ 32 → stops 10 rest → read_scope_id (b# 37 :: show_u32 scope_id ++ rest) = Some (scope_id, rest).
Proof.
  intros Hp Hs. unfold read_scope_id. cbn [read_given_char]. rewrite bool_decide_true by done. cbn [mbind option_bind].
  apply (read_number_all 9); try done; [|apply Hp]. change (10 ^ Z.of_nat 10) with 10000000000. lia.
Qed.

Lemma after_ip_byte b rest : digit 16 b = None → b ≠ b# 46 → b ≠ COLON → after_ip (b :: rest).
Proof. intros. split_and!; [done|simpl; congruence|simpl; congruence]. Qed.

(** Reading what [Display] prints, scopes included. *)
Lemma parse_show_socket_addr a : text_addr a → parse_socket_addr (show_socket_addr a) = Some a.
Proof.
  destruct a as [ip port|ip port flowinfo scope_id]; cbn [text_addr show_socket_addr].
  - intros [Hip Hp]. unfold parse_socket_addr, read_socket_addr_v4.
    rewrite read_show_ipv4 by done. cbn [mbind option_bind]. by rewrite read_show_port.
  - intros (Hip & Hp & -> & Hs). unfold parse_socket_addr, read_socket_addr_v4.
    change (read_ipv4_addr (b# 91 :: _)) with (@None (Z * bytes)). cbn [mbind option_bind].
    unfold read_socket_addr_v6. cbn [read_given_char]. rewrite bool_decide_true by done. cbn [mbind option_bind].
    destruct (scope_id =? 0) eqn:E0.
    + apply Z.eqb_eq in E0 as ->. cbn [app]. rewrite read_show_ipv6 by (done || apply after_ip_byte; by vm_compute). cbn [mbind option_bind].
      change (read_scope_id (b# 93 :: _)) with (@None (Z * bytes)). cbn [default read_given_char]. rewrite bool_decide_true by done.
      cbn [mbind option_bind]. by rewrite read_show_port.
    + cbn [app]. rewrite read_show_ipv6 by (done || apply after_ip_byte; by vm_compute). cbn [mbind option_bind].
      rewrite read_show_scope_id by done. cbn [default from_option id read_given_char]. rewrite bool_decide_true by done.
      cbn [mbind option_bind]. by rewrite read_show_port.
Qed.

(** ** Text that goes on

    A byte that is neither digit nor dot ends an IPv4 address: what follows it does
    not matter. *)
Lemma read_digits_app radix maxd bound s c r : digit radix c = None → ∀ count acc,
  read_digits radix maxd bound count acc (s ++ c :: r) = (λ '(v, n, rest), (v, n, rest ++ c :: r)) <$> read_digits radix maxd bound count acc s.
Proof.
  intros Hc. induction s as [|b s IH]; intros count acc; cbn [app read_digits]; [by rewrite Hc|].
  destruct (digit radix b); [|done]. destruct (_ && _); [apply IH|done].
Qed.

Lemma read_number_app radix maxd z bound s c r : digit radix c = None →
  read_number radix maxd z bound (s ++ c :: r) = (λ '(v, rest), (v, rest ++ c :: r)) <$> read_number radix maxd z bound s.
Proof.
  intros Hc. unfold read_number. rewrite read_digits_app by done.
  destruct (read_digits radix maxd bound 0 0 s) as [[[v n] rest]|] eqn:E; [|done]. cbn [fmap option_fmap option_map mbind option_bind].
  case_bool_decide; [done|].
  assert (starts_with_zero (s ++ c :: r) = starts_with_zero s) as ->; [|by destruct (_ && _)].
  destruct s; [|done]. simpl in E. congruence.
Qed.

Lemma read_ipv4_app s c r : digit 10 c = None → c ≠ b# 46 →
  read_ipv4_addr (s ++ c :: r) = (λ '(v, rest), (v, rest ++ c :: r)) <$> read_ipv4_addr s.
Proof.
  intros Hc Hd.
  assert (∀ i s, read_separator (b# 46) i (read_number 10 3 false 256) (s ++ c :: r) =
    (λ '(v, rest), (v, rest ++ c :: r)) <$> read_separator (b# 46) i (read_number 10 3 false 256) s) as Hstep.
  { intros i t. unfold read_separator. destruct (0 <? i)%nat; [|by apply read_number_app].
    destruct t as [|b t]; cbn [app read_given_char]; [by rewrite bool_decide_false|].
    case_bool_decide; [by apply read_number_app|done]. }
  unfold read_ipv4_addr.
  do 4 (rewrite Hstep; match goal with |- context [read_separator ?c ?i ?p ?s] => destruct (read_separator c i p s) as [[? ?]|]; [cbn [fmap option_fmap option_map mbind option_bind]|done] end).
  done.
Qed.

(** ** Splitting at a byte

    [s.split(c)] gives the pieces between the separators, [join] puts them back;
    [str::find], [split_once] and [splitn(2, c)] look for the first one. *)
Fixpoint split_on (c : byte) (s : bytes) : list bytes :=
  match s with
  | [] => [[]]
  | b :: s =>
      if bool_decide (b = c) then [] :: split_on c s
      else match split_on c s with [] => [[b]] | p :: ps => (b :: p) :: ps end
  end.

Fixpoint join (c : byte) (parts : list bytes) : bytes :=
  match parts with
  | [] => []
  | [p] => p
  | p :: parts => p ++ c :: join c parts
  end.

Fixpoint split_first (c : byte) (s : bytes) : option (bytes * bytes) :=
  match s with
  | [] => None
  | b :: s => if bool_decide (b = c) then Some ([], s) else (λ '(pre, post), (b :: pre, post)) <$> split_first c s
  end.

Lemma split_on_nonempty c s : split_on c s ≠ [].
Proof. destruct s as [|b s]; simpl; [done|]. case_bool_decide; [done|]. by destruct (split_on c s). Qed.

Lemma split_on_single c s : c ∉ s → split_on c s = [s].
Proof.
  induction s as [|b s IH]; simpl; [done|]. intros [Hb Hs]%not_elem_of_cons. rewrite bool_decide_false, IH by congruence. done.
Qed.

Lemma split_on_app c p s : c ∉ p → split_on c (p ++ c :: s) = p :: split_on c s.
Proof.
  induction p as [|b p IH]; simpl; [by rewrite bool_decide_true|]. intros [Hb Hp]%not_elem_of_cons.
  rewrite bool_decide_false, IH by congruence. done.
Qed.

Lemma split_on_join c parts : parts ≠ [] → Forall (λ p, c ∉ p) parts → split_on c (join c parts) = parts.
Proof.
  intros Hne Hall. induction Hall as [|p parts Hp Hall IH]; [done|]. destruct parts as [|q parts]; [by apply split_on_single|].
  change (join c (p :: q :: parts)) with (p ++ c :: join c (q :: parts)). rewrite split_on_app by done. f_equal. by apply IH.
Qed.

Lemma split_on_parts c s : Forall (λ p, c ∉ p) (split_on c s).
Proof.
  induction s as [|b s IH]; simpl; [repeat constructor; set_solver|]. case_bool_decide as Hb; [constructor; [set_solver|done]|].
  destruct (split_on c s) as [|p ps]; [repeat constructor; set_solver|]. apply list.Forall_cons in IH as [Hp Hps].
  constructor; [set_solver|done].
Qed.

Lemma join_split_on c s : join c (split_on c s) = s.
Proof.
  induction s as [|b s IH]; simpl; [done|]. pose proof (split_on_nonempty c s). case_bool_decide as Hb.
  - subst. destruct (split_on c s); [done|]. simpl. by f_equal.
  - destruct (split_on c s) as [|p [|q ps]]; simpl in *; [done|congruence|]. congruence.
Qed.

Lemma split_first_app c p s : c ∉ p → split_first c (p ++ c :: s) = Some (p, s).
Proof.
  induction p as [|b p IH]; simpl; [by rewrite bool_decide_true|]. intros [Hb Hp]%not_elem_of_cons.
  by rewrite bool_decide_false, IH by congruence.
Qed.

Lemma split_first_None c s : c ∉ s → split_first c s = None.
Proof. induction s as [|b s IH]; simpl; [done|]. intros [Hb Hs]%not_elem_of_cons. by rewrite bool_decide_false, IH by congruence. Qed.

Lemma read_ipv4_suffix s ip r : read_ipv4_addr s = Some (ip, r) → ∃ ds, s = ds ++ r.
Proof.
  unfold read_ipv4_addr.
  assert (∀ i s v r, read_separator (b# 46) i (read_number 10 3 false 256) s = Some (v, r) → ∃ ds, s = ds ++ r) as Hstep.
  { intros i t v r'. unfold read_separator. destruct (0 <? i)%nat; [|intros (? & ? & _)%read_number_suffix; eauto].
    destruct t as [|b t]; [done|]. cbn [read_given_char]. case_bool_decide; [|done]. cbn [mbind option_bind].
    intros (ds & -> & _)%read_number_suffix. by exists (b :: ds). }
  intros H.
  repeat match type of H with
  | (match read_separator ?c ?i ?p ?s with _ => _ end) = _ => destruct (read_separator c i p s) as [[? ?]|] eqn:?; [|done]; cbn [mbind option_bind] in H
  | (read_separator ?c ?i ?p ?s ≫= _) = _ => destruct (read_separator c i p s) as [[? ?]|] eqn:?; [|done]; cbn [mbind option_bind] in H
  end.
  injection H as _ <-.
  repeat match goal with H : read_separator _ _ _ _ = Some _ |- _ => apply Hstep in H as [? ->] end.
  rewrite !app_assoc. eauto.
Qed.

Lemma split_first_iff c s p r : split_first c s = Some (p, r) ↔ s = p ++ c :: r ∧ c ∉ p.
Proof.
  split; [|by intros [-> ?]; apply split_first_app]. revert p. induction s as [|b s IH]; intros p; [done|]. cbn [split_first].
  case_bool_decide as E; [intros [= <- <-]; split; [by rewrite E|set_solver]|].
  destruct (split_first c s) as [[p' r']|]; [|done]. intros [= <- <-]. destruct (IH p' eq_refl) as [-> ?]. set_solver.
Qed.

Lemma split_first_None_iff c s : split_first c s = None ↔ c ∉ s.
Proof.
  split; [|apply split_first_None]. induction s as [|b s IH]; [set_solver|]. cbn [split_first].
  case_bool_decide; [done|]. destruct (split_first c s) as [[p' r']|]; [done|]. set_solver.
Qed.

(** ** The bytes of printed addresses

    Digits and letters, dots and colons: what holds of these holds of every byte. *)
Section ShownBytes.
Context (P : byte → Prop) (Pdigit : ∀ d, 0 ≤ d < 36 → P (digit_char d)) (Pdot : P (b# 46)) (Pcolon : P (b# 58)).

Lemma show_number_bytes n radix z : 2 ≤ radix ≤ 36 → Forall P (show_number n radix z).
Proof.
  intros Hr. apply list.Forall_forall. intros b Hb. unfold show_number in Hb. apply list_elem_of_fmap in Hb as (d & -> & Hd).
  rewrite elem_of_reverse in Hd. pose proof (digits_rev_range radix Hr n z) as H. rewrite list.Forall_forall in H. specialize (H d Hd). apply Pdigit. lia.
Qed.

Lemma show_ipv4_bytes ip : Forall P (show_ipv4 ip).
Proof.
  unfold show_ipv4, show_octet. rewrite !list.Forall_app, !list.Forall_cons, !list.Forall_app, !list.Forall_cons, !list.Forall_app, !list.Forall_cons.
  split_and!; first [exact Pdot|apply show_number_bytes; lia].
Qed.

Lemma show_groups_bytes gs : Forall P (show_groups gs).
Proof.
  induction gs as [|g [|g' gs] IH]; [constructor|apply show_number_bytes; lia|].
  change (show_groups (g :: g' :: gs)) with (show_number 4 16 g ++ b# 58 :: show_groups (g' :: gs)).
  rewrite list.Forall_app, list.Forall_cons. split; [apply show_number_bytes; lia|]. by split.
Qed.

Lemma show_ipv6_bytes ip : Forall P (show_ipv6 ip).
Proof.
  unfold show_ipv6. destruct (to_ipv4_mapped ip) as [v4|].
  - rewrite list.Forall_app. split; [|apply show_ipv4_bytes]. change (str "::ffff:") with [b# 58; b# 58; b# 102; b# 102; b# 102; b# 102; b# 58].
    repeat (apply list.Forall_cons; split; [exact Pcolon || exact (Pdigit 15 ltac:(lia))|]). constructor.
  - destruct (longest_zeroes (segments ip)) as [start len]. destruct (1 <? len)%nat; [|apply show_groups_bytes]. rewrite !list.Forall_app.
    split; [apply show_groups_bytes|]. split; [|apply show_groups_bytes]. change (str "::") with [b# 58; b# 58]. by repeat constructor.
Qed.
End ShownBytes.

(** ** Addresses as text are short ASCII *)
Lemma show_number_ascii n radix z : 2 ≤ radix ≤ 36 → is_ascii (show_number n radix z) = true.
Proof.
  intros Hr. unfold show_number, is_ascii. apply forallb_forall. intros b Hb%list_elem_of_In. apply list_elem_of_fmap in Hb as (d & -> & Hd).
  rewrite elem_of_reverse in Hd. pose proof (digits_rev_range radix Hr n z) as H. rewrite list.Forall_forall in H. specialize (H d Hd).
  unfold digit_char, in_range. rewrite unsigned_of_Z_small by (destruct (d <? 10); lia). destruct (Z.ltb_spec d 10); lia.
Qed.

Lemma is_ascii_app' a b : is_ascii (a ++ b) = is_ascii a && is_ascii b.
Proof. apply forallb_app. Qed.

(** ASCII text of at most [n] bytes. *)
Definition short (n : nat) (s : bytes) : Prop := is_ascii s = true ∧ (length s ≤ n)%nat.

Lemma short_app n m a b : short n a → short m b → short (n + m) (a ++ b).
Proof. intros [Ha La] [Hb Lb]. split; [by rewrite is_ascii_app', Ha, Hb|]. rewrite length_app. lia. Qed.

Lemma short_cons n b s : in_range 0 127 b = true → short n s → short (S n) (b :: s).
Proof. intros Hb [Hs Ls]. split; [unfold is_ascii in *; cbn [forallb]; by rewrite Hb, Hs|simpl; lia]. Qed.

Lemma short_number n radix z : 2 ≤ radix ≤ 36 → short n (show_number n radix z).
Proof. split; [by apply show_number_ascii|apply show_number_length]. Qed.

Lemma short_weaken n m s : (n ≤ m)%nat → short n s → short m s.
Proof. intros Hn [Hs Ls]. split; [done|lia]. Qed.

Lemma short_ipv4 ip : short 15 (show_ipv4 ip).
Proof.
  unfold show_ipv4, show_octet. eapply (short_weaken (3 + S (3 + S (3 + S 3)))); [lia|].
  do 3 (apply short_app; [by apply short_number|]; apply short_cons; [done|]). by apply short_number.
Qed.

Lemma short_groups gs : short (5 * length gs) (show_groups gs).
Proof.
  induction gs as [|g gs IH]; [by split; [|simpl; lia]|]. destruct gs as [|g' gs].
  - apply (short_weaken 4); [simpl; lia|]. by apply short_number.
  - change (show_groups (g :: g' :: gs)) with (show_number 4 16 g ++ b# 58 :: show_groups (g' :: gs)).
    apply (short_weaken (4 + S (5 * length (g' :: gs)))); [simpl; lia|]. apply short_app; [by apply short_number|]. by apply short_cons.
Qed.

Lemma short_ipv6 ip : short 82 (show_ipv6 ip).
Proof.
  unfold show_ipv6. destruct (to_ipv4_mapped ip) as [v4|].
  { apply (short_weaken (7 + 15)); [lia|]. apply short_app; [by split; [|simpl; lia]|apply short_ipv4]. }
  assert (length (segments ip) = 8%nat) as Hl by done. destruct (longest_zeroes (segments ip)) as [start len]. destruct (1 <? len)%nat.
  - apply (short_weaken (40 + (2 + 40))); [lia|]. apply short_app; [|apply short_app; [by split; [|simpl; lia]|]].
    + eapply short_weaken; [|apply short_groups]. rewrite length_take, Hl. lia.
    + eapply short_weaken; [|apply short_groups]. rewrite length_drop, Hl. lia.
  - eapply short_weaken; [|apply short_groups]. rewrite Hl. lia.
Qed.

Lemma show_socket_addr_short a : short 105 (show_socket_addr a).
Proof.
  destruct a as [ip port|ip port flow scope]; cbn [show_socket_addr].
  - apply (short_weaken (15 + S 5)); [lia|]. apply short_app; [apply short_ipv4|]. apply short_cons; [done|]. by apply short_number.
  - apply (short_weaken (S (82 + (11 + S (S 5))))); [lia|]. apply short_cons; [done|]. apply short_app; [apply short_ipv6|].
    apply short_app; [|do 2 (apply short_cons; [done|]); by apply short_number].
    destruct (scope =? 0); [by split; [|simpl; lia]|]. apply short_cons; [done|]. by apply short_number.
Qed.
