(* ===== verification/ServerConf.v ===== *)
(** * The configuration of a server (crates/shadowsocks/src/config.rs)

    Modes and weights, the text forms of addresses, the keys a password stands
    for, and the URLs that carry a configuration.  Shown: every configuration that
    the operations can make has keys of the lengths its method wants, and the
    password it exports stands for exactly these keys; addresses and URLs are
    read back as they were written. *)
From Stdlib Require Import SpecFloat.
From S2P Require Import Prelude.
From S2P Require Import Utf8.
From S2P Require Import External.
From S2P Require Import Socks5.
From S2P Require Import Users.
From S2P Require Import StdNet.
From S2P Require Import NetText.

(** ** Mode *)
Inductive Mode := TcpOnly | TcpAndUdp | UdpOnly.

#[export] Instance Mode_eq_dec : EqDecision Mode.
Proof. solve_decision. Defined.

Definition Mode_as_u8 (self : Mode) : Z := match self with TcpOnly => 1 | TcpAndUdp => 3 | UdpOnly => 2 end.

Definition enable_udp (self : Mode) : bool := match self with UdpOnly | TcpAndUdp => true | _ => false end.
Definition enable_tcp (self : Mode) : bool := match self with TcpOnly | TcpAndUdp => true | _ => false end.

Definition Mode_merge (self mode : Mode) : outcome False Mode :=
  let r := Z.lor (Mode_as_u8 self) (Mode_as_u8 mode) in
  if r =? 1 then Ok TcpOnly
  else if r =? 2 then Ok UdpOnly
  else if r =? 3 then Ok TcpAndUdp
  else Panic "unreachable".

Definition Mode_as_str (self : Mode) : bytes :=
  match self with TcpOnly => str "tcp_only" | TcpAndUdp => str "tcp_and_udp" | UdpOnly => str "udp_only" end.

Definition Mode_from_str (s : bytes) : option Mode :=
  if bool_decide (s = str "tcp_only") then Some TcpOnly
  else if bool_decide (s = str "tcp_and_udp") then Some TcpAndUdp
  else if bool_decide (s = str "udp_only") then Some UdpOnly
  else None.

(** ** Weights

    An [f32] is a [spec_float], and its comparisons are those of IEEE 754. *)
Definition f32_zero : spec_float := S754_zero false.
Definition f32_one : spec_float := binary_normalize 24 128 1 0 false.

Record ServerWeight := { tcp_weight : spec_float; udp_weight : spec_float }.

Definition ServerWeight_new : ServerWeight := {| tcp_weight := f32_one; udp_weight := f32_one |}.

(** [(0.0..=1.0).contains(&weight)]. *)
Definition unit_range (weight : spec_float) : bool := SFleb f32_zero weight && SFleb weight f32_one.

Definition set_tcp_weight (weight : spec_float) (self : ServerWeight) : outcome False ServerWeight :=
  if unit_range weight then Ok {| tcp_weight := weight; udp_weight := udp_weight self |}
  else Panic "assertion failed: (0.0..=1.0).contains(&weight)".

Definition set_udp_weight (weight : spec_float) (self : ServerWeight) : outcome False ServerWeight :=
  if unit_range weight then Ok {| tcp_weight := tcp_weight self; udp_weight := weight |}
  else Panic "assertion failed: (0.0..=1.0).contains(&weight)".

Inductive ServerSource := SourceDefault | Configuration | CommandLine | OnlineConfig.

#[export] Instance ServerSource_eq_dec : EqDecision ServerSource.
Proof. solve_decision. Defined.

(** ** Server addresses *)
Inductive ServerAddr := SocketAddr (a : Socks5.SocketAddr) | DomainName (d : bytes) (port : Z).

Definition ServerAddr_host (self : ServerAddr) : bytes :=
  match self with
  | SocketAddr (V4 ip _) => show_ipv4 ip
  | SocketAddr (V6 ip _ _ _) => show_ipv6 ip
  | DomainName dm _ => dm
  end.

Definition ServerAddr_port (self : ServerAddr) : Z :=
  match self with SocketAddr (V4 _ p) | SocketAddr (V6 _ p _ _) => p | DomainName _ p => p end.

Definition ServerAddr_from_str (s : bytes) : option ServerAddr :=
  match parse_socket_addr s with
  | Some addr => Some (SocketAddr addr)
  | None =>
      match split_on COLON s with
      | dn :: port :: _ =>
          if bool_decide (dn = []) then None
          else match parse_u16 port with Some port => Some (DomainName dn port) | None => None end
      | _ => None
      end
  end.

Definition ServerAddr_fmt (self : ServerAddr) : bytes :=
  match self with
  | SocketAddr a => show_socket_addr a
  | DomainName d port => d ++ COLON :: show_u16 port
  end.

(** [From<Address>] and [From<ServerAddr> for Address]. *)
Definition ServerAddr_from_address (addr : Address) : ServerAddr :=
  match addr with SocketAddress sa => SocketAddr sa | DomainNameAddress dn port => DomainName dn port end.
Definition Address_from_server_addr (addr : ServerAddr) : Address :=
  match addr with SocketAddr sa => SocketAddress sa | DomainName dn port => DomainNameAddress dn port end.

(** ** Manager addresses *)
Inductive ManagerAddr :=
| ManagerSocketAddr (a : Socks5.SocketAddr)
| ManagerDomainName (d : bytes) (port : Z)
| UnixSocketAddr (path : bytes).

Definition ManagerAddr_from_str (s : bytes) : option ManagerAddr :=
  match split_first COLON s with
  | Some (sdomain, sport) =>
      match parse_socket_addr s with
      | Some saddr => Some (ManagerSocketAddr saddr)
      | None =>
          match parse_u16 (trim sport) with
          | Some port => Some (ManagerDomainName (trim sdomain) port)
          | None => None
          end
      end
  | None => Some (UnixSocketAddr s)
  end.

Definition ManagerAddr_fmt (self : ManagerAddr) : bytes :=
  match self with
  | ManagerSocketAddr saddr => show_socket_addr saddr
  | ManagerDomainName dname port => dname ++ COLON :: show_u16 port
  | UnixSocketAddr path => path
  end.

(** ** Replay policies *)
Inductive ReplayAttackPolicy := PolicyDefault | Ignore | Detect | Reject.

Definition ReplayAttackPolicy_fmt (self : ReplayAttackPolicy) : bytes :=
  match self with PolicyDefault => str "default" | Ignore => str "ignore" | Detect => str "detect" | Reject => str "reject" end.

Definition ReplayAttackPolicy_from_str (s : bytes) : option ReplayAttackPolicy :=
  if bool_decide (s = str "default") then Some PolicyDefault
  else if bool_decide (s = str "ignore") then Some Ignore
  else if bool_decide (s = str "detect") then Some Detect
  else if bool_decide (s = str "reject") then Some Reject
  else None.

(** ** Modes and addresses: lemmas *)
Lemma Mode_merge_union a b :
  ∃ m, Mode_merge a b = Ok m ∧ enable_tcp m = enable_tcp a || enable_tcp b ∧ enable_udp m = enable_udp a || enable_udp b.
Proof. destruct a, b; eexists; (split; [by vm_compute|done]). Qed.

Lemma Mode_str_roundtrip m : Mode_from_str (Mode_as_str m) = Some m.
Proof. by destruct m; vm_compute. Qed.

Lemma ReplayAttackPolicy_roundtrip p : ReplayAttackPolicy_from_str (ReplayAttackPolicy_fmt p) = Some p.
Proof. by destruct p; vm_compute. Qed.

(** A host name: not empty, no colon, no bracket, and not an IPv4 address. *)
Definition host_name (d : bytes) : Prop :=
  d ≠ [] ∧ COLON ∉ d ∧ head d ≠ Some (b# 91) ∧ (∀ ip, read_ipv4_addr d ≠ Some (ip, [])).

Definition printable_addr (a : ServerAddr) : Prop :=
  match a with SocketAddr a => text_addr a | DomainName d port => host_name d ∧ 0 ≤ port < 2 ^ 16 end.

Lemma host_name_not_socket_addr d r : host_name d → parse_socket_addr (d ++ COLON :: r) = None.
Proof.
  intros (Hne & Hc & Hb & Hip). unfold parse_socket_addr, read_socket_addr_v4.
  rewrite read_ipv4_app by (by vm_compute || done).
  assert (read_socket_addr_v6 (d ++ COLON :: r) = None) as ->.
  { unfold read_socket_addr_v6. destruct d as [|b d]; [done|]. cbn [app read_given_char]. rewrite bool_decide_false; [done|].
    simpl in Hb. congruence. }
  destruct (read_ipv4_addr d) as [[ip rest]|] eqn:E; [|done]. cbn [fmap option_fmap option_map mbind option_bind].
  destruct rest as [|b rest]; [by destruct (Hip ip)|]. unfold read_port. cbn [app read_given_char]. rewrite bool_decide_false; [done|].
  intros ->. apply read_ipv4_suffix in E as [ds ->]. apply Hc. set_solver.
Qed.

Lemma show_u16_no_colon z : COLON ∉ show_u16 z.
Proof. intros H. apply show_number_decimal in H. change (byte.unsigned COLON) with 58 in H. lia. Qed.

Lemma addr_reread a : printable_addr a → ServerAddr_from_str (ServerAddr_fmt a) = Some a.
Proof.
  destruct a as [a|d port]; cbn [printable_addr ServerAddr_fmt]; unfold ServerAddr_from_str.
  - intros H. by rewrite parse_show_socket_addr.
  - intros [Hd Hp]. rewrite host_name_not_socket_addr by done. destruct Hd as (Hne & Hc & _).
    rewrite split_on_app, split_on_single by (done || apply show_u16_no_colon).
    by rewrite bool_decide_false, parse_show_u16.
Qed.

(** A server address is read back as it was printed, whatever its form: IPv4,
    IPv6 with or without scope, or a host name with a port; so no two addresses are
    printed alike. *)
Theorem server_addr_roundtrip a : printable_addr a →
  ServerAddr_from_str (ServerAddr_fmt a) = Some a ∧ ∀ b, printable_addr b → ServerAddr_fmt b = ServerAddr_fmt a → b = a.
Proof.
  intros Ha. split; [by apply addr_reread|]. intros b Hb E. apply addr_reread in Ha, Hb. rewrite E in Hb. congruence.
Qed.

Lemma server_addr_roundtrip_witness :
  ServerAddr_from_str (str "example.com:8388") = Some (DomainName (str "example.com") 8388) ∧
  ServerAddr_from_str (str "[2001:db8::1]:443") = Some (SocketAddr (V6 42540766411282592856903984951653826561 443 0 0)).
Proof.
  split.
  - apply (server_addr_roundtrip (DomainName (str "example.com") 8388)). split; [|lia].
    split_and!; [done| |done|]; [|by vm_compute]. apply (bool_decide_unpack _). by vm_compute.
  - apply (server_addr_roundtrip (SocketAddr (V6 42540766411282592856903984951653826561 443 0 0))). simpl. lia.
Defined.

(** Only the first two pieces between colons are looked at: an IPv6 address
    without brackets whose second group is a decimal number is taken for a host
    named like the first group, and text after a second colon is ignored. *)
Theorem server_addr_ignores_rest d port rest :
  host_name d → 0 ≤ port < 2 ^ 16 →
  ServerAddr_from_str (d ++ COLON :: show_u16 port ++ COLON :: rest) = Some (DomainName d port).
Proof.
  intros Hd Hp. unfold ServerAddr_from_str. rewrite host_name_not_socket_addr by done. destruct Hd as (Hne & Hc & _).
  rewrite !split_on_app by (done || apply show_u16_no_colon). by rewrite bool_decide_false, parse_show_u16.
Qed.

Lemma server_addr_ignores_rest_witness :
  parse_ipv6 (str "2001:470::1") ≠ None ∧ ServerAddr_from_str (str "2001:470::1") = Some (DomainName (str "2001") 470).
Proof.
  split; [by vm_compute|]. apply (server_addr_ignores_rest (str "2001") 470 (str ":1")); [|lia].
  split_and!; [done| |done|by vm_compute]. apply (bool_decide_unpack _). by vm_compute.
Defined.

(** *** Manager addresses *)
Lemma strip_any_other ps b s : Forall (λ p, p ≠ [] ∧ head p ≠ Some b) ps → strip_any ps (b :: s) = None.
Proof.
  induction 1 as [|p ps [Hne Hp] Hps IH]; [done|]. cbn [strip_any]. unfold strip_prefix. rewrite bool_decide_false; [done|].
  destruct p as [|c p]; [done|]. simpl in *. congruence.
Qed.

Definition whitespace_ends : list byte := omap head whitespace ++ omap (head ∘ reverse) whitespace.

Lemma trim_keeps s : Forall (λ b, b ∉ whitespace_ends) s → trim s = s.
Proof.
  assert (∀ b, b ∉ whitespace_ends → Forall (λ p, p ≠ [] ∧ head p ≠ Some b) whitespace ∧ Forall (λ p, p ≠ [] ∧ head p ≠ Some b) (reverse <$> whitespace)) as Hb.
  { intros b Hb. unfold whitespace_ends in Hb. apply not_elem_of_app in Hb as [H1 H2]. rewrite list.Forall_forall, Forall_fmap, list.Forall_forall.
    assert (Forall (λ p, p ≠ [] ∧ reverse p ≠ []) whitespace) as Hne by (repeat constructor; by vm_compute).
    rewrite list.Forall_forall in Hne.
    split; intros p Hp; (split; [by apply Hne|]); intros E; [apply H1|apply H2]; apply list_elem_of_omap; eauto. }
  assert (∀ ps t, (∀ b, b ∉ whitespace_ends → Forall (λ p, p ≠ [] ∧ head p ≠ Some b) ps) → Forall (λ b, b ∉ whitespace_ends) t → trim_start ps t = t) as Hts.
  { intros ps t Hps Ht. unfold trim_start. destruct t as [|b t]; [done|]. apply list.Forall_cons in Ht as [Ht _].
    cbn [length trim_start_any]. by rewrite strip_any_other by auto. }
  intros Hs. unfold trim, trim_end. rewrite (Hts whitespace s) by (done || naive_solver).
  rewrite Hts, reverse_involutive; [done|naive_solver|by apply Forall_reverse].
Qed.

Definition printable_manager (a : ManagerAddr) : Prop :=
  match a with
  | ManagerSocketAddr a => text_addr a
  | ManagerDomainName d port => host_name d ∧ Forall (λ b, b ∉ whitespace_ends) d ∧ 0 ≤ port < 2 ^ 16
  | UnixSocketAddr path => COLON ∉ path
  end.

Lemma split_first_mid c s t : ∃ p q, split_first c (s ++ c :: t) = Some (p, q).
Proof.
  induction s as [|b s [p [q IH]]]; simpl; [rewrite bool_decide_true by done; eauto|]. rewrite IH. case_bool_decide; simpl; eauto.
Qed.

Lemma show_u16_trim z : trim (show_u16 z) = show_u16 z.
Proof.
  apply trim_keeps, list.Forall_forall. intros b Hb%show_number_decimal Hw.
  assert (Forall (λ b, ¬ (48 ≤ byte.unsigned b ≤ 57)) whitespace_ends) as H by (apply (bool_decide_unpack _); by vm_compute).
  rewrite list.Forall_forall in H. by apply (H b).
Qed.

Lemma manager_addr_roundtrip a : printable_manager a → ManagerAddr_from_str (ManagerAddr_fmt a) = Some a.
Proof.
  destruct a as [a|d port|path]; cbn [printable_manager ManagerAddr_fmt]; unfold ManagerAddr_from_str.
  - intros H. rewrite parse_show_socket_addr by done.
    assert (∃ s t, show_socket_addr a = s ++ COLON :: t) as (s & t & ->).
    { destruct a as [ip port|ip port fl sc]; [by eexists _, _|]. cbn [show_socket_addr].
      exists (b# 91 :: show_ipv6 ip ++ (if sc =? 0 then [] else b# 37 :: show_u32 sc) ++ [b# 93]), (show_u16 port).
      cbn [app]. f_equal. rewrite <- !app_assoc. reflexivity. }
    destruct (split_first_mid COLON s t) as (? & ? & ->). done.
  - intros (Hd & Hw & Hp). pose proof Hd as (_ & Hc & _). rewrite split_first_app, host_name_not_socket_addr by done.
    by rewrite show_u16_trim, parse_show_u16, trim_keeps.
  - intros H. by rewrite split_first_None.
Qed.

(** ** The crates that are called

    [base64]: the engine with the standard alphabet (user keys and AEAD-2022
    passwords, which are declared alike) and the one with the alphabet for URLs.
    [shadowsocks-crypto]: the names of the methods, which of them is SS_TABLE, and
    the key derivation of OpenSSL. *)
Class Base64 := {
  DecodeError : Type;
  std_encode : bytes → bytes;
  std_decode : bytes → bytes + DecodeError;
  url_encode : bytes → bytes;
  url_decode : bytes → bytes + DecodeError;
}.

Class CipherNames `{CipherSuite} := {
  kind_str : CipherKind → bytes;
  kind_parse : bytes → option CipherKind;
  ss_table : CipherKind → bool;
  openssl_bytes_to_key : bytes → nat → bytes;
}.

Definition alphanumeric (b : byte) : bool := in_range 48 57 b || in_range 65 90 b || in_range 97 122 b.

(** What is not special in any part of a URL: letters, digits, [-], [_], [%]. *)
Definition url_safe (b : byte) : bool := alphanumeric b || in_range 45 45 b || in_range 95 95 b || in_range 37 37 b.

Class Base64Laws (B : Base64) : Prop := {
  std_decode_encode x : std_decode (std_encode x) = inl x;
  std_encode_colon x : COLON ∉ std_encode x;
  std_encode_nil : std_encode [] = [];
  url_decode_encode x : url_decode (url_encode x) = inl x;
  url_encode_safe x : Forall (λ b, url_safe b = true ∧ b ≠ b# 37) (url_encode x);
  url_encode_nonempty x : x ≠ [] → url_encode x ≠ [];
  (** decoding makes text shorter *)
  url_decode_length x y : url_decode x = inl y → x = [] ∨ (length y < length x)%nat;
}.

Class CipherNamesLaws `{CS : CipherSuite} (N : CipherNames) : Prop := {
  kind_parse_str m : kind_parse (kind_str m) = Some m;
  kind_str_safe m : kind_str m ≠ [] ∧ Forall (λ b, url_safe b = true ∧ b ≠ b# 37) (kind_str m);
  openssl_length p n : length (openssl_bytes_to_key p n) = n;
  none_key_len m : category m = Cat_None → key_len m = 0%nat;
  aes_key_len m n : aes_kind m = Some n → key_len m = n;
  aes_2022 m n : aes_kind m = Some n → category m = Cat_Aead2022;
  aead_2022_key_len m : category m = Cat_Aead2022 → key_len m ≠ 0%nat;
  table_stream m : ss_table m = true → category m = Cat_Stream;
}.

(** ** Keys *)
Section Config.
Context `{CS : CipherSuite, B64 : Base64, CN : !CipherNames, BL : Blake3}.

Inductive ServerConfigError :=
| InvalidKeyEncoding (m : CipherKind) (e : DecodeError)
| InvalidUserKeyEncoding (m : CipherKind) (e : DecodeError)
| InvalidKeyLength (m : CipherKind) (expected found : nat)
| InvalidUserKeyLength (m : CipherKind) (expected found : nat).

(** [enc_key] is a buffer of [n] bytes, here the result. *)
Definition make_derived_key (method : CipherKind) (password : bytes) (n : nat) : outcome ServerConfigError bytes :=
  if is_aead_2022 method then
    match std_decode password with
    | inl v => if bool_decide (length v = n) then Ok v else Err (InvalidKeyLength method n (length v))
    | inr err => Err (InvalidKeyEncoding method err)
    end
  else Ok (openssl_bytes_to_key password n).

(** The identity keys, the last one of the text first. *)
Fixpoint decode_ipsks (method : CipherKind) (ipsks : list bytes) (identity_keys : list bytes) : outcome ServerConfigError (list bytes) :=
  match ipsks with
  | [] => Ok identity_keys
  | ipsk :: ipsks =>
      match std_decode ipsk with
      | inl v =>
          match aes_kind method with
          | Some n =>
              if bool_decide (length v = n) then decode_ipsks method ipsks (identity_keys ++ [v])
              else Err (InvalidUserKeyLength method n (length v))
          | None => Panic "doesn't support EIH"
          end
      | inr err => Err (InvalidUserKeyEncoding method err)
      end
  end.

Definition password_to_keys (method : CipherKind) (password : bytes) : outcome ServerConfigError (bytes * bytes * list bytes) :=
  if bool_decide (category method = Cat_None) then Ok (password, [], [])
  else if ss_table method then Ok (password, password, [])
  else if method_support_eih method then
    match reverse (split_on COLON password) with
    | upsk :: ipsks =>
        enc_key ← make_derived_key method upsk (key_len method);
        identity_keys ← decode_ipsks method ipsks [];
        Ok (upsk, enc_key, reverse identity_keys)
    | [] => Panic "uPSK"
    end
  else
    enc_key ← make_derived_key method password (key_len method);
    Ok (password, enc_key, []).

(** ** Configurations *)
Record PluginConfig := {
  plugin_name : bytes;
  plugin_opts : option bytes;
  plugin_args : list bytes;
  plugin_mode : Mode;
}.

Record ServerConfig := {
  addr : ServerAddr;
  password : bytes;
  method : CipherKind;
  enc_key : bytes;
  timeout : option Z;
  identity_keys : list bytes;
  user_manager : option ServerUserManager;
  plugin : option PluginConfig;
  plugin_addr : option ServerAddr;
  remarks : option bytes;
  id : option bytes;
  mode : Mode;
  weight : ServerWeight;
  source : ServerSource;
}.

Definition ServerConfig_new (addr : ServerAddr) (password : bytes) (method : CipherKind) : outcome ServerConfigError ServerConfig :=
  '(password, enc_key, identity_keys) ← password_to_keys method password;
  Ok {| addr := addr; password := password; method := method; enc_key := enc_key; timeout := None;
        identity_keys := identity_keys; user_manager := None; plugin := None; plugin_addr := None; remarks := None;
        id := None; mode := TcpAndUdp; weight := ServerWeight_new; source := SourceDefault |}.

(** The method with the keys, as [set_method] assigns them. *)
Definition with_keys (m : CipherKind) (p k : bytes) (ids : list bytes) (self : ServerConfig) : ServerConfig :=
  {| addr := addr self; password := p; method := m; enc_key := k; timeout := timeout self;
     identity_keys := ids; user_manager := user_manager self; plugin := plugin self; plugin_addr := plugin_addr self;
     remarks := remarks self; id := id self; mode := mode self; weight := weight self; source := source self |}.

(** The configuration after the call, and its result: the method is assigned
    before the keys are known to fit. *)
Definition set_method (m : CipherKind) (pw : bytes) (self : ServerConfig) : ServerConfig * outcome ServerConfigError unit :=
  let self := with_keys m (password self) (enc_key self) (identity_keys self) self in
  match password_to_keys m pw with
  | Ok (p, k, ids) => (with_keys m p k ids self, Ok tt)
  | Err e => (self, Err e)
  | Panic msg => (self, Panic msg)
  end.

Definition set_plugin (p : PluginConfig) (self : ServerConfig) : ServerConfig :=
  {| addr := addr self; password := password self; method := method self; enc_key := enc_key self; timeout := timeout self;
     identity_keys := identity_keys self; user_manager := user_manager self; plugin := Some p; plugin_addr := plugin_addr self;
     remarks := remarks self; id := id self; mode := mode self; weight := weight self; source := source self |}.
Definition set_addr (a : ServerAddr) (self : ServerConfig) : ServerConfig :=
  {| addr := a; password := password self; method := method self; enc_key := enc_key self; timeout := timeout self;
     identity_keys := identity_keys self; user_manager := user_manager self; plugin := plugin self; plugin_addr := plugin_addr self;
     remarks := remarks self; id := id self; mode := mode self; weight := weight self; source := source self |}.
Definition set_user_manager (u : ServerUserManager) (self : ServerConfig) : ServerConfig :=
  {| addr := addr self; password := password self; method := method self; enc_key := enc_key self; timeout := timeout self;
     identity_keys := identity_keys self; user_manager := Some u; plugin := plugin self; plugin_addr := plugin_addr self;
     remarks := remarks self; id := id self; mode := mode self; weight := weight self; source := source self |}.
Definition set_plugin_addr (a : ServerAddr) (self : ServerConfig) : ServerConfig :=
  {| addr := addr self; password := password self; method := method self; enc_key := enc_key self; timeout := timeout self;
     identity_keys := identity_keys self; user_manager := user_manager self; plugin := plugin self; plugin_addr := Some a;
     remarks := remarks self; id := id self; mode := mode self; weight := weight self; source := source self |}.
Definition set_timeout (t : Z) (self : ServerConfig) : ServerConfig :=
  {| addr := addr self; password := password self; method := method self; enc_key := enc_key self; timeout := Some t;
     identity_keys := identity_keys self; user_manager := user_manager self; plugin := plugin self; plugin_addr := plugin_addr self;
     remarks := remarks self; id := id self; mode := mode self; weight := weight self; source := source self |}.
Definition set_remarks (r : bytes) (self : ServerConfig) : ServerConfig :=
  {| addr := addr self; password := password self; method := method self; enc_key := enc_key self; timeout := timeout self;
     identity_keys := identity_keys self; user_manager := user_manager self; plugin := plugin self; plugin_addr := plugin_addr self;
     remarks := Some r; id := id self; mode := mode self; weight := weight self; source := source self |}.
Definition set_id (i : bytes) (self : ServerConfig) : ServerConfig :=
  {| addr := addr self; password := password self; method := method self; enc_key := enc_key self; timeout := timeout self;
     identity_keys := identity_keys self; user_manager := user_manager self; plugin := plugin self; plugin_addr := plugin_addr self;
     remarks := remarks self; id := Some i; mode := mode self; weight := weight self; source := source self |}.
Definition set_mode (m : Mode) (self : ServerConfig) : ServerConfig :=
  {| addr := addr self; password := password self; method := method self; enc_key := enc_key self; timeout := timeout self;
     identity_keys := identity_keys self; user_manager := user_manager self; plugin := plugin self; plugin_addr := plugin_addr self;
     remarks := remarks self; id := id self; mode := m; weight := weight self; source := source self |}.
Definition set_weight (w : ServerWeight) (self : ServerConfig) : ServerConfig :=
  {| addr := addr self; password := password self; method := method self; enc_key := enc_key self; timeout := timeout self;
     identity_keys := identity_keys self; user_manager := user_manager self; plugin := plugin self; plugin_addr := plugin_addr self;
     remarks := remarks self; id := id self; mode := mode self; weight := w; source := source self |}.
Definition set_source (s : ServerSource) (self : ServerConfig) : ServerConfig :=
  {| addr := addr self; password := password self; method := method self; enc_key := enc_key self; timeout := timeout self;
     identity_keys := identity_keys self; user_manager := user_manager self; plugin := plugin self; plugin_addr := plugin_addr self;
     remarks := remarks self; id := id self; mode := mode self; weight := weight self; source := s |}.

Definition export_password (self : ServerConfig) : bytes :=
  if bool_decide (identity_keys self = []) then password self
  else join COLON ((std_encode <$> identity_keys self) ++ [password self]).

Definition tcp_external_addr (self : ServerConfig) : ServerAddr :=
  match plugin self with
  | Some p => if enable_tcp (plugin_mode p) then default (addr self) (plugin_addr self) else addr self
  | None => addr self
  end.

Definition udp_external_addr (self : ServerConfig) : ServerAddr :=
  match plugin self with
  | Some p => if enable_udp (plugin_mode p) then default (addr self) (plugin_addr self) else addr self
  | None => addr self
  end.

Definition is_basic (self : ServerConfig) : bool :=
  match remarks self, id self with None, None => true | _, _ => false end.

(** *** Keys: lemmas *)
Context {B64L : Base64Laws B64} {CNL : CipherNamesLaws CN}.

Definition export_text (p : bytes) (ids : list bytes) : bytes :=
  if bool_decide (ids = []) then p else join COLON ((std_encode <$> ids) ++ [p]).

Lemma split_export p ids : COLON ∉ p → split_on COLON (export_text p ids) = (std_encode <$> ids) ++ [p].
Proof using B64L.
  intros Hp. unfold export_text. case_bool_decide as Hi; [subst; by apply split_on_single|].
  apply split_on_join; [by destruct (std_encode <$> ids)|]. apply list.Forall_app. split; [|by repeat constructor].
  apply Forall_fmap, list.Forall_forall. intros x _. apply std_encode_colon.
Qed.

Definition ipsk_of (m : CipherKind) (p v : bytes) : Prop := std_decode p = inl v ∧ aes_kind m = Some (length v).

Lemma decode_ipsks_Ok m ps acc r : decode_ipsks m ps acc = Ok r ↔ ∃ vs, r = acc ++ vs ∧ Forall2 (ipsk_of m) ps vs.
Proof using.
  revert acc. induction ps as [|p ps IH]; intros acc; cbn [decode_ipsks].
  - split; [intros [= <-]; exists []; by rewrite app_nil_r|]. intros (vs & -> & H). inversion H; subst. by rewrite app_nil_r.
  - split.
    + destruct (std_decode p) as [v|] eqn:Ed; [|done]. destruct (aes_kind m) as [n|] eqn:Ea; [|done]. case_bool_decide as Hn; [|done].
      rewrite IH. intros (vs & -> & H). exists (v :: vs). rewrite <- app_assoc. split; [done|]. constructor; [|done]. split; congruence.
    + intros (vs & -> & H). inversion H as [|? v ? vs' [Hd Ha] Hr]; subst. rewrite Hd, Ha, bool_decide_true by done.
      apply IH. exists vs'. by rewrite <- app_assoc.
Qed.

(** What a password stands for when the method has identity headers. *)
Lemma password_to_keys_eih m pw p k ids :
  category m ≠ Cat_None → ss_table m = false → method_support_eih m = true →
  password_to_keys m pw = Ok (p, k, ids) ↔
  ∃ ps, split_on COLON pw = ps ++ [p] ∧ make_derived_key m p (key_len m) = Ok k ∧ Forall2 (ipsk_of m) ps ids.
Proof using.
  intros Hc Ht He. unfold password_to_keys. rewrite bool_decide_false, Ht, He by done.
  destruct (split_on COLON pw) as [|u ps] eqn:Es using rev_ind; [by destruct (split_on_nonempty COLON pw)|].
  rewrite reverse_snoc. split.
  - rewrite !outcome_bind_Ok. intros (k' & Hk & H). apply outcome_bind_Ok in H as (vs & Hv & [= <- <- <-]).
    exists ps. split_and!; [done..|]. apply decode_ipsks_Ok in Hv as (vs' & -> & Hv). cbn [app]. rewrite <- (reverse_involutive ps). by apply Forall2_reverse.
  - intros (ps' & Hs & Hk & Hv). apply app_inj_tail in Hs as [<- <-]. rewrite Hk. cbn [mbind outcome_bind].
    assert (decode_ipsks m (reverse ps) [] = Ok (reverse ids)) as ->.
    { apply decode_ipsks_Ok. exists (reverse ids). split; [done|]. by apply Forall2_reverse. }
    cbn [mbind outcome_bind]. by rewrite reverse_involutive.
Qed.

Lemma password_to_keys_plain m pw p k ids :
  category m = Cat_None ∨ ss_table m = true ∨ method_support_eih m = false →
  password_to_keys m pw = Ok (p, k, ids) → p = pw ∧ ids = [].
Proof using.
  intros H. unfold password_to_keys. case_bool_decide; [naive_solver|]. destruct (ss_table m); [naive_solver|].
  destruct (method_support_eih m); [naive_solver|]. intros (? & ? & [= <- <- <-])%outcome_bind_Ok. done.
Qed.

Lemma method_cases m :
  (category m = Cat_None ∨ ss_table m = true ∨ method_support_eih m = false) ∨
  (category m ≠ Cat_None ∧ ss_table m = false ∧ method_support_eih m = true).
Proof using. destruct (decide (category m = Cat_None)), (ss_table m), (method_support_eih m); tauto. Qed.

(** Exporting and reading again. *)
Lemma password_to_keys_export m pw p k ids :
  password_to_keys m pw = Ok (p, k, ids) → password_to_keys m (export_text p ids) = Ok (p, k, ids).
Proof using B64L.
  intros H. destruct (method_cases m) as [Hp|(Hc & Ht & He)].
  - destruct (password_to_keys_plain m pw p k ids Hp H) as [-> ->]. by unfold export_text.
  - apply password_to_keys_eih in H as (ps & Hs & Hk & Hv); try done.
    apply password_to_keys_eih; try done. exists (std_encode <$> ids). split_and!; [|done|].
    + apply split_export. pose proof (split_on_parts COLON pw) as Hall. rewrite Hs in Hall.
      apply list.Forall_app in Hall as [_ Hall]. by apply list.Forall_cons in Hall as [? _].
    + apply Forall2_fmap_l. clear Hs. induction Hv as [|q v ps ids [_ Ha] Hv IH]; constructor; [|done]. split; [apply std_decode_encode|done].
Qed.

Definition keys_fit (m : CipherKind) (k : bytes) (ids : list bytes) : Prop :=
  (ss_table m = false → length k = key_len m) ∧ Forall (λ i, length i = key_len m) ids ∧ (ids ≠ [] → method_support_eih m = true).

Lemma make_derived_key_length m p n k : make_derived_key m p n = Ok k → length k = n.
Proof using CNL.
  unfold make_derived_key. destruct (is_aead_2022 m); [|intros [= <-]; apply openssl_length].
  destruct (std_decode p); [|done]. case_bool_decide; [|done]. by intros [= <-].
Qed.

Lemma password_to_keys_fit m pw p k ids : password_to_keys m pw = Ok (p, k, ids) → keys_fit m k ids.
Proof using CNL.
  intros H. destruct (method_cases m) as [Hp|(Hc & Ht & He)].
  - destruct (password_to_keys_plain m pw p k ids Hp H) as [-> ->]. split_and!; [|done|done]. intros Ht.
    unfold password_to_keys in H. case_bool_decide as Hc; [injection H as <-; by rewrite none_key_len|].
    rewrite Ht in H. destruct (method_support_eih m); [destruct Hp as [?|[?|?]]; congruence|].
    apply outcome_bind_Ok in H as (? & Hk & [= <-]). by eapply make_derived_key_length.
  - apply password_to_keys_eih in H as (ps & Hs & Hk & Hv); try done.
    split_and!; [intros _; by eapply make_derived_key_length| |done].
    clear Hs. induction Hv as [|q v ps ids [_ Ha] Hv IH]; constructor; [|done]. symmetry. by apply aes_key_len.
Qed.

(** *** Every configuration that can be made

    [reached m ok c]: [c] comes from [new] by setters and by calls of [set_method],
    whether they succeed or not; [m] is the method of the last call that succeeded
    and [ok] says that none has failed since. *)
Inductive reached : CipherKind → bool → ServerConfig → Prop :=
| reached_new a pw m c : ServerConfig_new a pw m = Ok c → reached m true c
| reached_method m0 ok m pw c c' : reached m0 ok c → set_method m pw c = (c', Ok tt) → reached m true c'
| reached_method_failed m0 ok m pw c c' e : reached m0 ok c → set_method m pw c = (c', Err e) → reached m0 false c'
| reached_plugin m0 ok p c : reached m0 ok c → reached m0 ok (set_plugin p c)
| reached_addr m0 ok a c : reached m0 ok c → reached m0 ok (set_addr a c)
| reached_user_manager m0 ok u c : reached m0 ok c → reached m0 ok (set_user_manager u c)
| reached_plugin_addr m0 ok a c : reached m0 ok c → reached m0 ok (set_plugin_addr a c)
| reached_timeout m0 ok t c : reached m0 ok c → reached m0 ok (set_timeout t c)
| reached_remarks m0 ok r c : reached m0 ok c → reached m0 ok (set_remarks r c)
| reached_id m0 ok i c : reached m0 ok c → reached m0 ok (set_id i c)
| reached_mode m0 ok m c : reached m0 ok c → reached m0 ok (set_mode m c)
| reached_weight m0 ok w c : reached m0 ok c → reached m0 ok (set_weight w c)
| reached_source m0 ok s c : reached m0 ok c → reached m0 ok (set_source s c).

(** No call of [set_method] has failed since the last that succeeded. *)
Definition made (c : ServerConfig) : Prop := ∃ m, reached m true c.

Lemma made_new a pw m c : ServerConfig_new a pw m = Ok c → made c.
Proof using. exists m. by eapply reached_new. Qed.
Lemma made_plugin p c : made c → made (set_plugin p c).
Proof using. intros [m H]. exists m. by apply reached_plugin. Qed.
Lemma made_user_manager u c : made c → made (set_user_manager u c).
Proof using. intros [m H]. exists m. by apply reached_user_manager. Qed.
Lemma made_remarks r c : made c → made (set_remarks r c).
Proof using. intros [m H]. exists m. by apply reached_remarks. Qed.
Lemma made_mode x c : made c → made (set_mode x c).
Proof using. intros [m H]. exists m. by apply reached_mode. Qed.

(** The keys of [c] are keys of the method [m]. *)
Definition keys_of (m : CipherKind) (c : ServerConfig) : Prop :=
  keys_fit m (enc_key c) (identity_keys c) ∧
  password_to_keys m (export_password c) = Ok (password c, enc_key c, identity_keys c).

Definition config_ok (c : ServerConfig) : Prop := keys_of (method c) c.

Lemma reached_keys m ok c : reached m ok c → keys_of m c ∧ (ok = true → method c = m).
Proof using All.
  induction 1 as [a pw m c H|m0 ok m pw c c' Hc IH H|m0 ok m pw c c' e Hc IH H| | | | | | | | | | ]; try done.
  - unfold ServerConfig_new in H. apply outcome_bind_Ok in H as ([[p k] ids] & Hk & [= <-]).
    split; [|done]. split; [by eapply password_to_keys_fit|by eapply password_to_keys_export].
  - unfold set_method in H. destruct (password_to_keys m pw) as [[[p k] ids]| |] eqn:Hk; [|done..]. injection H as <-.
    split; [|done]. split; [by eapply password_to_keys_fit|by eapply password_to_keys_export].
  - unfold set_method in H. destruct (password_to_keys m pw) as [[[p k] ids]| |] eqn:Hk; [done| |done]. injection H as <- _. by split; [apply IH|].
Qed.

Lemma made_config_ok c : made c → config_ok c.
Proof using All. intros [m [H E]%reached_keys]. unfold config_ok. by rewrite E. Qed.

(** C28. Types of configurations.  Whatever is set and in whatever order, also by
    calls of [set_method] that return an error, a configuration has a key of the
    length that the method [m] of the last successful call wants (unless it is the
    table cipher, which has none) and identity keys of that length, only where that
    method has identity headers; and the password it exports stands, for that
    method, for exactly this password, key and list of identity keys.  This is the
    configuration's own method, unless a call of [set_method] has failed since. *)
Theorem config_keys_typed m ok c : reached m ok c →
  (ss_table m = false → length (enc_key c) = key_len m) ∧
  Forall (λ i, length i = key_len m) (identity_keys c) ∧
  (identity_keys c ≠ [] → method_support_eih m = true) ∧
  (∃ c', ServerConfig_new (addr c) (export_password c) m = Ok c' ∧
     password c' = password c ∧ enc_key c' = enc_key c ∧ identity_keys c' = identity_keys c) ∧
  (ok = true → method c = m).
Proof using All.
  intros [[(Hk & Hi & He) Hp] Hm]%reached_keys. split_and!; try done. unfold ServerConfig_new. rewrite Hp. cbn [mbind outcome_bind]. by eexists.
Qed.

(** A call of [set_method] whose password does not fit changes the method all
    the same: it returns the error and leaves the configuration with the new method
    and the key of the old one, while a call that succeeds replaces all of them. *)
Theorem set_method_outcome m pw c :
  match password_to_keys m pw with
  | Ok (p, k, ids) => set_method m pw c = (with_keys m p k ids c, Ok tt)
  | Err e => set_method m pw c = (with_keys m (password c) (enc_key c) (identity_keys c) c, Err e)
  | Panic msg => False
  end.
Proof using CNL.
  destruct (password_to_keys m pw) as [[[p k] ids]|e|msg] eqn:E; try (unfold set_method; by rewrite E).
  revert E. unfold password_to_keys. case_bool_decide; [done|]. destruct (ss_table m); [done|].
  assert (∀ p n msg, make_derived_key m p n ≠ Panic msg) as Hmk.
  { intros p n x. unfold make_derived_key. destruct (is_aead_2022 m); [|done]. destruct (std_decode p); [|done]. by case_bool_decide. }
  destruct (method_support_eih m) eqn:He.
  - destruct (reverse (split_on COLON pw)) as [|u ps] eqn:Es.
    { apply (f_equal reverse) in Es. rewrite reverse_involutive in Es. by destruct (split_on_nonempty COLON pw). }
    destruct (make_derived_key m u (key_len m)) as [k| |] eqn:Ek; [|done|by destruct (Hmk u (key_len m) msg0)]. cbn [mbind outcome_bind].
    assert (∀ acc x, decode_ipsks m ps acc ≠ Panic x) as Hd; [|by destruct (decode_ipsks m ps []) eqn:Ed; [..|destruct (Hd [] msg0)]].
    clear Es Ek. unfold method_support_eih in He. destruct (aes_kind m) as [n|] eqn:Ea; [|done].
    induction ps as [|q ps IH]; intros acc x; cbn [decode_ipsks]; [done|]. destruct (std_decode q); [|done]. rewrite Ea. by case_bool_decide.
  - by destruct (make_derived_key m pw (key_len m)) as [| |x] eqn:Ek; [..|destruct (Hmk pw (key_len m) x)].
Qed.
End Config.

(** ** Executable models of the crates, for the examples *)
Module ToyConf.
Import Toy.

Fixpoint hex_encode (l : bytes) : bytes :=
  match l with
  | [] => []
  | b :: l => digit_char (byte.unsigned b / 16) :: digit_char (byte.unsigned b mod 16) :: hex_encode l
  end.

Fixpoint hex_decode (l : bytes) : bytes + unit :=
  match l with
  | [] => inl []
  | h :: d :: l =>
      match digit 16 h, digit 16 d, hex_decode l with
      | Some h, Some d, inl r => inl (b# (h * 16 + d) :: r)
      | _, _, _ => inr tt
      end
  | [_] => inr tt
  end.

#[export] Instance base64 : Base64 := {|
  DecodeError := unit;
  std_encode := hex_encode; std_decode := hex_decode;
  url_encode := hex_encode; url_decode := hex_decode;
|}.

Lemma hex_nibbles b :
  digit 16 (digit_char (byte.unsigned b / 16)) = Some (byte.unsigned b / 16) ∧
  digit 16 (digit_char (byte.unsigned b mod 16)) = Some (byte.unsigned b mod 16) ∧
  b# (byte.unsigned b / 16 * 16 + byte.unsigned b mod 16) = b.
Proof.
  pose proof (byte_unsigned_range b).
  assert (0 ≤ byte.unsigned b / 16 < 16) by (split; [apply Z.div_pos; lia|apply Z.div_lt_upper_bound; lia]).
  pose proof (Z.mod_pos_bound (byte.unsigned b) 16 ltac:(lia)).
  split_and!; [apply digit_char_digit; lia|apply digit_char_digit; lia|].
  rewrite Z.mul_comm, <- Z.div_mod by lia. apply byte.of_Z_unsigned.
Qed.

Lemma hex_decode_encode x : hex_decode (hex_encode x) = inl x.
Proof.
  induction x as [|b x IH]; [done|]. cbn [hex_encode hex_decode]. destruct (hex_nibbles b) as (-> & -> & E). by rewrite IH, E.
Qed.

Lemma hex_char_safe d : 0 ≤ d < 16 → url_safe (digit_char d) = true ∧ digit_char d ≠ b# 37 ∧ digit_char d ≠ COLON ∧ digit_char d ≠ b# 59.
Proof.
  intros Hd. replace d with (Z.of_nat (Z.to_nat d)) by lia. assert (Z.to_nat d < 16)%nat as Hn by lia.
  revert Hn. generalize (Z.to_nat d). clear. intros n Hn. do 16 (destruct n as [|n]; [by vm_compute|]). lia.
Qed.

Lemma hex_encode_chars x : Forall (λ b, url_safe b = true ∧ b ≠ b# 37 ∧ b ≠ COLON ∧ b ≠ b# 59) (hex_encode x).
Proof.
  induction x as [|b x IH]; [constructor|]. pose proof (byte_unsigned_range b).
  constructor; [apply hex_char_safe|constructor; [apply hex_char_safe|done]].
  - split; [apply Z.div_pos; lia|apply Z.div_lt_upper_bound; lia].
  - apply Z.mod_pos_bound. lia.
Qed.

Lemma hex_decode_length x : ∀ y, hex_decode x = inl y → x = [] ∨ (length y < length x)%nat.
Proof.
  enough (∀ n x y, (length x ≤ n)%nat → hex_decode x = inl y → (2 * length y = length x)%nat) as H.
  { intros y Hy. apply (H (length x)) in Hy; [|done]. destruct x; [by left|right; simpl in *; lia]. }
  induction n as [|n IH]; intros [|h [|d l]] y Hl; cbn [hex_decode]; try (intros [= <-]; done); try done; simpl in Hl; try lia.
  destruct (digit 16 h), (digit 16 d), (hex_decode l) as [r|] eqn:E; try done. intros [= <-]. apply IH in E; [simpl; lia|lia].
Qed.

#[export] Instance base64_laws : Base64Laws base64.
Proof.
  pose proof hex_encode_chars as Hc. split.
  - apply hex_decode_encode.
  - intros x Hx. specialize (Hc x). rewrite list.Forall_forall in Hc. by apply Hc in Hx as (_ & _ & ? & _).
  - done.
  - apply hex_decode_encode.
  - intros x. eapply list.Forall_impl; [apply Hc|]. naive_solver.
  - by intros [|b x].
  - apply hex_decode_length.
Qed.

#[export] Instance names : CipherNames := {|
  kind_str k := match k with Toy.Plain => str "none" | Toy.Stream4 => str "stream" | Toy.Aead4 => str "aead"
                | Toy.Aead2022_16 => str "2022-aes" | Toy.Chacha2022 => str "2022-chacha" end;
  kind_parse s :=
    if bool_decide (s = str "none") then Some Toy.Plain else if bool_decide (s = str "stream") then Some Toy.Stream4
    else if bool_decide (s = str "aead") then Some Toy.Aead4 else if bool_decide (s = str "2022-aes") then Some Toy.Aead2022_16
    else if bool_decide (s = str "2022-chacha") then Some Toy.Chacha2022 else None;
  ss_table _ := false;
  openssl_bytes_to_key p n := take n (p ++ replicate n (b# 0));
|}.

#[export] Instance names_laws : CipherNamesLaws names.
Proof.
  split.
  - by intros []; vm_compute.
  - intros []; (split; [done|]); apply (bool_decide_unpack _); by vm_compute.
  - intros p n. simpl. rewrite length_take, length_app, length_replicate. lia.
  - by intros [].
  - intros [] n H; simpl in *; congruence.
  - by intros [] n H.
  - by intros [].
  - done.
Qed.

Definition ipsk : bytes := be_bytes 16 7.
Definition upsk : bytes := be_bytes 16 9.
Definition toy_password : bytes := hex_encode ipsk ++ COLON :: hex_encode upsk.
Definition toy_addr : ServerAddr := DomainName (str "example.com") 8388.
Definition toy_config : ServerConfig := {|
  addr := toy_addr; password := hex_encode upsk; method := Toy.Aead2022_16; enc_key := upsk; timeout := None;
  identity_keys := [ipsk]; user_manager := None; plugin := None; plugin_addr := None; remarks := None; id := None;
  mode := TcpAndUdp; weight := ServerWeight_new; source := SourceDefault |}.

(** After a call of [set_method] that fails: the method has changed, the keys have not. *)
Definition failed_config : ServerConfig := fst (set_method Toy.Chacha2022 (str "no key") toy_config).

Lemma toy_reached : reached Toy.Aead2022_16 false (set_mode UdpOnly failed_config).
Proof.
  apply reached_mode.
  eapply (reached_method_failed (CS := suite) Toy.Aead2022_16 true Toy.Chacha2022 (str "no key") toy_config failed_config); [|reflexivity].
  by apply (reached_new (CS := suite) toy_addr toy_password Toy.Aead2022_16).
Qed.
End ToyConf.

Import Toy ToyConf.

Lemma config_keys_typed_witness :
  method ToyConf.failed_config = Toy.Chacha2022 ∧ length (enc_key ToyConf.failed_config) = key_len Toy.Aead2022_16.
Proof.
  destruct (config_keys_typed _ _ _ ToyConf.toy_reached) as (Hk & _). split; [done|by apply Hk].
Defined.

(** A key of sixteen bytes is left with a method that has keys of four. *)
Example set_method_error_example :
  let '(c, r) := set_method Toy.Aead2022_16 (str "not hex") (with_keys Toy.Aead4 (str "pw") (be_bytes 4 1) [] ToyConf.toy_config) in
  r = Err (InvalidKeyEncoding Toy.Aead2022_16 tt) ∧ method c = Toy.Aead2022_16 ∧ length (enc_key c) = 4%nat.
Proof. split; [reflexivity|split; reflexivity]. Qed.
