(* ===== verification/ServerUrl.v ===== *)
(** * Server URLs (crates/shadowsocks/src/config.rs)

    [ServerConfig::to_url], [to_qrcode_url] and [from_url].  The crates that parse
    URLs, query strings and percent-encoding are a class of operations with the
    laws their documentation gives for text without special characters.  Shown:
    reading terminates, and reads a printed configuration back. *)
From S2P Require Import Prelude.
From S2P Require Import Utf8.
From S2P Require Import External.
From S2P Require Import Socks5.
From S2P Require Import Users.
From S2P Require Import StdNet.
From S2P Require Import NetText.
From S2P Require Import ServerConf.

(** What [url::Url] has of a URL. *)
Record Url := {
  scheme : bytes;
  username : bytes;
  url_password : option bytes;
  host_str : option bytes;
  url_port : option Z;
  query : option bytes;
  fragment : option bytes;
}.

(** [url], [percent-encoding] with the set [NON_ALPHANUMERIC], and
    [serde_urlencoded]. *)
Class UrlCrates := {
  ParseError : Type;
  QueryError : Type;
  url_parse : bytes → Url + ParseError;
  utf8_percent_encode : bytes → bytes;
  percent_decode_str : bytes → bytes;
  urlencoded_from_bytes : bytes → list (bytes * bytes) + QueryError;
}.

(** The text of a URL with an authority. *)
Definition url_text (user : bytes) (pwd : option bytes) (host : bytes) (port : Z) (query fragment : option bytes) : bytes :=
  str "ss://" ++ user ++ (match pwd with Some p => COLON :: p | None => [] end) ++ b# 64 :: host ++ COLON :: show_u16 port ++
  (match query with Some q => str "/?" ++ q | None => [] end) ++
  (match fragment with Some f => b# 35 :: f | None => [] end).

(** A host: a name or dotted IPv4 address, or an IPv6 address in brackets (not an
    IPv4-mapped one, which the crate prints with groups only). *)
Definition url_host (h : bytes) : Prop :=
  (h ≠ [] ∧ Forall (λ b, alphanumeric b || in_range 45 46 b = true) h) ∨
  (∃ ip, 0 ≤ ip < 2 ^ 128 ∧ to_ipv4_mapped ip = None ∧ h = b# 91 :: show_ipv6 ip ++ [b# 93]).

Definition all_safe (s : bytes) : Prop := Forall (λ b, url_safe b = true) s.

(** The scheme [ss] is not special: the host is taken as it is written.  A host
    that can be text in the URL alphabet of base64 is a part of the URL, which is
    longer by the scheme, a colon and two slashes. *)
Class UrlLaws `{B64 : Base64} (U : UrlCrates) : Prop := {
  url_parse_text user pwd host port query fragment :
    user ≠ [] → all_safe user → (∀ p, pwd = Some p → p ≠ [] ∧ all_safe p) → url_host host → 0 ≤ port < 2 ^ 16 →
    (∀ q, query = Some q → ∃ v, q = str "plugin=" ++ v ∧ all_safe v) → (∀ f, fragment = Some f → all_safe f) →
    url_parse (url_text user pwd host port query fragment) =
    inl {| scheme := str "ss"; username := user; url_password := pwd; host_str := Some host; url_port := Some port;
           query := query; fragment := fragment |};
  url_parse_host s u h b :
    url_parse s = inl u → scheme u = str "ss" → host_str u = Some h → url_decode h = inl b → h ≠ [] ∧ (length h + 5 ≤ length s)%nat;
  percent_encode_safe s : all_safe (utf8_percent_encode s);
  percent_encode_nonempty s : s ≠ [] → utf8_percent_encode s ≠ [];
  percent_decode_encode s : percent_decode_str (utf8_percent_encode s) = s;
  percent_decode_plain s : b# 37 ∉ s → percent_decode_str s = s;
  urlencoded_plugin v : urlencoded_from_bytes (str "plugin=" ++ utf8_percent_encode v) = inl [(str "plugin", v)];
}.

Section Urls.
Context `{CS : CipherSuite, B64 : Base64, CN : !CipherNames, BL : Blake3, UC : UrlCrates}.

Inductive UrlParseError :=
| ParseErr (e : ParseError)
| InvalidScheme
| InvalidMethod
| InvalidUserInfo
| MissingHost
| InvalidAuthInfo
| InvalidServerAddr
| InvalidQueryString
| ServerConfigErr (e : ServerConfigError).

(** ** Printing *)
Definition to_qrcode_url (self : ServerConfig) : bytes :=
  let param := kind_str (method self) ++ COLON :: password self ++ b# 64 :: ServerAddr_fmt (addr self) in
  str "ss://" ++ url_encode param.

Definition plugin_text (c : PluginConfig) : bytes :=
  plugin_name c ++ match plugin_opts c with Some opt => b# 59 :: opt | None => [] end.

Definition to_url (self : ServerConfig) : bytes :=
  let user_info :=
    if negb (is_aead_2022 (method self)) then url_encode (kind_str (method self) ++ COLON :: password self)
    else kind_str (method self) ++ COLON :: utf8_percent_encode (export_password self) in
  str "ss://" ++ user_info ++ b# 64 :: ServerAddr_fmt (addr self) ++
  (match plugin self with Some c => str "/?plugin=" ++ utf8_percent_encode (plugin_text c) | None => [] end) ++
  (match remarks self with Some remark => b# 35 :: utf8_percent_encode remark | None => [] end).

(** ** Reading *)

(** [percent_decode_str(s).decode_utf8()]. *)
Definition decode_utf8 (s : bytes) : option bytes := from_utf8 (percent_decode_str s).

(** The method and the password of the user info. *)
Definition read_user_info (user_info : bytes) (pwd : option bytes) : outcome UrlParseError (bytes * bytes) :=
  match pwd with
  | Some password =>
      match decode_utf8 user_info with
      | None => Err InvalidAuthInfo
      | Some m => match decode_utf8 password with None => Err InvalidAuthInfo | Some p => Ok (m, p) end
      end
  | None =>
      match decode_utf8 user_info with
      | None => Err InvalidAuthInfo
      | Some decoded_user_info =>
          match url_decode decoded_user_info with
          | inl account =>
              match from_utf8 account with
              | Some account => match split_first COLON account with Some (m, p) => Ok (m, p) | None => Err InvalidUserInfo end
              | None => Err InvalidAuthInfo
              end
          | inr _ => Err InvalidUserInfo
          end
      end
  end.

(** The plugins of the query, the last one stays. *)
Definition read_plugin (svrconfig : ServerConfig) (kv : bytes * bytes) : ServerConfig :=
  if bool_decide (kv.1 = str "plugin") then
    let '(p, opts) := match split_first (b# 59) kv.2 with Some (p, o) => (p, Some o) | None => (kv.2, None) end in
    set_plugin {| plugin_name := p; plugin_opts := opts; plugin_args := []; plugin_mode := TcpOnly |} svrconfig
  else svrconfig.

Definition read_query (q : option bytes) (svrconfig : ServerConfig) : outcome UrlParseError ServerConfig :=
  match q with
  | Some q =>
      match urlencoded_from_bytes q with
      | inl query => Ok (foldl read_plugin svrconfig query)
      | inr _ => Err InvalidQueryString
      end
  | None => Ok svrconfig
  end.

Definition read_fragment (frag : option bytes) (svrconfig : ServerConfig) : ServerConfig :=
  match frag with
  | Some frag => match decode_utf8 frag with Some m => set_remarks m svrconfig | None => set_remarks frag svrconfig end
  | None => svrconfig
  end.

(** A URL with user info. *)
Definition from_parsed (parsed : Url) : outcome UrlParseError ServerConfig :=
  '(method, pwd) ← read_user_info (username parsed) (url_password parsed);
  host ← match host_str parsed with Some host => Ok host | None => Err MissingHost end;
  let port := default 8388 (url_port parsed) in
  addr ← match ServerAddr_from_str (host ++ COLON :: show_u16 port) with Some a => Ok a | None => Err InvalidServerAddr end;
  method ← match kind_parse method with Some m => Ok m | None => Err InvalidMethod end;
  svrconfig ← map_err ServerConfigErr (ServerConfig_new addr pwd method);
  svrconfig ← read_query (query parsed) svrconfig;
  Ok (read_fragment (fragment parsed) svrconfig).

(** [None] when the fuel is used up. *)
Fixpoint from_url (fuel : nat) (encoded : bytes) : option (outcome UrlParseError ServerConfig) :=
  match fuel with
  | O => None
  | S fuel =>
      match url_parse encoded with
      | inr e => Some (Err (ParseErr e))
      | inl parsed =>
          if negb (bool_decide (scheme parsed = str "ss")) then Some (Err InvalidScheme)
          else if bool_decide (username parsed = []) then
            match host_str parsed with
            | Some encoded =>
                match url_decode encoded with
                | inl b => match from_utf8 b with Some b => from_url fuel (str "ss://" ++ b) | None => Some (Err InvalidServerAddr) end
                | inr _ => Some (Err InvalidServerAddr)
                end
            | None => Some (Err MissingHost)
            end
          else Some (from_parsed parsed)
      end
  end.

Context {B64L : Base64Laws B64} {CNL : CipherNamesLaws CN} {UL : UrlLaws UC}.

(** ** Reading terminates *)

(** One turn of [from_url] with the answers of the crates rewritten. *)
Local Ltac url_case :=
  intros [|?] ?; [lia|]; cbn [from_url]; repeat match goal with H : _ = _ |- _ => rewrite H; clear H end; done.

(** Reading a URL comes to an end whatever the text is: every level of base64
    inside a URL is shorter than the URL, so that as many levels as the text has
    bytes are enough; more fuel gives the same result. *)
Theorem from_url_total encoded :
  ∃ r, from_url (S (length encoded)) encoded = Some r ∧ ∀ fuel, (length encoded < fuel)%nat → from_url fuel encoded = Some r.
Proof using All.
  enough (∀ n s, (length s < n)%nat → ∃ r, ∀ fuel, (length s < fuel)%nat → from_url fuel s = Some r) as H.
  { destruct (H (S (length encoded)) encoded ltac:(lia)) as [r Hr]. exists r. split; [apply Hr; lia|done]. }
  clear encoded. induction n as [|n IH]; intros s Hn; [lia|].
  destruct (url_parse s) as [parsed|e] eqn:Ep; [|exists (Err (ParseErr e)); url_case].
  destruct (bool_decide (scheme parsed = str "ss")) eqn:Es; [|exists (Err InvalidScheme); url_case].
  destruct (bool_decide (username parsed = [])) eqn:Eu; [|exists (from_parsed parsed); url_case].
  destruct (host_str parsed) as [h|] eqn:Eh; [|exists (Err MissingHost); url_case].
  destruct (url_decode h) as [b|] eqn:Eb; [|exists (Err InvalidServerAddr); url_case].
  pose proof Es as Es'. apply bool_decide_eq_true in Es'. destruct (url_parse_host _ _ _ _ Ep Es' Eh Eb) as [Hne Hl].
  destruct (from_utf8 b) as [b'|] eqn:E8; [|exists (Err InvalidServerAddr); url_case].
  apply from_utf8_Some in E8 as HE. destruct HE as [-> _]. destruct (url_decode_length _ _ Eb) as [|Hb]; [done|].
  assert (length (str "ss://" ++ b) < length s)%nat as Hlt by (rewrite length_app; change (length (str "ss://")) with 5%nat; lia).
  destruct (IH (str "ss://" ++ b) ltac:(lia)) as [r Hr]. exists r. intros [|fuel] Hf; [lia|]. cbn [from_url].
  rewrite Ep, Es, Eu, Eh, Eb, E8. apply Hr. lia.
Qed.

(** ** Round trip *)
Lemma safe_ascii s l : all_safe s → utf8_valid (s ++ l) = utf8_valid l.
Proof using.
  induction 1 as [|b s Hb Hs IH]; [done|]. cbn [app utf8_valid].
  assert (in_range 0 127 b = true) as ->; [|done]. unfold url_safe, alphanumeric, in_range in *. pose proof (byte_unsigned_range b). lia.
Qed.

Lemma safe_utf8 s : all_safe s → utf8_valid s = true.
Proof using. intros Hs. rewrite <- (app_nil_r s). by rewrite safe_ascii. Qed.

Lemma decode_utf8_plain s : Forall (λ b, url_safe b = true ∧ b ≠ b# 37) s → decode_utf8 s = Some s.
Proof using UL.
  intros Hs. unfold decode_utf8. rewrite percent_decode_plain.
  - apply from_utf8_valid, safe_utf8. eapply list.Forall_impl; [exact Hs|]. naive_solver.
  - intros Hin. rewrite list.Forall_forall in Hs. by apply Hs in Hin as [_ ?].
Qed.

Lemma decode_utf8_encoded s : utf8_valid s = true → decode_utf8 (utf8_percent_encode s) = Some s.
Proof using UL. intros Hs. unfold decode_utf8. rewrite percent_decode_encode. by apply from_utf8_valid. Qed.

Lemma plain_safe s : Forall (λ b, url_safe b = true ∧ b ≠ b# 37) s → all_safe s.
Proof using. intros H. eapply list.Forall_impl; [exact H|]. naive_solver. Qed.

Lemma kind_str_no_colon m : COLON ∉ kind_str m.
Proof using CNL.
  intros Hin. destruct (kind_str_safe m) as [_ H]. rewrite list.Forall_forall in H. apply H in Hin as [Hin _]. by vm_compute in Hin.
Qed.

(** An address whose host can stand in a URL. *)
Definition url_addr (a : ServerAddr) : Prop :=
  printable_addr a ∧
  match a with
  | SocketAddr (V4 _ _) => True
  | SocketAddr (V6 ip _ _ scope_id) => to_ipv4_mapped ip = None ∧ scope_id = 0
  | DomainName d _ => Forall (λ b, alphanumeric b || in_range 45 46 b = true) d
  end.

Lemma show_octet_host z : Forall (λ b, alphanumeric b || in_range 45 46 b = true) (show_octet z).
Proof using.
  apply list.Forall_forall. intros b Hb%show_number_decimal. unfold alphanumeric, in_range. lia.
Qed.

Lemma show_ipv4_host ip : Forall (λ b, alphanumeric b || in_range 45 46 b = true) (show_ipv4 ip).
Proof using.
  unfold show_ipv4. repeat (apply list.Forall_app; split; [apply show_octet_host|]; constructor; [by vm_compute|]). apply show_octet_host.
Qed.

Lemma url_addr_fmt a : url_addr a →
  ∃ host port, ServerAddr_fmt a = host ++ COLON :: show_u16 port ∧ url_host host ∧ 0 ≤ port < 2 ^ 16.
Proof using.
  intros [Hp Ha]. destruct a as [[ip port|ip port fl sc]|d port]; cbn [printable_addr text_addr ServerAddr_fmt show_socket_addr] in *.
  - exists (show_ipv4 ip), port. split_and!; [done| |lia..]. left. split; [|apply show_ipv4_host].
    intros E. apply (f_equal length) in E. unfold show_ipv4 in E. rewrite length_app in E. simpl in E. lia.
  - destruct Ha as [Hm ->]. exists (b# 91 :: show_ipv6 ip ++ [b# 93]), port. split_and!; [|right; exists ip; split_and!; try done; lia|lia..].
    cbn [Z.eqb app]. by rewrite <- app_assoc.
  - destruct Hp as [(Hne & _) Hp]. exists d, port. split_and!; [done|by left|lia..].
Qed.

(** What a URL says of a configuration. *)
Definition url_view (c : ServerConfig) : ServerConfig := {|
  addr := addr c; password := password c; method := method c; enc_key := enc_key c; timeout := None;
  identity_keys := identity_keys c; user_manager := None;
  plugin := (λ p, {| plugin_name := plugin_name p; plugin_opts := plugin_opts p; plugin_args := []; plugin_mode := TcpOnly |}) <$> plugin c;
  plugin_addr := None; remarks := remarks c; id := None; mode := TcpAndUdp; weight := ServerWeight_new; source := SourceDefault |}.

Definition url_config (c : ServerConfig) : Prop :=
  url_addr (addr c) ∧ utf8_valid (export_password c) = true ∧
  (∀ p, plugin c = Some p → b# 59 ∉ plugin_name p) ∧ (∀ r, remarks c = Some r → utf8_valid r = true).

Lemma export_password_plain c : config_ok c → is_aead_2022 (method c) = false → export_password c = password c.
Proof using CNL.
  intros [(_ & _ & He) _] H2. unfold export_password. case_bool_decide as Hi; [done|]. specialize (He Hi).
  unfold method_support_eih in He. destruct (aes_kind (method c)) as [n|] eqn:Ea; [|done].
  apply aes_2022 in Ea. unfold is_aead_2022 in H2. by rewrite Ea in H2.
Qed.

Lemma aead_2022_password_nonempty m p k ids : is_aead_2022 m = true → password_to_keys m [] ≠ Ok (p, k, ids).
Proof using B64L CNL.
  intros H2 H. assert (category m = Cat_Aead2022) as Hc by (unfold is_aead_2022 in H2; by apply bool_decide_eq_true in H2).
  assert (∀ k, make_derived_key m [] (key_len m) ≠ Ok k) as Hmk.
  { intros k'. unfold make_derived_key. rewrite H2. pose proof (std_decode_encode []) as E. rewrite std_encode_nil in E. rewrite E.
    rewrite bool_decide_false; [done|]. simpl. intros E'. by destruct (aead_2022_key_len m Hc). }
  unfold password_to_keys in H. rewrite Hc in H. rewrite bool_decide_false in H by done.
  destruct (ss_table m) eqn:Et; [apply table_stream in Et; congruence|]. destruct (method_support_eih m); cbn in H.
  - apply outcome_bind_Ok in H as (? & H & _). by apply Hmk in H.
  - apply outcome_bind_Ok in H as (? & H & _). by apply Hmk in H.
Qed.

(** The user info of a printed URL and what it is read as. *)
Lemma user_info_roundtrip c : config_ok c → utf8_valid (export_password c) = true →
  ∃ user pwd,
    (if negb (is_aead_2022 (method c)) then url_encode (kind_str (method c) ++ COLON :: password c)
     else kind_str (method c) ++ COLON :: utf8_percent_encode (export_password c)) = user ++ (match pwd with Some p => COLON :: p | None => [] end) ∧
    user ≠ [] ∧ all_safe user ∧ (∀ p, pwd = Some p → p ≠ [] ∧ all_safe p) ∧
    read_user_info user pwd = Ok (kind_str (method c), export_password c).
Proof using All.
  intros Hok Hu. destruct (kind_str_safe (method c)) as [Hkne Hks]. destruct (is_aead_2022 (method c)) eqn:H2; cbn [negb].
  - exists (kind_str (method c)), (Some (utf8_percent_encode (export_password c))). split_and!; [done|done|by apply plain_safe| |].
    + intros p [= <-]. split; [|apply percent_encode_safe]. apply percent_encode_nonempty. intros E.
      destruct Hok as [_ Hp]. rewrite E in Hp. by apply aead_2022_password_nonempty in Hp.
    + unfold read_user_info. by rewrite decode_utf8_plain, decode_utf8_encoded.
  - rewrite (export_password_plain c Hok H2) in *. set (t := kind_str (method c) ++ COLON :: password c).
    exists (url_encode t), None. split_and!; [by rewrite app_nil_r| | |done|].
    + apply url_encode_nonempty. unfold t. by destruct (kind_str (method c)).
    + apply plain_safe, url_encode_safe.
    + unfold read_user_info. rewrite decode_utf8_plain, url_decode_encode by apply url_encode_safe. unfold t.
      rewrite from_utf8_valid; [by rewrite split_first_app by apply kind_str_no_colon|].
      rewrite safe_ascii by (by apply plain_safe). cbn [utf8_valid]. by change (in_range 0 127 COLON) with true.
Qed.

Lemma plugin_roundtrip p : b# 59 ∉ plugin_name p →
  (match split_first (b# 59) (plugin_text p) with Some (p, o) => (p, Some o) | None => (plugin_text p, None) end) = (plugin_name p, plugin_opts p).
Proof using.
  intros Hp. unfold plugin_text. destruct (plugin_opts p) as [o|]; [by rewrite split_first_app|].
  by rewrite app_nil_r, split_first_None.
Qed.

(** C29. A configuration is read back from the URL it prints: the same address,
    method, password, key, identity keys, plugin with its options, and remarks,
    with the defaults for what a URL does not carry.  This is for configurations
    that no failed call of [set_method] has left with the keys of another method,
    whose address is an IPv4 address, an IPv6 address without scope and flow label
    that is not an IPv4 address mapped to IPv6, or a domain name of letters,
    digits, [-] and [.] that does not read as an address, and whose plugin has no
    [;] in its name. *)
Theorem url_roundtrip c fuel : made c → url_config c → (0 < fuel)%nat → from_url fuel (to_url c) = Some (Ok (url_view c)).
Proof using All.
  intros Hm (Ha & Hu & Hpl & Hre) Hf. apply made_config_ok in Hm as Hok. destruct fuel as [|fuel]; [lia|].
  destruct (user_info_roundtrip c Hok Hu) as (user & pwd & Hui & Hne & Hus & Hps & Hread).
  destruct (url_addr_fmt (addr c) Ha) as (host & port & Hfmt & Hhost & Hport).
  assert (to_url c = url_text user pwd host port
    ((λ p, str "plugin=" ++ utf8_percent_encode (plugin_text p)) <$> plugin c) (utf8_percent_encode <$> remarks c)) as ->.
  { unfold to_url, url_text. rewrite Hui, Hfmt. destruct (plugin c), (remarks c);
    rewrite <- ?app_assoc; cbn [app]; rewrite <- ?app_assoc; reflexivity. }
  cbn [from_url]. rewrite url_parse_text; try done.
  2:{ destruct (plugin c) as [p|]; [|done]. intros q [= <-]. eexists. split; [done|apply percent_encode_safe]. }
  2:{ destruct (remarks c) as [r|]; [|done]. intros f [= <-]. apply percent_encode_safe. }
  cbn [scheme username]. rewrite bool_decide_true, bool_decide_false by done. cbn [negb]. f_equal.
  unfold from_parsed. cbn [username url_password host_str url_port query fragment]. rewrite Hread. cbn [mbind outcome_bind default from_option Datatypes.id].
  rewrite <- Hfmt, addr_reread by apply Ha. cbn [mbind outcome_bind]. rewrite kind_parse_str. cbn [mbind outcome_bind].
  unfold ServerConfig_new. rewrite (proj2 Hok). cbn [mbind outcome_bind map_err].
  assert (∀ s, read_query ((λ p, str "plugin=" ++ utf8_percent_encode (plugin_text p)) <$> plugin c) s =
    Ok (match plugin c with
        | Some p => set_plugin {| plugin_name := plugin_name p; plugin_opts := plugin_opts p; plugin_args := []; plugin_mode := TcpOnly |} s
        | None => s end)) as ->.
  { intros s. destruct (plugin c) as [p|] eqn:Ep; [|done]. cbn [fmap option_fmap option_map read_query].
    rewrite urlencoded_plugin. cbn [foldl]. unfold read_plugin. cbn [fst snd]. rewrite bool_decide_true by done.
    by rewrite plugin_roundtrip by (by apply Hpl). }
  cbn [mbind outcome_bind]. f_equal. unfold url_view. destruct (remarks c) as [r|] eqn:Er; destruct (plugin c) as [p|] eqn:Ep;
    cbn [fmap option_fmap option_map read_fragment]; rewrite ?decode_utf8_encoded by (by apply Hre); done.
Qed.

(** The QR code form prints the user's key only. *)
Lemma qrcode_url_drops_identity_keys c ids :
  to_qrcode_url (with_keys (method c) (password c) (enc_key c) ids c) = to_qrcode_url c.
Proof using. done. Qed.
End Urls.

(** ** Executable models of the crates, for the examples *)
Module ToyUrl.
Definition pct_char (b : byte) : bytes :=
  if alphanumeric b then [b] else [b# 37; digit_char (byte.unsigned b / 16); digit_char (byte.unsigned b mod 16)].

Definition pct_encode (s : bytes) : bytes := s ≫= pct_char.

Fixpoint pct_decode (l : bytes) : bytes :=
  match l with
  | [] => []
  | b :: rest =>
      if bool_decide (b = b# 37) then
        match rest with
        | h :: d :: l' => match digit 16 h, digit 16 d with Some h, Some d => b# (h * 16 + d) :: pct_decode l' | _, _ => b :: pct_decode rest end
        | _ => b :: pct_decode rest
        end
      else b :: pct_decode rest
  end.

Definition strip_slash (s : bytes) : bytes :=
  match reverse s with c :: r => if bool_decide (c = b# 47) then reverse r else s | [] => s end.

Definition cut (c : byte) (s : bytes) : bytes * option bytes :=
  match split_first c s with Some (p, q) => (p, Some q) | None => (s, None) end.

Definition nonempty (s : bytes) : option bytes := match s with [] => None | _ => Some s end.

Definition parse (s : bytes) : Url + unit :=
  match strip_prefix (str "ss://") s with
  | None => inr tt
  | Some s =>
      let '(s, frag) := cut (b# 35) s in
      let '(s, q) := cut (b# 63) s in
      let s := strip_slash s in
      match cut (b# 64) s with
      | (h, None) =>
          inl {| scheme := str "ss"; username := []; url_password := None; host_str := nonempty h; url_port := None; query := q; fragment := frag |}
      | (ui, Some hp) =>
          let '(user, pwd) := cut COLON ui in
          match split_first COLON (reverse hp) with
          | Some (rport, rhost) =>
              inl {| scheme := str "ss"; username := user; url_password := pwd; host_str := nonempty (reverse rhost);
                     url_port := parse_u16 (reverse rport); query := q; fragment := frag |}
          | None => inr tt
          end
      end
  end.

#[export] Instance crates : UrlCrates := {|
  ParseError := unit; QueryError := unit;
  url_parse := parse;
  utf8_percent_encode := pct_encode;
  percent_decode_str := pct_decode;
  urlencoded_from_bytes q := match strip_prefix (str "plugin=") q with Some v => inl [(str "plugin", pct_decode v)] | None => inl [] end;
|}.

Lemma cut_at c p q : c ∉ p → cut c (p ++ c :: q) = (p, Some q).
Proof. intros H. unfold cut. by rewrite split_first_app. Qed.

Lemma cut_none c p : c ∉ p → cut c p = (p, None).
Proof. intros H. unfold cut. by rewrite split_first_None. Qed.

Lemma safe_not c s : url_safe c = false → all_safe s → c ∉ s.
Proof. intros Hc Hs Hin. unfold all_safe in Hs. rewrite list.Forall_forall in Hs. apply Hs in Hin. congruence. Qed.

(** The bytes of an IPv6 address: no special byte of a URL but the colon. *)
Definition addr_char (b : byte) : bool := alphanumeric b || in_range 58 58 b || in_range 45 46 b || in_range 91 91 b || in_range 93 93 b.

Lemma addr_char_group g : Forall (λ b, addr_char b = true) (show_number 4 16 g).
Proof.
  unfold show_number. apply Forall_fmap, Forall_reverse. eapply list.Forall_impl; [apply (digits_rev_range 16); lia|].
  intros d Hd. unfold compose. cbn beta in Hd. replace d with (Z.of_nat (Z.to_nat d)) by lia. assert (Z.to_nat d < 16)%nat as Hn by lia.
  revert Hn. generalize (Z.to_nat d). clear. intros n Hn. do 16 (destruct n as [|n]; [by vm_compute|]). lia.
Qed.

Lemma addr_char_groups gs : Forall (λ b, addr_char b = true) (show_groups gs).
Proof.
  induction gs as [|g gs IH]; [constructor|]. destruct gs as [|g' gs]; [apply addr_char_group|].
  change (show_groups (g :: g' :: gs)) with (show_number 4 16 g ++ b# 58 :: show_groups (g' :: gs)).
  apply list.Forall_app. split; [apply addr_char_group|]. constructor; [by vm_compute|done].
Qed.

Lemma url_host_chars h : url_host h → h ≠ [] ∧ Forall (λ b, addr_char b = true) h.
Proof.
  intros [[Hne Hh]|(ip & Hip & Hm & ->)].
  - split; [done|]. eapply list.Forall_impl; [exact Hh|]. unfold addr_char. intros b Hb. by destruct (alphanumeric b), (in_range 45 46 b), (in_range 58 58 b).
  - split; [done|]. constructor; [by vm_compute|]. apply list.Forall_app. split; [|by repeat constructor]. unfold show_ipv6. rewrite Hm.
    destruct (longest_zeroes (segments ip)) as [start len]. destruct (1 <? len)%nat; [|apply addr_char_groups].
    repeat (apply list.Forall_app; split); try apply addr_char_groups. apply (bool_decide_unpack _). by vm_compute.
Qed.

Lemma addr_not c s : addr_char c = false → Forall (λ b, addr_char b = true) s → c ∉ s.
Proof. intros Hc Hs Hin. rewrite list.Forall_forall in Hs. apply Hs in Hin. congruence. Qed.

Lemma port_not c port : ¬ (48 ≤ byte.unsigned c ≤ 57) → c ∉ show_u16 port.
Proof. intros Hc Hin%show_number_decimal. done. Qed.

Lemma strip_slash_none s : b# 47 ∉ s → strip_slash s = s.
Proof.
  intros Hs. unfold strip_slash. destruct (reverse s) as [|c r] eqn:E; [done|]. rewrite bool_decide_false; [done|].
  intros ->. apply Hs. rewrite <- (reverse_involutive s), E, reverse_cons. set_solver.
Qed.

Lemma strip_slash_some s : strip_slash (s ++ [b# 47]) = s.
Proof. unfold strip_slash. rewrite reverse_snoc, bool_decide_true by done. apply reverse_involutive. Qed.

Lemma strip_slash_length s : (length (strip_slash s) ≤ length s)%nat.
Proof.
  unfold strip_slash. destruct (reverse s) as [|c r] eqn:E; [done|]. case_bool_decide; [|done].
  apply (f_equal length) in E. rewrite length_reverse in *. simpl in E. lia.
Qed.

Lemma split_first_length c s p q : split_first c s = Some (p, q) → length s = (length p + S (length q))%nat.
Proof.
  revert p. induction s as [|b s IH]; intros p; cbn [split_first]; [done|]. case_bool_decide; [intros [= <- <-]; simpl; lia|].
  destruct (split_first c s) as [[p' q']|]; [|done]. cbn [fmap option_fmap option_map]. intros [= <- <-]. simpl. rewrite (IH p'); [lia|done].
Qed.

Lemma cut_length c s : let '(p, q) := cut c s in (length p + match q with Some q => S (length q) | None => 0 end = length s)%nat.
Proof. unfold cut. destruct (split_first c s) as [[p q]|] eqn:E; [|lia]. apply split_first_length in E. lia. Qed.

(** The part before the query. *)
Definition core (user : bytes) (pwd : option bytes) (host : bytes) (port : Z) : bytes :=
  (user ++ (match pwd with Some p => COLON :: p | None => [] end)) ++ b# 64 :: host ++ COLON :: show_u16 port.

Lemma core_not c user pwd host port :
  c ∈ [b# 35; b# 63; b# 47] → all_safe user → (∀ p, pwd = Some p → p ≠ [] ∧ all_safe p) → url_host host → c ∉ core user pwd host port.
Proof.
  intros Hc Hu Hp [_ Hh]%url_host_chars.
  assert (url_safe c = false ∧ addr_char c = false ∧ ¬ (48 ≤ byte.unsigned c ≤ 57) ∧ c ≠ b# 64 ∧ c ≠ COLON) as (H1 & H2 & H3 & H4 & H5).
  { repeat (apply elem_of_cons in Hc as [->|Hc]; [split_and!; try (by vm_compute); apply (bool_decide_unpack _); by vm_compute|]).
    by apply elem_of_nil in Hc. }
  unfold core. rewrite !not_elem_of_app, !not_elem_of_cons, !not_elem_of_app, !not_elem_of_cons.
  split_and!; [by eapply safe_not| |done|by eapply addr_not|done|by apply port_not].
  destruct pwd as [p|]; [|set_solver]. apply not_elem_of_cons. split; [done|]. eapply safe_not; [done|by apply Hp].
Qed.

Lemma parse_core user pwd host port :
  all_safe user → (∀ p, pwd = Some p → p ≠ [] ∧ all_safe p) → url_host host → 0 ≤ port < 2 ^ 16 →
  cut (b# 64) (core user pwd host port) =
    (user ++ (match pwd with Some p => COLON :: p | None => [] end), Some (host ++ COLON :: show_u16 port)) ∧
  cut COLON (user ++ (match pwd with Some p => COLON :: p | None => [] end)) = (user, pwd) ∧
  split_first COLON (reverse (host ++ COLON :: show_u16 port)) = Some (reverse (show_u16 port), reverse host).
Proof.
  intros Hu Hp Hh Hport. split_and!.
  - unfold core. apply cut_at. rewrite not_elem_of_app. split; [by eapply safe_not|]. destruct pwd as [p|]; [|set_solver].
    rewrite not_elem_of_cons. split; [by vm_compute|]. eapply safe_not; [done|by apply Hp].
  - destruct pwd as [p|]; [apply cut_at; by eapply safe_not|]. rewrite app_nil_r. apply cut_none. by eapply safe_not.
  - rewrite reverse_app, reverse_cons, <- app_assoc. apply split_first_app. rewrite elem_of_reverse. apply show_u16_no_colon.
Qed.

Lemma parse_text user pwd host port query fragment :
  user ≠ [] → all_safe user → (∀ p, pwd = Some p → p ≠ [] ∧ all_safe p) → url_host host → 0 ≤ port < 2 ^ 16 →
  (∀ q, query = Some q → ∃ v, q = str "plugin=" ++ v ∧ all_safe v) → (∀ f, fragment = Some f → all_safe f) →
  parse (url_text user pwd host port query fragment) =
  inl {| scheme := str "ss"; username := user; url_password := pwd; host_str := Some host; url_port := Some port;
         query := query; fragment := fragment |}.
Proof.
  intros Hne Hu Hp Hh Hport Hq Hf.
  set (qpart := match query with Some q => str "/?" ++ q | None => [] end).
  assert (url_text user pwd host port query fragment = str "ss://" ++ (core user pwd host port ++ qpart) ++ match fragment with Some f => b# 35 :: f | None => [] end) as ->.
  { unfold url_text, core. fold qpart. repeat first [rewrite <- app_assoc|cbn [app]]. reflexivity. }
  assert (b# 35 ∉ core user pwd host port ++ qpart) as H35.
  { apply not_elem_of_app. split; [apply core_not; [set_solver|done..]|]. unfold qpart. destruct query as [q|]; [|set_solver].
    destruct (Hq q eq_refl) as (v & -> & Hv). rewrite !not_elem_of_app.
    split_and!; [apply (bool_decide_unpack _); by vm_compute|apply (bool_decide_unpack _); by vm_compute|by eapply safe_not]. }
  unfold parse. unfold strip_prefix. rewrite take_app_length, bool_decide_true, drop_app_length by done.
  assert (cut (b# 35) ((core user pwd host port ++ qpart) ++ match fragment with Some f => b# 35 :: f | None => [] end) =
    (core user pwd host port ++ qpart, fragment)) as ->.
  { destruct fragment as [f|]; [by apply cut_at|]. rewrite app_nil_r. by apply cut_none. }
  assert (∃ s, cut (b# 63) (core user pwd host port ++ qpart) = (s, query) ∧ strip_slash s = core user pwd host port) as (s & -> & ->).
  { unfold qpart. destruct query as [q|].
    - exists (core user pwd host port ++ [b# 47]). split; [|apply strip_slash_some].
      change (str "/?" ++ q) with ([b# 47] ++ b# 63 :: q). rewrite (app_assoc (core user pwd host port) [b# 47] (b# 63 :: q)).
      apply cut_at. apply not_elem_of_app. split; [apply core_not; [set_solver|done..]|]. apply (bool_decide_unpack _); by vm_compute.
    - rewrite app_nil_r. eexists. split; [apply cut_none, core_not; [set_solver|done..]|]. apply strip_slash_none, core_not; [set_solver|done..]. }
  destruct (parse_core user pwd host port Hu Hp Hh Hport) as (-> & -> & ->). rewrite !reverse_involutive, parse_show_u16 by done.
  destruct (url_host_chars host Hh) as [Hhne _]. unfold nonempty. by destruct host.
Qed.

Lemma parse_host s u h : parse s = inl u → host_str u = Some h → h ≠ [] ∧ (length h + 5 ≤ length s)%nat.
Proof.
  unfold parse. destruct (strip_prefix (str "ss://") s) as [s'|] eqn:Es; [|done].
  assert (length s' + 5 ≤ length s)%nat as Hs.
  { unfold strip_prefix in Es. case_bool_decide as Ht; [|done]. injection Es as <-. apply (f_equal length) in Ht. rewrite length_take in Ht.
    rewrite length_drop. change (length (str "ss://")) with 5%nat in *. lia. }
  pose proof (cut_length (b# 35) s'). destruct (cut (b# 35) s') as [s1 frag].
  pose proof (cut_length (b# 63) s1). destruct (cut (b# 63) s1) as [s2 q].
  pose proof (strip_slash_length s2). pose proof (cut_length (b# 64) (strip_slash s2)). destruct (cut (b# 64) (strip_slash s2)) as [ui [hp|]].
  - destruct (cut COLON ui) as [user pwd]. destruct (split_first COLON (reverse hp)) as [[rport rhost]|] eqn:Er; [|done].
    apply split_first_length in Er. rewrite length_reverse in Er. intros [= <-]. cbn [host_str]. intros Hh.
    assert (h = reverse rhost ∧ h ≠ []) as [-> Hne] by (unfold nonempty in Hh; destruct (reverse rhost); [done|]; injection Hh as <-; done).
    split; [done|]. rewrite length_reverse. destruct frag, q; lia.
  - intros [= <-]. cbn [host_str]. intros Hh.
    assert (h = ui ∧ h ≠ []) as [-> Hne] by (unfold nonempty in Hh; destruct ui; [done|]; injection Hh as <-; done).
    split; [done|]. destruct frag, q; lia.
Qed.

Lemma pct_char_not_percent b : alphanumeric b = true → b ≠ b# 37.
Proof. by intros H ->. Qed.

Lemma pct_decode_encode s : pct_decode (pct_encode s) = s.
Proof.
  induction s as [|b s IH]; [done|]. unfold pct_encode in *. cbn [mbind list_bind]. unfold pct_char at 1.
  destruct (alphanumeric b) eqn:E; cbn [app pct_decode].
  - rewrite bool_decide_false by (by apply pct_char_not_percent). by f_equal.
  - rewrite bool_decide_true by done. destruct (ToyConf.hex_nibbles b) as (-> & -> & Eb). rewrite Eb. by f_equal.
Qed.

#[export] Instance laws : UrlLaws (B64 := ToyConf.base64) crates.
Proof.
  split.
  - apply parse_text.
  - intros s u h b Hp _ Hh _. by eapply parse_host.
  - intros s. simpl. unfold pct_encode, all_safe. induction s as [|b s IH]; [constructor|]. cbn [mbind list_bind]. apply list.Forall_app. split; [|done].
    pose proof (byte_unsigned_range b). unfold pct_char. destruct (alphanumeric b) eqn:E.
    + repeat constructor. unfold url_safe. by rewrite E.
    + constructor; [by vm_compute|constructor; [apply ToyConf.hex_char_safe|constructor; [apply ToyConf.hex_char_safe|constructor]]].
      * split; [apply Z.div_pos; lia|apply Z.div_lt_upper_bound; lia].
      * apply Z.mod_pos_bound. lia.
  - intros [|b s] Hne; [done|]. simpl. unfold pct_encode, pct_char. cbn [mbind list_bind]. by destruct (alphanumeric b).
  - apply pct_decode_encode.
  - simpl. intros s Hs. induction s as [|b s IH]; [done|]. apply not_elem_of_cons in Hs as [Hb Hs].
    cbn [pct_decode]. rewrite bool_decide_false by congruence. f_equal. by apply IH.
  - intros v. unfold urlencoded_from_bytes, crates, utf8_percent_encode, strip_prefix.
    rewrite take_app_length, bool_decide_true, drop_app_length by done. by rewrite pct_decode_encode.
Qed.
End ToyUrl.

Import Toy ToyConf ToyUrl.

(** A client of a server with users, behind a plugin. *)
Definition shared_config : ServerConfig :=
  set_remarks (str "my server") (set_plugin {| plugin_name := str "obfs"; plugin_opts := Some (str "mode=tls"); plugin_args := []; plugin_mode := TcpOnly |} toy_config).

Lemma url_roundtrip_witness :
  to_url shared_config = str "ss://2022-aes:00000000000000000000000000000007%3a00000000000000000000000000000009@example.com:8388/?plugin=obfs%3bmode%3dtls#my%20server" ∧
  from_url 1 (to_url shared_config) = Some (Ok shared_config).
Proof.
  split; [by vm_compute|]. apply (url_roundtrip (CS := suite) shared_config 1).
  - apply made_remarks, made_plugin. by apply (made_new (CS := suite) toy_addr toy_password Aead2022_16).
  - split_and!; [split| | |].
    + split; [|lia]. split_and!; [done| |done|by vm_compute]. apply (bool_decide_unpack _). by vm_compute.
    + apply (bool_decide_unpack _). by vm_compute.
    + by vm_compute.
    + intros p [= <-]. apply (bool_decide_unpack _). by vm_compute.
    + intros r [= <-]. by vm_compute.
  - lia.
Defined.

Lemma from_url_total_witness : ∃ r, from_url 3 (str "ss") = Some r.
Proof. destruct (from_url_total (str "ss")) as (r & Hr & _). by exists r. Defined.

(** The QR code of a client of a server with users gives another configuration:
    without the identity keys. *)
Example qrcode_loses_identity_keys :
  match from_url 3 (to_qrcode_url toy_config) with Some (Ok c) => identity_keys c = [] ∧ identity_keys toy_config ≠ [] | _ => False end.
Proof. by vm_compute. Qed.
