(* ===== verification/ServerStat.v ===== *)
(** * Statistics of a server (crates/shadowsocks-service/src/local/loadbalancing/server_stat.rs)

    The latencies of the last probes, their median and median absolute deviation,
    and the score that is made of them.  Numbers of type [f32] and [f64] are
    [spec_float]s with the operations of IEEE 754.  Shown: what the queue keeps,
    that median and deviation stay within the latencies seen, that no operation
    overflows, and that the order of the probes does not matter. *)
From Stdlib Require Import SpecFloat.
From stdpp Require Import sorting.
From S2P Require Import Prelude.
From S2P Require Import ServerConf.

(** ** Floating point *)
Definition f64_of_Z (z : Z) : spec_float := binary_normalize 53 1024 z 0 false.
Definition f64_add : spec_float → spec_float → spec_float := SFadd 53 1024.
Definition f64_sub : spec_float → spec_float → spec_float := SFsub 53 1024.
Definition f64_mul : spec_float → spec_float → spec_float := SFmul 53 1024.
Definition f64_div : spec_float → spec_float → spec_float := SFdiv 53 1024.
Definition f64_sqrt : spec_float → spec_float := SFsqrt 53 1024.

(** [x as f64] of an [f32], which is exact. *)
Definition f64_of_f32 (x : spec_float) : spec_float :=
  match x with
  | S754_finite s m e => binary_normalize 53 1024 (cond_Zopp s (Zpos m)) e s
  | _ => x
  end.

(** [x as u32], which saturates; NaN becomes 0. *)
Definition u32_MAX : Z := 2 ^ 32 - 1.
Definition f64_as_u32 (x : spec_float) : Z :=
  match x with
  | S754_nan | S754_zero _ | S754_infinity true | S754_finite true _ _ => 0
  | S754_infinity false => u32_MAX
  | S754_finite false m e => Z.min u32_MAX (Z.shiftl (Zpos m) e)
  end.

(** [f32::EPSILON], and [f32::max], which ignores NaN. *)
Definition f32_EPSILON : spec_float := binary_normalize 24 128 1 (-23) false.
Definition f32_max (x y : spec_float) : spec_float :=
  match x with S754_nan => y | _ => if SFltb x y then y else x end.

Inductive Score := Latency (l : Z) | Errored.

#[export] Instance Score_eq_dec : EqDecision Score.
Proof. solve_decision. Defined.

(** ** Integers

    Additions and subtractions of [u32] and [i32] panic on overflow in builds with
    overflow checks and wrap around in the others. *)
Section Stat.
Context (overflow_checks : bool).

Definition add_u32 (a b : Z) : outcome False Z :=
  if a + b <? 2 ^ 32 then Ok (a + b)
  else if overflow_checks then Panic "attempt to add with overflow" else Ok ((a + b) mod 2 ^ 32).

(** [x as i32]. *)
Definition as_i32 (z : Z) : Z := if z <? 2 ^ 31 then z else z - 2 ^ 32.

Definition sub_i32 (a b : Z) : outcome False Z :=
  let d := a - b in
  if (- 2 ^ 31 <=? d) && (d <? 2 ^ 31) then Ok d
  else if overflow_checks then Panic "attempt to subtract with overflow" else Ok ((d + 2 ^ 31) mod 2 ^ 32 - 2 ^ 31).

(** [iter().sum()]. *)
Fixpoint sum_u32 (acc : Z) (l : list Z) : outcome False Z :=
  match l with [] => Ok acc | x :: l => acc ← add_u32 acc x; sum_u32 acc l end.

(** ** Statistics *)
Record ServerStatData := {
  latency_median : Z;
  fail_rate : spec_float;
  latency_stdev : spec_float;
  latency_mean : spec_float;
  latency_mad : Z;
}.

(** An [Instant] is a number of nanoseconds. *)
Record ServerStat := {
  max_server_rtt : Z;
  latency_queue : list (Score * Z);
  max_latency_stdev : spec_float;
  user_weight : spec_float;
  check_window : Z;
  data : ServerStatData;
}.

Definition max_latency_stdev_of (max_server_rtt : Z) : spec_float :=
  let mrtt := f64_of_Z max_server_rtt in
  let avg := f64_div (f64_add (f64_of_Z 0) mrtt) (f64_of_Z 2) in
  let diff1 := f64_mul (f64_sub (f64_of_Z 0) avg) (f64_sub (f64_of_Z 0) avg) in
  let diff2 := f64_mul (f64_sub mrtt avg) (f64_sub mrtt avg) in
  f64_sqrt (f64_add diff1 diff2).

Definition ServerStat_new (user_weight : spec_float) (max_server_rtt check_window : Z) : outcome False ServerStat :=
  if unit_range user_weight then
    Ok {| max_server_rtt := max_server_rtt; latency_queue := []; max_latency_stdev := max_latency_stdev_of max_server_rtt;
          user_weight := user_weight; check_window := check_window;
          data := {| latency_median := max_server_rtt; fail_rate := f64_of_Z 1; latency_stdev := max_latency_stdev_of max_server_rtt;
                     latency_mean := f64_of_Z max_server_rtt; latency_mad := max_server_rtt |} |}
  else Panic "assertion failed: (0.0..=1.0).contains(&user_weight)".

(** [ServerStat::score]. *)
Definition stat_score (self : ServerStat) : Z :=
  let nrtt := f64_div (f64_of_Z (latency_median (data self))) (f64_of_Z (max_server_rtt self)) in
  let nmad := f64_div (f64_of_Z (latency_mad (data self))) (f64_of_Z (max_server_rtt self)) in
  let user_weight := f32_max (user_weight self) f32_EPSILON in
  let sum := f64_add (f64_add (f64_mul nrtt (f64_of_Z 1)) (f64_mul (fail_rate (data self)) (f64_of_Z 3))) (f64_mul nmad (f64_of_Z 1)) in
  let weights := f64_add (f64_add (f64_of_Z 1) (f64_of_Z 3)) (f64_of_Z 1) in
  let score := f64_div (f64_div sum weights) (f64_of_f32 user_weight) in
  f64_as_u32 (f64_mul score (f64_of_Z 10000)).

Definition latencies (q : list (Score * Z)) : list Z :=
  omap (λ s, match s.1 with Latency l => Some l | Errored => None end) q.

Definition errors (q : list (Score * Z)) : nat := length (filter (λ s, s.1 = Errored) q).

(** The middle of a sorted vector. *)
Definition index (v : list Z) (i : nat) : outcome False Z :=
  match v !! i with Some x => Ok x | None => Panic "index out of bounds" end.

Definition middle (v : list Z) : outcome False Z :=
  let mid := (length v / 2)%nat in
  if (length v mod 2 =? 0)%nat then
    a ← index v mid;
    b ← index v (mid - 1);
    s ← add_u32 a b;
    Ok (s / 2)
  else index v mid.

(** [sort_unstable]. *)
Definition sort (v : list Z) : list Z := merge_sort (≤) v.

Fixpoint abs_diffs (median : Z) (v : list Z) : outcome False (list Z) :=
  match v with
  | [] => Ok []
  | s :: v => d ← sub_i32 (as_i32 s) (as_i32 median); ds ← abs_diffs median v; Ok (Z.abs d :: ds)
  end.

Definition with_data (d : ServerStatData) (self : ServerStat) : ServerStat :=
  {| max_server_rtt := max_server_rtt self; latency_queue := latency_queue self; max_latency_stdev := max_latency_stdev self;
     user_weight := user_weight self; check_window := check_window self; data := d |}.

Definition stdev_of (vlat : list Z) (mean n : spec_float) : spec_float :=
  let acc := foldl (λ a s, let diff := f64_sub (f64_of_Z s) mean in f64_add a (f64_mul diff diff)) (f64_of_Z 0) vlat in
  f64_sqrt (f64_div acc (f64_sub n (f64_of_Z 1))).

Definition recalculate_data (self : ServerStat) : outcome False ServerStatData :=
  let q := latency_queue self in
  let fail_rate := f64_div (f64_of_Z (Z.of_nat (errors q))) (f64_of_Z (Z.of_nat (length q))) in
  let vlat := sort (latencies q) in
  match vlat with
  | [] =>
      Ok {| latency_median := max_server_rtt self; fail_rate := fail_rate; latency_stdev := max_latency_stdev self;
            latency_mean := f64_of_Z (max_server_rtt self); latency_mad := max_server_rtt self |}
  | [l] =>
      median ← middle vlat;
      Ok {| latency_median := median; fail_rate := fail_rate; latency_stdev := max_latency_stdev self; latency_mean := f64_of_Z l; latency_mad := 0 |}
  | _ =>
      median ← middle vlat;
      let n := f64_of_Z (Z.of_nat (length vlat)) in
      total_lat ← sum_u32 0 vlat;
      let mean := f64_div (f64_of_Z total_lat) n in
      diffs ← abs_diffs median vlat;
      mad ← middle (sort diffs);
      Ok {| latency_median := median; fail_rate := fail_rate; latency_stdev := stdev_of vlat mean n; latency_mean := mean; latency_mad := mad |}
  end.

Definition recalculate_score (self : ServerStat) : outcome False (Z * ServerStat) :=
  if bool_decide (latency_queue self = []) then Ok (stat_score self, self)
  else d ← recalculate_data self; let self := with_data d self in Ok (stat_score self, self).

(** [now - *inst] of two instants is 0 when [inst] is later. *)
Fixpoint evict (now window : Z) (q : list (Score * Z)) : list (Score * Z) :=
  match q with
  | (s, inst) :: q' => if window <? Z.max 0 (now - inst) then evict now window q' else q
  | [] => []
  end.

Definition push_score (now : Z) (score : Score) (self : ServerStat) : outcome False (Z * ServerStat) :=
  let q := evict now (check_window self) (latency_queue self ++ [(score, now)]) in
  recalculate_score {| max_server_rtt := max_server_rtt self; latency_queue := q; max_latency_stdev := max_latency_stdev self;
                       user_weight := user_weight self; check_window := check_window self; data := data self |}.
End Stat.

(** ** Sorted lists *)
Lemma sort_Permutation v : sort v ≡ₚ v.
Proof. apply merge_sort_Permutation. Qed.

Lemma sort_sorted v : StronglySorted (≤) (sort v).
Proof. apply (StronglySorted_merge_sort (≤)). Qed.

Lemma sort_unique v w : v ≡ₚ w → sort v = sort w.
Proof.
  intros H. apply (StronglySorted_unique (≤)); [apply sort_sorted|apply sort_sorted|]. by rewrite !sort_Permutation.
Qed.

Lemma sorted_drop v i a : StronglySorted (≤) v → v !! i = Some a → Forall (λ b, a ≤ b) (drop i v).
Proof.
  revert i. induction v as [|x v IH]; intros i Hs; [done|]. apply StronglySorted_inv in Hs as [Hs Hx].
  destruct i as [|i]; simpl; [intros [= <-]; constructor; [lia|done]|]. by apply IH.
Qed.

Lemma sorted_take v i a : StronglySorted (≤) v → v !! i = Some a → Forall (λ b, b ≤ a) (take (S i) v).
Proof.
  revert i. induction v as [|x v IH]; intros i Hs; [done|]. apply StronglySorted_inv in Hs as [Hs Hx].
  destruct i as [|i]; cbn [lookup list_lookup]; [intros [= <-]; constructor; [lia|constructor]|].
  intros Hi. rewrite firstn_cons. constructor; [|by apply IH].
  rewrite list.Forall_forall in Hx. apply Hx. by eapply list_elem_of_lookup_2.
Qed.

Lemma filter_none {A} (P : A → Prop) `{∀ z, Decision (P z)} l : Forall (λ x, ¬ P x) l → filter P l = [].
Proof. induction 1 as [|x l Hx Hl IH]; [done|]. by rewrite filter_cons_False. Qed.

(** More than [i] elements are at most [x], so is the one at [i]. *)
Lemma sorted_count_le v i a x :
  StronglySorted (≤) v → v !! i = Some a → (i < length (filter (λ b, (b ≤ x)%Z) v))%nat → a ≤ x.
Proof.
  intros Hs Hi Hc. destruct (decide (a ≤ x)) as [|Hx]; [done|]. exfalso.
  rewrite <- (take_drop i v), list.filter_app, length_app in Hc.
  pose proof (sorted_drop v i a Hs Hi) as Hd.
  assert (filter (λ b, b ≤ x) (drop i v) = []) as Hn.
  { apply filter_none. eapply list.Forall_impl; [exact Hd|]. simpl. lia. }
  rewrite Hn in Hc. simpl in Hc. pose proof (length_filter (λ b, b ≤ x) (take i v)) as Hl. rewrite length_take in Hl. lia.
Qed.

(** At most [i] elements are not at least [y]: the one at [i] is. *)
Lemma sorted_count_ge v i a y :
  StronglySorted (≤) v → v !! i = Some a → (length v < i + 1 + length (filter (λ b, (y ≤ b)%Z) v))%nat → y ≤ a.
Proof.
  intros Hs Hi Hc. destruct (decide (y ≤ a)) as [|Hx]; [done|]. exfalso.
  rewrite <- (take_drop (S i) v), list.filter_app, !length_app in Hc.
  pose proof (sorted_take v i a Hs Hi) as Hd.
  assert (filter (λ b, y ≤ b) (take (S i) v) = []) as Hn.
  { apply filter_none. eapply list.Forall_impl; [exact Hd|]. simpl. lia. }
  rewrite Hn in Hc. simpl in Hc. pose proof (length_filter (λ b, y ≤ b) (drop (S i) v)) as Hl.
  apply lookup_lt_Some in Hi. rewrite length_take in Hc. lia.
Qed.

(** ** The middle *)
Definition most (P : Z → Prop) `{∀ z, Decision (P z)} (v : list Z) : Prop := (length v < 2 * length (filter P v))%nat.

Lemma middle_between ck v lo hi :
  StronglySorted (≤) v → Forall (λ x, 0 ≤ x < 2 ^ 31) v → v ≠ [] → most (λ x, x ≤ hi) v → most (λ x, lo ≤ x) v →
  ∃ m, middle ck v = Ok m ∧ lo ≤ m ≤ hi ∧ 0 ≤ m < 2 ^ 31.
Proof.
  unfold most. intros Hs Hr Hne Hhi Hlo. unfold middle, index. rewrite list.Forall_forall in Hr.
  assert (0 < length v)%nat as Hl by (destruct v; [done|simpl; lia]).
  pose proof (Nat.div_mod (length v) 2 ltac:(lia)) as Hdm. pose proof (Nat.mod_upper_bound (length v) 2 ltac:(lia)) as Hmu.
  set (mid := (length v / 2)%nat) in *.
  destruct (lookup_lt_is_Some_2 v mid ltac:(lia)) as [a Ha]. rewrite Ha.
  pose proof (sorted_count_le v mid a hi Hs Ha ltac:(lia)) as Hah.
  pose proof (sorted_count_ge v mid a lo Hs Ha ltac:(lia)) as Hal.
  pose proof (Hr a ltac:(by eapply list_elem_of_lookup_2)) as Hra. simpl in Hra.
  destruct (length v mod 2 =? 0)%nat eqn:Ep; [|exists a; done]. apply Nat.eqb_eq in Ep.
  destruct (lookup_lt_is_Some_2 v (mid - 1) ltac:(lia)) as [b Hb]. rewrite Hb. cbn [mbind outcome_bind].
  pose proof (sorted_count_le v (mid - 1) b hi Hs Hb ltac:(lia)) as Hbh.
  pose proof (sorted_count_ge v (mid - 1) b lo Hs Hb ltac:(lia)) as Hbl.
  pose proof (Hr b ltac:(by eapply list_elem_of_lookup_2)) as Hrb. simpl in Hrb.
  unfold add_u32. rewrite (proj2 (Z.ltb_lt _ _)) by lia. cbn [mbind outcome_bind].
  exists ((a + b) / 2). split; [done|]. split; [split; [apply Z.div_le_lower_bound; lia|apply Z.div_le_upper_bound; lia]|].
  split; [apply Z.div_pos; lia|apply Z.div_lt_upper_bound; lia].
Qed.

(** ** Overflow *)
Lemma sum_u32_Ok ck l : ∀ acc M, 0 ≤ acc → Forall (λ x, 0 ≤ x ≤ M) l → acc + Z.of_nat (length l) * M < 2 ^ 32 →
  ∃ s, sum_u32 ck acc l = Ok s ∧ s = foldl Z.add acc l.
Proof.
  induction l as [|x l IH]; intros acc M Ha Hl Hs; cbn [sum_u32 foldl]; [eauto|]. apply list.Forall_cons in Hl as [Hx Hl].
  rewrite length_cons, Nat2Z.inj_succ in Hs. unfold add_u32. rewrite (proj2 (Z.ltb_lt _ _)) by nia. cbn [mbind outcome_bind]. apply (IH _ M); [lia|done|nia].
Qed.

Lemma abs_diffs_Ok ck m l : 0 ≤ m < 2 ^ 31 → Forall (λ x, 0 ≤ x < 2 ^ 31) l → abs_diffs ck m l = Ok ((λ x, Z.abs (x - m)) <$> l).
Proof.
  intros Hm. induction 1 as [|x l Hx Hl IH]; cbn [abs_diffs]; [done|]. unfold sub_i32, as_i32. cbn [fmap list_fmap].
  rewrite !(proj2 (Z.ltb_lt _ (2 ^ 31))) by lia. replace ((- 2 ^ 31 <=? x - m)) with true by lia. cbn [andb mbind outcome_bind]. by rewrite IH.
Qed.

(** ** Majorities *)
Section majorities.
Context (P Q : Z → Prop) `{!∀ z, Decision (P z)} `{!∀ z, Decision (Q z)}.

Lemma most_fmap (f : Z → Z) v : (∀ x, P x → Q (f x)) → most P v → most Q (f <$> v).
Proof.
  unfold most. rewrite length_fmap. intros Hf.
  assert (length (filter P v) ≤ length (filter Q (f <$> v)))%nat; [|lia].
  induction v as [|x v IH]; [done|]. cbn [fmap list_fmap]. destruct (decide (P x)).
  - rewrite !filter_cons_True by auto. simpl. unfold fmap in *. lia.
  - rewrite (filter_cons_False P) by done. destruct (decide (Q (f x))).
    + rewrite filter_cons_True by done. simpl. unfold fmap in *. lia.
    + rewrite filter_cons_False by done. exact IH.
Qed.

Lemma most_Permutation v w : v ≡ₚ w → most P v → most P w.
Proof. unfold most. by intros ->. Qed.

Lemma most_all v : v ≠ [] → Forall P v → most P v.
Proof.
  unfold most. intros Hne Hall. assert (filter P v = v) as ->.
  { clear Hne. induction Hall; [done|]. rewrite filter_cons_True by done. by f_equal. }
  destruct v; [done|simpl; lia].
Qed.
End majorities.

Lemma most_impl (P Q : Z → Prop) `{!∀ z, Decision (P z)} `{!∀ z, Decision (Q z)} v :
  (∀ x, P x → Q x) → most P v → most Q v.
Proof. intros Hi Hm. rewrite <- (list_fmap_id v). by apply (most_fmap P Q Datatypes.id). Qed.

(** ** What the statistics say

    The queue of a statistic is good when the latencies are below 2^31 and their
    sum is below 2^32. *)
Definition small_latencies (M : Z) (q : list (Score * Z)) : Prop :=
  M < 2 ^ 31 ∧ Forall (λ x, 0 ≤ x ≤ M) (latencies q) ∧ Z.of_nat (length (latencies q)) * M < 2 ^ 32.

Lemma recalculate_data_most ck st M lo hi :
  latencies (latency_queue st) ≠ [] → small_latencies M (latency_queue st) → 
  most (λ x, lo ≤ x ≤ hi) (latencies (latency_queue st)) →
  ∃ d, recalculate_data ck st = Ok d ∧ lo ≤ latency_median d ≤ hi ∧ 0 ≤ latency_mad d ≤ hi - lo.
Proof.
  intros Hne (HM & Hb & Hsum) Hmost. set (v := sort (latencies (latency_queue st))).
  assert (v ≡ₚ latencies (latency_queue st)) as Hp by apply sort_Permutation.
  assert (v ≠ []) as Hv by (intros E; rewrite E in Hp; symmetry in Hp; by apply Permutation_nil_r in Hp).
  assert (Forall (λ x, 0 ≤ x ≤ M) v) as Hvb by (by rewrite Hp).
  assert (Forall (λ x, 0 ≤ x < 2 ^ 31) v) as Hvr by (eapply list.Forall_impl; [exact Hvb|]; simpl; lia).
  assert (most (λ x, lo ≤ x ≤ hi) v) as Hvm by (eapply most_Permutation; [symmetry; exact Hp|done]).
  destruct (middle_between ck v lo hi (sort_sorted _) Hvr Hv) as (m & Hm & Hml & Hmr).
  { eapply most_impl, Hvm. simpl. lia. } { eapply most_impl, Hvm. simpl. lia. }
  destruct (sum_u32_Ok ck v 0 M ltac:(lia) Hvb) as (total & Htot & _); [rewrite Hp; lia|].
  pose proof (abs_diffs_Ok ck m v Hmr Hvr) as Hd. set (ds := (λ x, Z.abs (x - m)) <$> v) in *.
  assert (Forall (λ x, 0 ≤ x < 2 ^ 31) ds) as Hdr.
  { unfold ds. apply Forall_fmap. eapply list.Forall_impl; [exact Hvr|]. simpl. lia. }
  assert (ds ≠ []) as Hdne by (unfold ds; by destruct v).
  destruct (middle_between ck (sort ds) 0 (hi - lo) (sort_sorted _)) as (mad & Hmad & Hmadb & _).
  { by rewrite sort_Permutation. }
  { intros E. pose proof (sort_Permutation ds) as Hpd. rewrite E in Hpd. symmetry in Hpd. by apply Permutation_nil_r in Hpd. }
  { eapply most_Permutation; [symmetry; apply sort_Permutation|]. unfold ds. eapply (most_fmap _ _ (λ x, Z.abs (x - m))), Hvm. simpl. lia. }
  { eapply most_Permutation; [symmetry; apply sort_Permutation|]. apply most_all; [done|]. eapply list.Forall_impl; [exact Hdr|]. simpl. lia. }
  unfold recalculate_data. fold v. rewrite Hm. cbn [mbind outcome_bind].
  rewrite Htot. cbn [mbind outcome_bind]. rewrite Hd. cbn [mbind outcome_bind]. rewrite Hmad. cbn [mbind outcome_bind].
  destruct v as [|x [|y v]]; [done| |]; eexists; (split; [done|]); cbn [latency_median latency_mad]; lia.
Qed.

(** A result that is the same with and without overflow checks. *)
Lemma f64_as_u32_range x : 0 ≤ f64_as_u32 x ≤ u32_MAX.
Proof.
  unfold f64_as_u32, u32_MAX. destruct x as [s|[]| |[] m e]; try lia.
  assert (0 ≤ Z.shiftl (Z.pos m) e) by (apply Z.shiftl_nonneg; lia). lia.
Qed.

Lemma recalculate_data_errors ck st : latencies (latency_queue st) = [] →
  ∃ d, recalculate_data ck st = Ok d ∧ latency_median d = max_server_rtt st ∧ latency_mad d = max_server_rtt st.
Proof. intros E. unfold recalculate_data. rewrite E. change (sort []) with (@nil Z). by eexists. Qed.

(** The probes that are kept: those of the window, in their order. *)
Definition recent (now window : Z) (q : list (Score * Z)) : list (Score * Z) := filter (λ p, now - p.2 ≤ window) q.

Definition times_ok (now : Z) (q : list (Score * Z)) : Prop := StronglySorted (λ p p', p.2 ≤ p'.2) q ∧ Forall (λ p, p.2 ≤ now) q.

Lemma evict_recent now window q : times_ok now q → 0 ≤ window → evict now window q = recent now window q.
Proof.
  intros [Hs Hn] Hw. induction q as [|[s t] q IH]; [done|]. apply StronglySorted_inv in Hs as [Hs Ht]. apply list.Forall_cons in Hn as [Hn Hq].
  unfold recent in *. cbn [evict]. simpl in Hn. destruct (window <? Z.max 0 (now - t)) eqn:E.
  - rewrite filter_cons_False by (simpl; lia). by apply IH.
  - rewrite filter_cons_True by (simpl; lia). f_equal. clear IH. induction q as [|[s' t'] q IH]; [done|].
    apply list.Forall_cons in Ht as [Ht Ht2]. apply list.Forall_cons in Hq as [Hq Hq2]. apply StronglySorted_inv in Hs as [Hs _]. simpl in *.
    rewrite filter_cons_True by (simpl; lia). f_equal. auto.
Qed.

Lemma times_ok_snoc q s now now' : times_ok now q → now ≤ now' → times_ok now' (q ++ [(s, now')]).
Proof.
  intros [Hs Hn] Hle. split.
  - apply StronglySorted_app_2; [|done|by repeat constructor]. intros p p' Hp Hp'. apply list_elem_of_singleton in Hp' as ->. simpl.
    rewrite list.Forall_forall in Hn. apply Hn in Hp. lia.
  - apply list.Forall_app. split; [|by repeat constructor]. eapply list.Forall_impl; [exact Hn|]. simpl. lia.
Qed.

Lemma Forall_filter {A} (P Q : A → Prop) `{!∀ x, Decision (Q x)} l : Forall P l → Forall P (filter Q l).
Proof. rewrite !list.Forall_forall. intros Hall x [_ Hx]%list_elem_of_filter. auto. Qed.

Lemma times_ok_recent now window q : times_ok now q → times_ok now (recent now window q).
Proof.
  intros [Hs Hn]. unfold recent. split; [|by apply Forall_filter].
  induction Hs as [|p q Hs IH Hp]; [constructor|]. apply list.Forall_cons in Hn as [_ Hn]. destruct (decide (now - p.2 ≤ window)).
  - rewrite filter_cons_True by done. constructor; [by apply IH|by apply Forall_filter].
  - rewrite filter_cons_False by done. by apply IH.
Qed.

Lemma push_score_queue ck now s st score st' : push_score ck now s st = Ok (score, st') →
  latency_queue st' = evict now (check_window st) (latency_queue st ++ [(s, now)]) ∧ check_window st' = check_window st ∧
  max_server_rtt st' = max_server_rtt st ∧ user_weight st' = user_weight st ∧ 0 ≤ score ≤ u32_MAX.
Proof.
  unfold push_score, recalculate_score. case_bool_decide; [intros [= <- <-]; split_and!; try done; apply f64_as_u32_range|].
  intros (d & _ & [= <- <-])%outcome_bind_Ok. split_and!; try done; apply f64_as_u32_range.
Qed.

Lemma evict_nonempty now window q s : 0 ≤ window → evict now window (q ++ [(s, now)]) ≠ [].
Proof.
  intros Hw. induction q as [|[s' t] q IH]; cbn [app evict].
  - by rewrite (proj2 (Z.ltb_ge _ _)) by lia.
  - by destruct (window <? Z.max 0 (now - t)).
Qed.

(** The window of a statistic.  With a clock that does not go back, a probe is
    kept exactly while it is not older than the window: after every push the queue
    is the recent part of the old queue with the new probe at its end, so never
    empty, and its times stay in order. *)
Theorem push_score_window ck now now' s st score st' :
  times_ok now (latency_queue st) → now ≤ now' → 0 ≤ check_window st → push_score ck now' s st = Ok (score, st') →
  latency_queue st' = recent now' (check_window st) (latency_queue st) ++ [(s, now')] ∧ times_ok now' (latency_queue st').
Proof.
  intros Ht Hle Hw (Hq & Hc & _)%push_score_queue. pose proof (times_ok_snoc _ s _ _ Ht Hle) as Ht'. rewrite Hq, evict_recent by done.
  split; [|by apply times_ok_recent]. unfold recent. rewrite list.filter_app. f_equal.
  rewrite filter_cons_True by (simpl; lia). done.
Qed.

(** C40. Statistics withstand bad probes.  When more than half of the latencies in
    the window are between [lo] and [hi], so is the median, and the median absolute
    deviation is at most [hi - lo], whatever the other latencies are; without any
    latency both are the maximal round-trip time.  No addition overflows while the
    latencies are below 2^31 and sum to less than 2^32, with and without overflow
    checks, and the score is a [u32]. *)
Theorem push_score_robust ck now s st M lo hi :
  let q := evict now (check_window st) (latency_queue st ++ [(s, now)]) in
  0 ≤ check_window st → small_latencies M q → (latencies q ≠ [] → most (λ x, lo ≤ x ≤ hi) (latencies q)) →
  ∃ score st', push_score ck now s st = Ok (score, st') ∧ 0 ≤ score ≤ u32_MAX ∧
    if bool_decide (latencies q = []) then latency_median (data st') = max_server_rtt st ∧ latency_mad (data st') = max_server_rtt st
    else lo ≤ latency_median (data st') ≤ hi ∧ 0 ≤ latency_mad (data st') ≤ hi - lo.
Proof.
  intros q Hw Hsmall Hmost. unfold push_score. fold q. unfold recalculate_score. cbn [latency_queue].
  rewrite bool_decide_false by (apply evict_nonempty; done).
  set (st0 := {| max_server_rtt := max_server_rtt st; latency_queue := q; max_latency_stdev := max_latency_stdev st;
    user_weight := user_weight st; check_window := check_window st; data := data st |}).
  destruct (decide (latencies q = [])) as [Hl|Hl].
  - destruct (recalculate_data_errors ck st0 Hl) as (d & -> & Hm & Hmad). cbn [mbind outcome_bind]. eexists _, _. split; [done|].
    split; [apply f64_as_u32_range|]. by rewrite bool_decide_true.
  - destruct (recalculate_data_most ck st0 M lo hi Hl Hsmall (Hmost Hl)) as (d & -> & Hm & Hmad). cbn [mbind outcome_bind]. eexists _, _. split; [done|].
    split; [apply f64_as_u32_range|]. by rewrite bool_decide_false.
Qed.

(** The order of the probes does not matter. *)
Lemma recalculate_data_Permutation ck st st' :
  latency_queue st ≡ₚ latency_queue st' → max_server_rtt st = max_server_rtt st' → max_latency_stdev st = max_latency_stdev st' →
  recalculate_data ck st = recalculate_data ck st'.
Proof.
  intros Hp Hm Hs. unfold recalculate_data, errors. rewrite Hm, Hs.
  assert (sort (latencies (latency_queue st)) = sort (latencies (latency_queue st'))) as ->.
  { apply sort_unique. unfold latencies. by rewrite Hp. }
  assert (errors (latency_queue st) = errors (latency_queue st')) as He by (unfold errors; by rewrite Hp).
  unfold errors in He. by rewrite He, (Permutation_length Hp).
Qed.

(** Four good probes, one bad one. *)
Definition demo_stat : ServerStat := {|
  max_server_rtt := 5000; latency_queue := [(Latency 100, 1); (Latency 110, 2); (Latency 4900, 3); (Latency 105, 4)];
  max_latency_stdev := max_latency_stdev_of 5000; user_weight := f32_one; check_window := 1000;
  data := {| latency_median := 5000; fail_rate := f64_of_Z 1; latency_stdev := f64_of_Z 0; latency_mean := f64_of_Z 0; latency_mad := 5000 |} |}.

Lemma push_score_window_witness : ∃ score st',
  push_score true 10 (Latency 120) demo_stat = Ok (score, st') ∧ length (latency_queue st') = 5%nat.
Proof.
  destruct (push_score true 10 (Latency 120) demo_stat) as [[score st']| |] eqn:E; [|by vm_compute in E..].
  exists score, st'. split; [done|].
  destruct (push_score_window true 5 10 (Latency 120) demo_stat score st') as [-> _]; [|lia|done|exact E|by vm_compute].
  split; [repeat constructor; simpl; lia|repeat constructor; simpl; lia].
Defined.

Lemma push_score_robust_witness : ∃ score st', push_score true 10 (Latency 120) demo_stat = Ok (score, st') ∧ 100 ≤ latency_median (data st') ≤ 120.
Proof.
  destruct (push_score_robust true 10 (Latency 120) demo_stat 5000 100 120) as (score & st' & E & _ & H).
  - done.
  - split_and!; [lia|apply (bool_decide_unpack _); by vm_compute|by vm_compute].
  - intros _. apply (bool_decide_unpack (Nat.lt _ _)). by vm_compute.
  - exists score, st'. split; [exact E|]. apply H.
Defined.

Example score_examples :
  (s ← ServerStat_new f32_one 5000 670000000000;
   '(a, s) ← push_score true 1000 (Latency 100) s;
   '(b, s) ← push_score true 2000 (Latency 300) s;
   '(c, s) ← push_score true 3000 Errored s;
   Ok [a; b; c; latency_median (data s); latency_mad (data s)]) = Ok [40; 120; 2120; 200; 100].
Proof. by vm_compute. Qed.
