(* ===== verification/PingBalancer.v ===== *)
(** * The load balancer (crates/shadowsocks-service/src/local/loadbalancing)

    [server_data.rs]: the scores of a server; [ping_balancer.rs]: probing, the
    choice of the best server and the replacement of servers.  What a probe finds
    and when is an argument.  Shown: the chosen server has the smallest score and
    exists, whatever the tasks that probe, choose and report failures interleave;
    when a disabled server can be chosen; and that replacing servers keeps exactly
    the others. *)
From Stdlib Require Import SpecFloat.
From S2P Require Import Prelude.
From S2P Require Import External.
From S2P Require Import StdNet.
From S2P Require Import ServerConf.
From S2P Require Import ServerStat.

Inductive ServerType := Tcp | Udp.

#[export] Instance ServerType_eq_dec : EqDecision ServerType.
Proof. solve_decision. Defined.

Section Balancer.
Context `{CS : CipherSuite, B64 : Base64, CN : !CipherNames, BL : Blake3} (overflow_checks : bool).

(** ** Scores of a server *)
Record ServerScore := { stat_data : ServerStat; score : Z }.

(** Durations are in nanoseconds; [as_millis() as u32]. *)
Definition ServerScore_new (user_weight : spec_float) (max_server_rtt check_window : Z) : outcome io_error ServerScore :=
  let rtt := (max_server_rtt / 1000000) mod 2 ^ 32 in
  if 0 <? rtt then
    match ServerStat_new user_weight rtt check_window with
    | Ok s => Ok {| stat_data := s; score := u32_MAX |}
    | Err e => match e with end
    | Panic m => Panic m
    end
  else Panic "assertion failed: max_server_rtt > 0".

(** [push_score] and [push_score_fetch_statistic]. *)
Definition score_push (now : Z) (s : Score) (self : ServerScore) : outcome io_error (Z * ServerScore) :=
  match push_score overflow_checks now s (stat_data self) with
  | Ok (updated_score, stat) => Ok (updated_score, {| stat_data := stat; score := updated_score |})
  | Err e => match e with end
  | Panic m => Panic m
  end.

Definition report_failure (now : Z) (self : ServerScore) : outcome io_error (Z * ServerScore) := score_push now Errored self.

Record ServerIdent := { tcp_score : ServerScore; udp_score : ServerScore; svr_cfg : ServerConfig }.

Definition ServerIdent_new (svr_cfg : ServerConfig) (max_server_rtt check_window : Z) : outcome io_error ServerIdent :=
  t ← ServerScore_new (tcp_weight (weight svr_cfg)) max_server_rtt check_window;
  u ← ServerScore_new (udp_weight (weight svr_cfg)) max_server_rtt check_window;
  Ok {| tcp_score := t; udp_score := u; svr_cfg := svr_cfg |}.

Definition score_of (ty : ServerType) (s : ServerIdent) : ServerScore := match ty with Tcp => tcp_score s | Udp => udp_score s end.

Definition with_score (ty : ServerType) (sc : ServerScore) (s : ServerIdent) : ServerIdent :=
  match ty with
  | Tcp => {| tcp_score := sc; udp_score := udp_score s; svr_cfg := svr_cfg s |}
  | Udp => {| tcp_score := tcp_score s; udp_score := sc; svr_cfg := svr_cfg s |}
  end.

(** ** Enabled servers *)
Definition check_server_tcp_enabled (cfg : ServerConfig) : bool := enable_tcp (mode cfg) && SFltb f32_zero (tcp_weight (weight cfg)).
Definition check_server_udp_enabled (cfg : ServerConfig) : bool := enable_udp (mode cfg) && SFltb f32_zero (udp_weight (weight cfg)).

Definition enabled (ty : ServerType) (s : ServerIdent) : bool :=
  match ty with Tcp => check_server_tcp_enabled (svr_cfg s) | Udp => check_server_udp_enabled (svr_cfg s) end.
Definition mode_enables (m : Mode) (ty : ServerType) : bool := match ty with Tcp => enable_tcp m | Udp => enable_udp m end.

(** The loop of [find_best_idx]: the first enabled server, 0 without one. *)
Fixpoint first_enabled (ty : ServerType) (idx : nat) (servers : list ServerIdent) : option nat :=
  match servers with
  | [] => None
  | s :: servers => if enabled ty s then Some idx else first_enabled ty (S idx) servers
  end.

Definition find_best_idx (servers : list ServerIdent) (m : Mode) : nat * nat :=
  if bool_decide (servers = []) then (0%nat, 0%nat)
  else
    (if enable_tcp m then default 0%nat (first_enabled Tcp 0 servers) else 0%nat,
     if enable_udp m then default 0%nat (first_enabled Udp 0 servers) else 0%nat).

(** ** The context of a balancer *)
Record PingBalancerContext := {
  servers : list ServerIdent;
  best_tcp_idx : nat;
  best_udp_idx : nat;
  balancer_mode : Mode;
  max_rtt : Z;
  check_interval : Z;
  check_best_interval : option Z;
}.

Definition best_idx (ty : ServerType) (self : PingBalancerContext) : nat := match ty with Tcp => best_tcp_idx self | Udp => best_udp_idx self end.

Definition store_best (ty : ServerType) (i : nat) (self : PingBalancerContext) : PingBalancerContext :=
  {| servers := servers self; best_tcp_idx := match ty with Tcp => i | Udp => best_tcp_idx self end;
     best_udp_idx := match ty with Udp => i | Tcp => best_udp_idx self end; balancer_mode := balancer_mode self;
     max_rtt := max_rtt self; check_interval := check_interval self; check_best_interval := check_best_interval self |}.

Definition with_servers (l : list ServerIdent) (self : PingBalancerContext) : PingBalancerContext :=
  {| servers := l; best_tcp_idx := best_tcp_idx self; best_udp_idx := best_udp_idx self; balancer_mode := balancer_mode self;
     max_rtt := max_rtt self; check_interval := check_interval self; check_best_interval := check_best_interval self |}.

(** [best_tcp_server] and [best_udp_server]. *)
Definition best_server (ty : ServerType) (self : PingBalancerContext) : outcome io_error ServerIdent :=
  if bool_decide (servers self = []) then Panic "no available server"
  else match servers self !! best_idx ty self with Some s => Ok s | None => Panic "index out of bounds" end.

(** Servers to probe. *)
Definition to_probe (self : PingBalancerContext) (ty : ServerType) (s : ServerIdent) : bool :=
  mode_enables (balancer_mode self) ty && enabled ty s.
Definition probe_count (self : PingBalancerContext) (ty : ServerType) : nat := length (filter (λ s, to_probe self ty s = true) (servers self)).

Definition probing_required (self : PingBalancerContext) : bool :=
  if bool_decide (servers self = []) then false else (1 <? probe_count self Tcp)%nat || (1 <? probe_count self Udp)%nat.

(** ** Probes

    What [check_request] finds for a server within the timeout ([None] when the
    timeout passes) and how long it took, with the time at which the score is
    pushed. *)
Record Probe := { request : option (outcome io_error unit); elapsed : Z; pushed_at : Z }.

(** [elapsed.as_secs() as u32 * 1000 + elapsed.subsec_millis()]. *)
Definition elapsed_ms (elapsed : Z) : outcome io_error Z :=
  let secs := (elapsed / 1000000000) mod 2 ^ 32 in
  let ms := secs * 1000 + (elapsed mod 1000000000) / 1000000 in
  if ms <? 2 ^ 32 then Ok ms
  else if overflow_checks then Panic "attempt to multiply with overflow" else Ok (ms mod 2 ^ 32).

Definition check_delay (p : Probe) : outcome io_error Z :=
  elapsed ← elapsed_ms (elapsed p);
  match request p with
  | Some (Ok _) => Ok elapsed
  | Some (Err e) => Err e
  | Some (Panic m) => Panic m
  | None => Err TimedOut
  end.

Definition check_update_score (ty : ServerType) (p : Probe) (s : ServerIdent) : outcome io_error ServerIdent :=
  r ← match check_delay p with
      | Ok d => score_push (pushed_at p) (Latency d) (score_of ty s)
      | Err _ => score_push (pushed_at p) Errored (score_of ty s)
      | Panic m => Panic m
      end;
  Ok (with_score ty r.2 s).

(** The probes of one kind; each updates its own server. *)
Fixpoint probe_all (todo : ServerIdent → bool) (ty : ServerType) (probes : nat → Probe) (idx : nat) (l : list ServerIdent) : outcome io_error (list ServerIdent) :=
  match l with
  | [] => Ok []
  | s :: l =>
      s' ← (if todo s then check_update_score ty (probes idx) s else Ok s);
      l' ← probe_all todo ty probes (S idx) l;
      Ok (s' :: l')
  end.

(** The loop that looks for the smallest score. *)
Fixpoint choose (scores : list Z) (idx best_idx : nat) (best_score : Z) : nat :=
  match scores with
  | [] => best_idx
  | s :: scores => if s <? best_score then choose scores (S idx) idx s else choose scores (S idx) best_idx best_score
  end.

Definition chosen (ty : ServerType) (l : list ServerIdent) : nat := choose ((λ s, score (score_of ty s)) <$> l) 0 0 u32_MAX.

Definition update_best (ty : ServerType) (self : PingBalancerContext) : PingBalancerContext := store_best ty (chosen ty (servers self)) self.

Definition check_once (probes : ServerType → nat → Probe) (self : PingBalancerContext) : outcome io_error PingBalancerContext :=
  if bool_decide (servers self = []) then Ok self
  else
    let check_tcp := (1 <? probe_count self Tcp)%nat in
    let check_udp := (1 <? probe_count self Udp)%nat in
    if negb check_tcp && negb check_udp then Ok self
    else
      l ← (if check_tcp then probe_all (to_probe self Tcp) Tcp (probes Tcp) 0 (servers self) else Ok (servers self));
      l ← (if check_udp then probe_all (to_probe self Udp) Udp (probes Udp) 0 l else Ok l);
      let self := with_servers l self in
      let self := if enable_tcp (balancer_mode self) && check_tcp then update_best Tcp self else self in
      Ok (if enable_udp (balancer_mode self) && check_udp then update_best Udp self else self).

(** One server at an index. *)
Definition probe_at (ty : ServerType) (p : Probe) (i : nat) (l : list ServerIdent) : outcome io_error (list ServerIdent) :=
  match l !! i with
  | Some s => s' ← check_update_score ty p s; Ok (<[i := s']> l)
  | None => Panic "index out of bounds"
  end.

Definition check_best_server (probe : ServerType → Probe) (self : PingBalancerContext) : outcome io_error PingBalancerContext :=
  if bool_decide (servers self = []) then Ok self
  else
    match servers self !! best_tcp_idx self, servers self !! best_udp_idx self with
    | Some best_tcp_server, Some best_udp_server =>
        let check_tcp := to_probe self Tcp best_tcp_server in
        let check_udp := to_probe self Udp best_udp_server in
        l ← (if check_tcp then probe_at Tcp (probe Tcp) (best_tcp_idx self) (servers self) else Ok (servers self));
        l ← (if check_udp then probe_at Udp (probe Udp) (best_udp_idx self) l else Ok l);
        let self := with_servers l self in
        let self := if check_tcp then update_best Tcp self else self in
        Ok (if check_udp then update_best Udp self else self)
    | _, _ => Panic "index out of bounds"
    end.

(** ** Building and replacing servers *)

(** Starting the plugin of a server gives the address it listens on. *)
Fixpoint start_plugins (start : PluginConfig → ServerAddr → outcome io_error ServerAddr) (l : list ServerIdent) : outcome io_error (list ServerIdent) :=
  match l with
  | [] => Ok []
  | s :: l =>
      s' ← match plugin (svr_cfg s) with
           | Some p => a ← start p (addr (svr_cfg s)); Ok {| tcp_score := tcp_score s; udp_score := udp_score s; svr_cfg := set_plugin_addr a (svr_cfg s) |}
           | None => Ok s
           end;
      l' ← start_plugins start l;
      Ok (s' :: l')
  end.

Definition PingBalancerContext_new (start : PluginConfig → ServerAddr → outcome io_error ServerAddr) (probes : ServerType → nat → Probe)
    (l : list ServerIdent) (m : Mode) (max_rtt check_interval : Z) (check_best_interval : option Z) : outcome io_error PingBalancerContext :=
  l ← start_plugins start l;
  let '(t, u) := find_best_idx l m in
  check_once probes {| servers := l; best_tcp_idx := t; best_udp_idx := u; balancer_mode := m; max_rtt := max_rtt;
                       check_interval := check_interval; check_best_interval := check_best_interval |}.

Definition EXPECTED_CHECK_POINTS_IN_CHECK_WINDOW : Z := 67.

Record PingBalancerBuilder := {
  b_servers : list ServerIdent;
  b_mode : Mode;
  b_max_server_rtt : Z;
  b_check_interval : Z;
  b_check_best_interval : option Z;
}.

Definition PingBalancerBuilder_new (m : Mode) : PingBalancerBuilder :=
  {| b_servers := []; b_mode := m; b_max_server_rtt := 5 * 1000000000; b_check_interval := 10 * 1000000000; b_check_best_interval := None |}.

Definition add_server (cfg : ServerConfig) (self : PingBalancerBuilder) : outcome io_error PingBalancerBuilder :=
  ident ← ServerIdent_new cfg (b_max_server_rtt self) (b_check_interval self * EXPECTED_CHECK_POINTS_IN_CHECK_WINDOW);
  Ok {| b_servers := b_servers self ++ [ident]; b_mode := b_mode self; b_max_server_rtt := b_max_server_rtt self;
        b_check_interval := b_check_interval self; b_check_best_interval := b_check_best_interval self |}.

Definition build (start : PluginConfig → ServerAddr → outcome io_error ServerAddr) (probes : ServerType → nat → Probe)
    (self : PingBalancerBuilder) : outcome io_error PingBalancerContext :=
  match b_check_best_interval self with
  | Some intv =>
      if b_check_interval self <? intv then Err (OtherKind "check_interval must be >= check_best_interval")
      else PingBalancerContext_new start probes (b_servers self) (b_mode self) (b_max_server_rtt self) (b_check_interval self) (b_check_best_interval self)
  | None =>
      PingBalancerContext_new start probes (b_servers self) (b_mode self) (b_max_server_rtt self) (b_check_interval self) (b_check_best_interval self)
  end.

(** [Vec::swap_remove]: the last element takes the place. *)
Definition swap_remove {A} (i : nat) (l : list A) : list A :=
  match list.last l with Some x => take (length l - 1) (<[i := x]> l) | None => l end.

(** The loop of [reset_servers] that takes out the servers of given sources. *)
Fixpoint remove_sources (fuel : nat) (sources : list ServerSource) (idx : nat) (l : list ServerIdent) : list ServerIdent :=
  match fuel with
  | O => l
  | S fuel =>
      match l !! idx with
      | Some s =>
          if bool_decide (source (svr_cfg s) ∈ sources) then remove_sources fuel sources idx (swap_remove idx l)
          else remove_sources fuel sources (S idx) l
      | None => l
      end
  end.

Fixpoint new_idents (cfgs : list ServerConfig) (max_rtt window : Z) : outcome io_error (list ServerIdent) :=
  match cfgs with
  | [] => Ok []
  | c :: cfgs => s ← ServerIdent_new c max_rtt window; l ← new_idents cfgs max_rtt window; Ok (s :: l)
  end.

(** The context after the call, and its result. *)
Definition reset_servers (start : PluginConfig → ServerAddr → outcome io_error ServerAddr) (probes : ServerType → nat → Probe)
    (cfgs : list ServerConfig) (replace_server_sources : list ServerSource) (old : PingBalancerContext) : PingBalancerContext * outcome io_error unit :=
  let old_servers := remove_sources (length (servers old)) replace_server_sources 0 (servers old) in
  let window := check_interval old * EXPECTED_CHECK_POINTS_IN_CHECK_WINDOW in
  match (l ← new_idents cfgs (max_rtt old) window;
         l' ← new_idents (svr_cfg <$> old_servers) (max_rtt old) window;
         PingBalancerContext_new start probes (l ++ l') (balancer_mode old) (max_rtt old) (check_interval old) (check_best_interval old)) with
  | Ok context => (context, Ok tt)
  | Err e => (old, Err e)
  | Panic m => (old, Panic m)
  end.

(** ** The choice *)
Lemma choose_spec scores : ∀ idx b s,
  let r := choose scores idx b s in
  (r = b ∧ Forall (λ x, s ≤ x) scores) ∨
  (∃ k x, r = (idx + k)%nat ∧ scores !! k = Some x ∧ x < s ∧ Forall (λ y, x ≤ y) scores ∧ ∀ j y, (j < k)%nat → scores !! j = Some y → x < y).
Proof using.
  induction scores as [|c scores IH]; intros idx b s; cbn [choose]; [by left|].
  destruct (c <? s) eqn:E; [apply Z.ltb_lt in E|apply Z.ltb_ge in E].
  - destruct (IH (S idx) idx c) as [[-> Hall]|(k & x & -> & Hk & Hx & Hall & Hf)].
    + right. exists 0%nat, c. split_and!; [lia|done|done|constructor; [lia|done]|]. intros j y Hj. lia.
    + right. exists (S k), x. split_and!; [lia|done|lia|constructor; [lia|done]|].
      intros [|j] y Hj; simpl; [intros [= <-]; lia|]. intros Hy. eapply Hf, Hy. lia.
  - destruct (IH (S idx) b s) as [[-> Hall]|(k & x & -> & Hk & Hx & Hall & Hf)].
    + left. split; [done|]. by constructor.
    + right. exists (S k), x. split_and!; [lia|done|done|constructor; [lia|done]|].
      intros [|j] y Hj; simpl; [intros [= <-]; lia|]. intros Hy. eapply Hf, Hy. lia.
Qed.

Definition scores_of (ty : ServerType) (l : list ServerIdent) : list Z := (λ s, score (score_of ty s)) <$> l.

(** The chosen index: the first of the smallest scores, 0 when none is below the
    maximum. *)
Lemma chosen_spec ty l :
  (chosen ty l = 0%nat ∧ Forall (λ x, u32_MAX ≤ x) (scores_of ty l)) ∨
  (∃ x, scores_of ty l !! chosen ty l = Some x ∧ x < u32_MAX ∧ Forall (λ y, x ≤ y) (scores_of ty l) ∧
     ∀ j y, (j < chosen ty l)%nat → scores_of ty l !! j = Some y → x < y).
Proof using.
  unfold chosen. destruct (choose_spec (scores_of ty l) 0 0 u32_MAX) as [[H1 H2]|(k & x & Hr & Hk & Hx & Hall & Hf)]; [left; done|right].
  exists x. unfold scores_of in *. rewrite Hr. simpl. done.
Qed.

Lemma chosen_lt ty l : l ≠ [] → (chosen ty l < length l)%nat.
Proof using.
  intros Hne. destruct (chosen_spec ty l) as [[-> _]|(x & Hx & _)]; [destruct l; [done|simpl; lia]|].
  apply lookup_lt_Some in Hx. unfold scores_of in Hx. by rewrite length_fmap in Hx.
Qed.

Lemma first_enabled_spec ty l : ∀ idx,
  match first_enabled ty idx l with
  | Some i => ∃ k s, i = (idx + k)%nat ∧ l !! k = Some s ∧ enabled ty s = true
  | None => Forall (λ s, enabled ty s = false) l
  end.
Proof using.
  induction l as [|s l IH]; intros idx; cbn [first_enabled]; [constructor|]. destruct (enabled ty s) eqn:E.
  - exists 0%nat, s. split_and!; [lia|done|done].
  - specialize (IH (S idx)). destruct (first_enabled ty (S idx) l) as [i|]; [|by constructor].
    destruct IH as (k & s' & -> & Hk & Hs). exists (S k), s'. split_and!; [lia|done|done].
Qed.

(** ** Contexts whose indices are in range *)
Definition context_ok (self : PingBalancerContext) : Prop :=
  servers self ≠ [] → (best_tcp_idx self < length (servers self))%nat ∧ (best_udp_idx self < length (servers self))%nat.

Lemma find_best_idx_range l m : l ≠ [] → (fst (find_best_idx l m) < length l)%nat ∧ (snd (find_best_idx l m) < length l)%nat.
Proof using.
  intros Hne. unfold find_best_idx. rewrite bool_decide_false by done. cbn [fst snd].
  assert (0 < length l)%nat by (destruct l; [done|simpl; lia]).
  assert (∀ ty, default 0%nat (first_enabled ty 0 l) < length l)%nat as Hf.
  { intros ty. pose proof (first_enabled_spec ty l 0) as Hs. destruct (first_enabled ty 0 l) as [i|]; simpl; [|done].
    destruct Hs as (k & s & -> & Hk & _). apply lookup_lt_Some in Hk. simpl. lia. }
  split; [destruct (enable_tcp m)|destruct (enable_udp m)]; auto.
Qed.

Lemma probe_all_length todo ty probes l : ∀ idx l', probe_all todo ty probes idx l = Ok l' → length l' = length l.
Proof using.
  induction l as [|s l IH]; intros idx l'; cbn [probe_all]; [by intros [= <-]|].
  intros (s' & _ & H)%outcome_bind_Ok. apply outcome_bind_Ok in H as (l2 & H2 & [= <-]). simpl. f_equal. by eapply IH.
Qed.

Lemma update_best_ok ty c : context_ok c → context_ok (update_best ty c).
Proof using.
  intros H Hne. cbn in Hne. specialize (H Hne) as [H1 H2]. pose proof (chosen_lt ty (servers c) Hne). by destruct ty; simpl.
Qed.

Lemma with_servers_ok l c : length l = length (servers c) → context_ok c → context_ok (with_servers l c).
Proof using.
  intros Hl H Hne. cbn in *. rewrite Hl. apply H. intros E. rewrite E in Hl. by destruct l.
Qed.

Lemma check_once_ok probes c c' : context_ok c → check_once probes c = Ok c' → context_ok c' ∧ length (servers c') = length (servers c).
Proof using.
  intros H. unfold check_once. case_bool_decide; [intros [= <-]; done|]. destruct (_ && _); [intros [= <-]; done|].
  intros (l1 & H1 & H2)%outcome_bind_Ok. apply outcome_bind_Ok in H2 as (l2 & H2 & [= <-]).
  assert (length l1 = length (servers c)) as Hl1 by (destruct (1 <? probe_count c Tcp)%nat; [by eapply probe_all_length|congruence]).
  assert (length l2 = length (servers c)) as Hl2.
  { rewrite <- Hl1. destruct (1 <? probe_count c Udp)%nat; [by eapply probe_all_length|congruence]. }
  pose proof (with_servers_ok l2 c Hl2 H) as Hw.
  repeat match goal with |- context [if ?b then _ else _] => destruct b end; split; try done; auto using update_best_ok.
Qed.

(** ** What a round of probes changes *)
Definition probed (todo : ServerIdent → bool) (ty : ServerType) (s s' : ServerIdent) : Prop :=
  svr_cfg s' = svr_cfg s ∧ (todo s = false → s' = s) ∧ ∀ ty', ty' ≠ ty → score_of ty' s' = score_of ty' s.

Lemma check_update_score_probed todo ty p s s' : todo s = true → check_update_score ty p s = Ok s' → probed todo ty s s'.
Proof using.
  intros Ht (r & _ & [= <-])%outcome_bind_Ok. split_and!; [by destruct ty|congruence|]. by intros []; destruct ty.
Qed.

Lemma probe_all_probed todo ty probes l : ∀ idx l', probe_all todo ty probes idx l = Ok l' → Forall2 (probed todo ty) l l'.
Proof using.
  induction l as [|s l IH]; intros idx l'; cbn [probe_all]; [intros [= <-]; constructor|].
  intros (s' & Hs & H)%outcome_bind_Ok. apply outcome_bind_Ok in H as (l2 & H2 & [= <-]). constructor; [|by eapply IH].
  destruct (todo s) eqn:E; [by eapply check_update_score_probed|]. injection Hs as <-. by split_and!.
Qed.

(** Both rounds: a server that is not probed for a type keeps its score of it. *)
Definition kept (c : PingBalancerContext) (s s' : ServerIdent) : Prop :=
  svr_cfg s' = svr_cfg s ∧ ∀ ty, to_probe c ty s = false → score_of ty s' = score_of ty s.

Lemma probed_kept c ty s s' : probed (to_probe c ty) ty s s' → kept c s s'.
Proof using.
  intros (H1 & H2 & H3). split; [done|]. intros ty' Ht. destruct (decide (ty' = ty)) as [->|]; [by rewrite H2|by apply H3].
Qed.

Lemma kept_refl c s : kept c s s.
Proof using. done. Qed.

Lemma kept_trans c s s' s'' : kept c s s' → kept c s' s'' → kept c s s''.
Proof using.
  intros [H1 H2] [H3 H4]. split; [congruence|]. intros ty Ht. rewrite H4, H2; [done..|]. unfold to_probe, enabled in *. by rewrite H1.
Qed.

Lemma kept_same c l : Forall2 (kept c) l l.
Proof using. induction l; constructor; done. Qed.

Lemma probe_all_kept c (b : bool) ty probes l l' :
  (if b then probe_all (to_probe c ty) ty probes 0 l else Ok l) = Ok l' → Forall2 (kept c) l l'.
Proof using.
  destruct b; [|intros [= <-]; apply kept_same]. intros H%probe_all_probed. eapply list.Forall2_impl; [exact H|]. intros s s'. apply probed_kept.
Qed.

Lemma check_once_Ok probes c c' : servers c ≠ [] → check_once probes c = Ok c' →
  Forall2 (kept c) (servers c) (servers c') ∧ balancer_mode c' = balancer_mode c ∧
  ∀ ty, best_idx ty c' = if (1 <? probe_count c ty)%nat then chosen ty (servers c') else best_idx ty c.
Proof using.
  intros Hne. unfold check_once. rewrite bool_decide_false by done.
  assert (∀ ty, (1 < probe_count c ty)%nat → mode_enables (balancer_mode c) ty = true) as Hmode.
  { intros ty. unfold probe_count, to_probe. destruct (mode_enables (balancer_mode c) ty); [done|]. cbn [andb].
    rewrite filter_none; [simpl; lia|]. by apply list.Forall_forall. }
  pose proof (kept_same c (servers c)) as Hrefl.
  destruct (negb _ && negb _) eqn:Eb.
  { intros [= <-]. split_and!; [done..|]. apply andb_true_iff in Eb as [Et Eu]. rewrite negb_true_iff in Et, Eu. intros []; by rewrite ?Et, ?Eu. }
  clear Eb. intros (l1 & H1%probe_all_kept & H)%outcome_bind_Ok. apply outcome_bind_Ok in H as (l2 & H2%probe_all_kept & [= <-]).
  assert (Forall2 (kept c) (servers c) l2) as Hk by (eapply list.Forall2_trans; [|exact H1|exact H2]; intros; by eapply kept_trans).
  assert (∀ ty, mode_enables (balancer_mode c) ty && (1 <? probe_count c ty)%nat = (1 <? probe_count c ty)%nat) as Hm.
  { intros ty. destruct (1 <? probe_count c ty)%nat eqn:E; [|apply andb_false_r]. apply Nat.ltb_lt in E. by rewrite Hmode. }
  pose proof (Hm Tcp) as HT. pose proof (Hm Udp) as HU. simpl in HT, HU. cbn [balancer_mode with_servers]. rewrite HT.
  destruct (1 <? probe_count c Tcp)%nat eqn:Et; cbn [balancer_mode update_best store_best with_servers]; rewrite HU;
    destruct (1 <? probe_count c Udp)%nat eqn:Eu; (split_and!; [done..|]); intros []; rewrite ?Et, ?Eu; done.
Qed.

(** The servers that are not enabled for a type have never been scored for it. *)
Definition unscored (ty : ServerType) (l : list ServerIdent) : Prop :=
  Forall (λ s, enabled ty s = false → score (score_of ty s) = u32_MAX) l.

Lemma kept_cfgs c l l' : Forall2 (kept c) l l' → svr_cfg <$> l' = svr_cfg <$> l.
Proof using. induction 1 as [|s s' l l' [Hc _] Hk IH]; [done|]. by rewrite !fmap_cons, Hc, IH. Qed.

(** The best server.  After a round of probes of a type the balancer uses a
    server whose score is the smallest of all, the first of them; while no disabled
    server was ever scored it is an enabled one, unless no score is below the
    maximum, in which case it is the first of the list, enabled or not.  A type with
    at most one server to probe keeps its choice.  Probes never touch the
    configurations, nor the scores of servers that are not probed. *)
Theorem check_once_best probes c c' ty :
  servers c ≠ [] → unscored ty (servers c) → check_once probes c = Ok c' →
  svr_cfg <$> servers c' = svr_cfg <$> servers c ∧ unscored ty (servers c') ∧
  if (1 <? probe_count c ty)%nat then
    ∃ s, servers c' !! best_idx ty c' = Some s ∧
      Forall (λ s', score (score_of ty s) ≤ score (score_of ty s') ∨ u32_MAX ≤ score (score_of ty s')) (servers c') ∧
      (∀ j s', (j < best_idx ty c')%nat → servers c' !! j = Some s' → score (score_of ty s) < score (score_of ty s')) ∧
      (enabled ty s = true ∨ best_idx ty c' = 0%nat ∧ Forall (λ s', u32_MAX ≤ score (score_of ty s')) (servers c'))
  else best_idx ty c' = best_idx ty c.
Proof using.
  intros Hne Hun Hck. destruct (check_once_Ok probes c c' Hne Hck) as (Hk & _ & Hb). specialize (Hb ty).
  assert (unscored ty (servers c')) as Hun'.
  { unfold unscored in *. clear -Hk Hun. revert Hun. induction Hk as [|s s' l l' [Hc Hs] Hk IH]; intros Hun; [constructor|].
    apply list.Forall_cons in Hun as [Hu Hun]. constructor; [|by apply IH]. intros He.
    assert (enabled ty s = false) as He' by (unfold enabled in *; by rewrite Hc in He).
    rewrite Hs; [by apply Hu|]. unfold to_probe. rewrite He'. apply andb_false_r. }
  split_and!; [by eapply kept_cfgs|done|].
  destruct (1 <? probe_count c ty)%nat; [|done]. rewrite Hb.
  assert (servers c' ≠ []) as Hne' by (intros E; rewrite E in Hk; inversion Hk; congruence).
  destruct (lookup_lt_is_Some_2 (servers c') (chosen ty (servers c')) (chosen_lt ty _ Hne')) as [s Hs]. exists s. split; [done|].
  destruct (chosen_spec ty (servers c')) as [[H0 Hall]|(x & Hx & Hlt & Hall & Hfirst)].
  - unfold scores_of in Hall. rewrite Forall_fmap in Hall. split_and!; [eapply list.Forall_impl; [exact Hall|]; by right|rewrite H0; intros; lia|by right].
  - unfold scores_of in *. rewrite list_lookup_fmap, Hs in Hx. injection Hx as Hx. rewrite Forall_fmap in Hall.
    split_and!; [eapply list.Forall_impl; [exact Hall|]; cbn; intros s' ?; left; unfold compose in *; lia| |].
    + intros j s' Hj Hs'. rewrite Hx. eapply Hfirst; [exact Hj|]. by rewrite list_lookup_fmap, Hs'.
    + left. destruct (enabled ty s) eqn:E; [done|]. unfold unscored in Hun'. rewrite list.Forall_forall in Hun'.
      rewrite (Hun' s) in Hx; [lia|by eapply list_elem_of_lookup_2|done].
Qed.

(** ** Tasks that interleave

    The tasks that check all servers and the best one, and the connections that
    report failures, run at the same time.  A chooser is a task inside its loop over
    the scores, which it reads one at a time; scores are pushed under a lock of their
    own at any time. *)
Record Chooser := { ch_type : ServerType; ch_idx : nat; ch_best_idx : nat; ch_best_score : Z }.

Definition Chooser_start (ty : ServerType) : Chooser := {| ch_type := ty; ch_idx := 0; ch_best_idx := 0; ch_best_score := u32_MAX |}.

Definition Chooser_read (x : Z) (ch : Chooser) : Chooser :=
  if x <? ch_best_score ch
  then {| ch_type := ch_type ch; ch_idx := S (ch_idx ch); ch_best_idx := ch_idx ch; ch_best_score := x |}
  else {| ch_type := ch_type ch; ch_idx := S (ch_idx ch); ch_best_idx := ch_best_idx ch; ch_best_score := ch_best_score ch |}.

Record World := { ctx : PingBalancerContext; choosers : list Chooser }.

Inductive step (w : World) : World → Prop :=
| step_push i ty now s srv r :
    servers (ctx w) !! i = Some srv → score_push now s (score_of ty srv) = Ok r →
    step w {| ctx := with_servers (<[i := with_score ty r.2 srv]> (servers (ctx w))) (ctx w); choosers := choosers w |}
| step_start ty :
    servers (ctx w) ≠ [] → step w {| ctx := ctx w; choosers := choosers w ++ [Chooser_start ty] |}
| step_read k ch srv :
    choosers w !! k = Some ch → servers (ctx w) !! ch_idx ch = Some srv →
    step w {| ctx := ctx w; choosers := <[k := Chooser_read (score (score_of (ch_type ch) srv)) ch]> (choosers w) |}
| step_store k ch :
    choosers w !! k = Some ch → ch_idx ch = length (servers (ctx w)) →
    step w {| ctx := store_best (ch_type ch) (ch_best_idx ch) (ctx w); choosers := delete k (choosers w) |}.

Definition world_ok (w : World) : Prop :=
  context_ok (ctx w) ∧ Forall (λ ch, (ch_best_idx ch < length (servers (ctx w)))%nat) (choosers w).

Lemma step_ok w w' : world_ok w → step w w' → world_ok w' ∧ length (servers (ctx w')) = length (servers (ctx w)).
Proof using.
  intros [Hc Hch] [i ty now s srv r Hi _|ty Hne|k ch srv Hk Hs|k ch Hk Hidx]; unfold world_ok; cbn [ctx choosers servers with_servers store_best].
  - rewrite length_insert. split_and!; [apply with_servers_ok; [apply length_insert|done]|done..].
  - split_and!; [done| |done]. apply list.Forall_app. split; [done|]. repeat constructor. simpl. destruct (servers (ctx w)); [done|simpl; lia].
  - split_and!; [done| |done]. apply Forall_insert; [done|]. apply lookup_lt_Some in Hs. rewrite list.Forall_forall in Hch.
    specialize (Hch ch ltac:(by eapply list_elem_of_lookup_2)). unfold Chooser_read. by destruct (_ <? _).
  - rewrite list.Forall_forall in Hch. specialize (Hch ch ltac:(by eapply list_elem_of_lookup_2)) as Hb. simpl in Hb.
    split_and!; [|by apply Forall_delete, list.Forall_forall|done].
    intros Hne. destruct (Hc Hne) as [? ?]. by destruct (ch_type ch); split.
Qed.

(** A chooser that is not disturbed computes [chosen]. *)
Lemma chooser_solo l : ∀ ch, choose ((λ s, score (score_of (ch_type ch) s)) <$> l) (ch_idx ch) (ch_best_idx ch) (ch_best_score ch) =
  ch_best_idx (foldl (λ ch s, Chooser_read (score (score_of (ch_type ch) s)) ch) ch l).
Proof using.
  induction l as [|s l IH]; intros ch; [done|]. cbn [fmap list_fmap foldl choose]. rewrite <- IH. unfold Chooser_read.
  by destruct (_ <? _).
Qed.

Lemma start_plugins_length start l : ∀ l', start_plugins start l = Ok l' → length l' = length l.
Proof using.
  induction l as [|s l IH]; intros l'; cbn [start_plugins]; [by intros [= <-]|].
  intros (s' & _ & H)%outcome_bind_Ok. apply outcome_bind_Ok in H as (l2 & H2 & [= <-]). simpl. f_equal. auto.
Qed.

Lemma PingBalancerContext_new_ok start probes l m r i b c :
  PingBalancerContext_new start probes l m r i b = Ok c → context_ok c ∧ length (servers c) = length l.
Proof using.
  intros (l' & Hl%start_plugins_length & H)%outcome_bind_Ok. pose proof (find_best_idx_range l' m) as Hr.
  destruct (find_best_idx l' m) as [t u]. apply check_once_ok in H as [H1 H2]; [|intros Hne; apply Hr; done].
  cbn [servers] in H2. split; [done|congruence].
Qed.

(** C22. A server can always be picked.  Once a balancer with servers is built,
    whatever its tasks, the probes and the reported failures do and in whatever
    order, the best server of both types is a server of the list. *)
Theorem best_server_always start probes b c w ty :
  build start probes b = Ok c → b_servers b ≠ [] → rtc step {| ctx := c; choosers := [] |} w →
  ∃ s, best_server ty (ctx w) = Ok s.
Proof using.
  intros Hb Hne Hw. assert (context_ok c ∧ length (servers c) = length (b_servers b)) as [Hc Hl].
  { unfold build in Hb. destruct (b_check_best_interval b); [destruct (_ <? _); [done|]|]; by eapply PingBalancerContext_new_ok. }
  assert (world_ok w ∧ length (servers (ctx w)) = length (servers c)) as [[Hok _] Hlen].
  { assert (world_ok {| ctx := c; choosers := [] |}) as H0 by (split; [done|constructor]).
    change (servers c) with (servers (ctx {| ctx := c; choosers := [] |})). clear -Hw H0. induction Hw as [w|w1 w2 w3 Hs Hw IH]; [done|].
    apply step_ok in Hs as [H1 H2]; [|done]. specialize (IH H1) as [? ?]. split; [done|congruence]. }
  assert (servers (ctx w) ≠ []) as Hne'.
  { intros E. rewrite E, Hl in Hlen. by destruct (b_servers b). }
  destruct (Hok Hne') as [Ht Hu]. unfold best_server. rewrite bool_decide_false by done.
  destruct (lookup_lt_is_Some_2 (servers (ctx w)) (best_idx ty (ctx w))) as [s ->]; [by destruct ty|eauto].
Qed.

(** ** Replacing servers *)
Lemma swap_remove_split {A} (a b : list A) x : ∃ b', swap_remove (length a) (a ++ x :: b) = a ++ b' ∧ b' ≡ₚ b.
Proof using.
  unfold swap_remove. destruct b as [|y b _] using rev_ind.
  - exists []. rewrite list.last_snoc, length_app. simpl. rewrite insert_app_r_alt, Nat.sub_diag by done. cbn [insert list_insert].
    rewrite Nat.add_sub, take_app_length. by rewrite app_nil_r.
  - exists (y :: b). split; [|by rewrite Permutation_app_comm].
    rewrite (app_assoc a (x :: b) [y] : a ++ x :: b ++ [y] = (a ++ x :: b) ++ [y]), list.last_snoc.
    rewrite <- app_assoc, insert_app_r_alt, Nat.sub_diag by done. cbn [app insert list_insert].
    rewrite !length_app, length_cons, length_app. simpl. change (y :: b ++ [y]) with ((y :: b) ++ [y]). rewrite app_assoc.
    apply take_app_length'. rewrite length_app. simpl. lia.
Qed.

Lemma remove_sources_spec sources : ∀ fuel a b, (length b ≤ fuel)%nat →
  ∃ b', remove_sources fuel sources (length a) (a ++ b) = a ++ b' ∧ b' ≡ₚ filter (λ s, source (svr_cfg s) ∉ sources) b.
Proof using.
  induction fuel as [|fuel IH]; intros a b Hf.
  { destruct b; [|simpl in Hf; lia]. exists []. by rewrite app_nil_r. }
  cbn [remove_sources]. destruct b as [|x b].
  { exists []. rewrite app_nil_r, lookup_ge_None_2 by done. done. }
  rewrite list_lookup_middle by done. simpl in Hf. case_bool_decide as Hs.
  - destruct (swap_remove_split a b x) as (b' & -> & Hp). destruct (IH a b') as (b'' & -> & Hp''); [rewrite Hp; lia|].
    exists b''. split; [done|]. rewrite filter_cons_False by (by intros ?). by rewrite Hp'', Hp.
  - destruct (IH (a ++ [x]) b ltac:(lia)) as (b' & E & Hp). rewrite length_app, Nat.add_1_r in E. rewrite <- app_assoc in E. cbn [app] in E.
    rewrite E, <- app_assoc. exists (x :: b'). split; [done|]. by rewrite filter_cons_True, Hp.
Qed.

Definition same_but_plugin_addr (a b : ServerConfig) : Prop := b = a ∨ ∃ x, b = set_plugin_addr x a.

Lemma start_plugins_cfgs start l : ∀ l', start_plugins start l = Ok l' → Forall2 same_but_plugin_addr (svr_cfg <$> l) (svr_cfg <$> l').
Proof using.
  induction l as [|s l IH]; intros l'; cbn [start_plugins]; [intros [= <-]; constructor|].
  intros (s' & Hs & H)%outcome_bind_Ok. apply outcome_bind_Ok in H as (l2 & H2 & [= <-]). rewrite !fmap_cons. constructor; [|auto].
  destruct (plugin (svr_cfg s)); [|injection Hs as <-; by left]. apply outcome_bind_Ok in Hs as (x & _ & [= <-]). right. by exists x.
Qed.

Lemma new_idents_cfgs cfgs r w : ∀ l, new_idents cfgs r w = Ok l → svr_cfg <$> l = cfgs.
Proof using.
  induction cfgs as [|c cfgs IH]; intros l; cbn [new_idents]; [by intros [= <-]|].
  intros (s & Hs & H)%outcome_bind_Ok. apply outcome_bind_Ok in H as (l2 & H2 & [= <-]). rewrite fmap_cons. f_equal; [|auto].
  unfold ServerIdent_new in Hs. apply outcome_bind_Ok in Hs as (? & _ & Hs). by apply outcome_bind_Ok in Hs as (? & _ & [= <-]).
Qed.

Lemma PingBalancerContext_new_cfgs start probes l m r i b c :
  PingBalancerContext_new start probes l m r i b = Ok c → Forall2 same_but_plugin_addr (svr_cfg <$> l) (svr_cfg <$> servers c).
Proof using.
  intros (l' & Hl%start_plugins_cfgs & H)%outcome_bind_Ok. destruct (find_best_idx l' m) as [t u].
  destruct (decide (l' = [])) as [->|Hne].
  - unfold check_once in H. cbn [servers] in H. rewrite bool_decide_true in H by done. by injection H as <-.
  - apply check_once_Ok in H as (Hk & _); [|done]. cbn [servers] in Hk. by rewrite (kept_cfgs _ _ _ Hk).
Qed.

(** Replacing the servers of some sources.  When [reset_servers] succeeds the
    balancer has the new servers, followed by exactly the old ones of the other
    sources (in some order), each with its configuration but for the address of a
    plugin that was started again, and indices in range; when it fails, the balancer
    is as it was. *)
Theorem reset_servers_replaces start probes cfgs sources old :
  let '(c, r) := reset_servers start probes cfgs sources old in
  match r with
  | Ok _ => ∃ others, others ≡ₚ filter (λ s, source (svr_cfg s) ∉ sources) (servers old) ∧
      Forall2 same_but_plugin_addr (cfgs ++ (svr_cfg <$> others)) (svr_cfg <$> servers c) ∧ context_ok c
  | _ => c = old
  end.
Proof using.
  unfold reset_servers. destruct (_ ≫= _) as [c|e|m] eqn:E; [|done..].
  apply outcome_bind_Ok in E as (l & Hl & E). apply outcome_bind_Ok in E as (l' & Hl' & E).
  destruct (remove_sources_spec sources (length (servers old)) [] (servers old) ltac:(done)) as (others & Ho & Hp).
  cbn [app length] in Ho. rewrite Ho in Hl'. exists others. split; [done|].
  split; [|by eapply PingBalancerContext_new_ok]. apply PingBalancerContext_new_cfgs in E.
  by rewrite fmap_app, (new_idents_cfgs _ _ _ _ Hl), (new_idents_cfgs _ _ _ _ Hl') in E.
Qed.

(** No task is needed, and none changes anything, when at most one server of each
    type is to be probed. *)
Lemma probing_not_required probes c : probing_required c = false → check_once probes c = Ok c.
Proof using.
  unfold probing_required, check_once. case_bool_decide; [done|]. intros Hp%orb_false_iff. destruct Hp as [-> ->]. done.
Qed.
End Balancer.

Import Toy ToyConf.

(** ** Examples: a server without TCP, then two with it *)
Definition demo_cfg (m : Mode) (w : spec_float) : ServerConfig :=
  set_weight {| tcp_weight := w; udp_weight := w |} (set_mode m (set_source Configuration toy_config)).

Definition demo_probe (ms : Z) : Probe := {| request := Some (Ok tt); elapsed := ms * 1000000; pushed_at := 5 |}.
Definition demo_failure : Probe := {| request := Some (Err ConnectionRefused); elapsed := 1000000; pushed_at := 5 |}.
Definition no_plugin (p : PluginConfig) (a : ServerAddr) : outcome io_error ServerAddr := Err ConnectionRefused.

Definition demo_builder (w : spec_float) : outcome io_error PingBalancerBuilder :=
  b ← add_server (demo_cfg UdpOnly w) (PingBalancerBuilder_new TcpOnly);
  b ← add_server (demo_cfg TcpAndUdp w) b;
  add_server (demo_cfg TcpOnly w) b.

Definition demo_probes (ty : ServerType) (i : nat) : Probe := demo_probe (300 - 100 * Z.of_nat i).

Definition demo_context : outcome io_error PingBalancerContext := b ← demo_builder f32_one; build true no_plugin demo_probes b.

Example demo_choice : best_tcp_idx <$> demo_context = Ok 2%nat.
Proof. by vm_compute. Qed.

(** With weights of a millionth, servers that fail have the maximal score: the
    balancer turns to the first server, although TCP is disabled for it. *)
Definition tiny : spec_float := binary_normalize 24 128 1 (-20) false.

Example disabled_server_chosen :
  (b ← demo_builder tiny;
   c ← build true no_plugin (λ _ _, demo_failure) b;
   Ok (find_best_idx (servers c) TcpOnly, best_tcp_idx c, enabled Tcp <$> servers c)) = Ok ((1%nat, 0%nat), 0%nat, [false; true; true]).
Proof. by vm_compute. Qed.

(** The context after a first round of probes. *)
Definition demo_ctx : PingBalancerContext :=
  match demo_context with
  | Ok c => c
  | _ => {| servers := []; best_tcp_idx := 0; best_udp_idx := 0; balancer_mode := TcpOnly; max_rtt := 0; check_interval := 0; check_best_interval := None |}
  end.

Lemma check_once_best_witness : ∃ c' s,
  check_once true demo_probes demo_ctx = Ok c' ∧ servers c' !! best_idx Tcp c' = Some s ∧ (enabled Tcp s = true ∨ best_idx Tcp c' = 0%nat).
Proof.
  destruct (check_once true demo_probes demo_ctx) as [c'| |] eqn:E; [|by vm_compute in E..]. exists c'.
  destruct (check_once_best true demo_probes demo_ctx c' Tcp) as (_ & _ & H); [by vm_compute| |exact E|].
  - apply (bool_decide_unpack (Forall _ _)). by vm_compute.
  - assert ((1 <? probe_count demo_ctx Tcp)%nat = true) as Hp by (by vm_compute). rewrite Hp in H. destruct H as (s & Hs & _ & _ & H). exists s. split_and!; [done|done|tauto].
Defined.

Definition demo_b : PingBalancerBuilder := match demo_builder f32_one with Ok b => b | _ => PingBalancerBuilder_new TcpOnly end.

Lemma best_server_always_witness : ∃ s, best_server Tcp demo_ctx = Ok s.
Proof.
  apply (best_server_always true no_plugin demo_probes demo_b demo_ctx {| ctx := demo_ctx; choosers := [] |} Tcp).
  - vm_compute. reflexivity.
  - by vm_compute.
  - constructor.
Defined.

Example reset_servers_example :
  let '(c, r) := reset_servers true no_plugin demo_probes [demo_cfg TcpOnly f32_one] [Configuration] demo_ctx in
  r = Ok tt ∧ length (servers c) = 1%nat.
Proof. by vm_compute. Qed.
