(* ===== verification/ManagerProtocol.v ===== *)
(** * The manager protocol (crates/shadowsocks/src/manager/protocol.rs)

    The datagrams with which servers are added to and removed from a manager.  JSON
    is a class of operations per type, with the law that a value is read back from
    its text, white space around it included.  Shown: the manager reads every
    request as it was sent, and the requests that it does not understand. *)
From S2P Require Import Prelude.
From S2P Require Import Utf8.
From S2P Require Import StdNet.
From S2P Require Import NetText.

(** ** serde_json *)
Class Json (A : Type) := {
  to_json : A → bytes;
  from_json : bytes → option A;
}.

(** JSON white space: space, line feed, carriage return, tab. *)
Definition json_space (b : byte) : Prop := b ∈ [b# 32; b# 10; b# 13; b# 9].

Lemma json_space_blank : Forall json_space [b# 32].
Proof. repeat constructor. Qed.

Lemma json_space_newline : Forall json_space [b# 10].
Proof. constructor; [right; left|constructor]. Qed.

Class JsonLaws {A} (J : Json A) (wf : A → Prop) : Prop := {
  from_to_json x pre post : wf x → Forall json_space pre → Forall json_space post → from_json (pre ++ to_json x ++ post) = Some x;
}.

(** ** Messages *)
Record ServerUserConfig := { suc_name : bytes; suc_password : bytes }.

(** [protocol::ServerConfig]. *)
Record AddRequest := {
  server_port : Z;
  ar_password : bytes;
  ar_method : option bytes;
  no_delay : option bool;
  ar_plugin : option bytes;
  ar_plugin_opts : option bytes;
  ar_plugin_mode : option bytes;
  ar_mode : option bytes;
  ar_users : option (list ServerUserConfig);
}.

Record RemoveRequest := { remove_port : Z }.

(** [HashMap<u16, u64>], of [StatRequest] and [PingResponse]. *)
Abbreviation Stat := (gmap Z Z).

Inductive ManagerRequest := Add (r : AddRequest) | Remove (r : RemoveRequest) | List_ | Ping | StatOf (s : Stat).

Inductive Error := JsonError | FromUtf8Error | MissingParameter | RedundantParameter | UnrecognizedCommand (cmd : bytes).

Section Protocol.
Context `{JA : Json AddRequest, JR : Json RemoveRequest, JS : Json Stat, JL : Json (list AddRequest)}.

(** [buf.splitn(2, |b| *b == b':')]: the first piece and perhaps the rest. *)
Definition nsplit (buf : bytes) : bytes * option bytes :=
  match split_first COLON buf with Some (cmd, param) => (cmd, Some param) | None => (buf, None) end.

Definition command_of (cmd : bytes) : outcome Error bytes :=
  match from_utf8 cmd with Some cmd => Ok (trim cmd) | None => Err FromUtf8Error end.

Definition from_slice {A} `{Json A} (param : option bytes) : outcome Error A :=
  match param with
  | None => Err MissingParameter
  | Some param => match from_json param with Some x => Ok x | None => Err JsonError end
  end.

(** The [from_bytes] of [AddRequest], [RemoveRequest], [PingResponse] and
    [StatRequest], which differ in the command only. *)
Definition request_from_bytes {A} `{Json A} (name : bytes) (buf : bytes) : outcome Error A :=
  let '(cmd, param) := nsplit buf in
  cmd ← command_of cmd;
  if bool_decide (cmd = name) then from_slice param else Err (UnrecognizedCommand cmd).

Definition request_to_bytes {A} `{Json A} (name : bytes) (x : A) : bytes := name ++ str ": " ++ to_json x ++ [b# 10].

Definition AddRequest_from_bytes : bytes → outcome Error AddRequest := request_from_bytes (str "add").
Definition AddRequest_to_bytes : AddRequest → bytes := request_to_bytes (str "add").
Definition RemoveRequest_from_bytes : bytes → outcome Error RemoveRequest := request_from_bytes (str "remove").
Definition RemoveRequest_to_bytes : RemoveRequest → bytes := request_to_bytes (str "remove").
Definition PingResponse_from_bytes : bytes → outcome Error Stat := request_from_bytes (str "stat").
Definition PingResponse_to_bytes : Stat → bytes := request_to_bytes (str "stat").
Definition StatRequest_from_bytes : bytes → outcome Error Stat := request_from_bytes (str "stat").
Definition StatRequest_to_bytes : Stat → bytes := request_to_bytes (str "stat").

(** [ListRequest] and [PingRequest], whose text is compared as it is. *)
Definition bare_from_bytes (name : bytes) (buf : bytes) : outcome Error unit :=
  match from_utf8 buf with
  | None => Err FromUtf8Error
  | Some cmd => if bool_decide (cmd = name) then Ok tt else Err (UnrecognizedCommand cmd)
  end.
Definition ListRequest_from_bytes : bytes → outcome Error unit := bare_from_bytes (str "list").
Definition ListRequest_to_bytes : bytes := str "list" ++ [b# 10].
Definition PingRequest_from_bytes : bytes → outcome Error unit := bare_from_bytes (str "ping").
Definition PingRequest_to_bytes : bytes := str "ping" ++ [b# 10].

(** [AddResponse] and [RemoveResponse]. *)
Definition text_from_bytes (buf : bytes) : outcome Error bytes := match from_utf8 buf with Some s => Ok (trim s) | None => Err FromUtf8Error end.
Definition text_to_bytes (s : bytes) : bytes := s ++ [b# 10].

Definition ListResponse_from_bytes (buf : bytes) : outcome Error (list AddRequest) := from_slice (Some buf).
Definition ListResponse_to_bytes (l : list AddRequest) : bytes := to_json l ++ [b# 10].

Definition ManagerRequest_command (self : ManagerRequest) : bytes :=
  match self with Add _ => str "add" | Remove _ => str "remove" | List_ => str "list" | Ping => str "ping" | StatOf _ => str "stat" end.

Definition ManagerRequest_to_bytes (self : ManagerRequest) : bytes :=
  match self with
  | Add req => AddRequest_to_bytes req
  | Remove req => RemoveRequest_to_bytes req
  | List_ => ListRequest_to_bytes
  | Ping => PingRequest_to_bytes
  | StatOf req => StatRequest_to_bytes req
  end.

Definition ManagerRequest_from_bytes (buf : bytes) : outcome Error ManagerRequest :=
  let '(cmd, param) := nsplit buf in
  cmd ← command_of cmd;
  if bool_decide (cmd = str "add") then Add <$> from_slice param
  else if bool_decide (cmd = str "remove") then Remove <$> from_slice param
  else if bool_decide (cmd = str "list") then match param with Some _ => Err RedundantParameter | None => Ok List_ end
  else if bool_decide (cmd = str "ping") then match param with Some _ => Err RedundantParameter | None => Ok Ping end
  else if bool_decide (cmd = str "stat") then StatOf <$> from_slice param
  else Err (UnrecognizedCommand cmd).

(** ** Round trips *)
Lemma nsplit_request {A} `{Json A} name (x : A) : COLON ∉ name →
  nsplit (request_to_bytes name x) = (name, Some ([b# 32] ++ to_json x ++ [b# 10])).
Proof using. intros Hn. unfold nsplit, request_to_bytes. change (str ": " ++ ?s) with (COLON :: [b# 32] ++ s). by rewrite split_first_app. Qed.

Lemma from_slice_request {A} `{J : Json A} (wf : A → Prop) `{!JsonLaws J wf} x :
  wf x → from_slice (Some ([b# 32] ++ to_json x ++ [b# 10])) = Ok x.
Proof using.
  intros Hx. unfold from_slice. rewrite (from_to_json (wf := wf)); [done|done|apply json_space_blank|apply json_space_newline].
Qed.

Lemma command_ok name : name ∈ [str "add"; str "remove"; str "list"; str "ping"; str "stat"] → command_of name = Ok name ∧ COLON ∉ name.
Proof using.
  intros H. repeat (apply elem_of_cons in H as [->|H]; [split; [by vm_compute|apply (bool_decide_unpack _); by vm_compute]|]). by apply elem_of_nil in H.
Qed.

Context (wfA : AddRequest → Prop) (wfR : RemoveRequest → Prop) (wfS : Stat → Prop) (wfL : list AddRequest → Prop).
Context {JAL : JsonLaws JA wfA} {JRL : JsonLaws JR wfR} {JSL : JsonLaws JS wfS} {JLL : JsonLaws JL wfL}.

Definition request_wf (r : ManagerRequest) : Prop :=
  match r with Add x => wfA x | Remove x => wfR x | StatOf s => wfS s | _ => True end.

(** The manager reads every request as its client wrote it, for all five kinds
    of requests; and the client reads the answers: the statistics, the list of
    servers, and the text of a confirmation without white space at its ends. *)
Theorem manager_protocol_roundtrip :
  (∀ r, request_wf r → ManagerRequest_from_bytes (ManagerRequest_to_bytes r) = Ok r) ∧
  (∀ s, wfS s → PingResponse_from_bytes (PingResponse_to_bytes s) = Ok s) ∧
  (∀ l, wfL l → ListResponse_from_bytes (ListResponse_to_bytes l) = Ok l).
Proof using JAL JRL JSL JLL.
  assert (∀ A (J : Json A) (wf : A → Prop) (_ : JsonLaws J wf) name x, wf x → name ∈ [str "add"; str "remove"; str "list"; str "ping"; str "stat"] →
    nsplit (request_to_bytes name x) = (name, Some ([b# 32] ++ to_json x ++ [b# 10])) ∧ command_of name = Ok name ∧
    from_slice (Some ([b# 32] ++ to_json x ++ [b# 10])) = Ok x) as Hreq.
  { intros A J wf ? name x Hx Hn. destruct (command_ok name Hn) as [Hc Hcolon]. split_and!; [by apply nsplit_request|done|by eapply from_slice_request]. }
  split_and!.
  - intros [x|x| | |x] Hx; cbn [ManagerRequest_to_bytes request_wf] in *; unfold ManagerRequest_from_bytes.
    + destruct (Hreq _ _ _ JAL (str "add") x Hx ltac:(set_solver)) as (E1 & E2 & E3). unfold AddRequest_to_bytes. rewrite E1, E2. cbn [mbind outcome_bind].
      by rewrite bool_decide_true, E3.
    + destruct (Hreq _ _ _ JRL (str "remove") x Hx ltac:(set_solver)) as (E1 & E2 & E3). unfold RemoveRequest_to_bytes. rewrite E1, E2. cbn [mbind outcome_bind].
      by rewrite bool_decide_false, bool_decide_true, E3.
    + by vm_compute.
    + by vm_compute.
    + destruct (Hreq _ _ _ JSL (str "stat") x Hx ltac:(set_solver)) as (E1 & E2 & E3). unfold StatRequest_to_bytes. rewrite E1, E2. cbn [mbind outcome_bind].
      do 4 rewrite bool_decide_false by done. by rewrite bool_decide_true, E3.
  - intros s Hs. destruct (Hreq _ _ _ JSL (str "stat") s Hs ltac:(set_solver)) as (E1 & E2 & E3).
    unfold PingResponse_from_bytes, PingResponse_to_bytes, request_from_bytes. rewrite E1, E2. cbn [mbind outcome_bind]. by rewrite bool_decide_true.
  - intros l Hl. unfold ListResponse_from_bytes, ListResponse_to_bytes, from_slice.
    pose proof (from_to_json (J := JL) (wf := wfL) l [] [b# 10] Hl) as E. cbn [app] in E. rewrite E; [done|constructor|apply json_space_newline].
Qed.

(** The two requests without parameters do not read their own text, which ends with
    a line feed; the manager does not use these functions. *)
Lemma bare_requests_not_reread :
  ListRequest_from_bytes ListRequest_to_bytes = Err (UnrecognizedCommand ListRequest_to_bytes) ∧
  PingRequest_from_bytes PingRequest_to_bytes = Err (UnrecognizedCommand PingRequest_to_bytes).
Proof using. by vm_compute. Qed.
End Protocol.

(** ** An executable model of the crate, for the examples: the number of a value in
    binary. *)
Module ToyJson.
Fixpoint bits (p : positive) : bytes :=
  match p with xH => [] | xO p => b# 48 :: bits p | xI p => b# 49 :: bits p end.

Fixpoint unbits (s : bytes) : positive :=
  match s with
  | [] => xH
  | b :: s => if bool_decide (b = b# 48) then xO (unbits s) else if bool_decide (b = b# 49) then xI (unbits s) else unbits s
  end.

#[export] Instance count_json A `{Countable A} : Json A := {| to_json x := bits (encode x); from_json s := decode (unbits s) |}.

Lemma unbits_space s t : Forall json_space s → unbits (s ++ t) = unbits t.
Proof.
  induction 1 as [|b s Hb Hs IH]; [done|]. cbn [app unbits]. unfold json_space in Hb.
  rewrite !bool_decide_false; [done|intros ->; by apply (bool_decide_pack _) in Hb|intros ->; by apply (bool_decide_pack _) in Hb].
Qed.

Lemma unbits_bits p post : Forall json_space post → unbits (bits p ++ post) = p.
Proof.
  intros Hp. induction p as [p IH|p IH|]; cbn [bits app unbits].
  - rewrite bool_decide_false, bool_decide_true by done. by f_equal.
  - rewrite bool_decide_true by done. by f_equal.
  - rewrite <- (app_nil_r post). by rewrite unbits_space.
Qed.

#[export] Instance count_json_laws A `{Countable A} : JsonLaws (count_json A) (λ _, True).
Proof.
  split. intros x pre post _ Hpre Hpost. unfold from_json, to_json, count_json. rewrite unbits_space, unbits_bits by done. apply decode_encode.
Qed.

#[export] Instance ServerUserConfig_eq_dec : EqDecision ServerUserConfig.
Proof. solve_decision. Defined.
#[export] Instance ServerUserConfig_countable : Countable ServerUserConfig.
Proof. refine (inj_countable' (λ u, (suc_name u, suc_password u)) (λ '(n, p), {| suc_name := n; suc_password := p |}) _). by intros []. Defined.

#[export] Instance AddRequest_eq_dec : EqDecision AddRequest.
Proof. solve_decision. Defined.
#[export] Instance AddRequest_countable : Countable AddRequest.
Proof.
  refine (inj_countable'
    (λ r, ((server_port r, ar_password r, ar_method r), (no_delay r, ar_plugin r, ar_plugin_opts r), (ar_plugin_mode r, ar_mode r, ar_users r)))
    (λ '((a, b, c), (d, e, f), (g, h, i)), {| server_port := a; ar_password := b; ar_method := c; no_delay := d; ar_plugin := e;
       ar_plugin_opts := f; ar_plugin_mode := g; ar_mode := h; ar_users := i |}) _). by intros [].
Defined.

#[export] Instance RemoveRequest_eq_dec : EqDecision RemoveRequest.
Proof. solve_decision. Defined.
#[export] Instance RemoveRequest_countable : Countable RemoveRequest.
Proof. refine (inj_countable' remove_port (λ p, {| remove_port := p |}) _). by intros []. Defined.
End ToyJson.

Import ToyJson.

Lemma manager_protocol_roundtrip_witness :
  ManagerRequest_from_bytes (ManagerRequest_to_bytes (Remove {| remove_port := 8388 |})) = Ok (Remove {| remove_port := 8388 |}).
Proof.
  destruct (manager_protocol_roundtrip (λ _, True) (λ _, True) (λ _, True) (λ _, True)) as (H & _). by apply (H (Remove {| remove_port := 8388 |})).
Defined.
