(* ===== verification/ManagerServer.v ===== *)
(** * The manager (crates/shadowsocks-service/src/manager/server.rs)

    A manager keeps the servers it started by their port and serves the requests of
    [ManagerProtocol].  What starting a server or reading a configuration file gives
    is an argument.  Shown: after any sequence of requests every server is kept under
    its own port with keys that fit its method, what the requests report is what is
    kept, and refused requests change nothing. *)
From S2P Require Import Prelude.
From S2P Require Import External.
From S2P Require Import Socks5.
From S2P Require Import Users.
From S2P Require Import StdNet.
From S2P Require Import NetText.
From S2P Require Import ServerConf.
From S2P Require Import ManagerProtocol.

(** ** The manager's configuration (crates/shadowsocks-service/src/config.rs) *)
Inductive ManagerServerHost := HostDomain (d : bytes) | HostIp (ip : IpAddr).

Definition ManagerServerHost_default : ManagerServerHost := HostIp (IpV4 0).

Definition ManagerServerHost_from_str (s : bytes) : ManagerServerHost :=
  match parse_ip s with Some ip => HostIp ip | None => HostDomain s end.

Inductive ManagerServerMode := Builtin | Standalone.

#[export] Instance ManagerServerMode_eq_dec : EqDecision ManagerServerMode.
Proof. solve_decision. Defined.

Definition ManagerServerMode_from_str (s : bytes) : option ManagerServerMode :=
  if bool_decide (s = str "builtin") then Some Builtin else if bool_decide (s = str "standalone") then Some Standalone else None.

Section Manager.
Context `{CS : CipherSuite, B64 : Base64, CN : !CipherNames, BL : Blake3}.

Record ManagerConfig := {
  mc_addr : ManagerAddr;
  mc_method : option CipherKind;
  mc_plugin : option PluginConfig;
  mc_server_host : ManagerServerHost;
  mc_mode : Mode;
  mc_server_mode : ManagerServerMode;
}.

Definition ManagerConfig_new (a : ManagerAddr) : ManagerConfig :=
  {| mc_addr := a; mc_method := None; mc_plugin := None; mc_server_host := ManagerServerHost_default; mc_mode := TcpOnly; mc_server_mode := Builtin |}.

(** ** State *)

(** The bytes a builtin server has sent and received are counted by the server. *)
Inductive ServerInstanceMode := InstBuiltin (tx rx : Z) | InstStandalone (flow_stat : Z).

Record ServerInstance := { inst_mode : ServerInstanceMode; svr_cfg : ServerConfig }.

Definition flow_stat (self : ServerInstance) : Z :=
  match inst_mode self with InstBuiltin tx rx => (tx + rx) mod 2 ^ 64 | InstStandalone flow => flow end.

Record Manager := { config : ManagerConfig; servers : gmap Z ServerInstance }.

Definition with_instances (s : gmap Z ServerInstance) (self : Manager) : Manager := {| config := config self; servers := s |}.

(** What the system answers while a server is added: whether the server could be
    built, and whether its configuration file was written and its process spawned. *)
Record AddEnv := { built : bool; written : bool; spawned : bool }.

(** The method when neither the request nor the manager has one,
    CHACHA20_POLY1305. *)
Context (CHACHA20_POLY1305 : CipherKind).

(** ** Adding *)
Definition add_server_builtin (env : AddEnv) (cfg : ServerConfig) (self : Manager) : Manager :=
  let port := ServerAddr_port (addr cfg) in
  let closed := delete port (servers self) in
  if built env then with_instances (<[port := {| inst_mode := InstBuiltin 0 0; svr_cfg := cfg |}]> closed) self
  else with_instances closed self.

Definition add_server_standalone (env : AddEnv) (cfg : ServerConfig) (self : Manager) : Manager :=
  let port := ServerAddr_port (addr cfg) in
  if written env && spawned env
  then with_instances (<[port := {| inst_mode := InstStandalone 0; svr_cfg := cfg |}]> (servers self)) self
  else self.

Definition manager_add_server (env : AddEnv) (cfg : ServerConfig) (self : Manager) : Manager :=
  match mc_server_mode (config self) with
  | Builtin => add_server_builtin env cfg self
  | Standalone => add_server_standalone env cfg self
  end.

(** [ServerUser::with_encoded_key]. *)
Definition with_encoded_key (name key : bytes) : option ServerUser :=
  match std_decode key with inl k => Some (ServerUser_new (String.string_of_list_byte name) k) | inr _ => None end.

Fixpoint add_users (users : list ServerUserConfig) (m : ServerUserManager) : option ServerUserManager :=
  match users with
  | [] => Some m
  | u :: users => match with_encoded_key (suc_name u) (suc_password u) with Some user => add_users users (add_user m user) | None => None end
  end.

Definition server_addr (host : ManagerServerHost) (port : Z) : ServerAddr :=
  match host with
  | HostDomain d => DomainName d port
  | HostIp (IpV4 ip) => SocketAddr (V4 ip port)
  | HostIp (IpV6 ip) => SocketAddr (V6 ip port 0 0)
  end.

(** The part of [handle_add] before the server is added: the configuration, or the
    answer that refuses the request. *)
Definition request_plugin (req : AddRequest) (self : Manager) (cfg : ServerConfig) : ServerConfig + bytes :=
  match ar_plugin req with
  | Some p =>
      match (match ar_plugin_mode req with
             | None => Some TcpOnly
             | Some m => Mode_from_str m
             end) with
      | Some m => inl (set_plugin {| plugin_name := p; plugin_opts := ar_plugin_opts req; plugin_args := []; plugin_mode := m |} cfg)
      | None => inr (str "unrecognized plugin_mode " ++ b# 34 :: default [] (ar_plugin_mode req) ++ [b# 34])
      end
  | None => inl (match mc_plugin (config self) with Some p => set_plugin p cfg | None => cfg end)
  end.

Definition request_config (req : AddRequest) (self : Manager) : ServerConfig + outcome io_error bytes :=
  match (match ar_method req with
         | Some m => match kind_parse m with Some k => inl k | None => inr (str "unrecognized method " ++ b# 34 :: m ++ [b# 34]) end
         | None => inl (default CHACHA20_POLY1305 (mc_method (config self)))
         end) with
  | inr refusal => inr (Ok refusal)
  | inl method =>
      match ServerConfig_new (server_addr (mc_server_host (config self)) (server_port req)) (ar_password req) method with
      | Ok cfg =>
          match request_plugin req self cfg with
          | inr refusal => inr (Ok refusal)
          | inl cfg =>
              match (match ar_mode req with
                     | None => inl (mc_mode (config self))
                     | Some m => match Mode_from_str m with Some m => inl m | None => inr (str "unrecognized mode " ++ b# 34 :: m ++ [b# 34]) end
                     end) with
              | inr refusal => inr (Ok refusal)
              | inl m =>
                  let cfg := set_mode m cfg in
                  match ar_users req with
                  | None => inl cfg
                  | Some users =>
                      match add_users users ServerUserManager_new with
                      | Some um => inl (set_user_manager um cfg)
                      | None => inr (Err (OtherKind "users[].password must be encoded with base64"))
                      end
                  end
              end
          end
      | Err _ => inr (Ok (str "invalid server"))
      | Panic m => inr (Panic m)
      end
  end.

Definition handle_add (env : AddEnv) (req : AddRequest) (self : Manager) : Manager * outcome io_error bytes :=
  match request_config req self with
  | inl cfg => (manager_add_server env cfg self, Ok (str "ok"))
  | inr refusal => (self, refusal)
  end.

(** ** The other requests *)
Definition handle_remove (req : RemoveRequest) (self : Manager) : Manager * bytes :=
  (with_instances (delete (remove_port req) (servers self)) self, str "ok").

Definition list_entry (inst : ServerInstance) : AddRequest := {|
  server_port := ServerAddr_port (addr (svr_cfg inst)); ar_password := password (svr_cfg inst); ar_method := None; no_delay := None;
  ar_plugin := None; ar_plugin_opts := None; ar_plugin_mode := None; ar_mode := None;
  ar_users := (λ um : ServerUserManager, (λ u, {| suc_name := str (user_name u.2); suc_password := std_encode (user_key u.2) |}) <$> map_to_list um) <$> user_manager (svr_cfg inst) |}.

Definition handle_list (self : Manager) : list AddRequest := (λ kv, list_entry kv.2) <$> map_to_list (servers self).

Definition handle_ping (self : Manager) : Stat := flow_stat <$> servers self.

(** Loading the configuration file of a port: [None] without a file or when it
    cannot be read. *)
Definition stat_one (load : Z → option (list ServerConfig)) (port flow : Z) (instances : gmap Z ServerInstance) : gmap Z ServerInstance :=
  match instances !! port with
  | Some inst =>
      match inst_mode inst with
      | InstBuiltin _ _ => instances
      | InstStandalone _ => <[port := {| inst_mode := InstStandalone flow; svr_cfg := svr_cfg inst |}]> instances
      end
  | None =>
      match load port with
      | Some [cfg] => <[port := {| inst_mode := InstStandalone flow; svr_cfg := cfg |}]> instances
      | _ => instances
      end
  end.

Definition handle_stat (load : Z → option (list ServerConfig)) (stat : Stat) (self : Manager) : Manager :=
  if bool_decide (mc_server_mode (config self) = Standalone)
  then with_instances (foldl (λ m kv, stat_one load kv.1 kv.2 m) (servers self) (map_to_list stat)) self
  else self.

(** ** A turn of the loop *)
Inductive Response := RText (s : bytes) | RError (e : io_error) | RList (l : list AddRequest) | RStat (s : Stat) | RNone.

Definition handle (env : AddEnv) (load : Z → option (list ServerConfig)) (req : ManagerRequest) (self : Manager) : outcome io_error (Manager * Response) :=
  match req with
  | Add req =>
      match handle_add env req self with
      | (self, Ok rsp) => Ok (self, RText rsp)
      | (self, Err e) => Ok (self, RError e)
      | (self, Panic m) => Panic m
      end
  | Remove req => let '(self, rsp) := handle_remove req self in Ok (self, RText rsp)
  | List_ => Ok (self, RList (handle_list self))
  | Ping => Ok (self, RStat (handle_ping self))
  | StatOf stat => Ok (handle_stat load stat self, RNone)
  end.

Definition Manager_new (c : ManagerConfig) : Manager := {| config := c; servers := ∅ |}.

(** Requests one after the other, and the traffic of builtin servers in between. *)
Inductive manager_step (load : Z → option (list ServerConfig)) (m : Manager) : Manager → Prop :=
| step_request env req m' rsp : handle env load req m = Ok (m', rsp) → manager_step load m m'
| step_traffic port cfg tx rx tx' rx' :
    servers m !! port = Some {| inst_mode := InstBuiltin tx rx; svr_cfg := cfg |} →
    manager_step load m (with_instances (<[port := {| inst_mode := InstBuiltin tx' rx'; svr_cfg := cfg |}]> (servers m)) m).

(** ** Every server under its port *)
Definition instance_ok (c : ManagerConfig) (port : Z) (inst : ServerInstance) : Prop :=
  ServerAddr_port (addr (svr_cfg inst)) = port ∧ made (svr_cfg inst) ∧
  match mc_server_mode c, inst_mode inst with Builtin, InstBuiltin _ _ | Standalone, InstStandalone _ => True | _, _ => False end.

Definition manager_ok (m : Manager) : Prop := map_Forall (instance_ok (config m)) (servers m).

(** The configuration files of a manager are those it writes: one server, for the
    port of the file. *)
Definition files_ok (load : Z → option (list ServerConfig)) : Prop :=
  ∀ port cfg, load port = Some [cfg] → ServerAddr_port (addr cfg) = port ∧ made cfg.

Lemma server_addr_port host port : ServerAddr_port (server_addr host port) = port.
Proof using. by destruct host as [|[]]. Qed.

Lemma request_config_made req m cfg : request_config req m = inl cfg → made cfg ∧ ServerAddr_port (addr cfg) = server_port req.
Proof using.
  unfold request_config. destruct (match ar_method req with Some _ => _ | None => _ end) as [k|]; [|done].
  destruct (ServerConfig_new _ _ k) as [c| |] eqn:Ec; [|done..].
  assert (made c ∧ ServerAddr_port (addr c) = server_port req) as [Hm Hp].
  { split; [by eapply made_new|]. unfold ServerConfig_new in Ec. apply outcome_bind_Ok in Ec as ([[? ?] ?] & _ & [= <-]). apply server_addr_port. }
  destruct (request_plugin req m c) as [c'|] eqn:Er; [|done].
  assert (made c' ∧ addr c' = addr c) as [Hm' Ha].
  { unfold request_plugin in Er. destruct (ar_plugin req); [destruct (match ar_plugin_mode req with Some _ => _ | None => _ end); [|done]|];
    [|destruct (mc_plugin (config m))]; injection Er as <-; (split; [try done; by apply made_plugin|done]). }
  destruct (match ar_mode req with Some _ => _ | None => _ end) as [md|]; [|done].
  destruct (ar_users req) as [users|]; [destruct (add_users users _); [|done]|]; intros [= <-].
  - split; [by apply made_user_manager, made_mode|]. simpl. by rewrite Ha.
  - split; [by apply made_mode|]. simpl. by rewrite Ha.
Qed.

Lemma manager_add_server_ok env cfg m : made cfg → manager_ok m → manager_ok (manager_add_server env cfg m) ∧ config (manager_add_server env cfg m) = config m.
Proof using.
  intros Hc Hm. unfold manager_add_server. destruct (mc_server_mode (config m)) eqn:E.
  - unfold add_server_builtin. destruct (built env); (split; [|done]); unfold manager_ok; cbn [config servers with_instances].
    + apply map_Forall_insert_2; [split_and!; [done|done|by rewrite E]|by apply map_Forall_delete].
    + by apply map_Forall_delete.
  - unfold add_server_standalone. destruct (_ && _); [|done]. split; [|done]. unfold manager_ok. cbn [config servers with_instances].
    apply map_Forall_insert_2; [split_and!; [done|done|by rewrite E]|done].
Qed.

Lemma stat_one_ok load c port flow s :
  files_ok load → mc_server_mode c = Standalone → map_Forall (instance_ok c) s → map_Forall (instance_ok c) (stat_one load port flow s).
Proof using.
  intros Hf Hs Hm. unfold stat_one. destruct (s !! port) as [inst|] eqn:E.
  - destruct (Hm port inst E) as (Hp & Hc & _). destruct (inst_mode inst); [done|]. apply map_Forall_insert_2; [|done]. split_and!; [done|done|by rewrite Hs].
  - destruct (load port) as [[|cfg []]|] eqn:El; try done. destruct (Hf port cfg El) as [Hp Hc].
    apply map_Forall_insert_2; [|done]. split_and!; [done|done|by rewrite Hs].
Qed.

Lemma handle_ok env load req m m' rsp : files_ok load → manager_ok m → handle env load req m = Ok (m', rsp) → manager_ok m' ∧ config m' = config m.
Proof using.
  intros Hf Hm. destruct req as [req|req| | |stat]; cbn [handle].
  - unfold handle_add. destruct (request_config req m) as [cfg|r] eqn:E.
    + intros [= <- <-]. apply request_config_made in E as [Hc _]. by apply manager_add_server_ok.
    + destruct r; intros [= <- <-]; done.
  - intros [= <- <-]. split; [|done]. unfold manager_ok. cbn. by apply map_Forall_delete.
  - by intros [= <- <-].
  - by intros [= <- <-].
  - intros [= <- <-]. unfold handle_stat. case_bool_decide as Hs; [|done]. split; [|done]. unfold manager_ok. cbn [config servers with_instances].
    assert (∀ l s, map_Forall (instance_ok (config m)) s → map_Forall (instance_ok (config m)) (foldl (λ m kv, stat_one load kv.1 kv.2 m) s l)) as H; [|by apply H].
    induction l as [|[p f] l IH]; intros s Hs'; [done|]. cbn [foldl]. apply IH, stat_one_ok; done.
Qed.

Lemma manager_run_ok load c m : files_ok load → rtc (manager_step load) (Manager_new c) m → manager_ok m ∧ config m = c.
Proof using.
  intros Hf Hr. assert (manager_ok (Manager_new c) ∧ config (Manager_new c) = c) as H0 by (split; [apply map_Forall_empty|done]).
  revert H0. generalize (Manager_new c) Hr. clear Hr. intros m0 Hr. induction Hr as [m0|m0 m1 m2 Hs Hr IH]; [done|]. intros [Hm Hc]. apply IH. destruct Hs.
  - destruct (handle_ok env load req m0 m' rsp) as [? ?]; [done..|]. split; [done|congruence].
  - split; [|done]. unfold manager_ok. cbn [config servers with_instances]. destruct (Hm _ _ H) as (Hp & Hmade & Hmode).
    apply map_Forall_insert_2; [|done]. by split_and!.
Qed.

(** Every server under its own port.  Whatever requests a manager has served,
    each of its servers is kept under the port of its address, with keys that fit
    its method, and runs the way the manager is configured to run servers; the ports
    that [list] reports are the ports that [ping] reports, each of them once. *)
Theorem manager_servers_keyed load c m : files_ok load → rtc (manager_step load) (Manager_new c) m →
  map_Forall (instance_ok c) (servers m) ∧
  (server_port <$> handle_list m) ≡ₚ elements (dom (handle_ping m)) ∧ NoDup (server_port <$> handle_list m).
Proof using.
  intros Hf Hr. destruct (manager_run_ok load c m Hf Hr) as [Hm Hc]. unfold manager_ok in Hm. rewrite Hc in Hm.
  assert (server_port <$> handle_list m = (map_to_list (servers m)).*1) as E.
  { unfold handle_list. rewrite <- list_fmap_compose. apply list_fmap_ext. intros i [p inst] Hi. simpl.
    apply list_elem_of_lookup_2, elem_of_map_to_list in Hi. by destruct (Hm p inst Hi) as [-> _]. }
  split; [done|]. rewrite E. split; [|apply NoDup_fst_map_to_list].
  apply NoDup_Permutation; [apply NoDup_fst_map_to_list|apply NoDup_elements|]. intros p. rewrite elem_of_elements. unfold handle_ping.
  rewrite dom_fmap, elem_of_dom, list_elem_of_fmap. split.
  - intros ([p' inst] & -> & Hi). apply elem_of_map_to_list in Hi. by exists inst.
  - intros [inst Hi]. exists (p, inst). split; [done|]. by apply elem_of_map_to_list.
Qed.

(** What a manager says it runs. *)
Definition running (m : Manager) : gmap Z ServerConfig := svr_cfg <$> servers m.

(** Adding and removing servers.  A request that is refused, with a text other
    than ok or with an error, changes nothing; one that is accepted puts the
    requested configuration under its port, and only there, when the server could be
    started; removing takes a port away and nothing else. *)
Theorem manager_add_remove env req m :
  let '(m', r) := handle_add env req m in
  match request_config req m with
  | inl cfg => r = Ok (str "ok") ∧ made cfg ∧
      (built env = true → written env = true → spawned env = true → running m' = <[server_port req := cfg]> (running m)) ∧
      (∀ port, port ≠ server_port req → servers m' !! port = servers m !! port)
  | inr refusal => r = refusal ∧ m' = m
  end ∧
  ∀ port, let m'' := (handle_remove {| remove_port := port |} m').1 in
    running m'' = delete port (running m') ∧ handle_ping m'' = delete port (handle_ping m').
Proof using.
  unfold handle_add. destruct (request_config req m) as [cfg|refusal] eqn:E; (split; [|intros port; unfold running, handle_ping; simpl; by rewrite !fmap_delete]); [|done].
  apply request_config_made in E as [Hm Hp]. split_and!; [done|done| |]; unfold running, manager_add_server, add_server_builtin, add_server_standalone; rewrite Hp.
  - intros -> -> ->. cbn [andb]. destruct (mc_server_mode (config m)); simpl; by rewrite fmap_insert, ?fmap_delete, ?insert_delete_eq.
  - intros port Hne. destruct (mc_server_mode (config m)); [destruct (built env)|destruct (_ && _)]; simpl; by rewrite ?lookup_insert_ne, ?lookup_delete_ne.
Qed.

(** A builtin server that cannot be started is reported as added all the same,
    and the server that ran on the port before is gone. *)
Theorem manager_add_failure_reported_ok env req m cfg :
  request_config req m = inl cfg → mc_server_mode (config m) = Builtin → built env = false →
  let '(m', r) := handle_add env req m in r = Ok (str "ok") ∧ running m' = delete (server_port req) (running m).
Proof using.
  intros E Hs Hb. unfold handle_add. rewrite E. split; [done|]. apply request_config_made in E as [_ Hp].
  unfold running, manager_add_server, add_server_builtin. rewrite Hs, Hb, Hp. simpl. by rewrite fmap_delete.
Qed.
End Manager.

(** ** Examples *)
Module ManagerExamples.
Import Toy ToyConf.

Definition kind0 : CipherKind := Aead4.
Definition demo_config : ManagerConfig := ManagerConfig_new (UnixSocketAddr (str "/run/ss.sock")).
Definition demo_request : AddRequest := {|
  server_port := 8388; ar_password := toy_password; ar_method := Some (str "2022-aes"); no_delay := None; ar_plugin := None;
  ar_plugin_opts := None; ar_plugin_mode := None; ar_mode := Some (str "udp_only"); ar_users := Some [{| suc_name := str "bob"; suc_password := hex_encode upsk |}] |}.
Definition demo_env (b : bool) : AddEnv := {| built := b; written := true; spawned := true |}.
Definition no_files (p : Z) : option (list ServerConfig) := None.

Definition demo_manager : Manager := (handle_add kind0 (demo_env true) demo_request (Manager_new demo_config)).1.

Lemma manager_servers_keyed_witness : server_port <$> handle_list demo_manager = [8388] ∧ NoDup (server_port <$> handle_list demo_manager).
Proof.
  split; [reflexivity|]. destruct (manager_servers_keyed kind0 no_files demo_config demo_manager) as (_ & _ & H); [done| |exact H].
  apply rtc_once. apply (step_request kind0 no_files _ (demo_env true) (Add demo_request) _ (RText (str "ok"))). reflexivity.
Defined.

Lemma manager_add_failure_witness : ∃ m',
  handle_add kind0 (demo_env false) demo_request demo_manager = (m', Ok (str "ok")) ∧ running m' = delete 8388 (running demo_manager).
Proof.
  assert (∃ cfg, request_config kind0 demo_request demo_manager = inl cfg) as [cfg E] by (eexists; reflexivity).
  pose proof (manager_add_failure_reported_ok kind0 (demo_env false) demo_request demo_manager cfg E eq_refl eq_refl) as H.
  destruct (handle_add kind0 (demo_env false) demo_request demo_manager) as [m' r]. destruct H as [-> H]. exists m'. split; [reflexivity|exact H].
Defined.

Example refused_request :
  handle_add kind0 (demo_env true) {|
    server_port := 8389; ar_password := []; ar_method := Some (str "rot13"); no_delay := None; ar_plugin := None; ar_plugin_opts := None;
    ar_plugin_mode := None; ar_mode := None; ar_users := None |} demo_manager =
  (demo_manager, Ok (str "unrecognized method " ++ b# 34 :: str "rot13" ++ [b# 34])).
Proof. reflexivity. Qed.
End ManagerExamples.
