(* ===== verification/RealmPunch.v ===== *)
(** * Hole punching (crates/shadowsocks-realm/src/punch.rs, socket.rs)

    Both ends of a session send each other obfuscated packets until one gets
    through.  Shown: exactly the packets made with the session's nonce and key are
    taken; the loop returns an address exactly when an acknowledgement from it is
    the first to arrive in time; and what it sends goes to the candidates, to
    senders of a valid packet and to the peer. *)
From S2P Require Import Prelude.
From S2P Require Import StdNet.
From S2P Require Import Socks5.
From S2P Require Import Realm.

(** The sha2 crate; the digest is an array of 32 bytes. *)
Class Sha256 := sha256 : bytes → bytes.

Definition SALT_LEN : nat := 8.
Definition NONCE_LEN : nat := 16.
Definition OBFS_LEN : nat := 32.
Definition HEADER_LEN : nat := 25.
Definition MIN_WIRE_LEN : nat := SALT_LEN + HEADER_LEN.
Definition MAX_PADDING : nat := 1024.
Definition MAX_WIRE_LEN : nat := MIN_WIRE_LEN + MAX_PADDING.

Inductive PunchType := Hello | Ack.

#[export] Instance PunchType_eq_dec : EqDecision PunchType.
Proof. solve_decision. Defined.

Definition PunchType_as_u8 (t : PunchType) : Z := match t with Hello => 1 | Ack => 2 end.

Definition PunchType_from_u8 (b : Z) : option PunchType :=
  if b =? 1 then Some Hello else if b =? 2 then Some Ack else None.

Section Codec.
Context `{H : Sha256}.

Definition mask (obfs salt : bytes) : bytes := sha256 (obfs ++ salt).

(** [for (i, b) in l.iter_mut().enumerate() { *b ^= m[i % 32] }]. *)
Definition xor_mask (m l : bytes) : bytes := imap (λ i b, byte.xor b (nth (i mod 32) m (b# 0))) l.

Definition encode_with (ptype : PunchType) (nonce obfs salt padding : bytes) : bytes :=
  let plain := HYRLM_MAGIC ++ [b# (PunchType_as_u8 ptype)] ++ nonce ++ padding in
  salt ++ xor_mask (mask obfs salt) plain.

Definition decode (packet nonce obfs : bytes) : outcome Error (PunchType * nat) :=
  if negb ((MIN_WIRE_LEN <=? length packet)%nat && (length packet <=? MAX_WIRE_LEN)%nat) then Err (Punch "bad length") else
  salt ← slice 0 SALT_LEN packet;
  body ← slice SALT_LEN (length packet) packet;
  let body := xor_mask (mask obfs salt) body in
  magic ← slice 0 8 body;
  if negb (bool_decide (magic = HYRLM_MAGIC)) then Err (Punch "bad magic") else
  t ← be_at 1 8 body;
  match PunchType_from_u8 t with
  | None => Err (Punch "bad type")
  | Some ptype =>
      n ← slice 9 25 body;
      if negb (bool_decide (n = nonce)) then Err (Punch "nonce mismatch")
      else Ok (ptype, (length body - HEADER_LEN)%nat)
  end.

(** *** Facts *)
Lemma length_xor_mask m l : length (xor_mask m l) = length l.
Proof. apply length_imap. Qed.

Lemma xor_mask_involutive m l : xor_mask m (xor_mask m l) = l.
Proof.
  apply list_eq. intros i. unfold xor_mask. rewrite !list_lookup_imap. destruct (l !! i) as [b|]; [|done]. simpl.
  by rewrite byte_xor_involutive.
Qed.

Lemma length_encode_with t nonce obfs salt padding :
  length salt = SALT_LEN → length nonce = NONCE_LEN →
  length (encode_with t nonce obfs salt padding) = (MIN_WIRE_LEN + length padding)%nat.
Proof.
  intros Hs Hn. unfold encode_with. rewrite length_app, length_xor_mask, !length_app, Hs, Hn. done.
Qed.

Lemma from_u8_as_u8 b t : PunchType_from_u8 b = Some t ↔ b = PunchType_as_u8 t.
Proof.
  unfold PunchType_from_u8. destruct (Z.eqb_spec b 1) as [->|]; [by destruct t|].
  destruct (Z.eqb_spec b 2) as [->|]; [by destruct t|]. by destruct t.
Qed.

Lemma decode_encode_with t nonce obfs salt padding :
  length salt = SALT_LEN → length nonce = NONCE_LEN → (length padding ≤ MAX_PADDING)%nat →
  decode (encode_with t nonce obfs salt padding) nonce obfs = Ok (t, length padding).
Proof.
  intros Hs Hn Hp. unfold decode. rewrite length_encode_with by done.
  rewrite (proj2 (Nat.leb_le _ _)) by lia. rewrite (proj2 (Nat.leb_le _ _)) by (unfold MAX_WIRE_LEN; lia). cbn [negb andb].
  unfold encode_with. set (plain := HYRLM_MAGIC ++ _). set (m := mask obfs salt).
  assert (length plain = HEADER_LEN + length padding)%nat as Hl by (unfold plain; rewrite !length_app, Hn; done).
  rewrite slice_prefix by done. cbn [mbind outcome_bind]. fold m.
  rewrite slice_suffix by (rewrite ?length_xor_mask, ?Hl; unfold MIN_WIRE_LEN; lia). cbn [mbind outcome_bind].
  rewrite xor_mask_involutive. rewrite Hl. unfold plain.
  rewrite slice_prefix by done. cbn [mbind outcome_bind]. rewrite bool_decide_true by done. cbn [negb].
  rewrite (be_at_app 1 8 HYRLM_MAGIC [_]) by done. cbn [mbind outcome_bind].
  rewrite be_Z_1, unsigned_of_Z_small by (by destruct t).
  rewrite (proj2 (from_u8_as_u8 _ t)) by done.
  rewrite app_assoc, (slice_app 9 25) by (done || by rewrite Hn). cbn [mbind outcome_bind].
  rewrite bool_decide_true by done. cbn [negb]. do 2 f_equal. lia.
Qed.

Lemma decode_is_encode packet nonce obfs :
  match decode packet nonce obfs with
  | Ok (t, n) =>
      ∃ salt padding, length salt = SALT_LEN ∧ length padding = n ∧ (n ≤ MAX_PADDING)%nat ∧
        packet = encode_with t nonce obfs salt padding
  | Err _ => True
  | Panic _ => False
  end.
Proof.
  unfold decode. destruct (Nat.leb_spec MIN_WIRE_LEN (length packet)) as [H1|]; [|done].
  destruct (Nat.leb_spec (length packet) MAX_WIRE_LEN) as [H2|]; [|done]. cbn [negb andb].
  unfold MAX_WIRE_LEN, MIN_WIRE_LEN, SALT_LEN, HEADER_LEN in *.
  destruct (slice_ok (E := Error) 0 8 packet) as (a & salt & c & -> & Hp & Ha & Hs); [lia|]. cbn [mbind outcome_bind].
  apply nil_length_inv in Ha as ->. simpl in Hp. subst packet. rewrite length_app in *.
  rewrite slice_suffix by lia. cbn [mbind outcome_bind]. set (m := mask obfs salt). set (body := xor_mask m c).
  assert (length body = length c) as Hb by apply length_xor_mask.
  destruct (slice_ok (E := Error) 0 8 body) as (a & magic & c1 & -> & Hp1 & Ha & Hm); [lia|]. cbn [mbind outcome_bind].
  apply nil_length_inv in Ha as ->. simpl in Hp1. case_bool_decide as Em; [|done]. cbn [negb]. rewrite Hp1. subst magic.
  rewrite Hp1, length_app in Hb. simpl in Hb. destruct c1 as [|t c1]; [simpl in *; lia|].
  change (t :: c1) with ([t] ++ c1). rewrite be_at_app by done. cbn [mbind outcome_bind]. rewrite be_Z_1.
  destruct (PunchType_from_u8 (byte.unsigned t)) as [ptype|] eqn:Et; [|done]. apply from_u8_as_u8 in Et.
  rewrite app_assoc. simpl in Hb.
  destruct (slice_ok (E := Error) 0 16 c1) as (a & n & pad & Hn & -> & Ha & Hl); [lia|]. apply nil_length_inv in Ha as ->.
  rewrite (slice_app 9 25 (HYRLM_MAGIC ++ [t]) n pad) by (rewrite ?Hl; done). cbn [mbind outcome_bind]. case_bool_decide as En; [|done]. subst n. cbn [negb].
  exists salt, pad. simpl in Hb. rewrite length_app in Hb. split_and!; [done|simpl; rewrite !length_app; simpl; lia|simpl; rewrite !length_app; simpl; lia|].
  unfold encode_with. fold m. f_equal. rewrite <- (xor_mask_involutive m c). fold body. f_equal. rewrite Hp1.
  rewrite <- Et, byte.of_Z_unsigned. done.
Qed.
End Codec.

(** ** Addresses (socket.rs) *)
Definition is_ipv4 (a : SocketAddr) : bool := match a with V4 _ _ => true | V6 _ _ _ _ => false end.

Definition map_to_socket_family (local_is_v6 : bool) (addr : SocketAddr) : SocketAddr :=
  match local_is_v6, addr with
  | true, V4 ip port => V6 (to_ipv6_mapped ip) port 0 0
  | _, _ => addr
  end.

Definition unmap (addr : SocketAddr) : SocketAddr :=
  match addr with
  | V6 ip port _ _ => match to_ipv4_mapped ip with Some v4 => V4 v4 port | None => addr end
  | V4 _ _ => addr
  end.

(** ** The loop *)
Section Loop.
Context `{H : Sha256}.

(** One turn: what the clock shows when the loop tests it, when it tests whether
    a packet is due and after it sent one, and what the wait for a datagram
    gives.  Times are in nanoseconds. *)
Inductive punch_wait :=
| Received (packet : bytes) (src : SocketAddr)
| RecvFailed (e : io_error)
| TimedOut200.

Record turn := { now_head : Z; now_due : Z; now_sent : Z; wait : punch_wait }.

Record punch_state := {
  last_send : option Z;
  confirmed : option SocketAddr;
  sent : list (bytes * SocketAddr);
  draws : nat;
}.

(** What the random generator gives the [n]-th packet: salt and padding. *)
Context (rng : nat → bytes * bytes).
Context (nonce obfs : bytes) (local_is_v6 : bool) (peers : list SocketAddr).

(** [encode] with the next salt and padding. *)
Definition encode (ptype : PunchType) (n : nat) : bytes := encode_with ptype nonce obfs (fst (rng n)) (snd (rng n)).

Definition punch_targets : list SocketAddr :=
  map_to_socket_family local_is_v6 <$> filter (λ p, is_true (local_is_v6 || is_ipv4 p)) peers.

Definition MS : Z := 1000000.

Definition send_hello (t : turn) (st : punch_state) : punch_state :=
  if match last_send st with None => true | Some s => 250 * MS <? now_due t - s end then
    let hello := encode Hello (draws st) in
    {| last_send := Some (now_sent t); confirmed := confirmed st;
       sent := sent st ++ ((λ p, (hello, p)) <$> punch_targets); draws := S (draws st) |}
  else st.

(** What a received datagram does; the buffer holds 2048 bytes. *)
Definition receive (packet : bytes) (src : SocketAddr) (st : punch_state) : punch_state :=
  match decode (take 2048 packet) nonce obfs with
  | Ok (Hello, _) =>
      {| last_send := last_send st; confirmed := confirmed st;
         sent := sent st ++ [(encode Ack (draws st), src)]; draws := S (draws st) |}
  | Ok (Ack, _) => {| last_send := last_send st; confirmed := Some src; sent := sent st; draws := draws st |}
  | _ => st
  end.

(** The loop until [end_]: [None] when the turns given are not all it takes. *)
Fixpoint punch_loop (end_ : Z) (turns : list turn) (st : punch_state) : option (outcome Error unit * punch_state) :=
  match confirmed st with
  | Some _ => Some (Ok tt, st)
  | None =>
      match turns with
      | [] => None
      | t :: turns =>
          if now_head t <? end_ then
            let st := send_hello t st in
            match wait t with
            | Received packet src => punch_loop end_ turns (receive packet src st)
            | RecvFailed e => Some (Err (Io e), st)
            | TimedOut200 => punch_loop end_ turns st
            end
          else Some (Ok tt, st)
      end
  end.

Definition punch0 : punch_state := {| last_send := None; confirmed := None; sent := []; draws := 0 |}.

(** [punch]: its result and the packets it sent. *)
Definition punch (end_ : Z) (turns : list turn) : option (outcome Error SocketAddr * list (bytes * SocketAddr)) :=
  if bool_decide (punch_targets = []) then Some (Err PunchTimeout, [])
  else
    '(r, st) ← punch_loop end_ turns punch0;
    match r, confirmed st with
    | Ok _, Some peer => Some (Ok peer, sent st ++ replicate 5 (encode Ack (draws st), peer))
    | Ok _, None => Some (Err PunchTimeout, sent st)
    | Err e, _ => Some (Err e, sent st)
    | Panic m, _ => Some (Panic m, sent st)
    end.
End Loop.

(** ** What the loop does *)
Section LoopFacts.
Context `{H : Sha256}.
Context (rng : nat → bytes * bytes).
Context (nonce obfs : bytes) (local_is_v6 : bool) (peers : list SocketAddr).

(** The packets of the session. *)
Definition valid_packet (t : PunchType) (packet : bytes) : Prop :=
  ∃ salt padding, length salt = SALT_LEN ∧ (length padding ≤ MAX_PADDING)%nat ∧
    packet = encode_with t nonce obfs salt padding.

Lemma decode_received t packet :
  length nonce = NONCE_LEN →
  (∃ n, decode (take 2048 packet) nonce obfs = Ok (t, n)) ↔ valid_packet t packet.
Proof.
  intros Hn. split.
  - intros [n Hd]. pose proof (decode_is_encode (take 2048 packet) nonce obfs) as Hx. rewrite Hd in Hx.
    destruct Hx as (salt & padding & Hs & Hp & Hle & Heq). exists salt, padding. rewrite Hp. split_and!; try done.
    assert (length (take 2048 packet) = MIN_WIRE_LEN + length padding)%nat as Hl by (rewrite Heq; by apply length_encode_with).
    rewrite length_take, Hp in Hl. unfold MIN_WIRE_LEN, SALT_LEN, HEADER_LEN, MAX_PADDING in *.
    by rewrite take_ge in Heq by lia.
  - intros (salt & padding & Hs & Hp & ->). exists (length padding). rewrite take_ge.
    + by apply decode_encode_with.
    + rewrite length_encode_with by done. unfold MIN_WIRE_LEN, SALT_LEN, HEADER_LEN, MAX_PADDING in *. lia.
Qed.

Lemma valid_packet_type t t' packet :
  length nonce = NONCE_LEN → valid_packet t packet → valid_packet t' packet → t = t'.
Proof. intros Hn [n H1]%decode_received [n' H2]%decode_received; [|done..]. congruence. Qed.

(** The cases of [receive]. *)
Lemma receive_cases packet src st :
  length nonce = NONCE_LEN →
  (valid_packet Ack packet ∧ confirmed (receive rng nonce obfs packet src st) = Some src ∧
     sent (receive rng nonce obfs packet src st) = sent st) ∨
  (valid_packet Hello packet ∧ confirmed (receive rng nonce obfs packet src st) = confirmed st ∧
     sent (receive rng nonce obfs packet src st) = sent st ++ [(encode rng nonce obfs Ack (draws st), src)]) ∨
  (¬ valid_packet Ack packet ∧ ¬ valid_packet Hello packet ∧ receive rng nonce obfs packet src st = st).
Proof.
  intros Hn. unfold receive. destruct (decode (take 2048 packet) nonce obfs) as [[[] n]|e|m] eqn:Hd.
  - right; left. split_and!; try done. apply decode_received; eauto.
  - left. split_and!; try done. apply decode_received; eauto.
  - right; right. split_and!; try done; intros [n Hx]%decode_received; congruence.
  - right; right. split_and!; try done; intros [n Hx]%decode_received; congruence.
Qed.

Lemma send_hello_confirmed t st : confirmed (send_hello rng nonce obfs local_is_v6 peers t st) = confirmed st.
Proof. unfold send_hello. by destruct (match last_send st with None => true | _ => _ end). Qed.

(** A turn that does not end the loop. *)
Definition quiet (end_ : Z) (t : turn) : Prop :=
  now_head t < end_ ∧
  match wait t with Received packet _ => ¬ valid_packet Ack packet | RecvFailed _ => False | TimedOut200 => True end.

(** The first acknowledgement in time. *)
Definition first_ack (end_ : Z) (turns : list turn) (peer : SocketAddr) : Prop :=
  ∃ before t after packet, turns = before ++ t :: after ∧ Forall (quiet end_) before ∧
    now_head t < end_ ∧ wait t = Received packet peer ∧ valid_packet Ack packet.

Lemma first_ack_nil end_ peer : ¬ first_ack end_ [] peer.
Proof. intros (before & t & after & packet & Heq & _). by destruct before. Qed.

Lemma first_ack_cons end_ t turns peer :
  first_ack end_ (t :: turns) peer ↔
  now_head t < end_ ∧
  match wait t with
  | Received packet src => (valid_packet Ack packet ∧ src = peer) ∨ (¬ valid_packet Ack packet ∧ first_ack end_ turns peer)
  | RecvFailed _ => False
  | TimedOut200 => first_ack end_ turns peer
  end.
Proof.
  split.
  - intros ([|t' before] & u & after & packet & Heq & Hq & Hu & Hw & Hv); simplify_eq/=.
    { rewrite Hw. eauto. }
    apply Forall_cons_1 in Hq as [[Hh Ht] Hq]. split; [done|]. destruct (wait t'); try done.
    + right. split; [done|]. by exists before, u, after, packet.
    + by exists before, u, after, packet.
  - intros [Hh Hm]. destruct (wait t) as [packet src|e|] eqn:Hw; [|done|].
    + destruct Hm as [[Hv ->]|[Hv (before & u & after & p & -> & Hq & Hx)]].
      * by exists [], t, turns, packet.
      * exists (t :: before), u, after, p. split_and!; try done; try apply Hx. constructor; [|done]. split; [done|]. by rewrite Hw.
    + destruct Hm as (before & u & after & p & -> & Hq & Hx).
      exists (t :: before), u, after, p. split_and!; try done; try apply Hx. constructor; [|done]. split; [done|]. by rewrite Hw.
Qed.

Abbreviation loop := (punch_loop rng nonce obfs local_is_v6 peers).

Lemma loop_confirmed end_ turns st peer :
  confirmed st = Some peer → loop end_ turns st = Some (Ok tt, st).
Proof. intros E. destruct turns; simpl; by rewrite E. Qed.

Lemma loop_confirms end_ turns st peer :
  length nonce = NONCE_LEN → confirmed st = None →
  (∃ st', loop end_ turns st = Some (Ok tt, st') ∧ confirmed st' = Some peer) ↔ first_ack end_ turns peer.
Proof.
  intros Hn. revert st. induction turns as [|t turns IH]; intros st Hc; simpl; rewrite Hc.
  { split; [by intros (? & ? & _)|intros Hf; by apply first_ack_nil in Hf]. }
  rewrite first_ack_cons. destruct (Z.ltb_spec (now_head t) end_) as [Hh|Hh].
  2:{ split; [intros (st' & Heq & ?); simplify_eq; congruence|lia]. }
  set (st1 := send_hello rng nonce obfs local_is_v6 peers t st).
  assert (confirmed st1 = None) as Hc1 by (unfold st1; by rewrite send_hello_confirmed).
  destruct (wait t) as [packet src|e|].
  - destruct (receive_cases packet src st1 Hn) as [(Hv & Hr & _)|[(Hv & Hr & _)|(Ha & Hv & ->)]].
    + rewrite (loop_confirmed _ _ _ src) by done. split.
      * intros (st' & Heq & Hs). simplify_eq. split; [done|]. left. split; [done|congruence].
      * intros [_ [[_ ->]|[? _]]]; [|done]. eauto.
    + rewrite IH by congruence. assert (¬ valid_packet Ack packet) by (intros Hv'; by pose proof (valid_packet_type _ _ _ Hn Hv Hv')).
      naive_solver.
    + rewrite IH by done. naive_solver.
  - split; [intros (st' & Heq & _); simplify_eq|tauto].
  - rewrite IH by done. naive_solver.
Qed.

(** Where a packet may go. *)
Definition send_allowed (turns : list turn) (s : bytes * SocketAddr) : Prop :=
  (∃ n, s.1 = encode rng nonce obfs Hello n ∧ s.2 ∈ punch_targets local_is_v6 peers) ∨
  (∃ n t packet, s.1 = encode rng nonce obfs Ack n ∧ t ∈ turns ∧ wait t = Received packet s.2 ∧ valid_packet Hello packet).

Lemma send_hello_allowed t turns st :
  Forall (send_allowed turns) (sent st) → Forall (send_allowed turns) (sent (send_hello rng nonce obfs local_is_v6 peers t st)).
Proof.
  intros Hs. unfold send_hello. destruct (match last_send st with None => true | _ => _ end); [|done]. simpl.
  apply Forall_app. split; [done|]. apply Forall_fmap, list.Forall_forall. intros dst Hd. left. by exists (draws st).
Qed.

Lemma loop_sends end_ pre turns st r st' :
  length nonce = NONCE_LEN → Forall (send_allowed (pre ++ turns)) (sent st) →
  loop end_ turns st = Some (r, st') → Forall (send_allowed (pre ++ turns)) (sent st').
Proof.
  intros Hn. revert pre st. induction turns as [|t turns IH]; intros pre st Hs; simpl; destruct (confirmed st).
  1,2,3: intros; by simplify_eq.
  destruct (now_head t <? end_); [|intros; by simplify_eq].
  apply (send_hello_allowed t) in Hs. revert Hs. generalize (send_hello rng nonce obfs local_is_v6 peers t st) as st1. intros st1 Hs.
  specialize (IH (pre ++ [t])). rewrite <- app_assoc in IH. simpl in IH.
  destruct (wait t) as [packet src|e|] eqn:Hw; [|intros; by simplify_eq|by apply IH]. apply IH.
  destruct (receive_cases packet src st1 Hn) as [(_ & _ & ->)|[(Hv & _ & ->)|(_ & _ & ->)]]; [done| |done].
  apply Forall_app. split; [done|]. apply Forall_singleton. right. exists (draws st1), t, packet. split_and!; try done. set_solver.
Qed.

(** [decode] does not panic and takes exactly the packets that [encode_with]
    makes with the session's nonce and key: it gives back their type and the
    length of their padding. *)
Theorem punch_decode_iff packet :
  length nonce = NONCE_LEN →
  is_panic (decode packet nonce obfs) = false ∧
  ∀ t n, decode packet nonce obfs = Ok (t, n) ↔
    ∃ salt padding, length salt = SALT_LEN ∧ length padding = n ∧ (n ≤ MAX_PADDING)%nat ∧
      packet = encode_with t nonce obfs salt padding.
Proof.
  intros Hn. pose proof (decode_is_encode packet nonce obfs) as Hd. split; [by destruct (decode packet nonce obfs)|].
  intros t n. split.
  - intros E. by rewrite E in Hd.
  - intros (salt & padding & Hs & <- & Hp & ->). by apply decode_encode_with.
Qed.

(** The clock passes the deadline, or the socket fails, before anything else ends
    the loop. *)
Definition deadline_passed (end_ : Z) (turns : list turn) : Prop :=
  ∃ before t after, turns = before ++ t :: after ∧ Forall (quiet end_) before ∧ end_ ≤ now_head t.
Definition socket_failed (end_ : Z) (turns : list turn) (e : io_error) : Prop :=
  ∃ before t after, turns = before ++ t :: after ∧ Forall (quiet end_) before ∧ now_head t < end_ ∧ wait t = RecvFailed e.

Lemma quiet_then end_ t turns (P : turn → Prop) :
  quiet end_ t → (∃ before u after, turns = before ++ u :: after ∧ Forall (quiet end_) before ∧ P u) →
  ∃ before u after, t :: turns = before ++ u :: after ∧ Forall (quiet end_) before ∧ P u.
Proof. intros Ht (before & u & after & -> & Hq & HP). exists (t :: before), u, after. split_and!; [done|by constructor|done]. Qed.

(** What ended the loop. *)
Lemma loop_outcome end_ turns st :
  length nonce = NONCE_LEN → confirmed st = None →
  match loop end_ turns st with
  | None => Forall (quiet end_) turns
  | Some (Ok _, st') => confirmed st' = None → deadline_passed end_ turns
  | Some (Err e, _) => ∃ x, e = Io x ∧ socket_failed end_ turns x
  | Some (Panic _, _) => False
  end.
Proof.
  intros Hn. revert st. induction turns as [|t turns IH]; intros st Hc; simpl; rewrite Hc; [constructor|].
  destruct (Z.ltb_spec (now_head t) end_) as [Hh|Hh]; [|intros _; by exists [], t, turns].
  set (st1 := send_hello rng nonce obfs local_is_v6 peers t st).
  assert (confirmed st1 = None) as Hc1 by (unfold st1; by rewrite send_hello_confirmed).
  assert (∀ st2, quiet end_ t → confirmed st2 = None →
    match loop end_ turns st2 with
    | None => Forall (quiet end_) (t :: turns)
    | Some (Ok _, st') => confirmed st' = None → deadline_passed end_ (t :: turns)
    | Some (Err e, _) => ∃ x, e = Io x ∧ socket_failed end_ (t :: turns) x
    | Some (Panic _, _) => False
    end) as Hgo.
  { intros st2 Ht Hc2. specialize (IH st2 Hc2). destruct (loop end_ turns st2) as [[[u|e|m] st']|]; [|destruct IH as (x & -> & Hx)|done|by constructor].
    - intros E. by apply quiet_then, IH.
    - exists x. split; [done|]. by apply (quiet_then _ _ _ (λ u, now_head u < end_ ∧ wait u = RecvFailed x)). }
  destruct (wait t) as [packet src|e|] eqn:Hw.
  - destruct (receive_cases packet src st1 Hn) as [(Hv & Hr & _)|[(Hv & Hr & _)|(Ha & Hv & ->)]].
    + rewrite (loop_confirmed _ _ _ src) by done. congruence.
    + apply Hgo; [|congruence]. split; [done|]. rewrite Hw. intros Hv'. by pose proof (valid_packet_type _ _ _ Hn Hv Hv').
    + apply Hgo; [|done]. split; [done|]. by rewrite Hw.
  - exists e. split; [done|]. by exists [], t, turns.
  - apply Hgo; [|done]. split; [done|]. by rewrite Hw.
Qed.

(** C34. Hole punching.  Without a candidate in the socket's family it is given up at
    once.  Otherwise it succeeds with [peer] exactly when, before the deadline and
    before any error of the socket, the first acknowledgement of this session that
    arrives comes from [peer]; it times out only when the clock has passed the
    deadline before that; it fails with an error of the socket only when receiving
    has failed with it; there is no other outcome, and while none of this happens
    it goes on.  Every packet sent is a greeting to one of the candidates in the
    socket's family, an acknowledgement to a sender of a greeting of this session,
    or one to the peer. *)
Theorem punch_confirms end_ turns :
  length nonce = NONCE_LEN →
  let result := punch rng nonce obfs local_is_v6 peers end_ turns in
  if bool_decide (punch_targets local_is_v6 peers = []) then result = Some (Err PunchTimeout, [])
  else
    (∀ peer, (∃ log, result = Some (Ok peer, log)) ↔ first_ack end_ turns peer) ∧
    match result with
    | None => Forall (quiet end_) turns
    | Some (r, log) =>
        match r with
        | Ok peer => first_ack end_ turns peer
        | Err PunchTimeout => deadline_passed end_ turns
        | Err (Io e) => socket_failed end_ turns e
        | _ => False
        end ∧
        ∀ s, s ∈ log → send_allowed turns s ∨ (∃ n, s.1 = encode rng nonce obfs Ack n ∧ r = Ok s.2)
    end.
Proof.
  intros Hn. cbv zeta. unfold punch. case_bool_decide as Ht; [done|].
  assert (∀ peer, (∃ log, ('(r, st) ← loop end_ turns punch0;
      match r, confirmed st with
      | Ok _, Some peer => Some (Ok peer, sent st ++ replicate 5 (encode rng nonce obfs Ack (draws st), peer))
      | Ok _, None => Some (Err PunchTimeout, sent st)
      | Err e, _ => Some (Err e, sent st)
      | Panic m, _ => Some (Panic m, sent st)
      end) = Some (Ok peer, log)) ↔ first_ack end_ turns peer) as Hok.
  { intros peer. rewrite <- (loop_confirms end_ turns punch0 peer Hn eq_refl). split.
    + intros [log Hp]. destruct (loop end_ turns punch0) as [[r st]|]; [|done]. exists st. simpl in Hp.
      destruct r as [[]|e|m], (confirmed st); by simplify_eq.
    + intros (st & -> & Hc). simpl. rewrite Hc. eauto. }
  split; [exact Hok|]. pose proof (loop_outcome end_ turns punch0 Hn eq_refl) as Ho.
  destruct (loop end_ turns punch0) as [[r0 st]|] eqn:E; [|exact Ho]. simpl in Hok |- *.
  pose proof (loop_sends end_ [] turns punch0 r0 st Hn (Forall_nil_2 _) E) as Ha. simpl in Ha. rewrite list.Forall_forall in Ha.
  destruct r0 as [[]|e|m]; [destruct (confirmed st) as [p|]|destruct Ho as (x & -> & Ho)|done].
  - split; [apply Hok; eauto|]. intros s [Hs|Hs]%elem_of_app; [by left; apply Ha|]. right.
    change ([?a; ?a; ?a; ?a; ?a]) with (replicate 5 a) in Hs. apply elem_of_replicate_inv in Hs as ->. by eexists.
  - split; [by apply Ho|]. intros s Hs. left. by apply Ha.
  - split; [done|]. intros s Hs. left. by apply Ha.
Qed.
End LoopFacts.

(** ** Examples *)
Module PunchExamples.
#[local] Instance toy_sha : Sha256 := λ l, take 32 (reverse l ++ replicate 32 (b# 90)).
Definition nonce0 : bytes := replicate 16 (b# 17).
Definition obfs0 : bytes := replicate 32 (b# 34).
Definition salt0 : bytes := [b# 1; b# 2; b# 3; b# 4; b# 5; b# 6; b# 7; b# 8].
Definition rng0 (n : nat) : bytes * bytes := (salt0, replicate n (b# 0)).
Definition peer0 : SocketAddr := V4 16909060 4000.
Definition turns0 : list turn :=
  [{| now_head := 0; now_due := 0; now_sent := 1; wait := Received (encode_with Hello nonce0 obfs0 salt0 [b# 9]) peer0 |};
   {| now_head := 2; now_due := 2; now_sent := 2; wait := Received [b# 1; b# 2] (V4 1 1) |};
   {| now_head := 3; now_due := 3; now_sent := 3; wait := Received (encode_with Ack nonce0 obfs0 salt0 []) peer0 |}].

Lemma punch_decode_iff_witness :
  decode (encode_with Ack nonce0 obfs0 salt0 [b# 9; b# 8]) nonce0 obfs0 = Ok (Ack, 2%nat).
Proof. apply (punch_decode_iff nonce0 obfs0); [done|]. exists salt0, [b# 9; b# 8]. split_and!; try done. unfold MAX_PADDING. lia. Defined.

(** One greeting to the candidate, one acknowledgement of the greeting received,
    and five acknowledgements at the end. *)
Lemma punch_confirms_witness :
  first_ack nonce0 obfs0 100 turns0 peer0 ∧
  (snd <$> punch rng0 nonce0 obfs0 false [peer0] 100 turns0) =
    Some ([(encode rng0 nonce0 obfs0 Hello 0, peer0); (encode rng0 nonce0 obfs0 Ack 1, peer0)] ++
          replicate 5 (encode rng0 nonce0 obfs0 Ack 2, peer0)).
Proof.
  split; [|by vm_compute]. pose proof (punch_confirms rng0 nonce0 obfs0 false [peer0] 100 turns0 eq_refl) as H.
  destruct H as [H _]. apply H. eexists. by vm_compute.
Defined.

(** Nothing but a greeting until the deadline. *)
Example punch_times_out :
  fst <$> punch rng0 nonce0 obfs0 false [peer0] 100 [{| now_head := 0; now_due := 0; now_sent := 1; wait := TimedOut200 |};
    {| now_head := 100; now_due := 100; now_sent := 100; wait := TimedOut200 |}] = Some (Err PunchTimeout).
Proof. by vm_compute. Qed.
End PunchExamples.
