(* ===== verification/RealmStun.v ===== *)
(** * STUN discovery (crates/shadowsocks-realm/src/stun.rs)

    The binding request, the parser of its response and the retry loop.  Shown:
    the parser reads a list of attributes as RFC 5389 lays them out and prefers
    the first XOR-MAPPED-ADDRESS it can read; it never panics and only accepts a
    success response to the request that was sent; and the loop returns the first
    such address. *)
From S2P Require Import Prelude.
From S2P Require Import Socks5.
From S2P Require Import Realm.

Definition MAGIC_COOKIE : Z := 554869826.
Definition BINDING_REQUEST : Z := 1.
Definition BINDING_SUCCESS : Z := 257.
Definition ATTR_MAPPED_ADDRESS : Z := 1.
Definition ATTR_XOR_MAPPED_ADDRESS : Z := 32.
Definition HEADER_LEN : nat := 20.
Definition TXID_LEN : nat := 12.

(** The request for a random transaction id. *)
Definition binding_request (txid : bytes) : bytes :=
  be_bytes 2 BINDING_REQUEST ++ be_bytes 2 0 ++ be_bytes 4 MAGIC_COOKIE ++ txid.

Definition parse_xor_mapped (val txid : bytes) : outcome Error (option SocketAddr) :=
  if (length val <? 8)%nat then Ok None else
  family ← be_at 1 1 val;
  xport ← be_at 2 2 val;
  let port := Z.lxor xport (Z.shiftr MAGIC_COOKIE 16) in
  let cookie := be_bytes 4 MAGIC_COOKIE in
  if family =? 1 then
    raw ← slice 4 8 val;
    Ok (Some (V4 (be_Z (xor_bytes raw cookie)) port))
  else if (family =? 2) && (20 <=? length val)%nat then
    raw ← slice 4 20 val;
    Ok (Some (V6 (be_Z (xor_bytes raw (cookie ++ txid))) port 0 0))
  else Ok None.

Definition parse_mapped (val : bytes) : outcome Error (option SocketAddr) :=
  if (length val <? 8)%nat then Ok None else
  family ← be_at 1 1 val;
  port ← be_at 2 2 val;
  if family =? 1 then ip ← be_at 4 4 val; Ok (Some (V4 ip port))
  else if (family =? 2) && (20 <=? length val)%nat then ip ← be_at 16 4 val; Ok (Some (V6 ip port 0 0))
  else Ok None.

(** [(4 - (alen % 4)) % 4]. *)
Definition attr_padding (alen : nat) : nat := (4 - alen mod 4) mod 4.

Definition no_address : Error := Stun "no address attribute in response".

(** The loop over the attributes at [off]. *)
Fixpoint parse_attrs (fuel : nat) (pkt txid : bytes) (end_ off : nat) (fallback : option SocketAddr) : outcome Error SocketAddr :=
  if (off + 4 <=? end_)%nat then
    match fuel with
    | O => Panic "out of fuel"
    | S fuel =>
        atype ← be_at 2 off pkt;
        alen ← be_at 2 (off + 2) pkt;
        let vstart := (off + 4)%nat in
        let vend := (vstart + Z.to_nat alen)%nat in
        if (end_ <? vend)%nat then from_option Ok (Err no_address) fallback else
        val ← slice vstart vend pkt;
        let next := (vend + attr_padding (Z.to_nat alen))%nat in
        if atype =? ATTR_XOR_MAPPED_ADDRESS then
          sa ← parse_xor_mapped val txid;
          match sa with Some sa => Ok sa | None => parse_attrs fuel pkt txid end_ next fallback end
        else if (atype =? ATTR_MAPPED_ADDRESS) && bool_decide (fallback = None) then
          fallback ← parse_mapped val;
          parse_attrs fuel pkt txid end_ next fallback
        else parse_attrs fuel pkt txid end_ next fallback
    end
  else from_option Ok (Err no_address) fallback.

(** Every attribute takes at least four bytes. *)
Definition parse_binding_response (pkt txid : bytes) : outcome Error SocketAddr :=
  if (length pkt <? HEADER_LEN)%nat then Err (Stun "response shorter than header") else
  mtype ← be_at 2 0 pkt;
  mlen ← be_at 2 2 pkt;
  cookie ← be_at 4 4 pkt;
  if negb (mtype =? BINDING_SUCCESS) then Err (Stun "not a binding success") else
  if negb (cookie =? MAGIC_COOKIE) then Err (Stun "bad magic cookie") else
  id ← slice 8 20 pkt;
  if negb (bool_decide (id = txid)) then Err (Stun "transaction id mismatch") else
  let end_ := Nat.min (HEADER_LEN + Z.to_nat mlen) (length pkt) in
  parse_attrs (length pkt) pkt txid end_ HEADER_LEN None.

(** ** Discovery *)

(** What a wait for a datagram in a try gives; [TryOver] is the end of its time. *)
Inductive stun_wait :=
| StunReceived (packet : bytes)
| StunFailed (e : io_error)
| TryOver.

(** One try: the result of sending and the waits after it. *)
Fixpoint stun_try (txid : bytes) (waits : list stun_wait) : option (outcome Error (option SocketAddr)) :=
  match waits with
  | [] => None
  | StunReceived packet :: waits =>
      match parse_binding_response (take 1500 packet) txid with
      | Ok sa => Some (Ok (Some sa))
      | Err _ => stun_try txid waits
      | Panic m => Some (Panic m)
      end
  | StunFailed e :: _ => Some (Err (Io e))
  | TryOver :: _ => Some (Ok None)
  end.

(** [discover] makes [retries.max(1)] tries; [tries] gives the result of sending
    and the waits of each. *)
Fixpoint discover_loop (n : nat) (txid : bytes) (tries : list (outcome io_error unit * list stun_wait)) : option (outcome Error SocketAddr) :=
  match n with
  | O => Some (Err (Stun "no STUN response"))
  | S n =>
      match tries with
      | [] => None
      | (send, waits) :: tries =>
          match send with
          | Err e => Some (Err (Io e))
          | Panic m => Some (Panic m)
          | Ok _ =>
              match stun_try txid waits with
              | None => None
              | Some (Ok (Some sa)) => Some (Ok sa)
              | Some (Ok None) => discover_loop n txid tries
              | Some (Err e) => Some (Err e)
              | Some (Panic m) => Some (Panic m)
              end
          end
      end
  end.

Definition discover (retries : nat) (txid : bytes) (tries : list (outcome io_error unit * list stun_wait)) : option (outcome Error SocketAddr) :=
  discover_loop (Nat.max retries 1) txid tries.

(** An address without flow label and scope. *)
Definition SocketAddr_bare (a : SocketAddr) : SocketAddr := match a with V6 ip port _ _ => V6 ip port 0 0 | V4 _ _ => a end.

(** ** Responses on the wire, as RFC 5389 lays them out

    Written down from the RFC, with its numbers, and not with the constants and
    functions of the parser. *)
Definition wire_cookie : bytes := [b# 33; b# 18; b# 164; b# 66].

(** An attribute: its type, its value and the padding to a multiple of four. *)
Record attr := Attr { attr_type : Z; attr_value : bytes; attr_pad : bytes }.

Definition encode_attr (a : attr) : bytes :=
  be_bytes 2 (attr_type a) ++ be_bytes 2 (Z.of_nat (length (attr_value a))) ++ attr_value a ++ attr_pad a.

Definition encode_attrs (attrs : list attr) : bytes := concat (encode_attr <$> attrs).

(** A success response with the given transaction id and attributes. *)
Definition success_response (txid : bytes) (attrs : list attr) : bytes :=
  [b# 1; b# 1] ++ be_bytes 2 (Z.of_nat (length (encode_attrs attrs))) ++ wire_cookie ++ txid ++ encode_attrs attrs.

Definition attr_ok (a : attr) : Prop :=
  0 ≤ attr_type a < 2 ^ 16 ∧ Z.of_nat (length (attr_value a)) < 2 ^ 16 ∧
  (length (attr_pad a) < 4)%nat ∧ (4 | Z.of_nat (length (attr_value a) + length (attr_pad a))).

(** The values of the address attributes: a reserved byte, the family, the port, the
    address, and what a longer value has after them.  In an XOR-MAPPED-ADDRESS the
    port and the address are combined with the cookie and the transaction id. *)
Definition mapped_value (reserved : byte) (a : SocketAddr) (extra : bytes) : bytes :=
  match a with
  | V4 ip port => [reserved; b# 1] ++ be_bytes 2 port ++ be_bytes 4 ip ++ extra
  | V6 ip port _ _ => [reserved; b# 2] ++ be_bytes 2 port ++ be_bytes 16 ip ++ extra
  end.
Definition xor_mapped_value (txid : bytes) (reserved : byte) (a : SocketAddr) (extra : bytes) : bytes :=
  match a with
  | V4 ip port => [reserved; b# 1] ++ be_bytes 2 (Z.lxor port 0x2112) ++ xor_bytes (be_bytes 4 ip) wire_cookie ++ extra
  | V6 ip port _ _ => [reserved; b# 2] ++ be_bytes 2 (Z.lxor port 0x2112) ++ xor_bytes (be_bytes 16 ip) (wire_cookie ++ txid) ++ extra
  end.

(** What an attribute says: a XOR-MAPPED-ADDRESS (type 32), a MAPPED-ADDRESS (type
    1), or nothing about an address. *)
Inductive says (txid : bytes) (a : attr) : option (bool * SocketAddr) → Prop :=
| says_xor_mapped r sa extra :
    attr_type a = 32 → SocketAddr_wf sa → attr_value a = xor_mapped_value txid r sa extra → says txid a (Some (true, SocketAddr_bare sa))
| says_mapped r sa extra :
    attr_type a = 1 → SocketAddr_wf sa → attr_value a = mapped_value r sa extra → says txid a (Some (false, SocketAddr_bare sa))
| says_nothing :
    (attr_type a = 32 → ∀ r sa extra, SocketAddr_wf sa → attr_value a ≠ xor_mapped_value txid r sa extra) →
    (attr_type a = 1 → ∀ r sa extra, SocketAddr_wf sa → attr_value a ≠ mapped_value r sa extra) → says txid a None.

Fixpoint first_some {A B} (f : A → option B) (l : list A) : option B :=
  match l with [] => None | x :: l => match f x with Some y => Some y | None => first_some f l end end.

(** The answer: the first XOR-MAPPED-ADDRESS, or the first MAPPED-ADDRESS. *)
Definition xor_one (s : option (bool * SocketAddr)) : option SocketAddr := match s with Some (true, a) => Some a | _ => None end.
Definition plain_one (s : option (bool * SocketAddr)) : option SocketAddr := match s with Some (false, a) => Some a | _ => None end.
Definition answer (said : list (option (bool * SocketAddr))) : option SocketAddr :=
  match first_some xor_one said with Some a => Some a | None => first_some plain_one said end.

(** *** With the parsers of the code *)
Definition read_as (ty : Z) (parse : bytes → outcome Error (option SocketAddr)) (a : attr) : option SocketAddr :=
  if attr_type a =? ty then match parse (attr_value a) with Ok o => o | _ => None end else None.

Definition reflexive_address (txid : bytes) (attrs : list attr) (fallback : option SocketAddr) : option SocketAddr :=
  match first_some (read_as ATTR_XOR_MAPPED_ADDRESS (λ v, parse_xor_mapped v txid)) attrs with
  | Some sa => Some sa
  | None => match fallback with Some sa => Some sa | None => first_some (read_as ATTR_MAPPED_ADDRESS parse_mapped) attrs end
  end.

(** *** Facts *)
Ltac be_ok n i l :=
  let z := fresh "z" in let Hz := fresh "Hz" in
  destruct (be_at_ok (E := Error) n i l) as (z & -> & Hz); [lia|]; cbn [mbind outcome_bind].

Lemma parse_xor_mapped_ok val txid : ∃ o, parse_xor_mapped val txid = Ok o.
Proof.
  unfold parse_xor_mapped. destruct (Nat.ltb_spec (length val) 8); [by eexists|].
  be_ok 1%nat 1%nat val. be_ok 2%nat 2%nat val. destruct (z =? 1).
  - destruct (slice_ok (E := Error) 4 8 val) as (? & ? & ? & -> & _); [lia|]. eexists. done.
  - destruct (z =? 2); cbn [andb]; [|by eexists]. destruct (Nat.leb_spec 20 (length val)); [|by eexists].
    destruct (slice_ok (E := Error) 4 20 val) as (? & ? & ? & -> & _); [lia|]. eexists. done.
Qed.

Lemma parse_mapped_ok val : ∃ o, parse_mapped val = Ok o.
Proof.
  unfold parse_mapped. destruct (Nat.ltb_spec (length val) 8); [by eexists|].
  be_ok 1%nat 1%nat val. be_ok 2%nat 2%nat val. destruct (z =? 1); [be_ok 4%nat 4%nat val; eauto|].
  destruct (z =? 2); cbn [andb]; [|by eexists]. destruct (Nat.leb_spec 20 (length val)); [|by eexists]. be_ok 16%nat 4%nat val; by eexists.
Qed.

Lemma encode_attr_length a : length (encode_attr a) = (4 + length (attr_value a) + length (attr_pad a))%nat.
Proof. unfold encode_attr. rewrite !length_app, !length_be_bytes. lia. Qed.

Lemma attr_padding_spec n m : (m < 4)%nat → (4 | Z.of_nat (n + m)) → attr_padding n = m.
Proof.
  intros Hm [k Hk]. unfold attr_padding. apply Nat2Z.inj. rewrite Nat2Z.inj_mod, Nat2Z.inj_sub, Nat2Z.inj_mod by (pose proof (Nat.mod_upper_bound n 4); lia).
  assert (Z.of_nat n = - Z.of_nat m + k * 4) as -> by lia. rewrite Z.mod_add by lia. change (Z.of_nat 4) with 4.
  destruct m as [|[|[|[|]]]]; [by vm_compute..|lia].
Qed.

Lemma parse_attrs_app fuel txid attrs pre post fallback :
  Forall attr_ok attrs → (length attrs ≤ fuel)%nat →
  parse_attrs fuel (pre ++ encode_attrs attrs ++ post) txid (length pre + length (encode_attrs attrs)) (length pre) fallback =
    from_option Ok (Err no_address) (reflexive_address txid attrs fallback).
Proof.
  unfold encode_attrs. revert pre fuel fallback. induction attrs as [|a attrs IH]; intros pre fuel fallback Hok Hf.
  { destruct fuel; cbn [fmap list_fmap concat length parse_attrs]; len_false; by destruct fallback. }
  apply Forall_cons_1 in Hok as [(Ht & Hl & Hpad & Hmul) Hok]. destruct fuel as [|fuel]; [simpl in Hf; lia|].
  cbn [fmap list_fmap concat parse_attrs]. set (tl := concat (encode_attr <$> attrs)) in *.
  rewrite length_app, encode_attr_length. len_true.
  set (v := attr_value a) in *. set (pad := attr_pad a) in *. pose proof (attr_padding_spec _ _ Hpad Hmul) as Hap.
  assert (pre ++ (encode_attr a ++ tl) ++ post = pre ++ be_bytes 2 (attr_type a) ++ be_bytes 2 (Z.of_nat (length v)) ++ v ++ pad ++ tl ++ post) as ->
    by (unfold encode_attr; by rewrite <- !app_assoc).
  rewrite (be_at_bytes 2 (length pre)) by (done || (simpl; lia)). cbn [mbind outcome_bind].
  rewrite (app_assoc pre), be_at_bytes by (rewrite ?length_app, ?length_be_bytes; simpl; lia). cbn [mbind outcome_bind]. rewrite Nat2Z.id.
  len_false. rewrite (app_assoc (pre ++ _)), slice_app by (rewrite ?length_app, ?length_be_bytes; lia). cbn [mbind outcome_bind].
  set (pre1 := (pre ++ be_bytes 2 (attr_type a)) ++ be_bytes 2 (Z.of_nat (length v))).
  assert (length (pre1 ++ v ++ pad) = length pre + 4 + length v + length pad)%nat as Hp
    by (unfold pre1; rewrite !length_app, !length_be_bytes; lia).
  specialize (IH (pre1 ++ v ++ pad) fuel). rewrite <- !app_assoc, Hp in IH. rewrite Hap.
  replace (length pre + (4 + length v + length pad + length tl))%nat
    with (length pre + 4 + length v + length pad + length tl)%nat by lia.
  unfold reflexive_address. cbn [first_some]. unfold read_as at 1 3. fold v.
  destruct (Z.eqb_spec (attr_type a) ATTR_XOR_MAPPED_ADDRESS) as [E|E].
  - destruct (parse_xor_mapped_ok v txid) as [o Ho]. rewrite Ho. cbn [mbind outcome_bind]. destruct o as [sa|]; [done|].
    rewrite E. simpl. rewrite IH by (done || simpl in Hf; lia). done.
  - destruct (Z.eqb_spec (attr_type a) ATTR_MAPPED_ADDRESS) as [E2|E2]; simpl.
    2:{ rewrite IH by (done || simpl in Hf; lia). done. }
    case_bool_decide as Hn.
    + subst fallback. destruct (parse_mapped_ok v) as [o Ho]. rewrite Ho. cbn [mbind outcome_bind].
      rewrite IH by (done || simpl in Hf; lia). unfold reflexive_address. by destruct o.
    + rewrite IH by (done || simpl in Hf; lia). unfold reflexive_address. by destruct fallback.
Qed.

Lemma length_encode_attrs attrs : (4 * length attrs ≤ length (encode_attrs attrs))%nat.
Proof.
  induction attrs as [|a attrs IH]; [done|]. unfold encode_attrs in *. cbn [fmap list_fmap concat length].
  rewrite length_app, encode_attr_length. lia.
Qed.

Lemma parse_success_response txid attrs post :
  length txid = TXID_LEN → Forall attr_ok attrs → Z.of_nat (length (encode_attrs attrs)) < 2 ^ 16 →
  parse_binding_response (success_response txid attrs ++ post) txid =
    from_option Ok (Err no_address) (reflexive_address txid attrs None).
Proof.
  intros Ht Hok Hl. unfold parse_binding_response, success_response. rewrite <- !app_assoc.
  set (body := encode_attrs attrs) in *.
  change [b# 1; b# 1] with (be_bytes 2 BINDING_SUCCESS). change wire_cookie with (be_bytes 4 MAGIC_COOKIE).
  set (h1 := be_bytes 2 BINDING_SUCCESS). set (h2 := be_bytes 2 (Z.of_nat (length body))). set (h3 := be_bytes 4 MAGIC_COOKIE).
  set (pkt := h1 ++ h2 ++ h3 ++ txid ++ body ++ post).
  assert (length pkt = 20 + length body + length post)%nat as Hp
    by (unfold pkt, h1, h2, h3; rewrite !length_app, !length_be_bytes, Ht; unfold TXID_LEN; lia).
  rewrite Hp. rewrite (proj2 (Nat.ltb_ge _ _)) by (unfold HEADER_LEN; lia).
  assert (be_at (E := Error) 2 0 pkt = Ok BINDING_SUCCESS) as -> by (by apply be_at_prefix). cbn [mbind outcome_bind].
  assert (be_at (E := Error) 2 2 pkt = Ok (Z.of_nat (length body))) as -> by (apply be_at_bytes; [done|simpl; lia]). cbn [mbind outcome_bind].
  assert (be_at (E := Error) 4 4 pkt = Ok MAGIC_COOKIE) as -> by (unfold pkt; rewrite (app_assoc h1); by apply be_at_bytes).
  cbn [mbind outcome_bind]. rewrite !Z.eqb_refl. cbn [negb].
  assert (slice (E := Error) 8 20 pkt = Ok txid) as -> by (unfold pkt; rewrite (app_assoc h1), (app_assoc (h1 ++ h2)); apply slice_app; [done|by rewrite Ht]).
  cbn [mbind outcome_bind].
  rewrite bool_decide_true by done. cbn [negb]. rewrite Nat2Z.id, Nat.min_l by (unfold HEADER_LEN; lia).
  replace pkt with ((h1 ++ h2 ++ h3 ++ txid) ++ body ++ post) by (unfold pkt; by rewrite <- !app_assoc).
  replace HEADER_LEN with (length (h1 ++ h2 ++ h3 ++ txid)) by (unfold h1, h2, h3; rewrite !length_app, !length_be_bytes, Ht; done).
  pose proof (length_encode_attrs attrs) as Hlen. fold body in Hlen. apply parse_attrs_app; [done|]. lia.
Qed.

Lemma lxor_u16 a b : 0 ≤ a < 2 ^ 16 → 0 ≤ b < 2 ^ 16 → 0 ≤ Z.lxor a b < 2 ^ 16.
Proof.
  intros Ha Hb. assert (0 ≤ Z.lxor a b) by (apply Z.lxor_nonneg; lia). split; [done|].
  destruct (Z.eq_dec (Z.lxor a b) 0) as [->|Hn]; [lia|].
  apply Z.log2_lt_pow2; [lia|]. eapply Z.le_lt_trans; [apply Z.log2_lxor; lia|].
  assert (∀ x, 0 ≤ x < 2 ^ 16 → Z.log2 x < 16) as Hlog.
  { intros x Hx. destruct (Z.eq_dec x 0) as [->|]; [done|]. apply Z.log2_lt_pow2; lia. }
  pose proof (Hlog a Ha). pose proof (Hlog b Hb). lia.
Qed.

Lemma family_at r f (rest : bytes) : be_at (E := Error) 1 1 ([r; f] ++ rest) = Ok (byte.unsigned f).
Proof. change ([r; f] ++ rest) with ([r] ++ [f] ++ rest). rewrite (be_at_app 1 1 [r] [f]) by done. by rewrite be_Z_1. Qed.

(** The two parsers on any value that has all fields: [raw] is what stands for the
    address. *)
Lemma parse_mapped_fields r f p ip extra :
  length p = 2%nat →
  (f = b# 1 → length ip = 4%nat → parse_mapped ([r; f] ++ p ++ ip ++ extra) = Ok (Some (V4 (be_Z ip) (be_Z p)))) ∧
  (f = b# 2 → length ip = 16%nat → parse_mapped ([r; f] ++ p ++ ip ++ extra) = Ok (Some (V6 (be_Z ip) (be_Z p) 0 0))).
Proof.
  intros Hp. assert (∀ n f', length ip = n → (4 ≤ n)%nat →
    parse_mapped ([r; f'] ++ p ++ ip ++ extra) =
    if byte.unsigned f' =? 1 then ip ← be_at 4 4 ([r; f'] ++ p ++ ip ++ extra); Ok (Some (V4 ip (be_Z p)))
    else if (byte.unsigned f' =? 2) && (20 <=? length ([r; f'] ++ p ++ ip ++ extra))%nat then
      ip ← be_at 16 4 ([r; f'] ++ p ++ ip ++ extra); Ok (Some (V6 ip (be_Z p) 0 0))
    else Ok None) as Hgo.
  { intros n f' Hn Hle. unfold parse_mapped. rewrite (proj2 (Nat.ltb_ge _ _)) by (rewrite !length_app, Hp, Hn; simpl; lia).
    rewrite family_at. cbn [mbind outcome_bind]. by rewrite (be_at_app 2 2 [r; f'] p). }
  split; intros -> Hip; rewrite (Hgo _ _ Hip) by lia; cbn [byte.unsigned].
  - change (byte.unsigned (b# 1) =? 1) with true. cbn [andb]. rewrite app_assoc, (be_at_app 4 4 ([r; b# 1] ++ p) ip) by (rewrite ?length_app, ?Hp; done). done.
  - change (byte.unsigned (b# 2) =? 1) with false. change (byte.unsigned (b# 2) =? 2) with true. cbn [andb].
    rewrite (proj2 (Nat.leb_le _ _)) by (rewrite !length_app, Hp, Hip; simpl; lia).
    rewrite app_assoc, (be_at_app 16 4 ([r; b# 2] ++ p) ip) by (rewrite ?length_app, ?Hp; done). done.
Qed.

Lemma parse_xor_mapped_fields txid r f p raw extra :
  length p = 2%nat →
  (f = b# 1 → length raw = 4%nat →
     parse_xor_mapped ([r; f] ++ p ++ raw ++ extra) txid = Ok (Some (V4 (be_Z (xor_bytes raw wire_cookie)) (Z.lxor (be_Z p) 0x2112)))) ∧
  (f = b# 2 → length raw = 16%nat →
     parse_xor_mapped ([r; f] ++ p ++ raw ++ extra) txid = Ok (Some (V6 (be_Z (xor_bytes raw (wire_cookie ++ txid))) (Z.lxor (be_Z p) 0x2112) 0 0))).
Proof.
  intros Hp. assert (∀ n f', length raw = n → (4 ≤ n)%nat →
    parse_xor_mapped ([r; f'] ++ p ++ raw ++ extra) txid =
    if byte.unsigned f' =? 1 then raw ← slice 4 8 ([r; f'] ++ p ++ raw ++ extra); Ok (Some (V4 (be_Z (xor_bytes raw wire_cookie)) (Z.lxor (be_Z p) 0x2112)))
    else if (byte.unsigned f' =? 2) && (20 <=? length ([r; f'] ++ p ++ raw ++ extra))%nat then
      raw ← slice 4 20 ([r; f'] ++ p ++ raw ++ extra); Ok (Some (V6 (be_Z (xor_bytes raw (wire_cookie ++ txid))) (Z.lxor (be_Z p) 0x2112) 0 0))
    else Ok None) as Hgo.
  { intros n f' Hn Hle. unfold parse_xor_mapped. rewrite (proj2 (Nat.ltb_ge _ _)) by (rewrite !length_app, Hp, Hn; simpl; lia).
    rewrite family_at. cbn [mbind outcome_bind]. by rewrite (be_at_app 2 2 [r; f'] p). }
  split; intros -> Hip; rewrite (Hgo _ _ Hip) by lia; cbn [byte.unsigned].
  - change (byte.unsigned (b# 1) =? 1) with true. cbn [andb]. rewrite app_assoc, (slice_app 4 8 ([r; b# 1] ++ p) raw) by (rewrite ?length_app, ?Hp, ?Hip; done). done.
  - change (byte.unsigned (b# 2) =? 1) with false. change (byte.unsigned (b# 2) =? 2) with true. cbn [andb].
    rewrite (proj2 (Nat.leb_le _ _)) by (rewrite !length_app, Hp, Hip; simpl; lia).
    rewrite app_assoc, (slice_app 4 20 ([r; b# 2] ++ p) raw) by (rewrite ?length_app, ?Hp, ?Hip; done). done.
Qed.

(** A value that is read has all the fields. *)
Lemma fields_of (val : bytes) :
  (8 ≤ length val)%nat → ∃ r f p rest, val = [r; f] ++ p ++ rest ∧ length p = 2%nat ∧ (4 ≤ length rest)%nat ∧ be_at (E := Error) 1 1 val = Ok (byte.unsigned f).
Proof.
  intros Hl. destruct val as [|r [|f [|p1 [|p2 rest]]]]; simpl in Hl; try lia. exists r, f, [p1; p2], rest. split_and!; [done|done|lia|].
  apply (family_at r f (p1 :: p2 :: rest)).
Qed.

Lemma parse_mapped_inv val sa : parse_mapped val = Ok (Some sa) → ∃ r sa' extra, SocketAddr_wf sa' ∧ val = mapped_value r sa' extra.
Proof.
  intros H. destruct (Nat.ltb_spec (length val) 8) as [Hs|Hl]; [unfold parse_mapped in H; by rewrite (proj2 (Nat.ltb_lt _ _) Hs) in H|].
  destruct (fields_of val Hl) as (r & f & p & rest & -> & Hp & Hr & Hf).
  assert (2 ^ (8 * Z.of_nat 2) = 2 ^ 16) by done. pose proof (be_Z_in_u 2 p Hp) as Hin2; unfold in_u in Hin2.
  destruct (Z.eqb_spec (byte.unsigned f) 1) as [E|E1].
  { destruct (split_prefix 4 rest) as (ip & extra & -> & Hip); [lia|]. exists r, (V4 (be_Z ip) (be_Z p)), extra.
    pose proof (be_Z_in_u 4 ip Hip) as Hin4; unfold in_u in Hin4. split; [split; unfold in_u; lia|]. cbn [mapped_value]. rewrite !be_bytes_be_Z by done. by rewrite (byte_of_unsigned f 1). }
  destruct (Z.eqb_spec (byte.unsigned f) 2) as [E|E2].
  2:{ exfalso. unfold parse_mapped in H. rewrite (proj2 (Nat.ltb_ge _ _)) in H by lia. rewrite Hf in H. cbn [mbind outcome_bind] in H.
      rewrite (be_at_app 2 2 [r; f] p) in H by done. cbn [mbind outcome_bind] in H.
      by rewrite (proj2 (Z.eqb_neq _ _) E1), (proj2 (Z.eqb_neq _ _) E2) in H. }
  destruct (Nat.leb_spec 20 (length ([r; f] ++ p ++ rest))) as [H20|H20].
  2:{ exfalso. unfold parse_mapped in H. rewrite (proj2 (Nat.ltb_ge _ _)) in H by lia. rewrite Hf in H. cbn [mbind outcome_bind] in H.
      rewrite (be_at_app 2 2 [r; f] p) in H by done. cbn [mbind outcome_bind] in H.
      by rewrite E, (proj2 (Nat.leb_gt _ _) H20) in H. }
  rewrite !length_app, Hp in H20. simpl in H20.
  destruct (split_prefix 16 rest) as (ip & extra & -> & Hip); [lia|]. exists r, (V6 (be_Z ip) (be_Z p) 0 0), extra.
  pose proof (be_Z_in_u 16 ip Hip) as Hin16; unfold in_u in Hin16. split; [split_and!; unfold in_u; lia|]. cbn [mapped_value]. rewrite !be_bytes_be_Z by done. by rewrite (byte_of_unsigned f 2).
Qed.

Lemma parse_xor_mapped_inv val txid sa :
  length txid = TXID_LEN → parse_xor_mapped val txid = Ok (Some sa) → ∃ r sa' extra, SocketAddr_wf sa' ∧ val = xor_mapped_value txid r sa' extra.
Proof.
  intros Ht H. destruct (Nat.ltb_spec (length val) 8) as [Hs|Hl]; [unfold parse_xor_mapped in H; by rewrite (proj2 (Nat.ltb_lt _ _) Hs) in H|].
  destruct (fields_of val Hl) as (r & f & p & rest & -> & Hp & Hr & Hf).
  assert (0 ≤ Z.lxor (be_Z p) 0x2112 < 2 ^ 16) as Hx by (apply lxor_u16; [by apply (be_Z_in_u 2)|done]).
  assert (be_bytes 2 (Z.lxor (Z.lxor (be_Z p) 0x2112) 0x2112) = p) as Hpb
    by (rewrite Z.lxor_assoc, Z.lxor_nilpotent, Z.lxor_0_r; by apply be_bytes_be_Z).
  destruct (Z.eqb_spec (byte.unsigned f) 1) as [E|E1].
  { destruct (split_prefix 4 rest) as (raw & extra & -> & Hip); [lia|].
    assert (length (xor_bytes raw wire_cookie) = 4%nat) as Hl4 by (rewrite length_xor_bytes; rewrite ?Hip; [done|simpl; lia]).
    exists r, (V4 (be_Z (xor_bytes raw wire_cookie)) (Z.lxor (be_Z p) 0x2112)), extra.
    split; [split; [exact (be_Z_in_u 4 _ Hl4)|exact Hx]|]. cbn [xor_mapped_value].
    rewrite (be_bytes_be_Z 4) by done. rewrite xor_bytes_involutive by (rewrite Hip; simpl; lia). rewrite Hpb.
    by rewrite (byte_of_unsigned f 1). }
  destruct (Z.eqb_spec (byte.unsigned f) 2) as [E|E2].
  2:{ exfalso. unfold parse_xor_mapped in H. rewrite (proj2 (Nat.ltb_ge _ _)) in H by lia. rewrite Hf in H. cbn [mbind outcome_bind] in H.
      rewrite (be_at_app 2 2 [r; f] p) in H by done. cbn [mbind outcome_bind] in H.
      by rewrite (proj2 (Z.eqb_neq _ _) E1), (proj2 (Z.eqb_neq _ _) E2) in H. }
  destruct (Nat.leb_spec 20 (length ([r; f] ++ p ++ rest))) as [H20|H20].
  2:{ exfalso. unfold parse_xor_mapped in H. rewrite (proj2 (Nat.ltb_ge _ _)) in H by lia. rewrite Hf in H. cbn [mbind outcome_bind] in H.
      rewrite (be_at_app 2 2 [r; f] p) in H by done. cbn [mbind outcome_bind] in H.
      by rewrite E, (proj2 (Nat.leb_gt _ _) H20) in H. }
  rewrite !length_app, Hp in H20. simpl in H20.
  destruct (split_prefix 16 rest) as (raw & extra & -> & Hip); [lia|].
  assert (length raw ≤ length (wire_cookie ++ txid))%nat as Hle by (rewrite Hip, length_app, Ht; done).
  assert (length (xor_bytes raw (wire_cookie ++ txid)) = 16%nat) as Hl16 by (by rewrite length_xor_bytes).
  exists r, (V6 (be_Z (xor_bytes raw (wire_cookie ++ txid))) (Z.lxor (be_Z p) 0x2112) 0 0), extra.
  split; [split_and!; [exact (be_Z_in_u 16 _ Hl16)|exact Hx|done|done]|]. cbn [xor_mapped_value].
  rewrite (be_bytes_be_Z 16) by done. rewrite xor_bytes_involutive by done. rewrite Hpb. by rewrite (byte_of_unsigned f 2).
Qed.

(** The parsers on the values of the RFC. *)
Lemma parse_mapped_value r sa extra : SocketAddr_wf sa → parse_mapped (mapped_value r sa extra) = Ok (Some (SocketAddr_bare sa)).
Proof.
  destruct sa as [ip port|ip port fl sc]; intros Hw; [destruct Hw as [Hi Hp]|destruct Hw as (Hi & Hp & _)]; cbn [mapped_value SocketAddr_bare];
    pose proof (parse_mapped_fields r) as H.
  - rewrite (proj1 (H (b# 1) _ (be_bytes 4 ip) extra (length_be_bytes 2 port))) by (done || apply length_be_bytes).
    by rewrite !be_Z_be_bytes_small.
  - rewrite (proj2 (H (b# 2) _ (be_bytes 16 ip) extra (length_be_bytes 2 port))) by (done || apply length_be_bytes).
    by rewrite !be_Z_be_bytes_small.
Qed.

Lemma parse_xor_mapped_value txid r sa extra :
  length txid = TXID_LEN → SocketAddr_wf sa → parse_xor_mapped (xor_mapped_value txid r sa extra) txid = Ok (Some (SocketAddr_bare sa)).
Proof.
  intros Ht Hw. assert (∀ port, 0 ≤ port < 2 ^ 16 → Z.lxor (be_Z (be_bytes 2 (Z.lxor port 0x2112))) 0x2112 = port) as Hport.
  { intros port Hp. rewrite be_Z_be_bytes_small by (by apply lxor_u16). by rewrite Z.lxor_assoc, Z.lxor_nilpotent, Z.lxor_0_r. }
  pose proof (parse_xor_mapped_fields txid r) as H.
  destruct sa as [ip port|ip port fl sc]; [destruct Hw as [Hi Hp]|destruct Hw as (Hi & Hp & _)]; cbn [xor_mapped_value SocketAddr_bare].
  - assert (length (be_bytes 4 ip) ≤ length wire_cookie)%nat as Hle by (by rewrite length_be_bytes).
    rewrite (proj1 (H (b# 1) _ (xor_bytes (be_bytes 4 ip) wire_cookie) extra (length_be_bytes 2 _)))
      by (done || (rewrite length_xor_bytes by done; apply length_be_bytes)).
    rewrite xor_bytes_involutive by done. by rewrite be_Z_be_bytes_small, Hport.
  - assert (length (be_bytes 16 ip) ≤ length (wire_cookie ++ txid))%nat as Hle by (by rewrite length_be_bytes, length_app, Ht).
    rewrite (proj2 (H (b# 2) _ (xor_bytes (be_bytes 16 ip) (wire_cookie ++ txid)) extra (length_be_bytes 2 _)))
      by (done || (rewrite length_xor_bytes by done; apply length_be_bytes)).
    rewrite xor_bytes_involutive by done. by rewrite be_Z_be_bytes_small, Hport.
Qed.

(** What an attribute says is what the parsers read of it. *)
Lemma says_read txid a o :
  length txid = TXID_LEN → says txid a o →
  read_as ATTR_XOR_MAPPED_ADDRESS (λ v, parse_xor_mapped v txid) a = xor_one o ∧ read_as ATTR_MAPPED_ADDRESS parse_mapped a = plain_one o.
Proof.
  intros Ht Hs. unfold read_as. destruct Hs as [r sa extra Hty Hw Hv|r sa extra Hty Hw Hv|Hx Hm].
  - rewrite Hty, Hv. simpl. by rewrite parse_xor_mapped_value.
  - rewrite Hty, Hv. simpl. by rewrite parse_mapped_value.
  - split.
    + destruct (Z.eqb_spec (attr_type a) ATTR_XOR_MAPPED_ADDRESS) as [E|]; [|done].
      destruct (parse_xor_mapped_ok (attr_value a) txid) as [[sa|] Ho]; rewrite Ho; [|done].
      destruct (parse_xor_mapped_inv _ _ _ Ht Ho) as (r & sa' & extra & Hw & Hv). by destruct (Hx E r sa' extra Hw).
    + destruct (Z.eqb_spec (attr_type a) ATTR_MAPPED_ADDRESS) as [E|]; [|done].
      destruct (parse_mapped_ok (attr_value a)) as [[sa|] Ho]; rewrite Ho; [|done].
      destruct (parse_mapped_inv _ _ Ho) as (r & sa' & extra & Hw & Hv). by destruct (Hm E r sa' extra Hw).
Qed.

Lemma first_some_Forall2 {A B C} (R : A → B → Prop) (f : A → option C) (g : B → option C) l k :
  (∀ x y, R x y → f x = g y) → Forall2 R l k → first_some f l = first_some g k.
Proof. intros HR. induction 1 as [|x y l k Hxy _ IH]; simpl; [done|]. rewrite (HR _ _ Hxy). by destruct (g y). Qed.

Lemma reflexive_answer txid attrs said :
  length txid = TXID_LEN → Forall2 (says txid) attrs said → reflexive_address txid attrs None = answer said.
Proof.
  intros Ht Hs. unfold reflexive_address, answer.
  rewrite (first_some_Forall2 _ _ xor_one _ _ (λ a o H, proj1 (says_read txid a o Ht H)) Hs).
  by rewrite (first_some_Forall2 _ _ plain_one _ _ (λ a o H, proj2 (says_read txid a o Ht H)) Hs).
Qed.

(** ** Every datagram *)
Lemma parse_attrs_total fuel pkt txid end_ off fallback :
  (end_ ≤ length pkt)%nat → (end_ ≤ off + 4 * fuel)%nat → is_panic (parse_attrs fuel pkt txid end_ off fallback) = false.
Proof.
  intros He. revert off fallback. induction fuel as [|fuel IH]; intros off fallback Hf; cbn [parse_attrs];
    (destruct (Nat.leb_spec (off + 4) end_) as [Ho|Ho]; [|by destruct fallback]); [lia|].
  be_ok 2%nat off pkt. be_ok 2%nat (off + 2)%nat pkt.
  destruct (Nat.ltb_spec end_ (off + 4 + Z.to_nat z0)); [by destruct fallback|].
  destruct (slice_ok (E := Error) (off + 4) (off + 4 + Z.to_nat z0) pkt) as (? & v & ? & -> & _); [lia|].
  cbn [mbind outcome_bind]. destruct (z =? ATTR_XOR_MAPPED_ADDRESS).
  - destruct (parse_xor_mapped_ok v txid) as [[sa|] ->]; cbn [mbind outcome_bind]; [done|]. apply IH. lia.
  - destruct (_ && _); [|apply IH; lia]. destruct (parse_mapped_ok v) as [o ->]. cbn [mbind outcome_bind]. apply IH. lia.
Qed.

(** A datagram is only accepted when it is a success response with the magic
    cookie and the transaction id of the request, and none makes the parser panic. *)
Lemma stun_parse_ok pkt txid :
  length txid = TXID_LEN →
  is_panic (parse_binding_response pkt txid) = false ∧
  (is_ok (parse_binding_response pkt txid) = true →
   ∃ mlen attrs, pkt = be_bytes 2 BINDING_SUCCESS ++ be_bytes 2 mlen ++ be_bytes 4 MAGIC_COOKIE ++ txid ++ attrs).
Proof.
  intros Ht. unfold parse_binding_response. destruct (Nat.ltb_spec (length pkt) HEADER_LEN) as [|Hl]; [done|]. unfold HEADER_LEN in *.
  destruct (split_prefix 2 pkt) as (h1 & c1 & -> & H1); [lia|]. rewrite length_app in Hl.
  destruct (split_prefix 2 c1) as (h2 & c2 & -> & H2); [lia|]. rewrite length_app in Hl.
  destruct (split_prefix 4 c2) as (h3 & c3 & -> & H3); [lia|]. rewrite length_app in Hl.
  destruct (split_prefix 12 c3) as (h4 & c4 & -> & H4); [lia|]. rewrite length_app in Hl.
  rewrite be_at_head by done. cbn [mbind outcome_bind].
  rewrite (be_at_app 2 2 h1 h2) by done. cbn [mbind outcome_bind].
  rewrite (app_assoc h1), (be_at_app 4 4 (h1 ++ h2) h3) by (rewrite ?length_app; lia). cbn [mbind outcome_bind].
  destruct (Z.eqb_spec (be_Z h1) BINDING_SUCCESS) as [E1|]; [|done]. destruct (Z.eqb_spec (be_Z h3) MAGIC_COOKIE) as [E3|]; [|done].
  cbn [negb]. rewrite (app_assoc (h1 ++ h2)), slice_app by (rewrite ?length_app; lia). cbn [mbind outcome_bind].
  case_bool_decide as E4; [|done]. cbn [negb]. split.
  - apply parse_attrs_total; [lia|]. rewrite !length_app. lia.
  - intros _. exists (be_Z h2), c4. subst h4. rewrite <- E1, <- E3, !be_bytes_be_Z by lia. by rewrite <- !app_assoc.
Qed.

(** C35. A success response to the request, its attributes padded to multiples of
    four as RFC 5389 asks, is read as its attributes say, whatever follows it in the
    datagram: the answer is the address of the first XOR-MAPPED-ADDRESS, otherwise
    that of the first MAPPED-ADDRESS, otherwise an error.  No datagram whatsoever
    makes the parser panic, and one that gives an address begins with the success
    type, a length, the cookie and the transaction id of the request. *)
Theorem stun_parse_refines txid attrs said post :
  length txid = 12%nat → Forall attr_ok attrs → Forall2 (says txid) attrs said → Z.of_nat (length (encode_attrs attrs)) < 2 ^ 16 →
  parse_binding_response (success_response txid attrs ++ post) txid = from_option Ok (Err no_address) (answer said) ∧
  ∀ pkt,
    is_panic (parse_binding_response pkt txid) = false ∧
    (is_ok (parse_binding_response pkt txid) = true →
     ∃ len rest, length len = 2%nat ∧ pkt = [b# 1; b# 1] ++ len ++ wire_cookie ++ txid ++ rest).
Proof.
  intros Ht Hok Hs Hl. split; [rewrite parse_success_response by done; by rewrite (reflexive_answer txid attrs said)|].
  intros pkt. destruct (stun_parse_ok pkt txid Ht) as [Hp Hr]. split; [done|]. intros Hq.
  destruct (Hr Hq) as (mlen & rest & ->). exists (be_bytes 2 mlen), rest. split; [apply length_be_bytes|done].
Qed.

(** *** Discovery *)
Lemma stun_try_sound txid waits sa :
  stun_try txid waits = Some (Ok (Some sa)) →
  ∃ packet, StunReceived packet ∈ waits ∧ parse_binding_response (take 1500 packet) txid = Ok sa.
Proof.
  induction waits as [|[packet|e|] waits IH]; simpl; try done.
  destruct (parse_binding_response (take 1500 packet) txid) as [sa'|e|m] eqn:E; intros Hs; simplify_eq.
  - exists packet. split; [set_solver|done].
  - destruct (IH Hs) as (p & Hp & Hq). exists p. split; [set_solver|done].
Qed.

(** An address that discovery returns was carried by a success response to
    its own request, received in one of its tries; it never panics, and makes no
    more than [retries.max(1)] tries. *)
Theorem stun_discover_sound retries txid tries r :
  length txid = TXID_LEN → Forall (λ t, is_panic t.1 = false) tries →
  discover retries txid tries = Some r →
  is_panic r = false ∧
  ∀ sa, r = Ok sa → ∃ i send waits packet mlen attrs,
    (i < Nat.max retries 1)%nat ∧ tries !! i = Some (send, waits) ∧ StunReceived packet ∈ waits ∧
    take 1500 packet = be_bytes 2 BINDING_SUCCESS ++ be_bytes 2 mlen ++ be_bytes 4 MAGIC_COOKIE ++ txid ++ attrs ∧
    parse_binding_response (take 1500 packet) txid = Ok sa.
Proof.
  intros Ht. unfold discover. generalize (Nat.max retries 1) as n. intros n. revert tries.
  induction n as [|n IH]; intros tries Hp; simpl; [by intros; simplify_eq|].
  destruct tries as [|[send waits] tries]; [done|]. apply Forall_cons_1 in Hp as [Hs Hp]. simpl in Hs.
  destruct send as [[]|e|m]; [|by intros; simplify_eq|done].
  destruct (stun_try txid waits) as [[[sa|]|e|m]|] eqn:E; [..|done].
  - intros Hr. simplify_eq. split; [done|]. intros sa' [= <-].
    apply stun_try_sound in E as (packet & Hin & Hok). pose proof (stun_parse_ok (take 1500 packet) txid Ht) as [_ Hx].
    rewrite Hok in Hx. destruct (Hx eq_refl) as (mlen & attrs & Heq).
    exists 0%nat, (Ok tt), waits, packet, mlen, attrs. split_and!; try done. lia.
  - intros Hr. destruct (IH tries Hp Hr) as [Hq Hsa]. split; [done|]. intros sa Hsa'.
    destruct (Hsa sa Hsa') as (i & send & ws & packet & mlen & attrs & Hi & Hl & Hrest).
    exists (S i), send, ws, packet, mlen, attrs. split_and!; try done; try apply Hrest. lia.
  - intros. by simplify_eq.
  - exfalso. clear -E Ht. induction waits as [|[packet|e|] waits IH]; simpl in E; try done.
    pose proof (stun_parse_ok (take 1500 packet) txid Ht) as [Hx _].
    destruct (parse_binding_response (take 1500 packet) txid); simplify_eq; auto.
Qed.

(** ** Examples *)
Module StunExamples.
Definition txid0 : bytes := (λ z, b# z) <$> [0; 1; 2; 3; 4; 5; 6; 7; 8; 9; 10; 11].
Definition addr0 : SocketAddr := V4 3325256724 41234.
Definition attrs0 : list attr :=
  [Attr 32802 [b# 1; b# 2; b# 3] [b# 0]; Attr 32 (xor_mapped_value txid0 (b# 0) addr0 []) []].

(** The response of the source's test vector, with a software attribute first. *)
Lemma stun_parse_refines_witness :
  parse_binding_response (success_response txid0 attrs0 ++ [b# 9]) txid0 = Ok addr0.
Proof.
  rewrite (proj1 (stun_parse_refines txid0 attrs0 [None; Some (true, addr0)] [b# 9] eq_refl
    ltac:(repeat constructor; first [by vm_compute|simpl; lia|by exists 1|by exists 2])
    ltac:(apply Forall2_cons; [by apply says_nothing|apply Forall2_cons; [by apply (says_xor_mapped _ _ (b# 0) addr0 [])|constructor]])
    ltac:(by vm_compute))).
  done.
Defined.

Lemma stun_discover_sound_witness :
  discover 2 txid0 [(Ok tt, [StunReceived [b# 1]; TryOver]); (Ok tt, [StunReceived (success_response txid0 attrs0)])] = Some (Ok addr0) ∧
  ∃ i : nat, (i < 2)%nat.
Proof.
  split; [by vm_compute|].
  destruct (stun_discover_sound 2 txid0 [(Ok tt, [StunReceived [b# 1]; TryOver]); (Ok tt, [StunReceived (success_response txid0 attrs0)])]
    (Ok addr0) eq_refl ltac:(by repeat constructor) ltac:(by vm_compute)) as [_ H].
  destruct (H addr0 eq_refl) as (i & _ & _ & _ & _ & _ & Hi & _). by exists i.
Defined.
End StunExamples.
