(* ===== verification/RealmRendezvous.v ===== *)
(** * Realm locators and the rendezvous client (crates/shadowsocks-realm/src/url.rs, rendezvous/)

    [RealmUrl::parse], the requests of [RendezvousClient] and the events it reads,
    from a server-sent event stream or a long-poll body.  JSON is a parameter
    ([Json] of [ManagerProtocol]); HTTP responses are given as a status and a body
    or a stream of chunks.  Shown: which texts are locators and what they are read
    as ([realm_url_parse_iff]), and that the event a stream gives does not depend
    on how its text is cut into chunks ([poll_event_chunks]). *)
From S2P Require Import Prelude.
From S2P Require Import Utf8.
From S2P Require Import StdNet.
From S2P Require Import NetText.
From S2P Require Import ManagerProtocol.
From S2P Require Import Realm.

(** ** Locators (url.rs) *)
Record RealmUrl := {
  token : bytes; host : bytes; realm : bytes; https : bool;
  stun_servers : list bytes; lport : option Z;
}.

Definition QUESTION : byte := b# 63.
Definition AT : byte := b# 64.
Definition SLASH : byte := b# 47.
Definition AMPERSAND : byte := b# 38.
Definition EQUALS : byte := b# 61.

Definition bad (m : string) : Realm.Error := InvalidUrl m.

(** One parameter of the query. *)
Definition read_pair (acc : list bytes * option Z) (p : bytes) : outcome Realm.Error (list bytes * option Z) :=
  let '(stun_servers, lport) := acc in
  let '(k, v) := default (p, []) (split_first EQUALS p) in
  if bool_decide (k = str "stun") then Ok (stun_servers ++ [v], lport)
  else if bool_decide (k = str "lport") then
    match parse_u16 v with
    | Some port => Ok (stun_servers, Some port)
    | None => Err (bad "lport must be a u16")
    end
  else Ok (stun_servers, lport).

Fixpoint read_pairs (acc : list bytes * option Z) (pairs : list bytes) : outcome Realm.Error (list bytes * option Z) :=
  match pairs with
  | [] => Ok acc
  | p :: pairs => acc ← read_pair acc p; read_pairs acc pairs
  end.

Definition read_query (q : option bytes) : outcome Realm.Error (list bytes * option Z) :=
  match q with
  | Some q => read_pairs ([], None) (filter (λ s, s ≠ []) (split_on AMPERSAND q))
  | None => Ok ([], None)
  end.

Definition realm_scheme (https : bool) : bytes := if https then str "realm://" else str "realm+http://".

Definition strip_scheme (input : bytes) : outcome Realm.Error (bool * bytes) :=
  match strip_prefix (realm_scheme true) input with
  | Some r => Ok (true, r)
  | None =>
      match strip_prefix (realm_scheme false) input with
      | Some r => Ok (false, r)
      | None => Err (bad "expected scheme realm:// or realm+http://")
      end
  end.

Definition ok_or {A} (o : option A) (e : Realm.Error) : outcome Realm.Error A :=
  match o with Some a => Ok a | None => Err e end.

Definition reject (b : bool) (e : Realm.Error) : outcome Realm.Error unit := if b then Err e else Ok tt.

Definition RealmUrl_parse (input : bytes) : outcome Realm.Error RealmUrl :=
  '(https, rest) ← strip_scheme input;
  let '(authority_path, query) :=
    match split_first QUESTION rest with
    | Some (ap, q) => (ap, Some q)
    | None => (rest, None)
    end in
  '(token, host_path) ← ok_or (split_first AT authority_path) (bad "missing token@ before host");
  _ ← reject (bool_decide (token = [])) (bad "empty token");
  '(host, realm) ← ok_or (split_first SLASH host_path) (bad "missing /realm-name path");
  _ ← reject (bool_decide (host = [])) (bad "empty host");
  _ ← reject (bool_decide (realm = [])) (bad "empty realm name");
  '(stun_servers, lport) ← read_query query;
  Ok {| token := token; host := host; realm := realm; https := https;
        stun_servers := stun_servers; lport := lport |}.

Definition base_http_url (self : RealmUrl) : bytes :=
  str (if https self then "https" else "http") ++ str "://" ++ host self.

(** The source's tests. *)
Example realm_url_examples :
  RealmUrl_parse (str "realm://sekret@realm.example.com:8443/my-cabin-1f3a?stun=stun.l.google.com:19302&lport=51820") =
    Ok {| token := str "sekret"; host := str "realm.example.com:8443"; realm := str "my-cabin-1f3a"; https := true;
          stun_servers := [str "stun.l.google.com:19302"]; lport := Some 51820 |} ∧
  (base_http_url <$> RealmUrl_parse (str "realm+http://tok@127.0.0.1:8080/room")) = Ok (str "http://127.0.0.1:8080") ∧
  is_ok (RealmUrl_parse (str "https://x@y/z")) = false ∧ is_ok (RealmUrl_parse (str "realm://noatsign/room")) = false ∧
  is_ok (RealmUrl_parse (str "realm://tok@host")) = false ∧ is_ok (RealmUrl_parse (str "realm://@host/room")) = false.
Proof. by vm_compute. Qed.

Lemma strip_prefix_iff p s r : strip_prefix p s = Some r ↔ s = p ++ r.
Proof.
  unfold strip_prefix. split.
  - case_bool_decide as E; [|done]. intros [= <-]. rewrite <- E at 1. by rewrite take_drop.
  - intros ->. by rewrite take_app_length, bool_decide_true, drop_app_length.
Qed.


Lemma strip_scheme_iff input h rest :
  strip_scheme input = Ok (h, rest) ↔ input = realm_scheme h ++ rest.
Proof.
  unfold strip_scheme. split.
  - destruct (strip_prefix (realm_scheme true) input) as [r|] eqn:E1; [intros [= <- <-]; by apply strip_prefix_iff in E1|].
    destruct (strip_prefix (realm_scheme false) input) as [r|] eqn:E2; [|done]. intros [= <- <-]. by apply strip_prefix_iff in E2.
  - intros ->. destruct h; [by rewrite (proj2 (strip_prefix_iff _ _ _)) by reflexivity|].
    destruct (strip_prefix (realm_scheme true) (realm_scheme false ++ rest)) eqn:E; [|by rewrite (proj2 (strip_prefix_iff _ _ _)) by reflexivity].
    apply strip_prefix_iff in E. done.
Qed.

Lemma ok_or_Ok {A} (o : option A) e a : ok_or o e = Ok a ↔ o = Some a.
Proof. destruct o; simpl; split; congruence. Qed.

Lemma reject_Ok b e u : reject b e = Ok u ↔ b = false.
Proof. destruct b, u; simpl; split; congruence. Qed.

(** The query of a locator as it is written. *)
Definition query_text (q : option bytes) : bytes := match q with Some q => QUESTION :: q | None => [] end.

(** A text is read as a locator exactly when it is one of the two schemes, a
    token, [@], a host, [/], a realm name and possibly [?] and parameters, with
    none of token, host and name empty, no [?] before the query, no [@] in the
    token and no [/] in the host; the STUN servers and the local port are those of
    the parameters. *)
Theorem realm_url_parse_iff input u :
  RealmUrl_parse input = Ok u ↔ ∃ q,
    input = realm_scheme (https u) ++ token u ++ AT :: host u ++ SLASH :: realm u ++ query_text q ∧
    token u ≠ [] ∧ host u ≠ [] ∧ realm u ≠ [] ∧
    AT ∉ token u ∧ SLASH ∉ host u ∧ QUESTION ∉ token u ++ host u ++ realm u ∧
    read_query q = Ok (stun_servers u, lport u).
Proof.
  unfold RealmUrl_parse. split.
  - intros ([h rest] & Hs%strip_scheme_iff & H)%outcome_bind_Ok. subst input.
    assert (∃ ap q, rest = ap ++ query_text q ∧ QUESTION ∉ ap ∧
      (match split_first QUESTION rest with Some (ap, q) => (ap, Some q) | None => (rest, None) end) = (ap, q)) as (ap & q & -> & Hq & E).
    { destruct (split_first QUESTION rest) as [[ap q]|] eqn:E.
      - apply split_first_iff in E as [-> ?]. by exists ap, (Some q).
      - apply split_first_None_iff in E. exists rest, None. by rewrite app_nil_r. }
    rewrite E in H. clear E.
    apply outcome_bind_Ok in H as ([t hp] & [-> Ht]%ok_or_Ok%split_first_iff & H).
    apply outcome_bind_Ok in H as (u1 & Ht'%reject_Ok & H).
    apply outcome_bind_Ok in H as ([ho r] & [-> Hh]%ok_or_Ok%split_first_iff & H).
    apply outcome_bind_Ok in H as (u2 & Hh'%reject_Ok & H). apply outcome_bind_Ok in H as (u3 & Hr%reject_Ok & H).
    apply outcome_bind_Ok in H as ([ss lp] & Hread & [= <-]). cbn.
    exists q. rewrite !bool_decide_eq_false in *. split_and!; try done; [|set_solver].
    by rewrite <- !app_assoc, <- !app_comm_cons, <- app_assoc.
  - intros (q & -> & Ht & Hh & Hr & Hat & Hsl & Hq & Hread).
    rewrite (proj2 (strip_scheme_iff _ _ _)) by reflexivity. cbn [mbind outcome_bind].
    set (ap := token u ++ AT :: host u ++ SLASH :: realm u).
    replace (token u ++ AT :: host u ++ SLASH :: realm u ++ query_text q) with (ap ++ query_text q)
      by (unfold ap; by rewrite <- !app_assoc, <- !app_comm_cons, <- app_assoc).
    assert (QUESTION ∉ ap) as Hap.
    { unfold ap. rewrite !not_elem_of_app in *. rewrite !not_elem_of_cons, not_elem_of_app, not_elem_of_cons. by destruct Hq as (? & ? & ?). }
    assert ((match split_first QUESTION (ap ++ query_text q) with Some (ap, q) => (ap, Some q) | None => (ap ++ query_text q, None) end) = (ap, q)) as ->.
    { destruct q as [q|]; cbn [query_text]; [by rewrite split_first_app|]. by rewrite app_nil_r, split_first_None. }
    unfold ap. rewrite split_first_app by done. cbn [ok_or mbind outcome_bind].
    rewrite bool_decide_false by done. cbn [reject mbind outcome_bind].
    rewrite split_first_app by done. cbn [ok_or mbind outcome_bind]. rewrite !bool_decide_false by done. cbn [reject mbind outcome_bind].
    rewrite Hread. cbn [mbind outcome_bind]. by destruct u.
Qed.

(** ** Events (rendezvous/events.rs, types.rs) *)
Record ConnectBody := { cb_addresses : list bytes; cb_nonce : bytes; cb_obfs : bytes }.
Record RegisterRequest := { rr_addresses : list bytes }.
Record RegisterResponse := { session_id : bytes; ttl : Z }.

Inductive RendezvousEvent := Punch (cb : ConnectBody) | HeartbeatAck.

(** Fields that a body leaves out are empty: [serde] fills them in. *)
Record LongPollEvent := { lp_event : bytes; lp_addresses : list bytes; lp_nonce : bytes; lp_obfs : bytes }.

Definition LF : byte := b# 10.
Definition CR : bytes := [b# 13].
Definition BLANK : bytes := [LF; LF].

(** [buf.find("\n\n")]: what is before and after the first blank line. *)
Fixpoint split_blank (s : bytes) : option (bytes * bytes) :=
  match s with
  | a :: (b :: r) as t =>
      if bool_decide (a = LF) && bool_decide (b = LF) then Some ([], r)
      else (λ '(pre, post), (a :: pre, post)) <$> split_blank t
  | _ => None
  end.

(** [frame.lines()]; the carriage return that ends a line is taken off with the
    others by [trim_end_matches]. *)
Definition lines (s : bytes) : list bytes :=
  let pieces := split_on LF s in
  if bool_decide (list.last pieces = Some []) then take (length pieces - 1) pieces else pieces.

(** One line of a frame: the name of the event and its data so far. *)
Definition sse_line (acc : bytes * bytes) (raw : bytes) : bytes * bytes :=
  let '(ev_name, data) := acc in
  let line := trim_end [CR] raw in
  match strip_prefix (str "event:") line with
  | Some v => (trim v, data)
  | None =>
      match strip_prefix (str "data:") line with
      | Some v => (ev_name, (if bool_decide (data = []) then [] else data ++ [LF]) ++ default v (strip_prefix (str " ") v))
      | None => (ev_name, data)
      end
  end.

Section Events.
Context `{JC : Json ConnectBody, JL : Json LongPollEvent}.

Definition from_parts (kind : bytes) (addresses : list bytes) (nonce obfs : bytes) : outcome Realm.Error RendezvousEvent :=
  if bool_decide (kind = str "punch") then Ok (Punch {| cb_addresses := addresses; cb_nonce := nonce; cb_obfs := obfs |})
  else if bool_decide (kind = str "heartbeat_ack") then Ok HeartbeatAck
  else Err (Rendezvous "unknown event kind").

Definition parse_longpoll_event (text : bytes) : outcome Realm.Error RendezvousEvent :=
  e ← ok_or (from_json text) (Rendezvous "bad event json");
  from_parts (lp_event e) (lp_addresses e) (lp_nonce e) (lp_obfs e).

(** What a frame gives: nothing when it names no event. *)
Definition frame_event (frame : bytes) : option (outcome Realm.Error RendezvousEvent) :=
  let '(ev_name, data) := foldl sse_line ([], []) (lines frame) in
  if bool_decide (ev_name = []) then None else Some (
    if bool_decide (ev_name = str "punch") then Punch <$> ok_or (from_json data) (Rendezvous "bad punch data")
    else if bool_decide (ev_name = str "heartbeat_ack") then Ok HeartbeatAck
    else Err (Rendezvous "unknown sse event")).

(** The loop of [take_first_sse_event]: a turn takes at least two bytes off the
    buffer, so that its length is fuel enough. *)
Fixpoint take_first (fuel : nat) (buf : bytes) : outcome Realm.Error (option RendezvousEvent) * bytes :=
  match fuel with
  | O => (Ok None, buf)
  | S fuel =>
      match split_blank buf with
      | None => (Ok None, buf)
      | Some (frame, buf) =>
          match frame_event frame with
          | None => take_first fuel buf
          | Some r => (Some <$> r, buf)
          end
      end
  end.

Definition take_first_sse_event (buf : bytes) : outcome Realm.Error (option RendezvousEvent) * bytes :=
  take_first (length buf) buf.

(** The loop of [poll_event] on the chunks of a response. *)
Fixpoint poll_sse (buf : bytes) (chunks : list (outcome Realm.Error bytes)) : outcome Realm.Error RendezvousEvent :=
  match chunks with
  | [] => Err (Rendezvous "event stream closed before an event")
  | chunk :: chunks =>
      chunk ← chunk;
      let '(r, buf) := take_first_sse_event (buf ++ from_utf8_lossy chunk) in
      ev ← r;
      match ev with
      | Some ev => Ok ev
      | None => poll_sse buf chunks
      end
  end.
End Events.

(** ** The client (rendezvous/client.rs)

    A call is the request it sends and what it makes of the response, or of the
    error of the transport. *)
Inductive Method := GET | POST | DELETE.

Record Request := { rq_method : Method; rq_url : bytes; rq_bearer : bytes; rq_json : option bytes; rq_timeout_secs : Z }.

Record Response := {
  rs_success : bool; rs_content_type : option bytes;
  rs_text : outcome Realm.Error bytes;
  rs_chunks : list (outcome Realm.Error bytes);
}.

Record Call (A : Type) := { request : Request; on_response : outcome Realm.Error Response → outcome Realm.Error A }.
Arguments request {A} _.
Arguments on_response {A} _ _.

Record RendezvousClient := { rc_url : RealmUrl; rc_base : bytes }.

Definition RendezvousClient_with_options (url : RealmUrl) : RendezvousClient := {| rc_url := url; rc_base := base_http_url url |}.

Definition check_status (resp : Response) : outcome Realm.Error Response :=
  if rs_success resp then Ok resp else Err (Rendezvous "HTTP status").

Definition ensure_ok (resp : Response) : outcome Realm.Error unit := _ ← check_status resp; Ok tt.

Definition json_ok {A} `{Json A} (resp : Response) : outcome Realm.Error A :=
  resp ← check_status resp;
  text ← rs_text resp;
  ok_or (from_json text) (Rendezvous "error decoding response body").

(** [HeaderValue::to_str]: visible ASCII and tabs. *)
Definition header_text (v : bytes) : bool := forallb (λ b, in_range 32 126 b || bool_decide (b = b# 9)) v.

Fixpoint contains (p s : bytes) : bool :=
  bool_decide (take (length p) s = p) || match s with [] => false | _ :: s => contains p s end.

Definition is_sse (resp : Response) : bool :=
  match rs_content_type resp with
  | Some v => header_text v && contains (str "text/event-stream") v
  | None => false
  end.

Section Client.
Context `{JC : Json ConnectBody, JL : Json LongPollEvent, JR : Json RegisterRequest, JS : Json RegisterResponse}.

Definition endpoint (self : RendezvousClient) (path : bytes) : bytes :=
  rc_base self ++ str "/v1/" ++ realm (rc_url self) ++ path.

Definition register (self : RendezvousClient) (addresses : list bytes) : Call RegisterResponse :=
  {| request := {| rq_method := POST; rq_url := endpoint self []; rq_bearer := token (rc_url self);
                   rq_json := Some (to_json {| rr_addresses := addresses |}); rq_timeout_secs := 15 |};
     on_response r := resp ← r; json_ok resp |}.

Definition heartbeat (self : RendezvousClient) (session_id : bytes) (addresses : option (list bytes)) : Call unit :=
  {| request := {| rq_method := POST; rq_url := endpoint self (str "/heartbeat"); rq_bearer := session_id;
                   rq_json := (λ a, to_json {| rr_addresses := a |}) <$> addresses; rq_timeout_secs := 15 |};
     on_response r := resp ← r; ensure_ok resp |}.

Definition connect (self : RendezvousClient) (body : ConnectBody) : Call ConnectBody :=
  {| request := {| rq_method := POST; rq_url := endpoint self (str "/connect"); rq_bearer := token (rc_url self);
                   rq_json := Some (to_json body); rq_timeout_secs := 20 |};
     on_response r := resp ← r; json_ok resp |}.

Definition post_connects (self : RendezvousClient) (session_id nonce : bytes) (addresses : list bytes) : Call unit :=
  {| request := {| rq_method := POST; rq_url := endpoint self (str "/connects/" ++ nonce); rq_bearer := session_id;
                   rq_json := Some (to_json {| rr_addresses := addresses |}); rq_timeout_secs := 15 |};
     on_response r := resp ← r; ensure_ok resp |}.

Definition delete (self : RendezvousClient) (session_id : bytes) : Call unit :=
  {| request := {| rq_method := DELETE; rq_url := endpoint self []; rq_bearer := session_id; rq_json := None; rq_timeout_secs := 10 |};
     on_response r := resp ← r; ensure_ok resp |}.

Definition poll_event (self : RendezvousClient) (session_id : bytes) : Call RendezvousEvent :=
  {| request := {| rq_method := GET; rq_url := endpoint self (str "/events"); rq_bearer := session_id; rq_json := None; rq_timeout_secs := 35 |};
     on_response r :=
       resp ← r;
       resp ← check_status resp;
       if is_sse resp then poll_sse [] (rs_chunks resp)
       else text ← rs_text resp; parse_longpoll_event text |}.
End Client.

(** ** Chunks do not matter *)
Section Chunks.
Context `{JC : Json ConnectBody, JL : Json LongPollEvent}.

Lemma split_blank_cons a b s : split_blank (a :: b :: s) =
  if bool_decide (a = LF) && bool_decide (b = LF) then Some ([], s) else (λ '(pre, post), (a :: pre, post)) <$> split_blank (b :: s).
Proof. done. Qed.

Lemma split_blank_app s f r t : split_blank s = Some (f, r) → split_blank (s ++ t) = Some (f, r ++ t).
Proof.
  revert f. induction s as [|a [|b s] IH]; intros f; [done|done|]. cbn [app] in *. rewrite !split_blank_cons.
  destruct (bool_decide (a = LF) && bool_decide (b = LF)); [by intros [= <- <-]|].
  destruct (split_blank (b :: s)) as [[f' r']|]; [|done]. intros [= <- <-]. by rewrite (IH f' eq_refl).
Qed.

Lemma split_blank_Some s f r : split_blank s = Some (f, r) → s = f ++ BLANK ++ r ∧ split_blank (f ++ [LF]) = None.
Proof.
  revert f. induction s as [|a [|b s] IH]; intros f; [done|done|]. rewrite split_blank_cons.
  destruct (bool_decide (a = LF) && bool_decide (b = LF)) eqn:E.
  { intros [= <- <-]. rewrite andb_true_iff, !bool_decide_eq_true in E. by destruct E as [-> ->]. }
  destruct (split_blank (b :: s)) as [[f' r']|]; [|done]. intros [= <- <-]. destruct (IH f' eq_refl) as [Hs Hf]. rewrite Hs. split; [done|].
  destruct f' as [|x f']; cbn [app] in *; rewrite split_blank_cons.
  - cbn [app BLANK] in Hs. simplify_eq. by rewrite E.
  - simplify_eq. by rewrite E, Hf.
Qed.

Lemma split_blank_frame f r : split_blank (f ++ [LF]) = None → split_blank (f ++ BLANK ++ r) = Some (f, r).
Proof.
  induction f as [|a f IH]; [done|]. destruct f as [|b f]; cbn [app] in *; rewrite !split_blank_cons.
  - change (split_blank [LF]) with (@None (bytes * bytes)) in *. destruct (bool_decide (a = LF) && _) eqn:E; [done|]. intros _. cbn [BLANK app].
    rewrite split_blank_cons, E, split_blank_cons. done.
  - destruct (bool_decide (a = LF) && bool_decide (b = LF)); [done|]. intros H. rewrite IH; [done|]. by destruct (split_blank (b :: f ++ [LF])).
Qed.

Lemma split_blank_shorter s f r : split_blank s = Some (f, r) → (length r < length s)%nat.
Proof. intros [-> _]%split_blank_Some. rewrite !length_app. simpl. lia. Qed.

(** Enough fuel: the length of the buffer, or more. *)
Lemma take_first_fuel fuel buf : (length buf ≤ fuel)%nat → take_first fuel buf = take_first_sse_event buf.
Proof.
  unfold take_first_sse_event. enough (∀ n m buf, (length buf ≤ n)%nat → (length buf ≤ m)%nat → take_first n buf = take_first m buf) as H by (intros; by apply H).
  clear fuel buf. induction n as [|n IH]; intros [|m] buf Hn Hm; try (destruct buf; simpl in *; [done|lia]).
  cbn [take_first]. destruct (split_blank buf) as [[f r]|] eqn:E; [|done]. apply split_blank_shorter in E.
  destruct (frame_event f); [done|]. apply IH; lia.
Qed.

Lemma take_first_eq buf : take_first_sse_event buf =
  match split_blank buf with
  | None => (Ok None, buf)
  | Some (frame, rest) => match frame_event frame with None => take_first_sse_event rest | Some r => (Some <$> r, rest) end
  end.
Proof.
  rewrite <- (take_first_fuel (S (length buf))) by lia. cbn [take_first]. destruct (split_blank buf) as [[f r]|] eqn:E; [|done].
  apply split_blank_shorter in E. destruct (frame_event f); [done|]. apply take_first_fuel. lia.
Qed.

(** More text after a frame changes nothing; after none, it is read with what
    was left. *)
Lemma take_first_app s t : take_first_sse_event (s ++ t) =
  let '(x, r) := take_first_sse_event s in
  match x with Ok None => take_first_sse_event (r ++ t) | _ => (x, r ++ t) end.
Proof.
  induction s as [s IH] using (induction_ltof1 _ length). unfold ltof in IH. rewrite (take_first_eq s).
  destruct (split_blank s) as [[f r]|] eqn:E; [|done]. rewrite (take_first_eq (s ++ t)), (split_blank_app _ _ _ _ E).
  destruct (frame_event f) as [[ev|e|m]|]; [done..|]. apply IH. by eapply split_blank_shorter.
Qed.

Definition closed : outcome Realm.Error RendezvousEvent := Err (Rendezvous "event stream closed before an event").

Definition event_of (x : outcome Realm.Error (option RendezvousEvent)) : outcome Realm.Error RendezvousEvent :=
  ev ← x; match ev with Some ev => Ok ev | None => closed end.

Lemma poll_sse_concat chunks buf : Forall (λ c, utf8_valid c = true) chunks → take_first_sse_event buf = (Ok None, buf) →
  poll_sse buf (Ok <$> chunks) = event_of (take_first_sse_event (buf ++ concat chunks)).1.
Proof.
  intros Hv. revert buf. induction Hv as [|c chunks Hc Hv IH]; intros buf Hb; [by simpl; rewrite app_nil_r, Hb|].
  rewrite fmap_cons. cbn [poll_sse mbind outcome_bind concat]. rewrite from_utf8_lossy_valid by done.
  rewrite app_assoc, (take_first_app (buf ++ c)).
  destruct (take_first_sse_event (buf ++ c)) as [[[ev|]|e|m] r] eqn:E; try done. cbn [mbind outcome_bind]. apply IH.
  clear -E. revert E. generalize (buf ++ c) as s. intros s. induction s as [s IH] using (induction_ltof1 _ length). unfold ltof in IH.
  rewrite (take_first_eq s). destruct (split_blank s) as [[f q]|] eqn:E; [|intros [= <-]; by rewrite take_first_eq, E].
  destruct (frame_event f) as [[]|]; try done. apply IH. by eapply split_blank_shorter.
Qed.

(** The frames of a stream, each before its blank line. *)
Definition frame_ok (f : bytes) : Prop := split_blank (f ++ [LF]) = None.
Definition frames_text (fs : list bytes) : bytes := concat ((λ f, f ++ BLANK) <$> fs).

Lemma take_first_frames s r rest : take_first_sse_event s = (Some <$> r, rest) ↔ ∃ skipped frame,
  s = frames_text (skipped ++ [frame]) ++ rest ∧ Forall frame_ok (skipped ++ [frame]) ∧
  Forall (λ f, frame_event f = None) skipped ∧ frame_event frame = Some r.
Proof.
  split.
  - induction s as [s IH] using (induction_ltof1 _ length). unfold ltof in IH. rewrite take_first_eq.
    destruct (split_blank s) as [[f q]|] eqn:E; [|by destruct r].
    pose proof (split_blank_shorter _ _ _ E) as Hl. apply split_blank_Some in E as [-> Hf]. destruct (frame_event f) as [r'|] eqn:Ef.
    + intros Hr. assert (r' = r ∧ q = rest) as [-> ->] by (destruct r, r'; simpl in Hr; by simplify_eq). exists [], f. unfold frames_text. simpl.
      rewrite app_nil_r, <- app_assoc. split_and!; try done. by constructor.
    + intros (skipped & frame & -> & Hok & Hno & Hfr)%IH; [|done]. exists (f :: skipped), frame. unfold frames_text. simpl.
      rewrite <- !app_assoc. split_and!; try done; by constructor.
  - intros (skipped & frame & -> & Hok & Hno & Hfr). induction skipped as [|f skipped IH]; rewrite take_first_eq.
    + unfold frames_text. simpl. rewrite app_nil_r, <- app_assoc. apply list.Forall_cons in Hok as [Hok _]. by rewrite split_blank_frame, Hfr by done.
    + unfold frames_text in *. simpl. rewrite <- !app_assoc. simpl in Hok. apply list.Forall_cons in Hok as [Hok1 Hok], Hno as [Hno1 Hno].
      rewrite split_blank_frame, Hno1 by done. by apply IH.
Qed.

(** The event that a stream of well-formed chunks gives depends only on
    their joined text, not on where it is cut, and is that of the first frame that
    names an event: the frames before it name none. *)
Theorem poll_event_chunks chunks :
  Forall (λ c, utf8_valid c = true) chunks →
  (∀ chunks', Forall (λ c, utf8_valid c = true) chunks' → concat chunks = concat chunks' →
    poll_sse [] (Ok <$> chunks) = poll_sse [] (Ok <$> chunks')) ∧
  ∀ ev, poll_sse [] (Ok <$> chunks) = Ok ev ↔ ∃ skipped frame rest,
    concat chunks = frames_text (skipped ++ [frame]) ++ rest ∧ Forall frame_ok (skipped ++ [frame]) ∧
    Forall (λ f, frame_event f = None) skipped ∧ frame_event frame = Some (Ok ev).
Proof.
  intros Hv. split.
  - intros chunks' Hv' E. rewrite !poll_sse_concat by done. by rewrite E.
  - intros ev. rewrite poll_sse_concat by done. cbn [app].
    transitivity (∃ rest, take_first_sse_event (concat chunks) = (Some <$> Ok ev, rest)).
    + destruct (take_first_sse_event (concat chunks)) as [[[ev'|]|e|m] r]; simpl; naive_solver.
    + setoid_rewrite take_first_frames. naive_solver.
Qed.
End Chunks.

(** ** Examples *)
Module RendezvousExamples.
(** A stand-in for JSON: a body is its nonce. *)
#[local] Instance body_json : Json ConnectBody :=
  {| to_json b := cb_nonce b; from_json s := Some {| cb_addresses := []; cb_nonce := s; cb_obfs := [] |} |}.

Definition text (parts : list string) : bytes := concat (str <$> parts).
Definition nl : string := String (Ascii.ascii_of_nat 10) EmptyString.
Definition crlf : string := String (Ascii.ascii_of_nat 13) nl.

(** A keepalive, then an event in three chunks. *)
Definition chunks0 : list bytes :=
  [text [": keepalive"; nl; nl; "eve"]; text ["nt: punch"; nl; "data: abc"; nl]; text [nl; "event"]].

Lemma poll_event_chunks_witness :
  poll_sse [] (Ok <$> chunks0) = Ok (Punch {| cb_addresses := []; cb_nonce := str "abc"; cb_obfs := [] |}) ∧
  poll_sse [] (Ok <$> chunks0) = poll_sse [] (Ok <$> [concat chunks0]).
Proof.
  destruct (poll_event_chunks chunks0 ltac:(by repeat constructor)) as [H _].
  split; [by vm_compute|]. apply H; [by repeat constructor|by vm_compute].
Defined.

(** Frames that end with carriage returns are never found, and a character that
    is cut is replaced. *)
Example crlf_stream_unread :
  poll_sse [] [Ok (text ["event: heartbeat_ack"; crlf; crlf])] = closed ∧
  poll_sse [] [Ok (text ["event: heartbeat_ack"; nl; nl])] = Ok HeartbeatAck.
Proof. by vm_compute. Qed.

Example cut_character_replaced :
  from_utf8_lossy [b# 195; b# 169] = [b# 195; b# 169] ∧
  from_utf8_lossy [b# 195] ++ from_utf8_lossy [b# 169] = REPLACEMENT ++ REPLACEMENT.
Proof. by vm_compute. Qed.
End RendezvousExamples.
