(* ===== verification/RealmSession.v ===== *)
(** * Realm sessions (crates/shadowsocks-realm/src/session.rs, stun.rs, lib.rs)

    Which STUN servers a socket asks, the addresses that are exchanged through the
    rendezvous, and how the two ends of a session come to punch with the same nonce
    and obfuscation key.  Name resolution, the [hex] crate, HTTP responses and the
    QUIC handshake are parameters.  Shown: a socket learns at most one address of
    each family, so that the check for a symmetric NAT cannot succeed
    ([stun_one_per_family]); the exchanged addresses are read back
    ([addresses_exchanged]); client and server punch with the same keys
    ([session_keys_agree]). *)
From stdpp Require Import sorting.
From S2P Require Import Prelude.
From S2P Require Import Utf8.
From S2P Require Import Socks5.
From S2P Require Import StdNet.
From S2P Require Import NetText.
From S2P Require Import ManagerProtocol.
From S2P Require Import Realm.
From S2P Require Import RealmPunch.
From S2P Require Import RealmRendezvous.
From S2P Require ServerConf.

(** ** STUN servers (stun.rs) *)
Record StunBinding := { server : SocketAddr; reflexive : SocketAddr }.

Definition reachable_families (local : outcome io_error SocketAddr) : bool * bool :=
  match local with
  | Ok a => if is_ipv4 a then (true, false) else (true, true)
  | _ => (true, false)
  end.

Record stun_search := { have_v4 : bool; have_v6 : bool; found : list StunBinding; asked : nat }.

Section Stun.
(** [tokio::net::lookup_host], and the result of the [n]-th call of [discover]
    for an address. *)
Context (lookup_host : bytes → outcome io_error (list SocketAddr)) (ask : nat → SocketAddr → outcome Realm.Error SocketAddr).

Definition ask_addr (v4_ok v6_ok : bool) (st : stun_search) (addr : SocketAddr) : stun_search :=
  if negb (if is_ipv4 addr then v4_ok else v6_ok) then st
  else if (is_ipv4 addr && have_v4 st) || (negb (is_ipv4 addr) && have_v6 st) then st
  else match ask (asked st) addr with
       | Ok r => {| have_v4 := if is_ipv4 r then true else have_v4 st; have_v6 := if is_ipv4 r then have_v6 st else true;
                    found := found st ++ [{| server := addr; reflexive := r |}]; asked := S (asked st) |}
       | _ => {| have_v4 := have_v4 st; have_v6 := have_v6 st; found := found st; asked := S (asked st) |}
       end.

Fixpoint ask_servers (v4_ok v6_ok : bool) (st : stun_search) (servers : list bytes) : stun_search :=
  match servers with
  | [] => st
  | s :: servers =>
      if (have_v4 st || negb v4_ok) && (have_v6 st || negb v6_ok) then st
      else match lookup_host s with
           | Ok resolved => ask_servers v4_ok v6_ok (foldl (ask_addr v4_ok v6_ok) st resolved) servers
           | _ => ask_servers v4_ok v6_ok st servers
           end
  end.

Definition search0 : stun_search := {| have_v4 := false; have_v6 := false; found := []; asked := 0 |}.

Definition discover_all (local : outcome io_error SocketAddr) (servers : list bytes) : list StunBinding :=
  let '(v4_ok, v6_ok) := reachable_families local in found (ask_servers v4_ok v6_ok search0 servers).

(** [discover_addr]: the first address that answers, or the last error. *)
Fixpoint first_answer (n : nat) (last : Realm.Error) (addrs : list SocketAddr) : outcome Realm.Error SocketAddr :=
  match addrs with
  | [] => Err last
  | addr :: addrs =>
      match ask n addr with
      | Ok sa => Ok sa
      | Err e => first_answer (S n) e addrs
      | Panic m => Panic m
      end
  end.

Definition discover_addr (local : outcome io_error SocketAddr) (server : bytes) : outcome Realm.Error SocketAddr :=
  let '(v4_ok, v6_ok) := reachable_families local in
  addrs ← map_err (λ _, Stun "resolving") (lookup_host server);
  let resolved := filter (λ a, (if is_ipv4 a then v4_ok else v6_ok) = true) addrs in
  match resolved with
  | [] => Err (Stun "no reachable address")
  | _ => first_answer 0 (Stun "no STUN response") resolved
  end.
End Stun.

(** ** Addresses to exchange (session.rs) *)
Definition family (v4 : bool) (b : StunBinding) : Prop := is_ipv4 (reflexive b) = v4.

#[export] Instance family_dec v4 b : Decision (family v4 b).
Proof. unfold family. apply _. Defined.

Definition port_of (a : SocketAddr) : Z := match a with V4 _ p => p | V6 _ p _ _ => p end.

(** The set of reflexive ports of a family, and whether there is more than one. *)
Definition family_ports (bindings : list StunBinding) (v4 : bool) : list Z :=
  remove_dups ((λ b, port_of (reflexive b)) <$> filter (family v4) bindings).

Definition looks_symmetric (bindings : list StunBinding) : bool :=
  existsb (λ v4, (1 <? length (family_ports bindings v4))%nat) [true; false].

(** [String]'s order, and [sort] by it. *)
Fixpoint bytes_leb (a b : bytes) : bool :=
  match a, b with
  | [], _ => true
  | _ :: _, [] => false
  | x :: a, y :: b =>
      (byte.unsigned x <? byte.unsigned y) || ((byte.unsigned x =? byte.unsigned y) && bytes_leb a b)
  end.

Definition bytes_le (a b : bytes) : Prop := bytes_leb a b = true.

#[export] Instance bytes_le_dec : RelDecision bytes_le.
Proof. intros a b. unfold bytes_le. apply _. Defined.

(** [Vec::dedup]. *)
Fixpoint dedup (l : list bytes) : list bytes :=
  match l with
  | x :: (y :: _) as t => if bool_decide (x = y) then dedup t else x :: dedup t
  | _ => l
  end.

Definition discover_addresses (bindings : list StunBinding) (local : outcome io_error SocketAddr) : list bytes :=
  match dedup (merge_sort bytes_le ((λ b, show_socket_addr (unmap (reflexive b))) <$> bindings)) with
  | [] => match local with Ok local => [show_socket_addr local] | _ => [] end
  | addrs => addrs
  end.

Definition parse_addrs (v : list bytes) : outcome Realm.Error (list SocketAddr) :=
  match omap parse_socket_addr v with
  | [] => Err (Realm.Punch "no usable peer addresses")
  | out => Ok out
  end.

(** ** At most one address of each family *)
Section OnePerFamily.
Context (lookup_host : bytes → outcome io_error (list SocketAddr)) (ask : nat → SocketAddr → outcome Realm.Error SocketAddr).
(** A server tells the address of the family it was asked over. *)
Context (Hask : ∀ n a r, ask n a = Ok r → is_ipv4 r = is_ipv4 a).

Definition search_ok (st : stun_search) : Prop :=
  length (filter (family true) (found st)) = (if have_v4 st then 1 else 0)%nat ∧
  length (filter (family false) (found st)) = (if have_v6 st then 1 else 0)%nat.

Lemma ask_addr_ok v4_ok v6_ok st addr : search_ok st → search_ok (ask_addr ask v4_ok v6_ok st addr).
Proof.
  intros [H4 H6]. unfold ask_addr. destruct (negb _); [done|].
  destruct ((is_ipv4 addr && have_v4 st) || (negb (is_ipv4 addr) && have_v6 st)) eqn:E; [done|].
  destruct (ask (asked st) addr) as [r|e|m] eqn:Er; [|done..]. apply Hask in Er. unfold search_ok. cbn.
  rewrite !list.filter_app, !length_app, H4, H6.
  assert (∀ v4, length (filter (family v4) [{| server := addr; reflexive := r |}]) = if bool_decide (is_ipv4 addr = v4) then 1%nat else 0%nat) as Hf.
  { intros v4. rewrite filter_cons, filter_nil. rewrite <- Er. destruct (decide _) as [Hd|Hd]; unfold family in Hd; cbn in Hd; [by rewrite bool_decide_true|by rewrite bool_decide_false]. }
  rewrite !Hf, Er. apply orb_false_iff in E as [E4 E6]. destruct (is_ipv4 addr); cbn in *; rewrite ?E4, ?E6, ?Nat.add_0_r; done.
Qed.

Lemma ask_servers_ok v4_ok v6_ok servers st : search_ok st → search_ok (ask_servers lookup_host ask v4_ok v6_ok st servers).
Proof.
  revert st. induction servers as [|s servers IH]; intros st H; [done|]. cbn [ask_servers]. destruct (_ && _); [done|].
  destruct (lookup_host s) as [resolved|e|m]; [|by apply IH..]. apply IH. clear s. revert st H.
  induction resolved as [|a resolved IHr]; intros st H; [done|]. simpl. apply IHr, ask_addr_ok, H.
Qed.

(** As long as every STUN server tells the address of the family it was
    asked over, at most one address of each family is found, and so two servers'
    ports are never compared: the check for a symmetric NAT does not succeed,
    whatever the servers answer. *)
Theorem stun_one_per_family local servers :
  (∀ v4, (length (filter (family v4) (discover_all lookup_host ask local servers)) ≤ 1)%nat) ∧
  looks_symmetric (discover_all lookup_host ask local servers) = false.
Proof.
  assert (∀ v4, (length (filter (family v4) (discover_all lookup_host ask local servers)) ≤ 1)%nat) as H.
  { unfold discover_all. destruct (reachable_families local) as [v4_ok v6_ok].
    destruct (ask_servers_ok v4_ok v6_ok servers search0) as [H4 H6]; [done|].
    intros []; [rewrite H4; destruct (have_v4 _)|rewrite H6; destruct (have_v6 _)]; lia. }
  split; [done|]. unfold looks_symmetric. cbn [existsb].
  assert (∀ v4, (1 <? length (family_ports (discover_all lookup_host ask local servers) v4))%nat = false) as E; [|by rewrite !E].
  intros v4. apply Nat.ltb_ge. unfold family_ports. specialize (H v4). revert H.
  destruct (filter _ _) as [|b [|b' l]]; simpl; [lia..|lia].
Qed.
End OnePerFamily.

(** ** Addresses are read back *)
Lemma bytes_leb_total a b : bytes_leb a b = true ∨ bytes_leb b a = true.
Proof.
  revert b. induction a as [|x a IH]; intros [|y b]; simpl; auto. destruct (Z.lt_trichotomy (byte.unsigned x) (byte.unsigned y)) as [H|[H|H]].
  - left. by rewrite (proj2 (Z.ltb_lt _ _) H).
  - rewrite H, Z.ltb_irrefl, Z.eqb_refl. simpl. apply IH.
  - right. by rewrite (proj2 (Z.ltb_lt _ _) H).
Qed.

Lemma byte_unsigned_inj x y : byte.unsigned x = byte.unsigned y → x = y.
Proof. intros E. by rewrite <- (byte.of_Z_unsigned x), E, byte.of_Z_unsigned. Qed.

#[export] Instance bytes_le_total : Total bytes_le.
Proof. intros a b. apply bytes_leb_total. Qed.

#[export] Instance bytes_le_trans : Transitive bytes_le.
Proof.
  unfold bytes_le. intros a. induction a as [|x a IH]; intros [|y b] [|z c]; simpl; try done.
  rewrite !orb_true_iff, !andb_true_iff, !Z.ltb_lt, !Z.eqb_eq. intros [H1|[H1 H1']] [H2|[H2 H2']]; [left; lia..|].
  right. split; [lia|]. by eapply IH.
Qed.

#[export] Instance bytes_le_antisymm : AntiSymm (=) bytes_le.
Proof.
  unfold bytes_le. intros a. induction a as [|x a IH]; intros [|y b]; simpl; try done.
  rewrite !orb_true_iff, !andb_true_iff, !Z.ltb_lt, !Z.eqb_eq. intros [H1|[H1 H1']] [H2|[H2 H2']]; [lia..|].
  f_equal; [by apply byte_unsigned_inj|by apply IH].
Qed.

Lemma dedup_cons x y l : dedup (x :: y :: l) = if bool_decide (x = y) then dedup (y :: l) else x :: dedup (y :: l).
Proof. done. Qed.

Lemma elem_of_dedup l x : x ∈ dedup l ↔ x ∈ l.
Proof.
  induction l as [|a [|b l] IH]; [done|done|]. rewrite dedup_cons. case_bool_decide; [subst|]; set_solver.
Qed.

Lemma NoDup_dedup l : StronglySorted bytes_le l → NoDup (dedup l).
Proof.
  induction 1 as [|a l Hs IH Hall]; [constructor|]. destruct l as [|b l]; [simpl; apply NoDup_singleton|]. rewrite dedup_cons.
  case_bool_decide as E; [done|]. constructor; [|done]. rewrite elem_of_dedup. intros Hin. apply E.
  apply StronglySorted_inv in Hs as [_ Hb]. apply list.Forall_cons in Hall as [Hab _]. apply elem_of_cons in Hin as [->|Hin]; [done|].
  rewrite list.Forall_forall in Hb. by apply (anti_symm bytes_le); [|apply Hb].
Qed.

Lemma unmap_text a : text_addr a → text_addr (unmap a).
Proof.
  destruct a as [ip p|ip p f s]; [done|]. cbn. intros (Hip & Hp & Hf & Hs). destruct (to_ipv4_mapped ip) as [v4|] eqn:E; [|done].
  apply to_ipv4_mapped_Some in E as [_ ?]; [done|lia].
Qed.

Lemma omap_parse_show l : Forall text_addr l → omap parse_socket_addr (show_socket_addr <$> l) = l.
Proof. induction 1 as [|a l Ha Hl IH]; [done|]. cbn. by rewrite parse_show_socket_addr, IH. Qed.

Lemma show_socket_addr_inj a b : text_addr a → text_addr b → show_socket_addr a = show_socket_addr b → a = b.
Proof. intros Ha Hb E%(f_equal parse_socket_addr). rewrite !parse_show_socket_addr in E by done. congruence. Qed.

(** When STUN found addresses, what is sent through the rendezvous is read
    back by the other end as exactly the found addresses, IPv4-mapped ones as
    IPv4, each once. *)
Theorem addresses_exchanged bindings local :
  bindings ≠ [] → Forall (λ b, text_addr (reflexive b)) bindings →
  ∃ out, parse_addrs (discover_addresses bindings local) = Ok out ∧ NoDup out ∧
    ∀ a, a ∈ out ↔ ∃ b, b ∈ bindings ∧ a = unmap (reflexive b).
Proof.
  intros Hne Hall. unfold discover_addresses.
  set (texts := (λ b, show_socket_addr (unmap (reflexive b))) <$> bindings). set (addrs := dedup (merge_sort bytes_le texts)).
  assert (NoDup addrs) as Hnd by (apply NoDup_dedup, StronglySorted_merge_sort; apply _).
  assert (∀ x, x ∈ addrs ↔ x ∈ texts) as Hin by (intros x; unfold addrs; by rewrite elem_of_dedup, merge_sort_Permutation).
  assert (∀ x, x ∈ texts ↔ ∃ b, b ∈ bindings ∧ x = show_socket_addr (unmap (reflexive b))) as Htx.
  { intros x. unfold texts. rewrite list_elem_of_fmap. naive_solver. }
  assert (∀ b, b ∈ bindings → text_addr (unmap (reflexive b))) as Hb by (intros b Hb; by apply unmap_text, (proj1 (list.Forall_forall _ _) Hall b)).
  assert (∃ out, addrs = show_socket_addr <$> out ∧ Forall text_addr out) as (out & Eout & Hout).
  { clear Hnd. assert (Forall (λ x, ∃ a, x = show_socket_addr a ∧ text_addr a) addrs) as Hx.
    { apply list.Forall_forall. intros x (b & Hbb & ->)%Hin%Htx. eauto. }
    clear Hin. induction Hx as [|x l (a & -> & Ha) Hl (out & -> & Ho)]; [by exists []|]. exists (a :: out). split; [done|by constructor]. }
  assert (∀ a, a ∈ out ↔ ∃ b, b ∈ bindings ∧ a = unmap (reflexive b)) as Hmem.
  { intros a. transitivity (a ∈ out ∧ text_addr a); [split; [|tauto]; intros Ha; split; [done|by apply (proj1 (list.Forall_forall _ _) Hout)]|].
    transitivity (text_addr a ∧ show_socket_addr a ∈ addrs); [|rewrite Hin, Htx; naive_solver eauto using show_socket_addr_inj].
    rewrite Eout, list_elem_of_fmap. split; [naive_solver|]. intros [Ha (a' & E & Ha')].
    apply show_socket_addr_inj in E as ->; [done..|]. by apply (proj1 (list.Forall_forall _ _) Hout). }
  exists out. split_and!; [|rewrite Eout in Hnd; by eapply NoDup_fmap_1|done].
  assert (out ≠ []) as Ho by (destruct bindings as [|b bs]; [done|]; intros ->; by eapply not_elem_of_nil, Hmem; exists b; split; [left|]).
  rewrite Eout. unfold parse_addrs. destruct out as [|a out]; [done|]. rewrite fmap_cons. cbn [mret]. rewrite <- fmap_cons, omap_parse_show by done. done.
Qed.

(** ** Sessions (session.rs, socket.rs, lib.rs)

    The [hex] crate. *)
Class Hex := { hex_encode : bytes → bytes; hex_decode : bytes → option bytes }.
Class HexLaws (H : Hex) : Prop := {
  hex_decode_encode l : hex_decode (hex_encode l) = Some l;
  hex_encode_ascii l : is_ascii (hex_encode l) = true;
}.

Record SessionKeys := { sk_nonce : bytes; sk_obfs : bytes; sk_nonce_hex : bytes; sk_obfs_hex : bytes }.

(** [random_session]; the arguments are what the generator filled in. *)
Definition random_session `{Hex} (nonce obfs : bytes) : SessionKeys :=
  {| sk_nonce := nonce; sk_obfs := obfs; sk_nonce_hex := hex_encode nonce; sk_obfs_hex := hex_encode obfs |}.

Definition decode_n `{Hex} (n : nat) (h : bytes) : outcome Realm.Error bytes :=
  bytes ← ok_or (hex_decode h) (Realm.Punch "bad hex");
  if (length bytes =? n)%nat then Ok bytes else Err (Realm.Punch "wrong length").

(** What the network does in a session: the sockets that can be bound (their
    local addresses), name resolution, STUN, HTTP. *)
Record Net := {
  bind_dual_stack : Z → outcome io_error SocketAddr;
  bind_v4 : Z → outcome io_error SocketAddr;
  net_lookup : bytes → outcome io_error (list SocketAddr);
  net_ask : nat → SocketAddr → outcome Realm.Error SocketAddr;
  net_http : Request → outcome Realm.Error Response;
}.

Definition bind_realm_socket (net : Net) (port : Z) : outcome io_error SocketAddr :=
  match bind_dual_stack net port with
  | Err _ => bind_v4 net port
  | r => r
  end.

Record Params := { p_rendezvous : bytes; p_stun_servers : list bytes; p_lport : option Z }.

(** What [PunchedSocket::connect] is called with: the socket's local address, the
    candidates, the nonce and the obfuscation key. *)
Record PunchJob := { job_local : SocketAddr; job_peers : list SocketAddr; job_nonce : bytes; job_obfs : bytes }.

Section Sessions.
Context `{HX : Hex, HS : Sha256}.
Context `{JC : Json ConnectBody, JL : Json LongPollEvent, JR : Json RegisterRequest, JS : Json RegisterResponse}.

Definition send {A} (net : Net) (c : Call A) : outcome Realm.Error A := on_response c (net_http net (request c)).

(** The common start of both ends: the locator, the STUN servers, the socket and
    its addresses. *)
Definition start (net : Net) (params : Params) : outcome Realm.Error (RealmUrl * list bytes * SocketAddr * list bytes) :=
  url ← RealmUrl_parse (p_rendezvous params);
  let servers := stun_servers url ++ p_stun_servers params in
  let bind_port := default 0 (match p_lport params with Some p => Some p | None => lport url end) in
  socket ← map_err Io (bind_realm_socket net bind_port);
  Ok (url, servers, socket, discover_addresses (discover_all (net_lookup net) (net_ask net) (Ok socket) servers) (Ok socket)).

Definition client_body (keys : SessionKeys) (addresses : list bytes) : ConnectBody :=
  {| cb_addresses := addresses; cb_nonce := sk_nonce_hex keys; cb_obfs := sk_obfs_hex keys |}.

Definition client_job (net : Net) (params : Params) (keys : SessionKeys) : outcome Realm.Error PunchJob :=
  '(url, servers, socket, addresses) ← start net params;
  let rc := RendezvousClient_with_options url in
  peer ← send net (connect rc (client_body keys addresses));
  peer_addrs ← parse_addrs (cb_addresses peer);
  Ok {| job_local := socket; job_peers := peer_addrs; job_nonce := sk_nonce keys; job_obfs := sk_obfs keys |}.

(** The registration of a server, without its TLS parts and its heartbeat task. *)
Record RealmServerRegistration := { rg_rc : RendezvousClient; rg_session_id : bytes; rg_stun_servers : list bytes; rg_heartbeat_secs : Z }.

Definition registration_register (net : Net) (params : Params) : outcome Realm.Error RealmServerRegistration :=
  '(url, servers, socket, addresses) ← start net params;
  let rc := RendezvousClient_with_options url in
  reg ← send net (register rc addresses);
  let ttl := Z.max (ttl reg) 10 in
  Ok {| rg_rc := rc; rg_session_id := session_id reg; rg_stun_servers := servers; rg_heartbeat_secs := Z.max (ttl / 2) 5 |}.

(** [next_punch] on the responses of the polls; [None] while there is only
    heartbeat. *)
Fixpoint next_punch (self : RealmServerRegistration) (polls : list (outcome Realm.Error Response)) : option (outcome Realm.Error ConnectBody) :=
  match polls with
  | [] => None
  | poll :: polls =>
      match on_response (poll_event (rg_rc self) (rg_session_id self)) poll with
      | Ok (Punch cb) => Some (Ok cb)
      | Ok HeartbeatAck => next_punch self polls
      | Err e => Some (Err e)
      | Panic m => Some (Panic m)
      end
  end.

(** [handle_punch] up to the punch, on a socket and with its addresses. *)
Definition answer_punch (net : Net) (rc : RendezvousClient) (session_id : bytes) (servers : list bytes) (socket : SocketAddr) (punch : ConnectBody)
  : outcome Realm.Error PunchJob :=
  let fresh := discover_addresses (discover_all (net_lookup net) (net_ask net) (Ok socket) servers) (Ok socket) in
  _ ← send net (post_connects rc session_id (cb_nonce punch) fresh);
  nonce ← decode_n 16 (cb_nonce punch);
  obfs ← decode_n 32 (cb_obfs punch);
  peer_addrs ← parse_addrs (cb_addresses punch);
  Ok {| job_local := socket; job_peers := peer_addrs; job_nonce := nonce; job_obfs := obfs |}.

Definition handle_punch_job (net : Net) (self : RealmServerRegistration) (punch : ConnectBody) : outcome Realm.Error PunchJob :=
  socket ← map_err Io (bind_realm_socket net 0);
  answer_punch net (rg_rc self) (rg_session_id self) (rg_stun_servers self) socket punch.

(** [server_accept] up to the punch, for a single client. *)
Definition server_accept_job (net : Net) (params : Params) (polls : list (outcome Realm.Error Response)) : option (outcome Realm.Error PunchJob) :=
  match start net params with
  | Ok (url, servers, socket, addresses) =>
      let rc := RendezvousClient_with_options url in
      match send net (register rc addresses) with
      | Ok reg =>
          let self := {| rg_rc := rc; rg_session_id := session_id reg; rg_stun_servers := servers; rg_heartbeat_secs := 0 |} in
          match next_punch self polls with
          | Some (Ok punch) => Some (answer_punch net rc (session_id reg) servers socket punch)
          | Some (Err e) => Some (Err e)
          | Some (Panic m) => Some (Panic m)
          | None => None
          end
      | Err e => Some (Err e)
      | Panic m => Some (Panic m)
      end
  | Err e => Some (Err e)
  | Panic m => Some (Panic m)
  end.

(** [PunchedSocket::connect] and then the QUIC handshake with the confirmed peer,
    which is a parameter. *)
Definition punch_and {C} (rng : nat → bytes * bytes) (end_ : Z) (turns : list turn) (quic : SocketAddr → outcome Realm.Error C)
    (job : PunchJob) : option (outcome Realm.Error C) :=
  '(r, _) ← punch rng (job_nonce job) (job_obfs job) (negb (is_ipv4 (job_local job))) (job_peers job) end_ turns;
  Some (peer ← r; quic peer).

Definition client_connect {C} (net : Net) (params : Params) (keys : SessionKeys) rng end_ turns (connect_client : SocketAddr → outcome Realm.Error C)
  : option (outcome Realm.Error C) :=
  match client_job net params keys with
  | Ok job => punch_and rng end_ turns connect_client job
  | Err e => Some (Err e)
  | Panic m => Some (Panic m)
  end.

Definition handle_punch {C} (net : Net) (self : RealmServerRegistration) (punch : ConnectBody) rng end_ turns
    (accept_server : SocketAddr → outcome Realm.Error C) : option (outcome Realm.Error C) :=
  match handle_punch_job net self punch with
  | Ok job => punch_and rng end_ turns accept_server job
  | Err e => Some (Err e)
  | Panic m => Some (Panic m)
  end.
End Sessions.

(** ** Both ends use the same keys and addresses *)

(** What is found comes from the answers of the servers. *)
Lemma discover_all_answers lookup_host ask local servers :
  Forall (λ b, ∃ n, ask n (server b) = Ok (reflexive b)) (discover_all lookup_host ask local servers).
Proof.
  unfold discover_all. destruct (reachable_families local) as [v4_ok v6_ok].
  assert (∀ st addr, Forall (λ b, ∃ n, ask n (server b) = Ok (reflexive b)) (found st) →
    Forall (λ b, ∃ n, ask n (server b) = Ok (reflexive b)) (found (ask_addr ask v4_ok v6_ok st addr))) as Ha.
  { intros st addr H. unfold ask_addr. destruct (negb _); [done|]. destruct (_ || _); [done|].
    destruct (ask (asked st) addr) as [r|e|m] eqn:E; [|done..]. apply list.Forall_app. split; [done|]. repeat constructor. by exists (asked st). }
  assert (Forall (λ b, ∃ n, ask n (server b) = Ok (reflexive b)) (found search0)) as H0 by constructor.
  revert H0. generalize search0. induction servers as [|s servers IH]; intros st H; [done|]. cbn [ask_servers]. destruct (_ && _); [done|].
  destruct (lookup_host s) as [resolved|e|m]; [|by apply IH..]. apply IH. revert st H.
  induction resolved as [|a resolved IHr]; intros st H; [done|]. simpl. by apply IHr, Ha.
Qed.

(** The addresses of a socket with the local address [local]: those that STUN
    servers tell for it, IPv4-mapped ones as IPv4, or its own if none does. *)
Definition own_address (found : list StunBinding) (local a : SocketAddr) : Prop :=
  match found with
  | [] => a = local
  | _ => ∃ b, b ∈ found ∧ a = unmap (reflexive b)
  end.

Lemma addresses_read_back bindings local :
  Forall (λ b, text_addr (reflexive b)) bindings → text_addr local →
  ∃ out, parse_addrs (discover_addresses bindings (Ok local)) = Ok out ∧ NoDup out ∧ ∀ a, a ∈ out ↔ own_address bindings local a.
Proof.
  intros Hb Hl. destruct bindings as [|b bindings]; [|by apply addresses_exchanged].
  exists [local]. unfold discover_addresses, parse_addrs. cbn. rewrite parse_show_socket_addr by done.
  split_and!; [done|apply NoDup_singleton|]. intros a. by rewrite list_elem_of_singleton.
Qed.

(** JSON strings that are ASCII. *)
Definition ascii_body (b : ConnectBody) : Prop := Forall (λ s, is_ascii s = true) (cb_nonce b :: cb_obfs b :: cb_addresses b).

Section Agreement.
Context `{HX : Hex, HXL : !HexLaws HX, HS : Sha256}.
Context `{JC : Json ConnectBody, JCL : !JsonLaws JC ascii_body, JL : Json LongPollEvent, JR : Json RegisterRequest, JS : Json RegisterResponse}.

Lemma decode_n_encode n l : length l = n → decode_n n (hex_encode l) = Ok l.
Proof. intros <-. unfold decode_n. rewrite hex_decode_encode. cbn [ok_or mbind outcome_bind]. by rewrite Nat.eqb_refl. Qed.

Lemma discover_addresses_ascii bindings local : Forall (λ s, is_ascii s = true) (discover_addresses bindings (Ok local)).
Proof.
  unfold discover_addresses. destruct (dedup _) as [|x l] eqn:E; [repeat constructor; apply (show_socket_addr_short local)|].
  rewrite <- E. apply list.Forall_forall. intros s Hs. rewrite elem_of_dedup, merge_sort_Permutation in Hs.
  apply list_elem_of_fmap in Hs as (b & -> & _). apply show_socket_addr_short.
Qed.

Lemma client_body_read nonce obfs bindings local :
  let body := client_body (random_session nonce obfs) (discover_addresses bindings (Ok local)) in from_json (to_json body) = Some body.
Proof.
  cbn zeta. set (body := client_body _ _). pose proof (from_to_json (wf := ascii_body) body [] []) as H. simpl in H. rewrite app_nil_r in H.
  apply H; [|constructor..]. repeat constructor; [apply hex_encode_ascii..|apply discover_addresses_ascii].
Qed.

(** C30. A client that gets as far as punching acts on the answer to its connect
    request.  Whoever reads the JSON of that request and hands it to a server: the
    server fails only if it cannot bind a socket or post its own addresses, and
    otherwise punches towards exactly the addresses of the client's socket (those
    that STUN servers told for it, IPv4-mapped ones as IPv4, each once; its local
    address if there was none), with the client's nonce and key, so that it decodes
    every punch packet of the client, and the client its own.  (Addresses are ones
    that can be printed: no flow label.) *)
Theorem session_keys_agree net params nonce obfs cjob :
  length nonce = NONCE_LEN → length obfs = OBFS_LEN →
  (∀ n a r, net_ask net n a = Ok r → text_addr r) → text_addr (job_local cjob) →
  client_job net params (random_session nonce obfs) = Ok cjob →
  ∃ url rq resp peer text punch,
    RealmUrl_parse (p_rendezvous params) = Ok url ∧
    rq_method rq = POST ∧ rq_url rq = endpoint (RendezvousClient_with_options url) (str "/connect") ∧ rq_json rq = Some text ∧
    net_http net rq = Ok resp ∧ json_ok resp = Ok peer ∧ parse_addrs (cb_addresses peer) = Ok (job_peers cjob) ∧
    from_json text = Some punch ∧
    ∀ net' self,
      (∀ socket u, bind_realm_socket net' 0 = Ok socket →
         send net' (post_connects (rg_rc self) (rg_session_id self) (hex_encode nonce)
           (discover_addresses (discover_all (net_lookup net') (net_ask net') (Ok socket) (rg_stun_servers self)) (Ok socket))) = Ok u →
         ∃ sjob, handle_punch_job net' self punch = Ok sjob) ∧
      ∀ sjob, handle_punch_job net' self punch = Ok sjob →
        NoDup (job_peers sjob) ∧
        (∀ a, a ∈ job_peers sjob ↔
           own_address (discover_all (net_lookup net) (net_ask net) (Ok (job_local cjob)) (stun_servers url ++ p_stun_servers params)) (job_local cjob) a) ∧
        job_nonce sjob = nonce ∧ job_obfs sjob = obfs ∧
        ∀ t salt padding, length salt = SALT_LEN → (length padding ≤ MAX_PADDING)%nat →
          decode (encode_with t (job_nonce cjob) (job_obfs cjob) salt padding) (job_nonce sjob) (job_obfs sjob) = Ok (t, length padding) ∧
          decode (encode_with t (job_nonce sjob) (job_obfs sjob) salt padding) (job_nonce cjob) (job_obfs cjob) = Ok (t, length padding).
Proof.
  intros Hn Ho Hask Hloc Hc. unfold client_job in Hc. apply outcome_bind_Ok in Hc as ([[[url servers] socket] addresses] & Hs & Hc).
  apply outcome_bind_Ok in Hc as (peer & Hsend & Hc). apply outcome_bind_Ok in Hc as (peers & Hpeers & [= <-]). cbn [job_local job_peers job_nonce job_obfs] in *.
  unfold start in Hs. apply outcome_bind_Ok in Hs as (url' & Hurl & Hs). apply outcome_bind_Ok in Hs as (s' & _ & [= -> <- -> <-]).
  set (found := discover_all _ _ _ _) in *.
  assert (Forall (λ b, text_addr (reflexive b)) found) as Hfound
    by (eapply list.Forall_impl; [apply discover_all_answers|]; intros b [n Hb]; by eapply Hask).
  destruct (addresses_read_back found socket Hfound Hloc) as (out & Hout & Hnd & Hmem).
  unfold send in Hsend. cbn [connect on_response request] in Hsend. apply outcome_bind_Ok in Hsend as (resp & Hresp & Hjson).
  eexists url, _, resp, peer, _, _. split_and!; [exact Hurl| | | |exact Hresp|exact Hjson|exact Hpeers|exact (client_body_read nonce obfs found socket)|]; [done..|].
  intros net' self. unfold handle_punch_job, answer_punch. cbn [client_body random_session cb_nonce cb_obfs cb_addresses sk_nonce_hex sk_obfs_hex].
  rewrite (decode_n_encode 16 nonce), (decode_n_encode 32 obfs), Hout by done. cbn [mbind outcome_bind]. split.
  - intros s u Hb Hu. rewrite Hb. cbn [map_err mbind outcome_bind]. rewrite Hu. cbn [mbind outcome_bind]. by eexists.
  - intros sjob Hj. apply outcome_bind_Ok in Hj as (s & _ & Hj). apply outcome_bind_Ok in Hj as (u & _ & [= <-]). cbn.
    split_and!; [done|done|done|done|]. intros t salt padding Hsalt Hpad. split; by apply decode_encode_with.
Qed.
End Agreement.

(** ** Examples *)
Module SessionExamples.
#[local] Existing Instance PunchExamples.toy_sha.
Import ToyJson.
#[local] Instance toy_hex : Hex :=
  {| hex_encode := ServerConf.ToyConf.hex_encode; hex_decode l := match ServerConf.ToyConf.hex_decode l with inl x => Some x | _ => None end |}.

#[local] Instance toy_hex_laws : HexLaws toy_hex.
Proof.
  assert (∀ d, 0 ≤ d < 16 → in_range 0 127 (digit_char d) = true) as Hd.
  { intros d Hd. unfold digit_char, in_range. rewrite unsigned_of_Z_small by (destruct (d <? 10); lia). destruct (Z.ltb_spec d 10); lia. }
  split; intros l; simpl; [by rewrite ServerConf.ToyConf.hex_decode_encode|]. unfold is_ascii.
  induction l as [|b l IH]; [done|]. cbn [ServerConf.ToyConf.hex_encode forallb]. pose proof (byte_unsigned_range b). rewrite IH, !Hd; [done|..].
  - apply Z.mod_pos_bound. lia.
  - split; [apply Z.div_pos; lia|apply Z.div_lt_upper_bound; lia].
Qed.

#[local] Instance ConnectBody_eq_dec : EqDecision ConnectBody.
Proof. solve_decision. Defined.
#[local] Instance ConnectBody_countable : Countable ConnectBody.
Proof.
  refine (inj_countable' (λ b, (cb_addresses b, cb_nonce b, cb_obfs b)) (λ '(a, n, o), {| cb_addresses := a; cb_nonce := n; cb_obfs := o |}) _).
  by intros [].
Defined.
#[local] Instance toy_body_laws : JsonLaws (ToyJson.count_json ConnectBody) ascii_body.
Proof. split. intros x pre post _ Hpre Hpost. by apply (from_to_json (wf := λ _, True)). Qed.

(** The peer that the rendezvous answers with. *)
Definition peer_body : ConnectBody := {| cb_addresses := [str "192.0.2.7:4000"; str "nonsense"]; cb_nonce := []; cb_obfs := [] |}.
#[local] Instance toy_request : Json RegisterRequest := {| to_json b := []; from_json s := None |}.
#[local] Instance toy_response : Json RegisterResponse := {| to_json b := []; from_json s := None |}.

Definition ok_response : Response := {| rs_success := true; rs_content_type := None; rs_text := Ok (to_json peer_body); rs_chunks := [] |}.

(** A socket on IPv6, a STUN server with an address of each family, which tells
    different ports to different requests. *)
Definition net0 : Net := {|
  bind_dual_stack port := Ok (V6 0 port 0 0);
  bind_v4 port := Ok (V4 0 port);
  net_lookup _ := Ok [V4 3221225985 3478; V4 3221225986 3478; V6 (2 ^ 125 + 1) 3478 0 0];
  net_ask n a :=
    let port := 40000 + Z.of_nat n mod 1000 in if is_ipv4 a then Ok (V4 3405803783 port) else Ok (V6 (2 ^ 125 + 2) port 0 0);
  net_http _ := Ok ok_response;
|}.

Definition params0 : Params := {| p_rendezvous := str "realm://t@h/r?stun=a:1&stun=b:2"; p_stun_servers := [str "c:3"]; p_lport := None |}.

Definition found0 : list StunBinding := discover_all (net_lookup net0) (net_ask net0) (Ok (V6 0 0 0 0)) [str "a:1"; str "b:2"; str "c:3"].

Lemma stun_one_per_family_witness : length found0 = 2%nat ∧ looks_symmetric found0 = false.
Proof.
  split; [by vm_compute|]. apply (stun_one_per_family (net_lookup net0) (net_ask net0)).
  intros n a r. cbn. destruct (is_ipv4 a); by intros [= <-].
Defined.

(** Asked in turn, the two servers would have told different ports. *)
Example symmetric_nat_unseen :
  net_ask net0 0 (V4 3221225985 3478) = Ok (V4 3405803783 40000) ∧ net_ask net0 1 (V4 3221225986 3478) = Ok (V4 3405803783 40001) ∧
  looks_symmetric [{| server := V4 3221225985 3478; reflexive := V4 3405803783 40000 |}; {| server := V4 3221225986 3478; reflexive := V4 3405803783 40001 |}] = true.
Proof. by vm_compute. Qed.

Lemma addresses_exchanged_witness : ∃ out, parse_addrs (discover_addresses found0 (Ok (V6 0 0 0 0))) = Ok out ∧ NoDup out ∧ V4 3405803783 40000 ∈ out.
Proof.
  destruct (addresses_exchanged found0 (Ok (V6 0 0 0 0))) as (out & H1 & H2 & H3); [by vm_compute|repeat constructor; by vm_compute|].
  exists out. split_and!; [done..|]. apply H3. eexists. split; [by left|by vm_compute].
Defined.

Definition nonce1 : bytes := replicate 16 (b# 17).
Definition obfs1 : bytes := replicate 32 (b# 34).
Definition job1 : PunchJob :=
  {| job_local := V6 0 0 0 0; job_peers := [V4 3221225991 4000]; job_nonce := nonce1; job_obfs := obfs1 |}.

Definition registration1 : RealmServerRegistration :=
  {| rg_rc := RendezvousClient_with_options {| token := str "t"; host := str "h"; realm := str "r"; https := true;
       stun_servers := []; lport := None |}; rg_session_id := str "s"; rg_stun_servers := []; rg_heartbeat_secs := 5 |}.

Lemma session_keys_agree_witness :
  client_job net0 params0 (random_session nonce1 obfs1) = Ok job1 ∧
  ∃ punch sjob, handle_punch_job net0 registration1 punch = Ok sjob ∧ job_nonce sjob = nonce1 ∧ V4 3405803783 40000 ∈ job_peers sjob.
Proof.
  assert (client_job net0 params0 (random_session nonce1 obfs1) = Ok job1) as E by (vm_compute; reflexivity). split; [exact E|].
  destruct (session_keys_agree net0 params0 nonce1 obfs1 job1 eq_refl eq_refl) as (url & rq & resp & peer & text & punch & Hurl & _ & _ & _ & _ & _ & _ & _ & H).
  - intros n a r. cbn [net_ask net0]. pose proof (Z.mod_pos_bound (Z.of_nat n) 1000 ltac:(lia)).
    destruct (is_ipv4 a); intros [= <-]; cbn [text_addr]; lia.
  - cbn [job_local job1 text_addr]. lia.
  - exact E.
  - exists punch. destruct (H net0 registration1) as [Hok Hjob].
    destruct (Hok (V6 0 0 0 0) tt) as [sjob Hs]; [vm_compute; reflexivity..|]. exists sjob. split; [exact Hs|].
    destruct (Hjob sjob Hs) as (_ & Hp & Hn & _). split; [exact Hn|]. apply Hp.
    assert (url = {| token := str "t"; host := str "h"; realm := str "r"; https := true; stun_servers := [str "a:1"; str "b:2"]; lport := None |}) as ->.
    { vm_compute in Hurl. injection Hurl as <-. vm_compute. reflexivity. }
    assert (discover_all (net_lookup net0) (net_ask net0) (Ok (job_local job1)) ([str "a:1"; str "b:2"] ++ p_stun_servers params0) =
      {| server := V4 3221225985 3478; reflexive := V4 3405803783 40000 |} :: drop 1 found0) as Ef by (vm_compute; reflexivity).
    cbn [stun_servers]. rewrite Ef. eexists. split; [by apply list_elem_of_here|reflexivity].
Defined.
End SessionExamples.
