(* ===== verification/SubDomainsTree.v ===== *)
(** * Domain name trees (crates/shadowsocks-service/src/acl/sub_domains_tree.rs)

    The tree of an access control list that matches a domain and all its
    subdomains.  Shown: after any sequence of insertions a name is in the tree
    exactly when one of the inserted names is a suffix of it on label boundaries. *)
From S2P Require Import Prelude.

Inductive DomainPart := Part { included : bool; children : gmap bytes DomainPart }.

Abbreviation SubDomainsTree := (gmap bytes DomainPart).

Definition DomainPart_new : DomainPart := {| included := false; children := ∅ |}.

(** [u8::to_ascii_lowercase] and [str::to_ascii_lowercase]. *)
Definition byte_to_lower (b : byte) : byte :=
  let z := byte.unsigned b in if (65 <=? z) && (z <=? 90) then b# (z + 32) else b.
Definition to_ascii_lowercase (s : bytes) : bytes := byte_to_lower <$> s.

Definition DOT : byte := b# 46.

(** [str::split('.')]: one more part than there are dots. *)
Fixpoint split_dots (s : bytes) : list bytes :=
  match s with
  | [] => [[]]
  | b :: s =>
      if bool_decide (b = DOT) then [] :: split_dots s
      else match split_dots s with [] => [[b]] | part :: parts => (b :: part) :: parts end
  end.

(** [str::rsplit('.')]. *)
Definition rsplit (s : bytes) : list bytes := reverse (split_dots s).

(** The loop of [insert] on the parts of the name; when they are used up the map
    is that of the last entry. *)
Fixpoint insert_parts (parts : list bytes) (current_map : SubDomainsTree) : SubDomainsTree :=
  match parts with
  | [] => current_map
  | part :: parts =>
      let key := to_ascii_lowercase part in
      let entry := default DomainPart_new (current_map !! key) in
      if included entry then <[key := entry]> current_map
      else match parts with
           | [] => <[key := {| included := true; children := ∅ |}]> current_map
           | _ => <[key := {| included := false; children := insert_parts parts (children entry) |}]> current_map
           end
  end.

Definition tree_insert (value : bytes) (self : SubDomainsTree) : SubDomainsTree := insert_parts (rsplit value) self.

Fixpoint contains_parts (parts : list bytes) (current_map : SubDomainsTree) : bool :=
  match parts with
  | [] => false
  | part :: parts =>
      match current_map !! part with
      | Some el => if included el then true else contains_parts parts (children el)
      | None => false
      end
  end.

Definition tree_contains (value : bytes) (self : SubDomainsTree) : bool := contains_parts (rsplit value) self.

Definition tree_is_empty (self : SubDomainsTree) : bool := bool_decide (self = ∅).

(** ** Labels *)
Fixpoint join_dots (parts : list bytes) : bytes :=
  match parts with
  | [] => []
  | [part] => part
  | part :: parts => part ++ DOT :: join_dots parts
  end.

Lemma split_dots_nonempty s : split_dots s ≠ [].
Proof. destruct s as [|b s]; simpl; [done|]. case_bool_decide; [done|]. by destruct (split_dots s). Qed.

Lemma join_split s : join_dots (split_dots s) = s.
Proof.
  induction s as [|b s IH]; [done|]. simpl. pose proof (split_dots_nonempty s) as Hn. case_bool_decide as Hb.
  - subst b. destruct (split_dots s) as [|p ps]; [done|]. simpl in *. by f_equal.
  - destruct (split_dots s) as [|p ps]; [done|]. rewrite <- IH. by destruct ps.
Qed.

Lemma split_app a b : split_dots (a ++ DOT :: b) = split_dots a ++ split_dots b.
Proof.
  induction a as [|x a IH]; simpl; [done|]. pose proof (split_dots_nonempty a) as Hn.
  rewrite IH. case_bool_decide; [done|]. by destruct (split_dots a).
Qed.

Lemma join_app k s : k ≠ [] → join_dots (k ++ split_dots s) = join_dots k ++ DOT :: s.
Proof.
  induction k as [|p k IH]; [done|]. intros _. destruct k as [|q k].
  - simpl. pose proof (split_dots_nonempty s) as Hn. rewrite <- (join_split s) at 2. by destruct (split_dots s).
  - change (join_dots ((p :: q :: k) ++ split_dots s)) with (p ++ DOT :: join_dots ((q :: k) ++ split_dots s)).
    rewrite IH by done. change (join_dots (p :: q :: k)) with (p ++ DOT :: join_dots (q :: k)).
    by rewrite <- app_assoc.
Qed.

(** [v] is [h] or a parent domain of it. *)
Definition domain_suffix (v h : bytes) : Prop := h = v ∨ ∃ x, h = x ++ DOT :: v.

Lemma rsplit_prefix v h : rsplit v `prefix_of` rsplit h ↔ domain_suffix v h.
Proof.
  unfold rsplit. rewrite <- suffix_prefix_reverse. split.
  - intros [k Hk]. apply (f_equal join_dots) in Hk. rewrite join_split in Hk. destruct (decide (k = [])) as [->|Hn].
    + left. by rewrite Hk, app_nil_l, join_split.
    + right. exists (join_dots k). by rewrite Hk, join_app.
  - intros [->|[x ->]]; [done|]. rewrite split_app. by eexists.
Qed.

Lemma lower_dot b : byte_to_lower b = DOT ↔ b = DOT.
Proof. split; [|by intros ->]. revert b. by intros []. Qed.

Lemma split_lower s : split_dots (to_ascii_lowercase s) = to_ascii_lowercase <$> split_dots s.
Proof.
  induction s as [|b s IH]; [done|]. simpl. unfold to_ascii_lowercase in *. rewrite (bool_decide_ext _ (b = DOT)) by apply lower_dot.
  rewrite IH. case_bool_decide; [done|]. by destruct (split_dots s).
Qed.

Lemma rsplit_lower s : rsplit (to_ascii_lowercase s) = to_ascii_lowercase <$> rsplit s.
Proof. unfold rsplit. by rewrite split_lower, fmap_reverse. Qed.

(** ** Insertion *)
Lemma insert_parts_contains parts m h :
  parts ≠ [] →
  contains_parts h (insert_parts parts m) = contains_parts h m || bool_decide ((to_ascii_lowercase <$> parts) `prefix_of` h).
Proof.
  revert m h. induction parts as [|p parts IH]; intros m h Hn; [done|]. cbn [insert_parts fmap list_fmap].
  set (key := to_ascii_lowercase p). set (entry := default DomainPart_new (m !! key)).
  destruct h as [|q h].
  { rewrite bool_decide_false; [done|]. intros Hp. by apply prefix_nil_not in Hp. }
  rewrite (bool_decide_ext _ (key = q ∧ (to_ascii_lowercase <$> parts) `prefix_of` h)).
  2:{ split; [intros Hp; split; [by eapply prefix_cons_inv_1|by eapply prefix_cons_inv_2]|intros [-> ?]; by apply prefix_cons]. }
  destruct (decide (key = q)) as [<-|Hk].
  2:{ rewrite bool_decide_false by tauto. rewrite orb_false_r. cbn [contains_parts].
      destruct (included entry); [|destruct parts]; by rewrite lookup_insert_ne. }
  rewrite (bool_decide_ext _ ((to_ascii_lowercase <$> parts) `prefix_of` h)) by tauto.
  cbn [contains_parts]. unfold entry.
  destruct (included (default DomainPart_new (m !! key))) eqn:Hi.
  - rewrite lookup_insert_eq, Hi. destruct (m !! key) as [el|] eqn:E; simpl in *; [by rewrite Hi|done].
  - destruct parts as [|p' parts].
    + rewrite lookup_insert_eq. rewrite bool_decide_true by apply prefix_nil. by rewrite orb_true_r.
    + rewrite lookup_insert_eq. cbn [included children]. rewrite IH by done.
      destruct (m !! key) as [el|]; simpl in *; [by rewrite Hi|]. by destruct h.
Qed.

Lemma tree_insert_contains v t host :
  tree_contains host (tree_insert v t) = true ↔ tree_contains host t = true ∨ domain_suffix (to_ascii_lowercase v) host.
Proof.
  unfold tree_contains, tree_insert. rewrite insert_parts_contains.
  - by rewrite orb_true_iff, bool_decide_eq_true, <- rsplit_lower, rsplit_prefix.
  - unfold rsplit. intros Hr. apply (f_equal reverse) in Hr. rewrite reverse_involutive in Hr. by eapply split_dots_nonempty.
Qed.

(** After any sequence of insertions into an empty tree, the tree contains
    exactly the names that are one of the inserted names, in lower case, or a
    subdomain of one. *)
Theorem sub_domains_tree_spec values host :
  tree_contains host (foldl (λ t v, tree_insert v t) ∅ values) = true ↔
  ∃ v, v ∈ values ∧ domain_suffix (to_ascii_lowercase v) host.
Proof.
  induction values as [|v values IH] using rev_ind.
  { simpl. unfold tree_contains. split; [by destruct (rsplit host)|intros (v & Hv & _); by apply not_elem_of_nil in Hv]. }
  rewrite foldl_app. simpl. rewrite tree_insert_contains, IH.
  setoid_rewrite elem_of_app. setoid_rewrite list_elem_of_singleton. naive_solver.
Qed.
