(* ===== verification/Acl.v ===== *)
(** * Access control lists (crates/shadowsocks-service/src/acl/mod.rs)

    Rules in four lists, loaded from a file of sections, decide which targets are
    proxied or bypassed, which clients are refused and which outbound addresses
    are blocked.  Shown: a loaded list matches exactly what the lines of its
    section say; and each decision is the one that the lists and the mode define,
    for addresses, for names and for the addresses they resolve to. *)
From S2P Require Import Prelude.
From S2P Require Import Utf8.
From S2P Require Import StdNet.
From S2P Require Import SubDomainsTree.
From S2P Require Import Socks5.

(** ** The crates *)

(** ipnet: a network of addresses of [w] bits. *)
Record Net := { net_addr : Z; net_len : Z }.

Definition net_contains (w : Z) (n : Net) (ip : Z) : bool :=
  Z.shiftr ip (w - net_len n) =? Z.shiftr (net_addr n) (w - net_len n).

Arguments net_contains : simpl never.

(** iprange: sets of networks. *)
Class IpRangeLib := {
  IpRange : Z → Type;
  range_new {w} : IpRange w;
  range_add {w} : Net → IpRange w → IpRange w;
  range_simplify {w} : IpRange w → IpRange w;
  range_contains {w} : IpRange w → Z → bool;
  range_is_empty {w} : IpRange w → bool;
}.

Class IpRangeLaws (L : IpRangeLib) : Prop := {
  range_new_empty w ip : range_contains (range_new (w := w)) ip = false;
  range_add_contains w n (r : IpRange w) ip : range_contains (range_add n r) ip = range_contains r ip || net_contains w n ip;
  range_simplify_contains w (r : IpRange w) ip : range_contains (range_simplify r) ip = range_contains r ip;
  range_is_empty_spec w (r : IpRange w) : range_is_empty r = true → ∀ ip, range_contains r ip = false;
}.

(** regex: sets of regular expressions, which match when one of them does. *)
Class RegexLib := {
  RegexSet : Type;
  regex_compile : list bytes → option RegexSet;
  regex_is_match : RegexSet → bytes → bool;
  regex_is_empty : RegexSet → bool;
}.

Class RegexLaws (L : RegexLib) (matches : bytes → bytes → bool) : Prop := {
  regex_compile_match l s h : regex_compile l = Some s → regex_is_match s h = existsb (λ r, matches r h) l;
}.

(** The parser of networks of ipnet, [idna::domain_to_ascii] and the resolver of
    the context. *)
Inductive IpNet := NetV4 (n : Net) | NetV6 (n : Net).
Class AclEnv := {
  parse_ipnet : bytes → option IpNet;
  domain_to_ascii : bytes → option bytes;
  dns_resolve : bytes → Z → option (list SocketAddr);
}.

(** ** Rules *)
Inductive Mode := BlackList | WhiteList.

#[export] Instance Mode_eq_dec : EqDecision Mode.
Proof. solve_decision. Defined.

Definition SocketAddr_ip (a : SocketAddr) : IpAddr := match a with V4 ip _ => IpV4 ip | V6 ip _ _ _ => IpV6 ip end.

(** [host.trim_end_matches('.')]. *)
Definition trim_dots (s : bytes) : bytes := trim_end [[DOT]] s.

Section Rules.
Context `{RL : IpRangeLib, XL : RegexLib}.

Record Rules := {
  ipv4 : IpRange 32;
  ipv6 : IpRange 128;
  rule_regex : RegexSet;
  rule_set : gset bytes;
  rule_tree : SubDomainsTree;
}.

Definition Rules_new (ipv4 : IpRange 32) (ipv6 : IpRange 128) (rule_regex : RegexSet) (rule_set : gset bytes) (rule_tree : SubDomainsTree) : Rules :=
  {| ipv4 := range_simplify ipv4; ipv6 := range_simplify ipv6; rule_regex := rule_regex; rule_set := rule_set; rule_tree := rule_tree |}.

Definition check_ip_matched (self : Rules) (addr : IpAddr) : bool :=
  match addr with
  | IpV4 v4 => if range_contains (ipv4 self) v4 then true else range_contains (ipv6 self) (to_ipv6_mapped v4)
  | IpV6 v6 =>
      if range_contains (ipv6 self) v6 then true
      else match to_ipv4_mapped v6 with
           | Some mapped_ipv4 => range_contains (ipv4 self) mapped_ipv4
           | None => false
           end
  end.

Definition check_host_matched (self : Rules) (host : bytes) : bool :=
  let host := trim_dots host in
  bool_decide (host ∈ rule_set self) || tree_contains host (rule_tree self) || regex_is_match (rule_regex self) host.

Definition check_address_matched (self : Rules) (addr : Address) : bool :=
  match addr with
  | SocketAddress saddr => check_ip_matched self (SocketAddr_ip saddr)
  | DomainNameAddress domain _ => check_host_matched self domain
  end.

Definition Rules_is_ip_empty (self : Rules) : bool := range_is_empty (ipv4 self) && range_is_empty (ipv6 self).

Definition Rules_is_host_empty (self : Rules) : bool :=
  bool_decide (rule_set self = ∅) && tree_is_empty (rule_tree self) && regex_is_empty (rule_regex self).

(** ** Parsing *)
Record ParsingRules := {
  p_ipv4 : IpRange 32;
  p_ipv6 : IpRange 128;
  rules_regex : list bytes;
  rules_set : gset bytes;
  rules_tree : SubDomainsTree;
}.

Definition ParsingRules_new : ParsingRules :=
  {| p_ipv4 := range_new; p_ipv6 := range_new; rules_regex := []; rules_set := ∅; rules_tree := ∅ |}.

Definition add_ipv4_rule (rule : Net) (self : ParsingRules) : ParsingRules :=
  {| p_ipv4 := range_add rule (p_ipv4 self); p_ipv6 := p_ipv6 self; rules_regex := rules_regex self;
     rules_set := rules_set self; rules_tree := rules_tree self |}.

Definition add_ipv6_rule (rule : Net) (self : ParsingRules) : ParsingRules :=
  {| p_ipv4 := p_ipv4 self; p_ipv6 := range_add rule (p_ipv6 self); rules_regex := rules_regex self;
     rules_set := rules_set self; rules_tree := rules_tree self |}.

(** The error of [check_is_ascii] names the section and the rule, which are left
    out. *)
Definition check_is_ascii (s : bytes) : outcome io_error bytes :=
  if is_ascii s then Ok (trim_dots s) else Err (OtherKind "parsing error: Unicode not allowed here").

Definition add_set_rule (rule : bytes) (self : ParsingRules) : outcome io_error ParsingRules :=
  s ← check_is_ascii rule;
  Ok {| p_ipv4 := p_ipv4 self; p_ipv6 := p_ipv6 self; rules_regex := rules_regex self;
        rules_set := {[ to_ascii_lowercase s ]} ∪ rules_set self; rules_tree := rules_tree self |}.

Definition add_tree_rule (rule : bytes) (self : ParsingRules) : outcome io_error ParsingRules :=
  s ← check_is_ascii rule;
  Ok {| p_ipv4 := p_ipv4 self; p_ipv6 := p_ipv6 self; rules_regex := rules_regex self;
        rules_set := rules_set self; rules_tree := tree_insert s (rules_tree self) |}.

(** *** The shape TREE_SET_RULE_EQUIV

    [labels] matches one or more runs of [\w] and [-], each perhaps followed by an
    escaped dot: [some] says that there was one, [word] that the last byte was not
    an escaped dot. *)
Definition is_word (b : byte) : bool :=
  let z := byte.unsigned b in
  ((48 <=? z) && (z <=? 57)) || ((65 <=? z) && (z <=? 90)) || ((97 <=? z) && (z <=? 122)) || (z =? 95) || (z =? 45).

Definition BACKSLASH : byte := b# 92.

Fixpoint labels (some word : bool) (s : bytes) : bool :=
  match s with
  | [] => some
  | b :: s =>
      if is_word b then labels true true s
      else match s with
           | c :: s => word && bool_decide (b = BACKSLASH) && bool_decide (c = DOT) && labels true false s
           | [] => false
           end
  end.

(** The capture group after one of the prefixes. *)
Definition capture (prefixes : list bytes) (rule : bytes) : option bytes :=
  rest ← strip_any prefixes rule;
  let body := default rest (strip_suffix (str "$") rest) in
  if labels false false body then Some body else None.

Definition tree_prefixes : list bytes := str <$> ["(^|\.)"; "(?:^|\.)"; "^.+\."; "^.*\."; "\."].
Definition set_prefixes : list bytes := [str "^"].

(** [replace("\\.", ".")]. *)
Fixpoint unescape_dots (s : bytes) : bytes :=
  match s with
  | b :: ((c :: s) as s') =>
      if bool_decide (b = BACKSLASH) && bool_decide (c = DOT) then DOT :: unescape_dots s else b :: unescape_dots s'
  | _ => s
  end.

Definition push_regex (rule : bytes) (self : ParsingRules) : ParsingRules :=
  {| p_ipv4 := p_ipv4 self; p_ipv6 := p_ipv6 self; rules_regex := rules_regex self ++ [to_ascii_lowercase rule];
     rules_set := rules_set self; rules_tree := rules_tree self |}.

Definition add_regex_rule (rule : bytes) (self : ParsingRules) : ParsingRules :=
  match capture tree_prefixes rule with
  | Some tree_rule =>
      match add_tree_rule (unescape_dots tree_rule) self with Ok self => self | _ => push_regex rule self end
  | None =>
      match capture set_prefixes rule with
      | Some set_rule =>
          match add_set_rule (unescape_dots set_rule) self with Ok self => self | _ => push_regex rule self end
      | None => push_regex rule self
      end
  end.

Definition into_rules (self : ParsingRules) : outcome io_error Rules :=
  match regex_compile (rules_regex self) with
  | Some set => Ok (Rules_new (p_ipv4 self) (p_ipv6 self) set (rules_set self) (rules_tree self))
  | None => Err (OtherKind "regex error")
  end.

(** *** Files *)
Record AccessControl := {
  outbound_block : Rules;
  outbound_allow : Rules;
  black_list : Rules;
  white_list : Rules;
  mode : Mode;
  outbound_mode : Mode;
}.

(** The list that rules are added to. *)
Inductive Section_ := OutboundBlock | OutboundAllow | Bypass | Proxy.

#[global] Instance Section_eq_dec : EqDecision Section_.
Proof. solve_decision. Defined.

Record Loading := { l_mode : Mode; l_outbound_mode : Mode; l_rules : Section_ → ParsingRules; l_curr : Section_ }.

Definition Loading_new : Loading :=
  {| l_mode := BlackList; l_outbound_mode := BlackList; l_rules := λ _, ParsingRules_new; l_curr := Bypass |}.

(** [curr.add_..()]. *)
Definition with_curr (f : ParsingRules → ParsingRules) (l : Loading) : Loading :=
  {| l_mode := l_mode l; l_outbound_mode := l_outbound_mode l;
     l_rules := λ s, if bool_decide (s = l_curr l) then f (l_rules l (l_curr l)) else l_rules l s; l_curr := l_curr l |}.

Definition with_curr_result (r : outcome io_error ParsingRules) (l : Loading) : outcome io_error Loading :=
  rules ← r; Ok (with_curr (λ _, rules) l).

Definition set_mode (m : Mode) (l : Loading) : Loading :=
  {| l_mode := m; l_outbound_mode := l_outbound_mode l; l_rules := l_rules l; l_curr := l_curr l |}.
Definition set_outbound_mode (m : Mode) (l : Loading) : Loading :=
  {| l_mode := l_mode l; l_outbound_mode := m; l_rules := l_rules l; l_curr := l_curr l |}.
Definition set_section (s : Section_) (l : Loading) : Loading :=
  {| l_mode := l_mode l; l_outbound_mode := l_outbound_mode l; l_rules := l_rules l; l_curr := s |}.

(** The lines that switch the mode or the section. *)
Inductive directive := SetMode (m : Mode) | SetOutboundMode (m : Mode) | SetSection (s : Section_).

Definition apply_directive (d : directive) (l : Loading) : Loading :=
  match d with SetMode m => set_mode m l | SetOutboundMode m => set_outbound_mode m l | SetSection s => set_section s l end.

Definition directives : list (bytes * directive) :=
  [(str "[reject_all]", SetMode WhiteList); (str "[bypass_all]", SetMode WhiteList);
   (str "[accept_all]", SetMode BlackList); (str "[proxy_all]", SetMode BlackList);
   (str "[outbound_block_all]", SetOutboundMode WhiteList); (str "[outbound_allow_all]", SetOutboundMode BlackList);
   (str "[outbound_block_list]", SetSection OutboundBlock); (str "[outbound_allow_list]", SetSection OutboundAllow);
   (str "[black_list]", SetSection Bypass); (str "[bypass_list]", SetSection Bypass);
   (str "[white_list]", SetSection Proxy); (str "[proxy_list]", SetSection Proxy)].

Fixpoint find_directive {A} (ds : list (bytes * A)) (line : bytes) : option A :=
  match ds with
  | [] => None
  | (name, a) :: ds => if bool_decide (line = name) then Some a else find_directive ds line
  end.

Context `{AE : AclEnv}.

Definition add_line_rule (line : bytes) (l : Loading) : Loading :=
  match parse_ipnet line with
  | Some (NetV4 v4) => with_curr (add_ipv4_rule v4) l
  | Some (NetV6 v6) => with_curr (add_ipv6_rule v6) l
  | None =>
      match parse_ip line with
      | Some (IpV4 v4) => with_curr (add_ipv4_rule {| net_addr := v4; net_len := 32 |}) l
      | Some (IpV6 v6) => with_curr (add_ipv6_rule {| net_addr := v6; net_len := 128 |}) l
      | None => with_curr (add_regex_rule line) l
      end
  end.

(** One turn of the loop over the lines. *)
Definition load_line (line : bytes) (l : Loading) : outcome io_error Loading :=
  if bool_decide (line = []) then Ok l
  else if bool_decide (take 1 line = str "#") then Ok l
  else
    let line := trim line in
    if negb (is_ascii line) then Ok l
    else match strip_prefix (str "||") line with
         | Some rule => with_curr_result (add_tree_rule rule (l_rules l (l_curr l))) l
         | None =>
             match strip_prefix (str "|") line with
             | Some rule => with_curr_result (add_set_rule rule (l_rules l (l_curr l))) l
             | None =>
                 match find_directive directives line with
                 | Some d => Ok (apply_directive d l)
                 | None => Ok (add_line_rule line l)
                 end
             end
         end.

Fixpoint load_lines (lines : list (outcome io_error bytes)) (l : Loading) : outcome io_error Loading :=
  match lines with
  | [] => Ok l
  | line :: lines => line ← line; l ← load_line line l; load_lines lines l
  end.

(** [load_from_file] on the lines of the file. *)
Definition load_from_file (lines : list (outcome io_error bytes)) : outcome io_error AccessControl :=
  l ← load_lines lines Loading_new;
  outbound_block ← into_rules (l_rules l OutboundBlock);
  outbound_allow ← into_rules (l_rules l OutboundAllow);
  black_list ← into_rules (l_rules l Bypass);
  white_list ← into_rules (l_rules l Proxy);
  Ok {| outbound_block := outbound_block; outbound_allow := outbound_allow; black_list := black_list;
        white_list := white_list; mode := l_mode l; outbound_mode := l_outbound_mode l |}.

(** ** Decisions *)
Definition convert_to_ascii (host : bytes) : bytes := default host (domain_to_ascii host).

Definition check_ascii_host_in_proxy_list (self : AccessControl) (host : bytes) : option bool :=
  if check_host_matched (white_list self) host then Some true
  else if check_host_matched (black_list self) host then Some false
  else None.

Definition check_host_in_proxy_list (self : AccessControl) (host : bytes) : option bool :=
  check_ascii_host_in_proxy_list self (convert_to_ascii host).

Definition is_ip_empty (self : AccessControl) : bool :=
  Rules_is_ip_empty (black_list self) && Rules_is_ip_empty (white_list self).
Definition is_host_empty (self : AccessControl) : bool :=
  Rules_is_host_empty (black_list self) && Rules_is_host_empty (white_list self).

Definition is_default_in_proxy_list (self : AccessControl) : bool :=
  match mode self with BlackList => true | WhiteList => false end.

Definition check_ip_in_proxy_list (self : AccessControl) (ip : IpAddr) : bool :=
  if check_ip_matched (black_list self) ip then false
  else if check_ip_matched (white_list self) ip then true
  else is_default_in_proxy_list self.

(** The loop over the resolved addresses: whether one of them is matched. *)
Fixpoint any_matched (rules : Rules) (vaddr : list SocketAddr) : bool :=
  match vaddr with
  | [] => false
  | addr :: vaddr => if check_ip_matched rules (SocketAddr_ip addr) then true else any_matched rules vaddr
  end.

Definition check_target_bypassed (self : AccessControl) (addr : Address) : bool :=
  match addr with
  | SocketAddress addr => negb (check_ip_in_proxy_list self (SocketAddr_ip addr))
  | DomainNameAddress host port =>
      match check_host_in_proxy_list self host with
      | Some value => negb value
      | None =>
          let '(check_list, bypass_if_matched) :=
            match mode self with BlackList => (black_list self, true) | WhiteList => (white_list self, false) end in
          if Rules_is_ip_empty check_list then negb (is_default_in_proxy_list self)
          else match dns_resolve host port with
               | Some vaddr => if any_matched check_list vaddr then bypass_if_matched else negb (is_default_in_proxy_list self)
               | None => negb (is_default_in_proxy_list self)
               end
      end
  end.

Definition check_client_blocked (self : AccessControl) (addr : SocketAddr) : bool :=
  match mode self with
  | BlackList => check_ip_matched (black_list self) (SocketAddr_ip addr)
  | WhiteList => negb (check_ip_matched (white_list self) (SocketAddr_ip addr))
  end.

Definition is_outbound_default_blocked (self : AccessControl) : bool :=
  match outbound_mode self with BlackList => false | WhiteList => true end.

Definition check_outbound_ip_blocked (self : AccessControl) (ip : IpAddr) : bool :=
  if check_ip_matched (outbound_block self) ip then true
  else if check_ip_matched (outbound_allow self) ip then false
  else is_outbound_default_blocked self.

Definition check_outbound_blocked (self : AccessControl) (outbound : Address) : bool :=
  match outbound with
  | SocketAddress saddr => check_outbound_ip_blocked self (SocketAddr_ip saddr)
  | DomainNameAddress host port =>
      let ascii_host := convert_to_ascii host in
      if check_host_matched (outbound_block self) ascii_host then true
      else if check_host_matched (outbound_allow self) ascii_host then false
      else
        let '(check_rule, block_if_matched) :=
          match outbound_mode self with BlackList => (outbound_block self, true) | WhiteList => (outbound_allow self, false) end in
        if Rules_is_ip_empty check_rule then is_outbound_default_blocked self
        else match dns_resolve host port with
             | Some vaddr => if any_matched check_rule vaddr then block_if_matched else is_outbound_default_blocked self
             | None => is_outbound_default_blocked self
             end
  end.
End Rules.

(** ** What a file says

    The lines of a file and the hosts and addresses they name, written down from
    the documentation of the file format and of the shapes of regular expressions,
    and not with the parsing functions. *)
Inductive rule := RNet4 (n : Net) | RNet6 (n : Net) | RTree (domain : bytes) | RSet (domain : bytes) | RRegex (r : bytes).

Inductive meaning := Ignored | Switches (d : directive) | Adds (r : rule).

(** A domain as the lists keep it. *)
Definition canonical (domain : bytes) : bytes := to_ascii_lowercase (trim_dots domain).

(** *** Regular expressions for domains

    A domain is written as its labels with [\.] in between and perhaps at the end.
    In front of it comes how a host may begin, after it perhaps the end of the
    host. *)
Inductive opening := StartOrDot | StartOrDotGroup | SomeThenDot | AnyThenDot | OnlyDot | Start.

Definition opening_text (o : opening) : bytes :=
  match o with
  | StartOrDot => str "(^|\.)"
  | StartOrDotGroup => str "(?:^|\.)"
  | SomeThenDot => str "^.+\."
  | AnyThenDot => str "^.*\."
  | OnlyDot => str "\."
  | Start => str "^"
  end.

Definition word_bytes : bytes := str "abcdefghijklmnopqrstuvwxyzABCDEFGHIJKLMNOPQRSTUVWXYZ0123456789_-".

Definition label (l : bytes) : Prop := l ≠ [] ∧ ∀ b, b ∈ l → b ∈ word_bytes.

Definition separated (sep : bytes) (ls : list bytes) : bytes :=
  match ls with [] => [] | l :: ls => l ++ concat (map (app sep) ls) end.

Record domain_regex := { dr_opening : opening; dr_labels : list bytes; dr_final_dot : bool; dr_end : bool }.

Definition domain_regex_ok (x : domain_regex) : Prop := dr_labels x ≠ [] ∧ ∀ l, l ∈ dr_labels x → label l.

Definition regex_text (x : domain_regex) : bytes :=
  opening_text (dr_opening x) ++ (separated (str "\.") (dr_labels x) ++ (if dr_final_dot x then str "\." else [])) ++
  (if dr_end x then str "$" else []).

Definition regex_name (x : domain_regex) : bytes :=
  separated (str ".") (dr_labels x) ++ (if dr_final_dot x then str "." else []).

(** Such a regular expression stands for the domain alone if it begins at the start
    of the host, and otherwise for the domain and its subdomains. *)
Definition regex_domain (x : domain_regex) : rule :=
  match dr_opening x with Start => RSet (regex_name x) | _ => RTree (regex_name x) end.

(** *** Lines *)
Definition header_texts (d : directive) : list bytes :=
  str <$> match d with
          | SetMode WhiteList => ["[bypass_all]"; "[reject_all]"]
          | SetMode BlackList => ["[proxy_all]"; "[accept_all]"]
          | SetOutboundMode WhiteList => ["[outbound_block_all]"]
          | SetOutboundMode BlackList => ["[outbound_allow_all]"]
          | SetSection Bypass => ["[bypass_list]"; "[black_list]"]
          | SetSection Proxy => ["[proxy_list]"; "[white_list]"]
          | SetSection OutboundBlock => ["[outbound_block_list]"]
          | SetSection OutboundAllow => ["[outbound_allow_list]"]
          end%string.

(** A network, or an address, which is a network of its own. *)
Definition network_of `{AclEnv} (t : bytes) : option rule :=
  match parse_ipnet t, parse_ip t with
  | Some (NetV4 n), _ => Some (RNet4 n)
  | Some (NetV6 n), _ => Some (RNet6 n)
  | None, Some (IpV4 ip) => Some (RNet4 {| net_addr := ip; net_len := 32 |})
  | None, Some (IpV6 ip) => Some (RNet6 {| net_addr := ip; net_len := 128 |})
  | None, None => None
  end.

Inductive text_means `{AclEnv} (t : bytes) : meaning → Prop :=
| text_subdomains d : t = str "||" ++ d → text_means t (Adds (RTree d))
| text_domain d : t = str "|" ++ d → (∀ d', t ≠ str "||" ++ d') → text_means t (Adds (RSet d))
| text_header d : t ∈ header_texts d → text_means t (Switches d)
| text_network r :
    (∀ d, t ≠ str "|" ++ d) → (∀ d, t ∉ header_texts d) → network_of t = Some r → text_means t (Adds r)
| text_domain_regex x :
    (∀ d, t ≠ str "|" ++ d) → (∀ d, t ∉ header_texts d) → network_of t = None →
    domain_regex_ok x → t = regex_text x → text_means t (Adds (regex_domain x))
| text_regex :
    (∀ d, t ≠ str "|" ++ d) → (∀ d, t ∉ header_texts d) → network_of t = None →
    (∀ x, domain_regex_ok x → t ≠ regex_text x) → text_means t (Adds (RRegex (to_ascii_lowercase t))).

(** Empty lines, comments and lines outside ASCII say nothing. *)
Definition silent (line : bytes) : Prop := line = [] ∨ (∃ c, line = str "#" ++ c) ∨ is_ascii (trim line) = false.

Definition means `{AclEnv} (line : bytes) (m : meaning) : Prop :=
  silent line ∧ m = Ignored ∨ ¬ silent line ∧ text_means (trim line) m.

(** The rules of the section [s], in a file read with [curr] selected. *)
Fixpoint section_rules (s curr : Section_) (ms : list meaning) : list rule :=
  match ms with
  | [] => []
  | Ignored :: ms => section_rules s curr ms
  | Switches (SetSection next) :: ms => section_rules s next ms
  | Switches _ :: ms => section_rules s curr ms
  | Adds r :: ms => (if bool_decide (s = curr) then [r] else []) ++ section_rules s curr ms
  end.

Definition last_mode (ms : list meaning) : Mode :=
  foldl (λ m x, match x with Switches (SetMode m) => m | _ => m end) BlackList ms.
Definition last_outbound_mode (ms : list meaning) : Mode :=
  foldl (λ m x, match x with Switches (SetOutboundMode m) => m | _ => m end) BlackList ms.

Definition section_of `{IpRangeLib, RegexLib} (s : Section_) (acl : AccessControl) : Rules :=
  match s with OutboundBlock => outbound_block acl | OutboundAllow => outbound_allow acl | Bypass => black_list acl | Proxy => white_list acl end.

(** ** The parsing functions read it

    [meaning_of] puts the parsing functions together without the lists. *)
Definition regex_rule (line : bytes) : rule :=
  match capture tree_prefixes line with
  | Some d => RTree (unescape_dots d)
  | None => match capture set_prefixes line with Some d => RSet (unescape_dots d) | None => RRegex (to_ascii_lowercase line) end
  end.

Definition meaning_of `{AclEnv} (line : bytes) : meaning :=
  if bool_decide (line = []) || bool_decide (take 1 line = str "#") || negb (is_ascii (trim line)) then Ignored
  else match strip_prefix (str "||") (trim line), strip_prefix (str "|") (trim line), find_directive directives (trim line) with
       | Some d, _, _ => Adds (RTree d)
       | None, Some d, _ => Adds (RSet d)
       | None, None, Some d => Switches d
       | None, None, None => Adds (default (regex_rule (trim line)) (network_of (trim line)))
       end.

(** *** Domains in regular expressions *)
Lemma is_word_spec b : is_word b = true ↔ b ∈ word_bytes.
Proof. assert (is_word b = bool_decide (b ∈ word_bytes)) as -> by (by destruct b; vm_compute). by rewrite bool_decide_eq_true. Qed.

Lemma label_cons b w : is_word b = true → (∀ x, x ∈ w → x ∈ word_bytes) → label (b :: w).
Proof. intros Hb%is_word_spec Hw. split; [done|]. by intros x [->|?%Hw]%elem_of_cons. Qed.

Abbreviation escaped_tail w ls fd := (w ++ concat (map (app (str "\.")) ls) ++ (if fd : bool then str "\." else [])).

Lemma labels_sound s :
  labels true true s = true →
  ∃ w ls fd, (∀ b, b ∈ w → b ∈ word_bytes) ∧ (∀ l, l ∈ ls → label l) ∧ s = escaped_tail w ls fd.
Proof.
  induction s as [s IH] using (induction_ltof1 _ length). unfold ltof in IH. intros Hs.
  destruct s as [|b s]; [exists [], [], false; split_and!; [set_solver|set_solver|done]|]. cbn [labels] in Hs.
  destruct (is_word b) eqn:Hb.
  { destruct (IH s ltac:(simpl; lia) Hs) as (w & ls & fd & Hw & Hls & ->). exists (b :: w), ls, fd.
    split_and!; [by apply label_cons|done|done]. }
  destruct s as [|c s]; [done|]. rewrite !andb_true_iff, !bool_decide_eq_true in Hs. destruct Hs as [[[_ ->] ->] Hs].
  destruct s as [|b' s]; [exists [], [], true; split_and!; [set_solver|set_solver|done]|]. cbn [labels] in Hs.
  destruct (is_word b') eqn:Hb'; [|by destruct s].
  destruct (IH s ltac:(simpl; lia) Hs) as (w & ls & fd & Hw & Hls & ->). exists [], ((b' :: w) :: ls), fd.
  split_and!; [set_solver| |simpl; by rewrite <- app_assoc]. intros l [->|Hl]%elem_of_cons; [by apply label_cons|by apply Hls].
Qed.

Lemma labels_word (some word : bool) w s :
  (∀ b, b ∈ w → b ∈ word_bytes) → w ≠ [] → labels some word (w ++ s) = labels true true s.
Proof.
  revert some word. induction w as [|b w IH]; intros some word Hw Hne; [done|]. cbn [app labels].
  rewrite (proj2 (is_word_spec b)) by (apply Hw; set_solver). destruct w; [done|]. apply IH; [set_solver|done].
Qed.

Lemma labels_complete ls (fd : bool) :
  (∀ l, l ∈ ls → label l) → labels true true (concat (map (app (str "\.")) ls) ++ (if fd then str "\." else [])) = true.
Proof.
  induction ls as [|l ls IH]; intros Hls; [by destruct fd|]. rewrite map_cons, concat_cons, <- !app_assoc.
  set (s := concat _ ++ _) in *. change (labels true false (l ++ s) = true).
  destruct (Hls l) as [Hne Hl]; [set_solver|]. rewrite labels_word by done. apply IH. set_solver.
Qed.

Lemma unescape_word w s : (∀ b, b ∈ w → b ∈ word_bytes) → unescape_dots (w ++ s) = w ++ unescape_dots s.
Proof.
  induction w as [|b w IH]; intros Hw; [done|].
  assert (b ≠ BACKSLASH) as Hb by (intros ->; assert (BACKSLASH ∈ word_bytes) as H by set_solver; vm_compute in H; set_solver).
  cbn [app]. rewrite <- IH by set_solver. cbn [unescape_dots]. destruct (w ++ s); [done|]. by rewrite (bool_decide_false (b = BACKSLASH)).
Qed.

Lemma unescape_tail ls (fd : bool) :
  (∀ l, l ∈ ls → label l) →
  unescape_dots (concat (map (app (str "\.")) ls) ++ (if fd then str "\." else [])) =
  concat (map (app (str ".")) ls) ++ (if fd then str "." else []).
Proof.
  induction ls as [|l ls IH]; intros Hls; [by destruct fd|]. rewrite !map_cons, !concat_cons, <- !app_assoc.
  set (s := concat _ ++ _) in *. transitivity (str "." ++ unescape_dots (l ++ s)); [reflexivity|].
  destruct (Hls l) as [Hne Hl]; [set_solver|]. rewrite unescape_word by done. rewrite IH by set_solver. done.
Qed.

Lemma labels_start d :
  labels false false d = true ↔
  ∃ ls (fd : bool), (ls ≠ [] ∧ ∀ l, l ∈ ls → label l) ∧ d = separated (str "\.") ls ++ (if fd then str "\." else []).
Proof.
  split.
  - destruct d as [|b s]; [done|]. cbn [labels]. destruct (is_word b) eqn:Hb; [|by destruct s]. intros Hs.
    destruct (labels_sound s Hs) as (w & ls & fd & Hw & Hls & ->). exists ((b :: w) :: ls), fd. split; [split; [done|]|].
    + intros l [->|Hl]%elem_of_cons; [by apply label_cons|by apply Hls].
    + simpl. by rewrite <- app_assoc.
  - intros ([|l ls] & fd & [Hne Hls] & ->); [done|]. destruct (Hls l) as [Hl1 Hl2]; [set_solver|].
    simpl. rewrite <- app_assoc, labels_word by done. apply labels_complete. set_solver.
Qed.

Lemma labels_no_dollar s (some word : bool) : labels some word s = true → b# 36 ∉ s.
Proof.
  revert some word. induction s as [s IH] using (induction_ltof1 _ length). unfold ltof in IH. intros some word Hs.
  destruct s as [|b s]; [set_solver|]. cbn [labels] in Hs. destruct (is_word b) eqn:Hb.
  { apply not_elem_of_cons. split; [by intros <-|]. eapply (IH s); [simpl; lia|done]. }
  destruct s as [|c s]; [done|]. rewrite !andb_true_iff, !bool_decide_eq_true in Hs. destruct Hs as [[[_ ->] ->] Hs].
  rewrite !not_elem_of_cons. split_and!; [done..|]. eapply (IH s); [simpl; lia|done].
Qed.

Lemma strip_any_Some ps s r : strip_any ps s = Some r → ∃ p, p ∈ ps ∧ s = p ++ r.
Proof.
  induction ps as [|p ps IH]; [done|]. simpl. destruct (strip_prefix p s) as [x|] eqn:E.
  - intros [= ->]. apply strip_prefix_Some in E. exists p. set_solver.
  - intros (q & Hq & ->)%IH. exists q. set_solver.
Qed.

Lemma capture_sound ps line d :
  capture ps line = Some d →
  ∃ p (e : bool), p ∈ ps ∧ line = p ++ d ++ (if e then str "$" else []) ∧ labels false false d = true.
Proof.
  unfold capture. destruct (strip_any ps line) as [rest|] eqn:E; [|done]. cbn [mbind option_bind].
  apply strip_any_Some in E as (p & Hp & ->). destruct (labels _ _ _) eqn:Hl; [|done]. intros [= <-].
  destruct (strip_suffix (str "$") rest) as [x|] eqn:Es; cbn [default] in *.
  - apply strip_suffix_Some in Es as ->. by exists p, true.
  - exists p, false. by rewrite app_nil_r.
Qed.

Lemma capture_complete ps line d (e : bool) :
  strip_any ps line = Some (d ++ if e then str "$" else []) → labels false false d = true → capture ps line = Some d.
Proof.
  intros E Hl. unfold capture. rewrite E. cbn [mbind option_bind].
  assert (default (d ++ if e then str "$" else []) (strip_suffix (str "$") (d ++ if e then str "$" else [])) = d) as ->; [|by rewrite Hl].
  destruct e; [by rewrite (proj2 (strip_suffix_Some _ _ d))|]. rewrite app_nil_r.
  destruct (strip_suffix (str "$") d) as [x|] eqn:Es; [|done]. apply strip_suffix_Some in Es as ->.
  apply labels_no_dollar in Hl. exfalso. apply Hl, elem_of_app. right. by apply list_elem_of_here.
Qed.

Lemma strip_any_start b s : b ∈ word_bytes → strip_any tree_prefixes (str "^" ++ b :: s) = None.
Proof.
  intros Hb. destruct (strip_any _ _) as [r|] eqn:E; [|done]. apply strip_any_Some in E as (p & Hp & E).
  assert (b ≠ DOT) by (intros ->; vm_compute in Hb; set_solver).
  unfold tree_prefixes in Hp. simpl in Hp. rewrite !elem_of_cons in Hp.
  destruct_or? Hp; try subst p; first [by apply not_elem_of_nil in Hp|simplify_eq/=].
Qed.

Lemma regex_rule_domain x : domain_regex_ok x → regex_rule (regex_text x) = regex_domain x.
Proof.
  intros [Hne Hls]. destruct x as [o ls fd e]. unfold regex_text, regex_name, regex_domain. cbn [dr_opening dr_labels dr_final_dot dr_end] in *.
  set (d := separated (str "\.") ls ++ (if fd then str "\." else [])).
  assert (labels false false d = true) as Hd by (apply labels_start; eauto).
  assert (unescape_dots d = separated (str ".") ls ++ (if fd then str "." else [])) as Hu.
  { unfold d. destruct ls as [|l ls]; [done|]. simpl. rewrite <- !app_assoc. destruct (Hls l) as [_ Hl]; [set_solver|].
    rewrite unescape_word, unescape_tail by set_solver. done. }
  unfold regex_rule. destruct o; cbn [opening_text];
    try (rewrite (capture_complete tree_prefixes _ d e) by (reflexivity || done); unfold regex_name; simpl; by rewrite <- Hu).
  assert (strip_any tree_prefixes (str "^" ++ d ++ (if e then str "$" else [])) = None) as Hn.
  { destruct ls as [|l ls]; [done|]. destruct (Hls l) as [Hl1 Hl2]; [set_solver|].
    unfold d. destruct l as [|b l]; [done|]. apply strip_any_start, Hl2. set_solver. }
  unfold capture at 1. rewrite Hn. cbn [mbind option_bind].
  rewrite (capture_complete set_prefixes _ d e) by (reflexivity || done). unfold regex_name. simpl. by rewrite <- Hu.
Qed.

Lemma regex_rule_cases t :
  (∃ x, domain_regex_ok x ∧ t = regex_text x) ∨
  (∀ x, domain_regex_ok x → t ≠ regex_text x) ∧ regex_rule t = RRegex (to_ascii_lowercase t).
Proof.
  assert (∀ o d (e : bool), labels false false d = true → t = opening_text o ++ d ++ (if e then str "$" else []) →
    ∃ x, domain_regex_ok x ∧ t = regex_text x) as Ho.
  { intros o d e (ls & fd & Hok & ->)%labels_start E.
    by exists {| dr_opening := o; dr_labels := ls; dr_final_dot := fd; dr_end := e |}. }
  destruct (capture tree_prefixes t) as [d|] eqn:E.
  { left. apply capture_sound in E as (p & e & Hp & Et & Hd).
    unfold tree_prefixes in Hp. simpl in Hp. rewrite !elem_of_cons in Hp.
    destruct_or? Hp; [subst p..|by apply not_elem_of_nil in Hp];
      [by apply (Ho StartOrDot d e)|by apply (Ho StartOrDotGroup d e)|by apply (Ho SomeThenDot d e)|
       by apply (Ho AnyThenDot d e)|by apply (Ho OnlyDot d e)]. }
  destruct (capture set_prefixes t) as [d|] eqn:E2.
  { left. apply capture_sound in E2 as (p & e & ->%list_elem_of_singleton & Et & Hd). by apply (Ho Start d e Hd). }
  right. assert (regex_rule t = RRegex (to_ascii_lowercase t)) as Hr by (unfold regex_rule; by rewrite E, E2).
  split; [|done]. intros x Hx ->. rewrite regex_rule_domain in Hr by done. unfold regex_domain in Hr. by destruct (dr_opening x).
Qed.

(** *** Headers *)
Lemma find_directive_elem {A} (ds : list (bytes * A)) t a : find_directive ds t = Some a → (t, a) ∈ ds.
Proof. induction ds as [|[n x] ds IH]; [done|]. simpl. case_bool_decide as E; [intros [= ->]; subst; set_solver|intros ?%IH; set_solver]. Qed.

Lemma find_directive_spec t d : find_directive directives t = Some d ↔ t ∈ header_texts d.
Proof.
  split.
  - intros H%find_directive_elem. unfold directives in H. rewrite !elem_of_cons in H. destruct_or? H; try by apply not_elem_of_nil in H.
    all: injection H as -> ->; unfold header_texts; simpl; set_solver.
  - unfold header_texts. destruct d as [[]|[]|[]]; simpl; rewrite ?elem_of_cons, elem_of_nil; intros H; destruct_or? H; subst; done.
Qed.

Section Means.
Context `{AE : AclEnv}.

Lemma silent_spec line :
  bool_decide (line = []) || bool_decide (take 1 line = str "#") || negb (is_ascii (trim line)) = true ↔ silent line.
Proof.
  unfold silent. rewrite !orb_true_iff, !bool_decide_eq_true, negb_true_iff.
  assert (take 1 line = str "#" ↔ ∃ c, line = str "#" ++ c) as ->; [|tauto].
  split; [|by intros (c & ->)]. destruct line as [|b l]; [done|]. intros [= ->]. by exists l.
Qed.

Lemma text_means_spec t m :
  text_means t m ↔
  m = match strip_prefix (str "||") t, strip_prefix (str "|") t, find_directive directives t with
      | Some d, _, _ => Adds (RTree d)
      | None, Some d, _ => Adds (RSet d)
      | None, None, Some d => Switches d
      | None, None, None => Adds (default (regex_rule t) (network_of t))
      end.
Proof.
  assert (∀ d, t ∈ header_texts d → ∀ d', t ≠ str "|" ++ d') as Hh.
  { intros d Ht d' ->. unfold header_texts in Ht. apply list_elem_of_fmap in Ht as (h & E & Hin).
    destruct d as [[]|[]|[]]; rewrite ?elem_of_cons, elem_of_nil in Hin; destruct_or? Hin; subst h; done. }
  assert (∀ p, (∀ d, t ≠ p ++ d) ↔ strip_prefix p t = None) as Hp.
  { intros p. destruct (strip_prefix p t) as [r|] eqn:E; [|split; [done|]; intros _ d ->; by rewrite strip_prefix_app in E].
    apply strip_prefix_Some in E. split; [|done]. intros H. by destruct (H r). }
  assert (strip_prefix (str "|") t = None → strip_prefix (str "||") t = None) as Hpp.
  { rewrite <- !Hp. intros H d ->. by apply (H (str "|" ++ d)). }
  assert ((∀ d, t ∉ header_texts d) ↔ find_directive directives t = None) as Hd.
  { setoid_rewrite <- find_directive_spec. destruct (find_directive directives t) as [d|]; [|split; done].
    split; [|done]. intros H. by destruct (H d). }
  split.
  - intros [d ->|d -> Hn|d Ht|r Hn%Hp Ht%Hd Hr|x Hn%Hp Ht%Hd Hr Hx Ex|Hn%Hp Ht%Hd Hr Hx].
    + by rewrite strip_prefix_app.
    + by rewrite (proj1 (Hp _) Hn), strip_prefix_app.
    + pose proof (proj1 (Hp (str "|")) (Hh d Ht)) as E. rewrite (Hpp E), E. by rewrite (proj2 (find_directive_spec t d) Ht).
    + by rewrite (Hpp Hn), Hn, Ht, Hr.
    + rewrite (Hpp Hn), Hn, Ht, Hr. simpl. by rewrite Ex, regex_rule_domain.
    + rewrite (Hpp Hn), Hn, Ht, Hr. simpl. destruct (regex_rule_cases t) as [(x & Hok & Ex)|[_ ->]]; [by destruct (Hx x)|done].
  - intros ->. destruct (strip_prefix (str "||") t) as [d|] eqn:E2; [by apply text_subdomains, strip_prefix_Some|].
    destruct (strip_prefix (str "|") t) as [d|] eqn:E1.
    { apply text_domain; [by apply strip_prefix_Some|by apply Hp]. }
    destruct (find_directive directives t) as [d|] eqn:Ef; [by apply text_header, find_directive_spec|].
    destruct (network_of t) as [r|] eqn:En; [apply text_network; [by apply Hp|by apply Hd|done]|]. simpl.
    destruct (regex_rule_cases t) as [(x & Hok & Ex)|[Hx ->]].
    + rewrite Ex at 2. rewrite regex_rule_domain by done. by apply text_domain_regex; [apply Hp|apply Hd|..].
    + by apply text_regex; [apply Hp|apply Hd|..].
Qed.

(** Every line has exactly one meaning. *)
Lemma means_spec line m : means line m ↔ m = meaning_of line.
Proof.
  unfold means, meaning_of. pose proof (silent_spec line) as Hs. rewrite text_means_spec.
  destruct (_ || _ || _); [assert (silent line) by (by apply Hs)|assert (¬ silent line) by (by rewrite <- Hs)]; tauto.
Qed.

Lemma means_lines lines ms : Forall2 means lines ms ↔ ms = meaning_of <$> lines.
Proof.
  split.
  - induction 1 as [|line m lines ms Hm _ ->]; [done|]. apply means_spec in Hm as ->. done.
  - intros ->. apply Forall2_fmap_r, Forall_Forall2_diag, list.Forall_true. intros line. by apply means_spec.
Qed.
End Means.
Section Meaning.
Context `{RL : IpRangeLib} `{RLaws : !IpRangeLaws RL} `{XL : RegexLib} (matches : bytes → bytes → bool) `{XLaws : !RegexLaws XL matches}.
Context `{AE : AclEnv}.

Definition rule_matches_host (h : bytes) (r : rule) : Prop :=
  match r with
  | RTree d => domain_suffix (canonical d) h
  | RSet d => h = canonical d
  | RRegex x => matches x h = true
  | _ => False
  end.

(** A network also matches the other form of a mapped address. *)
Definition rule_matches_ip (ip : IpAddr) (r : rule) : Prop :=
  match r, ip with
  | RNet4 n, IpV4 v4 => net_contains 32 n v4 = true
  | RNet6 n, IpV4 v4 => net_contains 128 n (to_ipv6_mapped v4) = true
  | RNet6 n, IpV6 v6 => net_contains 128 n v6 = true
  | RNet4 n, IpV6 v6 => ∃ v4, to_ipv4_mapped v6 = Some v4 ∧ net_contains 32 n v4 = true
  | _, _ => False
  end.

Definition add_rule (r : rule) (p : ParsingRules) : ParsingRules :=
  match r with
  | RNet4 n => add_ipv4_rule n p
  | RNet6 n => add_ipv6_rule n p
  | RTree d => {| p_ipv4 := p_ipv4 p; p_ipv6 := p_ipv6 p; rules_regex := rules_regex p; rules_set := rules_set p;
                  rules_tree := tree_insert (trim_dots d) (rules_tree p) |}
  | RSet d => {| p_ipv4 := p_ipv4 p; p_ipv6 := p_ipv6 p; rules_regex := rules_regex p;
                 rules_set := {[ canonical d ]} ∪ rules_set p; rules_tree := rules_tree p |}
  | RRegex x => {| p_ipv4 := p_ipv4 p; p_ipv6 := p_ipv6 p; rules_regex := rules_regex p ++ [x]; rules_set := rules_set p;
                   rules_tree := rules_tree p |}
  end.

(** The rules gathered so far. *)
Definition gathered (p : ParsingRules) (rs : list rule) : Prop :=
  (∀ ip, range_contains (p_ipv4 p) ip = true ↔ ∃ n, RNet4 n ∈ rs ∧ net_contains 32 n ip = true) ∧
  (∀ ip, range_contains (p_ipv6 p) ip = true ↔ ∃ n, RNet6 n ∈ rs ∧ net_contains 128 n ip = true) ∧
  (∀ x, x ∈ rules_regex p ↔ RRegex x ∈ rs) ∧
  (∀ h, h ∈ rules_set p ↔ ∃ d, RSet d ∈ rs ∧ h = canonical d) ∧
  (∀ h, tree_contains h (rules_tree p) = true ↔ ∃ d, RTree d ∈ rs ∧ domain_suffix (canonical d) h).

Lemma gathered_new : gathered ParsingRules_new [].
Proof.
  unfold gathered, ParsingRules_new. simpl. setoid_rewrite range_new_empty. setoid_rewrite elem_of_nil.
  split_and!; try naive_solver; intros h.
  - split; [set_solver|naive_solver].
  - unfold tree_contains. destruct (rsplit h); simpl; naive_solver.
Qed.

Lemma gathered_add p rs r : gathered p rs → gathered (add_rule r p) (rs ++ [r]).
Proof.
  intros (H4 & H6 & Hx & Hs & Ht). unfold gathered.
  setoid_rewrite elem_of_app. setoid_rewrite list_elem_of_singleton.
  destruct r as [n|n|d|d|x]; simpl; split_and!; intros h.
  all: rewrite ?range_add_contains, ?orb_true_iff, ?H4, ?H6, ?Hx, ?tree_insert_contains, ?Ht,
         ?elem_of_union, ?elem_of_singleton, ?Hs, ?elem_of_app, ?list_elem_of_singleton; try naive_solver.
Qed.

(** *** ASCII *)
Lemma is_ascii_app a b : is_ascii (a ++ b) = is_ascii a && is_ascii b.
Proof. apply forallb_app. Qed.

Lemma is_ascii_reverse a : is_ascii (reverse a) = is_ascii a.
Proof.
  induction a as [|x a IH]; [done|]. rewrite reverse_cons, is_ascii_app, IH. unfold is_ascii. simpl.
  by rewrite andb_true_r, andb_comm.
Qed.

Lemma strip_prefix_ascii p l r : strip_prefix p l = Some r → is_ascii l = true → is_ascii r = true.
Proof.
  unfold strip_prefix. case_bool_decide as E; [|done]. intros [= <-] Hl. rewrite <- (take_drop (length p) l), is_ascii_app in Hl.
  by apply andb_true_iff in Hl as [_ ?].
Qed.

Lemma strip_suffix_ascii p l r : strip_suffix p l = Some r → is_ascii l = true → is_ascii r = true.
Proof.
  unfold strip_suffix. destruct (strip_prefix _ _) as [x|] eqn:E; [|done]. intros [= <-] Hl. rewrite is_ascii_reverse.
  eapply strip_prefix_ascii; [done|]. by rewrite is_ascii_reverse.
Qed.

Lemma strip_any_ascii ps l r : strip_any ps l = Some r → is_ascii l = true → is_ascii r = true.
Proof.
  induction ps as [|p ps IH]; [done|]. simpl. destruct (strip_prefix p l) as [x|] eqn:E; [|done].
  intros [= <-]. by eapply strip_prefix_ascii.
Qed.

Lemma capture_ascii ps l d : capture ps l = Some d → is_ascii l = true → is_ascii d = true.
Proof.
  unfold capture. destruct (strip_any ps l) as [rest|] eqn:E; [|done]. simpl. destruct (labels _ _ _); [|done]. intros [= <-] Hl.
  pose proof (strip_any_ascii _ _ _ E Hl). destruct (strip_suffix _ rest) as [x|] eqn:E2; [|done]. by eapply strip_suffix_ascii.
Qed.

Lemma unescape_ascii l : is_ascii l = true → is_ascii (unescape_dots l) = true.
Proof.
  remember (length l) as n eqn:Hn. revert l Hn. induction n as [n IH] using lt_wf_ind. intros l -> Hl.
  destruct l as [|b [|c l]]; [done..|]. cbn [unescape_dots]. unfold is_ascii in Hl. cbn [forallb] in Hl.
  apply andb_true_iff in Hl as [Hb Hl]. pose proof Hl as [Hc Hl']%andb_true_iff.
  destruct (bool_decide (b = BACKSLASH) && bool_decide (c = DOT)).
  - unfold is_ascii. cbn [forallb]. apply andb_true_iff. split; [done|]. apply (IH (length l)); [simpl; lia|done|done].
  - unfold is_ascii. cbn [forallb]. apply andb_true_iff. split; [done|]. apply (IH (length (c :: l)) ltac:(simpl; lia) (c :: l) eq_refl Hl).
Qed.

(** *** A line is added as what it means *)
Definition apply_meaning (m : meaning) (l : Loading) : Loading :=
  match m with Ignored => l | Switches d => apply_directive d l | Adds r => with_curr (add_rule r) l end.

Lemma add_tree_rule_ok d p : is_ascii d = true → add_tree_rule d p = Ok (add_rule (RTree d) p).
Proof. intros Hd. unfold add_tree_rule, check_is_ascii. by rewrite Hd. Qed.

Lemma add_set_rule_ok d p : is_ascii d = true → add_set_rule d p = Ok (add_rule (RSet d) p).
Proof. intros Hd. unfold add_set_rule, check_is_ascii. by rewrite Hd. Qed.

Lemma add_regex_rule_ok line p : is_ascii line = true → add_regex_rule line p = add_rule (regex_rule line) p.
Proof.
  intros Hl. unfold add_regex_rule, regex_rule. destruct (capture tree_prefixes line) as [d|] eqn:E.
  - by rewrite add_tree_rule_ok by (by eapply unescape_ascii, capture_ascii).
  - destruct (capture set_prefixes line) as [d|] eqn:E2; [|done].
    by rewrite add_set_rule_ok by (by eapply unescape_ascii, capture_ascii).
Qed.

Lemma add_line_rule_ok line l :
  is_ascii line = true → add_line_rule line l = with_curr (add_rule (default (regex_rule line) (network_of line))) l.
Proof.
  intros Hl. unfold add_line_rule, network_of. destruct (parse_ipnet line) as [[n|n]|]; [done..|].
  destruct (parse_ip line) as [[ip|ip]|]; [done..|]. unfold with_curr. cbn [default]. by rewrite add_regex_rule_ok.
Qed.

Lemma load_line_meaning line l : load_line line l = Ok (apply_meaning (meaning_of line) l).
Proof.
  unfold load_line, meaning_of. destruct (bool_decide (line = [])); [done|]. destruct (bool_decide (take 1 line = str "#")); [done|].
  cbn [orb]. destruct (is_ascii (trim line)) eqn:Ha; [|done]. cbn [negb].
  destruct (strip_prefix (str "||") (trim line)) as [d|] eqn:E1.
  { rewrite add_tree_rule_ok by (by eapply strip_prefix_ascii). done. }
  destruct (strip_prefix (str "|") (trim line)) as [d|] eqn:E2.
  { rewrite add_set_rule_ok by (by eapply strip_prefix_ascii). done. }
  destruct (find_directive directives (trim line)) as [d|]; [done|]. by rewrite add_line_rule_ok.
Qed.

Lemma load_lines_meaning lines l : load_lines (Ok <$> lines) l = Ok (foldl (λ l line, apply_meaning (meaning_of line) l) l lines).
Proof. revert l. induction lines as [|line lines IH]; intros l; [done|]. cbn. rewrite load_line_meaning. apply IH. Qed.

Lemma load_gathered lines l s rs :
  gathered (l_rules l s) rs →
  gathered (l_rules (foldl (λ l line, apply_meaning (meaning_of line) l) l lines) s) (rs ++ section_rules s (l_curr l) (meaning_of <$> lines)).
Proof.
  revert l rs. induction lines as [|line lines IH]; intros l rs Hg; [by rewrite app_nil_r|]. simpl.
  destruct (meaning_of line) as [|d|r]; [by apply IH| |].
  { pose proof (IH (apply_directive d l) rs) as IHd. by destruct d; apply IHd. }
  cbn [apply_meaning].
  rewrite app_assoc. apply (IH (with_curr (add_rule r) l)). simpl. case_bool_decide as E.
  - subst s. by apply gathered_add.
  - by rewrite app_nil_r.
Qed.

Lemma load_modes lines l :
  let l' := foldl (λ l line, apply_meaning (meaning_of line) l) l lines in
  l_mode l' = foldl (λ m x, match x with Switches (SetMode m) => m | _ => m end) (l_mode l) (meaning_of <$> lines) ∧
  l_outbound_mode l' = foldl (λ m x, match x with Switches (SetOutboundMode m) => m | _ => m end) (l_outbound_mode l) (meaning_of <$> lines).
Proof.
  revert l. induction lines as [|line lines IH]; intros l; [done|]. simpl.
  specialize (IH (apply_meaning (meaning_of line) l)). by destruct (meaning_of line) as [|[m|m|next]|r].
Qed.

(** *** The compiled list *)
Lemma existsb_elem {A} (f : A → bool) l : existsb f l = true ↔ ∃ x, x ∈ l ∧ f x = true.
Proof. rewrite existsb_exists. setoid_rewrite list_elem_of_In. done. Qed.

Lemma into_rules_host p rs r h :
  gathered p rs → into_rules p = Ok r →
  check_host_matched r h = true ↔ ∃ x, x ∈ rs ∧ rule_matches_host (trim_dots h) x.
Proof.
  intros (_ & _ & Hx & Hs & Ht). unfold into_rules. destruct (regex_compile (rules_regex p)) as [set|] eqn:Ec; [|done]. intros [= <-].
  unfold check_host_matched. simpl. rewrite !orb_true_iff, bool_decide_eq_true, (regex_compile_match _ _ _ Ec), existsb_elem, Hs, Ht.
  setoid_rewrite Hx. split.
  - intros [[(d & Hd & ->)|(d & Hd & Hm)]|(x & Hx' & Hm)]; eexists; (split; [done|]); done.
  - intros ([n|n|d|d|x] & Hin & Hm); simpl in Hm; naive_solver.
Qed.

Lemma into_rules_ip p rs r ip :
  gathered p rs → into_rules p = Ok r →
  check_ip_matched r ip = true ↔ ∃ x, x ∈ rs ∧ rule_matches_ip ip x.
Proof.
  intros (H4 & H6 & _). unfold into_rules. destruct (regex_compile (rules_regex p)) as [set|] eqn:Ec; [|done]. intros [= <-].
  unfold check_ip_matched. cbn [ipv4 ipv6 Rules_new].
  pose proof (range_simplify_contains 32 (p_ipv4 p)) as S4. pose proof (range_simplify_contains 128 (p_ipv6 p)) as S6.
  destruct ip as [v4|v6].
  - assert (∀ a b : bool, (if a then true else b) = true ↔ a = true ∨ b = true) as -> by (intros [] []; naive_solver).
    rewrite S4, S6, H4, H6. split; [naive_solver|]. intros ([n|n|d|d|x] & Hin & Hm); naive_solver.
  - assert (∀ a b : bool, (if a then true else b) = true ↔ a = true ∨ b = true) as -> by (intros [] []; naive_solver).
    rewrite S6, H6. destruct (to_ipv4_mapped v6) as [v4|] eqn:E.
    + rewrite S4, H4. split; [naive_solver|]. intros ([n|n|d|d|x] & Hin & Hm); naive_solver.
    + split; [naive_solver|]. intros ([n|n|d|d|x] & Hin & Hm); simpl in Hm; naive_solver.
Qed.

(** The hosts and the addresses that a section names. *)
Definition names_host (ms : list meaning) (s : Section_) (host : bytes) : Prop :=
  ∃ r, r ∈ section_rules s Bypass ms ∧ rule_matches_host (trim_dots host) r.
Definition names_ip (ms : list meaning) (s : Section_) (ip : IpAddr) : Prop :=
  ∃ r, r ∈ section_rules s Bypass ms ∧ rule_matches_ip ip r.

Lemma load_from_file_spec lines acl :
  load_from_file (Ok <$> lines) = Ok acl →
  let ms := meaning_of <$> lines in
  (∀ s host, check_host_matched (section_of s acl) host = true ↔ names_host ms s host) ∧
  (∀ s ip, check_ip_matched (section_of s acl) ip = true ↔ names_ip ms s ip) ∧
  mode acl = last_mode ms ∧ outbound_mode acl = last_outbound_mode ms.
Proof.
  unfold load_from_file. rewrite load_lines_meaning. cbn [mbind outcome_bind].
  set (l := foldl _ _ _). rewrite !outcome_bind_Ok. intros (ob & Hob & H). apply outcome_bind_Ok in H as (oa & Hoa & H).
  apply outcome_bind_Ok in H as (bl & Hbl & H). apply outcome_bind_Ok in H as (wl & Hwl & [= <-]). set (ms := meaning_of <$> lines).
  assert (∀ s, gathered (l_rules l s) (section_rules s Bypass ms)) as Hg
    by (intros s; apply (load_gathered lines Loading_new s []), gathered_new).
  split_and!; [| |apply (load_modes lines Loading_new)..].
  - intros [] host; simpl; by eapply into_rules_host.
  - intros [] ip; simpl; by eapply into_rules_ip.
Qed.

(** C8. Loading a file.  Every line has exactly one meaning: nothing (empty lines,
    comments, lines outside ASCII), a change of mode or section, or a rule: a domain
    with its subdomains ([||]), a domain ([|]), a network or an address, a regular
    expression of one of six shapes that stands for a domain, or another regular
    expression, in lower case.  A list that was loaded matches a name, without the
    dots at its end, exactly when one of the rules of its section names it, and an
    address exactly when one of its networks has it, as an IPv4 address or as the
    IPv6 address it is mapped to; and the modes are the last ones the file sets. *)
Theorem acl_load_refines lines acl :
  load_from_file (Ok <$> lines) = Ok acl →
  ∃ ms, (∀ ms', Forall2 means lines ms' ↔ ms' = ms) ∧
    (∀ s host, check_host_matched (section_of s acl) host = true ↔ names_host ms s host) ∧
    (∀ s ip, check_ip_matched (section_of s acl) ip = true ↔ names_ip ms s ip) ∧
    mode acl = last_mode ms ∧ outbound_mode acl = last_outbound_mode ms.
Proof. intros Hl%load_from_file_spec. exists (meaning_of <$> lines). split; [by apply means_lines|done]. Qed.
End Meaning.

(** ** Decisions *)
Section Decisions.
Context `{RL : IpRangeLib} `{RLaws : !IpRangeLaws RL} `{XL : RegexLib} (matches : bytes → bytes → bool) `{XLaws : !RegexLaws XL matches}.
Context `{AE : AclEnv}.

Lemma any_matched_spec rules vaddr : any_matched rules vaddr = true ↔ ∃ a, a ∈ vaddr ∧ check_ip_matched rules (SocketAddr_ip a) = true.
Proof.
  induction vaddr as [|a vaddr IH]; simpl.
  - split; [done|]. intros (a & Ha & _). by apply not_elem_of_nil in Ha.
  - setoid_rewrite elem_of_cons. destruct (check_ip_matched rules (SocketAddr_ip a)) eqn:E.
    + split; [|done]. intros _. exists a. auto.
    + rewrite IH. split.
      * intros (x & Hx & Hm). exists x. auto.
      * intros (x & [->|Hx] & Hm); [congruence|]. eauto.
Qed.

Lemma is_ip_empty_matched rules ip : Rules_is_ip_empty rules = true → check_ip_matched rules ip = false.
Proof.
  unfold Rules_is_ip_empty. rewrite andb_true_iff. intros [H4 H6]. unfold check_ip_matched.
  pose proof (range_is_empty_spec 32 (ipv4 rules) H4) as E4. pose proof (range_is_empty_spec 128 (ipv6 rules) H6) as E6.
  destruct ip as [v4|v6]; [by rewrite E4, E6|]. rewrite E6. destruct (to_ipv4_mapped v6); [by rewrite E4|done].
Qed.

Definition resolved (host : bytes) (port : Z) : list SocketAddr := default [] (dns_resolve host port).

(** One of the addresses a name resolves to is in the list. *)
Definition resolves_into (rules : Rules) (host : bytes) (port : Z) : Prop :=
  ∃ a, a ∈ resolved host port ∧ check_ip_matched rules (SocketAddr_ip a) = true.

(** The last part of both decisions on names: the default [d] unless a resolved
    address is in the list. *)
Lemma resolve_check rules host port (d : bool) :
  (if Rules_is_ip_empty rules then d
   else match dns_resolve host port with
        | Some vaddr => if any_matched rules vaddr then negb d else d
        | None => d
        end) = true ↔
  if d then ¬ resolves_into rules host port else resolves_into rules host port.
Proof.
  unfold resolves_into, resolved. destruct (Rules_is_ip_empty rules) eqn:E.
  { assert (¬ ∃ a, a ∈ default [] (dns_resolve host port) ∧ check_ip_matched rules (SocketAddr_ip a) = true)
      by (intros (a & _ & Ha); by rewrite is_ip_empty_matched in Ha). destruct d; naive_solver. }
  destruct (dns_resolve host port) as [vaddr|]; simpl.
  - pose proof (any_matched_spec rules vaddr) as Ha. destruct d; rewrite <- Ha; destruct (any_matched rules vaddr); naive_solver.
  - assert (¬ ∃ a, a ∈ [] ∧ check_ip_matched rules (SocketAddr_ip a) = true) by (intros (a & Ha & _); by apply not_elem_of_nil in Ha).
    destruct d; naive_solver.
Qed.

(** The ASCII form of a name, which the lists are asked for. *)
Definition names (ms : list meaning) (s : Section_) (host : bytes) : Prop := names_host matches ms s (convert_to_ascii host).

(** One of the addresses a name resolves to is in a section. *)
Definition resolves_to (ms : list meaning) (s : Section_) (host : bytes) (port : Z) : Prop :=
  ∃ a, a ∈ resolved host port ∧ names_ip ms s (SocketAddr_ip a).

(** C9. The decisions of a list that was loaded, by the lines of its file.  A client
    is blocked when, accepted by default, the black list has its address or,
    rejected by default, the white list has not.  An address is bypassed when the
    bypass list has it or, bypassed by default, the proxy list has not; it is
    blocked for outbound traffic when the block list has it or, blocked by
    default, the allow list has not.  A name is bypassed when the proxy list does
    not name it and the bypass list does, or, proxied by default, it resolves into
    the bypass list or, bypassed by default, it does not resolve into the proxy
    list; it is blocked when the block list names it, or the allow list does not
    name it and, allowed by default, it resolves into the block list or, blocked
    by default, it does not resolve into the allow list. *)
Theorem acl_decisions lines acl ms :
  load_from_file (Ok <$> lines) = Ok acl → Forall2 means lines ms →
  (∀ a, check_client_blocked acl a = true ↔
     match last_mode ms with
     | BlackList => names_ip ms Bypass (SocketAddr_ip a)
     | WhiteList => ¬ names_ip ms Proxy (SocketAddr_ip a)
     end) ∧
  (∀ a, check_target_bypassed acl (SocketAddress a) = true ↔
     names_ip ms Bypass (SocketAddr_ip a) ∨ last_mode ms = WhiteList ∧ ¬ names_ip ms Proxy (SocketAddr_ip a)) ∧
  (∀ a, check_outbound_blocked acl (SocketAddress a) = true ↔
     names_ip ms OutboundBlock (SocketAddr_ip a) ∨
     last_outbound_mode ms = WhiteList ∧ ¬ names_ip ms OutboundAllow (SocketAddr_ip a)) ∧
  (∀ host port, check_target_bypassed acl (DomainNameAddress host port) = true ↔
     ¬ names ms Proxy host ∧
     (names ms Bypass host ∨
      match last_mode ms with
      | BlackList => resolves_to ms Bypass host port
      | WhiteList => ¬ resolves_to ms Proxy host port
      end)) ∧
  (∀ host port, check_outbound_blocked acl (DomainNameAddress host port) = true ↔
     names ms OutboundBlock host ∨
     ¬ names ms OutboundAllow host ∧
     match last_outbound_mode ms with
     | BlackList => resolves_to ms OutboundBlock host port
     | WhiteList => ¬ resolves_to ms OutboundAllow host port
     end).
Proof.
  intros (Hh & Hi & Hm & Ho)%(load_from_file_spec matches) ->%means_lines. rewrite <- Hm, <- Ho. set (ms := meaning_of <$> lines) in *.
  assert (∀ s host port, resolves_to ms s host port ↔ resolves_into (section_of s acl) host port) as Hr
    by (intros s host port; unfold resolves_to, resolves_into; by setoid_rewrite Hi).
  unfold names. split_and!.
  - intros a. unfold check_client_blocked. destruct (mode acl); rewrite <- Hi; [done|]. by rewrite negb_true_iff, not_true_iff_false.
  - intros a. unfold check_target_bypassed, check_ip_in_proxy_list, is_default_in_proxy_list. rewrite <- !Hi. cbn [section_of].
    destruct (check_ip_matched (black_list acl) _), (check_ip_matched (white_list acl) _), (mode acl); naive_solver.
  - intros a. unfold check_outbound_blocked, check_outbound_ip_blocked, is_outbound_default_blocked. rewrite <- !Hi. cbn [section_of].
    destruct (check_ip_matched (outbound_block acl) _), (check_ip_matched (outbound_allow acl) _), (outbound_mode acl); naive_solver.
  - intros host port. rewrite <- !Hh. cbn [section_of].
    unfold check_target_bypassed, check_host_in_proxy_list, check_ascii_host_in_proxy_list, is_default_in_proxy_list.
    destruct (check_host_matched (white_list acl) _); [naive_solver|]. destruct (check_host_matched (black_list acl) _); [naive_solver|].
    destruct (mode acl); cbn [negb]; rewrite Hr; [rewrite (resolve_check _ host port false)|rewrite (resolve_check _ host port true)]; naive_solver.
  - intros host port. rewrite <- !Hh. cbn [section_of]. unfold check_outbound_blocked, is_outbound_default_blocked.
    destruct (check_host_matched (outbound_block acl) _); [naive_solver|]. destruct (check_host_matched (outbound_allow acl) _); [naive_solver|].
    destruct (outbound_mode acl); rewrite Hr; [rewrite (resolve_check _ host port false)|rewrite (resolve_check _ host port true)]; naive_solver.
Qed.
End Decisions.

(** ** Regular expressions are changed

    A rule that is kept as a regular expression is put in lower case, which turns
    a class like [\D] into its opposite: this line is meant to match names without
    digits and matches names of digits. *)
Example regex_class_inverted : regex_rule (str "^\D+$") = RRegex (str "^\d+$").
Proof. by vm_compute. Qed.

(** Common forms of regular expressions are kept as domains. *)
Example regex_tree : regex_rule (str "(^|\.)Example\.com$") = RTree (str "Example.com").
Proof. by vm_compute. Qed.

Example regex_set : regex_rule (str "^www\.example\.com$") = RSet (str "www.example.com").
Proof. by vm_compute. Qed.

(** ** Regular expressions that are kept as domains

    The hosts that such a regular expression matches: the search is anchored only
    where the expression says so. *)
Definition regex_hosts (x : domain_regex) (h : bytes) : Prop :=
  ∃ a z, h = a ++ regex_name x ++ z ∧ (dr_end x = true → z = []) ∧
    match dr_opening x with
    | StartOrDot | StartOrDotGroup => a = [] ∨ ∃ y, a = y ++ [DOT]
    | SomeThenDot => ∃ y, y ≠ [] ∧ a = y ++ [DOT]
    | AnyThenDot | OnlyDot => ∃ y, a = y ++ [DOT]
    | Start => a = []
    end.

(** The rule means the same as the expression for the shapes [(^|\.)name$],
    [(?:^|\.)name$] and [^name$], for a name in lower case without a dot at its end. *)
Lemma domain_regex_exact matches x h :
  dr_end x = true → dr_opening x = StartOrDot ∨ dr_opening x = StartOrDotGroup ∨ dr_opening x = Start →
  canonical (regex_name x) = regex_name x →
  rule_matches_host matches h (regex_domain x) ↔ regex_hosts x h.
Proof.
  intros He Ho Hc. unfold regex_hosts, regex_domain. rewrite He.
  destruct_or? Ho; rewrite Ho; cbn [rule_matches_host]; rewrite Hc; unfold domain_suffix; split.
  1, 3: intros [->|(y & ->)]; [exists [], []|exists (y ++ [DOT]), []]; (split_and!; [by rewrite app_nil_r, <- ?app_assoc|done|eauto]).
  1, 2: intros (a & z & -> & Hz & [->|(y & ->)]); rewrite (Hz eq_refl), app_nil_r; [by left|right; exists y; by rewrite <- app_assoc].
  - intros ->. exists [], []. by rewrite app_nil_r.
  - intros (a & z & -> & Hz & ->). by rewrite (Hz eq_refl), app_nil_r.
Qed.

(** It does not for the other shapes: [^.+\.name$], [^.*\.name$] and [\.name$] then
    also name the domain itself, and without [$] only hosts that end with the name
    are named. *)
Definition some_then_dot : domain_regex :=
  {| dr_opening := SomeThenDot; dr_labels := [str "example"; str "com"]; dr_final_dot := false; dr_end := true |}.
Definition start_open : domain_regex :=
  {| dr_opening := Start; dr_labels := [str "ads"]; dr_final_dot := false; dr_end := false |}.

Example domain_regex_wider matches :
  rule_matches_host matches (str "example.com") (regex_domain some_then_dot) ∧ ¬ regex_hosts some_then_dot (str "example.com").
Proof.
  split; [by left|]. intros (a & z & E & _ & (y & Hy & ->)). apply (f_equal length) in E. rewrite !length_app in E.
  change (length (str "example.com")) with 11%nat in E. change (length (regex_name some_then_dot)) with 11%nat in E.
  simpl in E. lia.
Qed.

Example domain_regex_narrower matches :
  ¬ rule_matches_host matches (str "ads.example.com") (regex_domain start_open) ∧ regex_hosts start_open (str "ads.example.com").
Proof. split; [done|]. by exists [], (str ".example.com"). Qed.

(** ** Examples *)
Module AclExamples.
#[local] Instance list_range : IpRangeLib := {
  IpRange _ := list Net;
  range_new _ := [];
  range_add _ n r := n :: r;
  range_simplify _ r := r;
  range_contains w r ip := existsb (λ n, net_contains w n ip) r;
  range_is_empty _ r := bool_decide (length r = 0%nat);
}.

#[local] Instance list_range_laws : IpRangeLaws list_range.
Proof.
  split; simpl.
  - done.
  - intros w n r ip. by rewrite orb_comm.
  - done.
  - intros w r Hr ip. apply bool_decide_eq_true in Hr. by apply nil_length_inv in Hr as ->.
Qed.

(** Regular expressions that match themselves. *)
#[local] Instance literal_regex : RegexLib := {
  RegexSet := list bytes;
  regex_compile l := Some l;
  regex_is_match s h := existsb (λ r, bool_decide (r = h)) s;
  regex_is_empty s := bool_decide (length s = 0%nat);
}.

#[local] Instance literal_regex_laws : RegexLaws literal_regex (λ r h, bool_decide (r = h)).
Proof. split. by intros l s h [= ->]. Qed.

#[local] Instance toy_env : AclEnv := {
  parse_ipnet l := if bool_decide (l = str "10.0.0.0/8") then Some (NetV4 {| net_addr := 167772160; net_len := 8 |}) else None;
  domain_to_ascii h := Some h;
  dns_resolve h p := if bool_decide (h = str "inside.test") then Some [V4 167772161 p] else None;
}.

Definition file : list bytes :=
  [str "# comment"; str "[proxy_all]"; str "10.0.0.0/8"; str "||Example.COM."; str ""; str "[white_list]"; str " |www.example.com"].

Definition acl0 : AccessControl :=
  match load_from_file (Ok <$> file) with
  | Ok acl => acl
  | _ => let r := Rules_new [] [] [] ∅ ∅ in
         {| outbound_block := r; outbound_allow := r; black_list := r; white_list := r; mode := BlackList; outbound_mode := BlackList |}
  end.

Lemma file_loads : load_from_file (Ok <$> file) = Ok acl0.
Proof.
  assert (is_ok (load_from_file (Ok <$> file)) = true) as Hok by (by vm_compute).
  unfold acl0. by destruct (load_from_file (Ok <$> file)).
Qed.

Lemma acl_load_refines_witness :
  check_host_matched (section_of Bypass acl0) (str "mail.example.com.") = true ∧
  ∃ ms, Forall2 means file ms ∧ names_host (λ r h, bool_decide (r = h)) ms Bypass (str "mail.example.com.").
Proof.
  split; [by vm_compute|].
  destruct (acl_load_refines (λ r h, bool_decide (r = h)) file acl0 file_loads) as (ms & Hms & H & _).
  exists ms. split; [by apply Hms|]. apply H. by vm_compute.
Defined.

Lemma acl_decisions_witness :
  check_client_blocked acl0 (V4 167772161 1) = true ∧
  names_ip (meaning_of <$> file) Bypass (IpV4 167772161).
Proof.
  split; [by vm_compute|].
  destruct (acl_decisions (λ r h, bool_decide (r = h)) file acl0 (meaning_of <$> file) file_loads ltac:(by apply means_lines)) as (H & _).
  exact (proj1 (H (V4 167772161 1)) ltac:(by vm_compute)).
Defined.

Example acl_examples :
  check_target_bypassed acl0 (DomainNameAddress (str "a.example.com") 80) = true ∧
  check_target_bypassed acl0 (DomainNameAddress (str "www.example.com") 80) = false ∧
  check_target_bypassed acl0 (DomainNameAddress (str "inside.test") 80) = true ∧
  check_target_bypassed acl0 (DomainNameAddress (str "other.test") 80) = false ∧
  check_client_blocked acl0 (V4 167772161 1) = true.
Proof. by vm_compute. Qed.
End AclExamples.
