(* ===== verification/DnsServer.v ===== *)
(** * The local DNS relay (crates/shadowsocks-service/src/local/dns/server.rs, local/context.rs)

    Which of the two name servers answers a query: the one of the local network or
    the one behind the tunnel.  The crate for DNS messages is a class of operations
    on names; messages keep the parts that are looked at.  Shown: a reverse query is
    routed as its address, the choice between the two answers does not depend on
    which comes first, a local answer is used only with a reason, and connections to
    the addresses of an answer take the way of the answer. *)
From S2P Require Import Prelude.
From S2P Require Import Utf8.
From S2P Require Import Socks5.
From S2P Require Import StdNet.
From S2P Require Import NetText.
From S2P Require Import SubDomainsTree.
From S2P Require Import Acl.
From S2P Require ServerConf.

#[export] Instance IpAddr_countable : Countable IpAddr.
Proof.
  refine (inj_countable' (λ a, match a with IpV4 z => inl z | IpV6 z => inr z end) (λ s, match s with inl z => IpV4 z | inr z => IpV6 z end) _).
  by intros [].
Defined.

(** ** hickory: names *)
Class DnsNames := {
  Name : Type;
  (** the labels from left to right, and whether the name ends with the root *)
  labels : Name → list bytes;
  is_fqdn : Name → bool;
  set_fqdn : Name → Name;
  to_ascii : Name → bytes;
  name_from_str : bytes → option Name;
  (** [==] and [cmp(..) == Equal] *)
  name_eqb : Name → Name → bool;
  name_cmp_equal : Name → Name → bool;
}.

Section Dns.
Context `{DN : DnsNames, RL : IpRangeLib, XL : RegexLib, AE : AclEnv}.

(** ** Messages *)
Inductive RData :=
| A (ip : Z)
| AAAA (ip : Z)
| CNAME (name : Name)
| MX (exchange : Name)
| NS (name : Name)
| PTR (name : Name)
| OtherData (type : Z).

Definition TYPE_A : Z := 1.
Definition TYPE_NS : Z := 2.
Definition TYPE_CNAME : Z := 5.
Definition TYPE_PTR : Z := 12.
Definition TYPE_MX : Z := 15.
Definition TYPE_AAAA : Z := 28.
Definition TYPE_ANY : Z := 255.
Definition CLASS_IN : Z := 1.

Definition data_type (d : RData) : Z :=
  match d with A _ => TYPE_A | AAAA _ => TYPE_AAAA | CNAME _ => TYPE_CNAME | MX _ => TYPE_MX | NS _ => TYPE_NS | PTR _ => TYPE_PTR | OtherData t => t end.

Record DnsRecord := { rec_name : Name; rec_data : RData }.

Record Query := { query_name : Name; query_class : Z; query_type : Z }.

Inductive ResponseCode := NoError | NotImp | ServFail | OtherCode (c : Z).

Record Message := {
  id : Z;
  op_code : Z;
  is_query : bool;
  recursion_desired : bool;
  recursion_available : bool;
  response_code : ResponseCode;
  queries : list Query;
  answers : list DnsRecord;
  additionals : list DnsRecord;
}.

Definition OP_QUERY : Z := 0.

(** ** Routing by name *)
Definition next_label (it : list bytes) : bytes * list bytes :=
  match it with
  | label :: it => (default (str "*") (from_utf8 label), it)
  | [] => (str "0", [])
  end.

(** The four octets of a reverse IPv4 name, [None] when one is not a number. *)
Fixpoint ptr_octets (n : nat) (acc : Z) (it : list bytes) : option Z :=
  match n with
  | O => Some acc
  | S n =>
      let '(label, it) := next_label it in
      match parse_unsigned 256 label with Some o => ptr_octets n (acc * 256 + o) it | None => None end
  end.

(** The segments of a reverse IPv6 name, each of four labels. *)
Fixpoint ptr_segments (n : nat) (acc : Z) (it : list bytes) : option Z :=
  match n with
  | O => Some acc
  | S n =>
      let '(a, it) := next_label it in
      let '(b, it) := next_label it in
      let '(c, it) := next_label it in
      let '(d, it) := next_label it in
      match from_str_radix 16 (2 ^ 16) (a ++ b ++ c ++ d) with Some s => ptr_segments n (acc * 65536 + s) it | None => None end
  end.

Definition should_forward_by_ptr_name (acl : AccessControl) (name : Name) : bool :=
  let '(l, it) := next_label (reverse (labels name)) in
  if negb (bool_decide (to_ascii_lowercase l = str "arpa")) then is_default_in_proxy_list acl
  else
    let '(l, it) := next_label it in
    let l := to_ascii_lowercase l in
    if bool_decide (l = str "in-addr") then
      match ptr_octets 4 0 it with
      | Some ip => check_ip_in_proxy_list acl (IpV4 ip)
      | None => is_default_in_proxy_list acl
      end
    else if bool_decide (l = str "ip6") then
      match ptr_segments 8 0 it with
      | Some ip => check_ip_in_proxy_list acl (IpV6 ip)
      | None => is_default_in_proxy_list acl
      end
    else is_default_in_proxy_list acl.

Definition check_name_in_proxy_list (acl : AccessControl) (name : Name) : option bool :=
  if is_fqdn name then check_ascii_host_in_proxy_list acl (to_ascii_lowercase (to_ascii name))
  else Some (is_default_in_proxy_list acl).

(** The loop over the servers: whether the query is for the name of one. *)
Fixpoint queries_server (query : Query) (servers : list ServerConf.ServerAddr) : bool :=
  match servers with
  | [] => false
  | ServerConf.DomainName dn _ :: servers =>
      match name_from_str dn with
      | Some name => if name_cmp_equal (query_name query) name || name_cmp_equal (query_name query) (set_fqdn name) then true else queries_server query servers
      | None => queries_server query servers
      end
  | ServerConf.SocketAddr _ :: servers => queries_server query servers
  end.

Definition should_forward_by_query (acl : option AccessControl) (servers : list ServerConf.ServerAddr) (query : Query) : option bool :=
  if bool_decide (servers = []) then Some false
  else if queries_server query servers then Some false
  else
    match acl with
    | Some acl =>
        if negb (query_class query =? CLASS_IN) then Some (is_default_in_proxy_list acl)
        else if query_type query =? TYPE_PTR then Some (should_forward_by_ptr_name acl (query_name query))
        else
          match check_name_in_proxy_list acl (query_name query) with
          | None => if is_ip_empty acl && is_host_empty acl then Some (is_default_in_proxy_list acl) else None
          | result => result
          end
    | None => Some true
    end.

(** ** Routing by the local answer

    What examining a record says: go on with these names, or return. *)
Inductive examined := Continue (names : list Name) | Return (forward : bool) | Unreachable.

Definition has_name (name : Name) (names : list Name) : bool := existsb (name_eqb name) names.

(** The macro [examine_name]. *)
Definition examine_name (acl : AccessControl) (names : list Name) (name : Name) (is_answer : bool) : list Name * bool :=
  (name :: names,
   if is_answer then default (is_default_in_proxy_list acl) (check_name_in_proxy_list acl name) else is_default_in_proxy_list acl).

Definition examine_record (acl : AccessControl) (query : Query) (names : list Name) (rec : DnsRecord) (is_answer : bool) : examined :=
  match rec_data rec with
  | CNAME name =>
      match (if is_answer then check_name_in_proxy_list acl name else None) with
      | Some value => Return value
      | None => Continue (name :: names)
      end
  | data =>
      if is_answer && negb (query_type query =? TYPE_ANY) && negb (data_type data =? query_type query) then Return true
      else
        let verdict :=
          match data with
          | A ip => Some (names, check_ip_in_proxy_list acl (IpV4 ip))
          | AAAA ip => Some (names, check_ip_in_proxy_list acl (IpV6 ip))
          | MX exchange => Some (examine_name acl names exchange is_answer)
          | NS name => Some (examine_name acl names name is_answer)
          | PTR _ => None
          | _ => Some (names, is_default_in_proxy_list acl)
          end in
        match verdict with
        | Some (names, forward) => if forward then Continue names else Return false
        | None => Unreachable
        end
  end.

Fixpoint examine_answers (acl : AccessControl) (query : Query) (names : list Name) (recs : list DnsRecord) : examined :=
  match recs with
  | [] => Continue names
  | rec :: recs =>
      if negb (has_name (rec_name rec) names) then Return true
      else match examine_record acl query names rec true with
           | Continue names => examine_answers acl query names recs
           | r => r
           end
  end.

Fixpoint examine_additionals (acl : AccessControl) (query : Query) (names : list Name) (recs : list DnsRecord) : examined :=
  match recs with
  | [] => Continue names
  | rec :: recs =>
      if has_name (rec_name rec) names then
        match examine_record acl query names rec false with
        | Continue names => examine_additionals acl query names recs
        | r => r
        end
      else examine_additionals acl query names recs
  end.

Definition should_forward_by_response (acl : option AccessControl) (local_response : outcome io_error Message) (query : Query) : outcome io_error bool :=
  match acl with
  | Some acl =>
      match local_response with
      | Ok m =>
          match examine_answers acl query [query_name query] (answers m) with
          | Continue names =>
              match examine_additionals acl query names (additionals m) with
              | Continue _ => Ok true
              | Return b => Ok b
              | Unreachable => Panic "internal error: entered unreachable code"
              end
          | Return b => Ok b
          | Unreachable => Panic "internal error: entered unreachable code"
          end
      | Err _ => Ok true
      | Panic m => Panic m
      end
  | None => Panic "internal error: entered unreachable code"
  end.

(** ** Looking up

    Two queries at once: the first one that is answered wins, and when it failed the
    other is waited for ([future::select]). *)
Definition race (first next : outcome io_error Message) : outcome io_error Message :=
  match first with Ok o => Ok o | Err _ => next | Panic m => Panic m end.

(** [lookup_remote_inner] and [lookup_local_inner] for a socket address, with the
    results of the queries over TCP and UDP and which of them is first. *)
Definition lookup_remote_inner (mode : ServerConf.Mode) (tcp udp : outcome io_error Message) (tcp_first : bool) : outcome io_error Message :=
  match mode with
  | ServerConf.TcpOnly => tcp
  | ServerConf.UdpOnly => udp
  | ServerConf.TcpAndUdp => if tcp_first then race tcp udp else race udp tcp
  end.

Definition lookup_local_inner (tcp udp : outcome io_error Message) (tcp_first : bool) : outcome io_error Message :=
  if tcp_first then race tcp udp else race udp tcp.

(** [lookup_remote] and [lookup_local]: two attempts, each with its outcome. *)
Fixpoint attempts (results : list (outcome io_error Message)) (last_err : io_error) : outcome io_error Message :=
  match results with
  | [] => Err last_err
  | Ok m :: _ => Ok m
  | Err e :: results => attempts results e
  | Panic m :: _ => Panic m
  end.

Definition lookup (first second : outcome io_error Message) : outcome io_error Message := attempts [first; second] InvalidData.

(** One turn of the [select!] loop: which of the two futures is ready.  The remote
    answer, or the decider with the local answer. *)
Inductive event := RemoteReady | DeciderReady.

(** The loop, along the events of its turns; [None] when more are needed.  A branch
    that is disabled is not polled, so its event does not happen. *)
Fixpoint select_loop (remote local : outcome io_error Message) (decision : outcome io_error bool)
    (use_remote : bool) (remote_response : option (outcome io_error Message)) (events : list event) : option (outcome io_error (outcome io_error Message * bool)) :=
  match events with
  | [] => None
  | RemoteReady :: events =>
      match remote_response with
      | None => if use_remote then Some (Ok (remote, true)) else select_loop remote local decision use_remote (Some remote) events
      | Some _ => select_loop remote local decision use_remote remote_response events
      end
  | DeciderReady :: events =>
      if use_remote then select_loop remote local decision use_remote remote_response events
      else match decision with
           | Ok false => Some (Ok (local, false))
           | Ok true =>
               match remote_response with
               | Some remote_response => Some (Ok (remote_response, true))
               | None => select_loop remote local decision true None events
               end
           | Err e => Some (Err e)
           | Panic m => Some (Panic m)
           end
  end.

Definition acl_lookup (acl : option AccessControl) (servers : list ServerConf.ServerAddr) (query : Query)
    (remote local : outcome io_error Message) (events : list event) : option (outcome io_error (outcome io_error Message * bool)) :=
  match should_forward_by_query acl servers query with
  | Some true => Some (Ok (remote, true))
  | Some false => Some (Ok (local, false))
  | None => select_loop remote local (should_forward_by_response acl local query) false None events
  end.

(** ** The reverse lookup cache of [ServiceContext]

    An [LruCache] of 10240 entries that expire 3 days after their last use.  A
    [ReverseCache] has the entries; which of them the cache drops before an
    operation, because they have expired or to make room for a new one, is an
    argument of the operation. *)
Abbreviation ReverseCache := (gmap IpAddr bool).

Definition drop_entries (dropped : list IpAddr) (cache : ReverseCache) : ReverseCache := foldr delete cache dropped.

Definition add_to_reverse_lookup_cache (acl : option AccessControl) (addr : IpAddr) (forward : bool) (dropped : list IpAddr)
    (cache : ReverseCache) : ReverseCache :=
  let is_exception := negb (Bool.eqb forward (match acl with None => true | Some a => check_ip_in_proxy_list a addr end)) in
  let cache := drop_entries dropped cache in
  match cache !! addr with
  | Some _ => if is_exception then <[addr := forward]> cache else delete addr cache
  | None => if is_exception then <[addr := forward]> cache else cache
  end.

(** [ServiceContext::check_target_bypassed], on the entries there still are. *)
Definition context_check_target_bypassed (acl : option AccessControl) (cache : ReverseCache) (addr : Address) : bool :=
  match acl with
  | None => false
  | Some acl =>
      match addr with
      | SocketAddress saddr =>
          match cache !! SocketAddr_ip saddr with
          | Some forward => negb forward
          | None => Acl.check_target_bypassed acl addr
          end
      | _ => Acl.check_target_bypassed acl addr
      end
  end.

Definition cache_record (acl : option AccessControl) (forward : bool) (dropped : list IpAddr) (rec : DnsRecord) (cache : ReverseCache) : ReverseCache :=
  match rec_data rec with
  | A ip => add_to_reverse_lookup_cache acl (IpV4 ip) forward dropped cache
  | AAAA ip => add_to_reverse_lookup_cache acl (IpV6 ip) forward dropped cache
  | _ => cache
  end.

(** The loop over the answers; [drops i] is what is dropped before the [i]-th. *)
Fixpoint cache_records (acl : option AccessControl) (forward : bool) (drops : nat → list IpAddr) (i : nat) (recs : list DnsRecord)
    (cache : ReverseCache) : ReverseCache :=
  match recs with
  | [] => cache
  | rec :: recs => cache_records acl forward drops (S i) recs (cache_record acl forward (drops i) rec cache)
  end.

Definition empty_response (request : Message) : Message :=
  {| id := id request; op_code := op_code request; is_query := false; recursion_desired := true; recursion_available := true;
     response_code := NoError; queries := []; answers := []; additionals := [] |}.

Definition with_code (c : ResponseCode) (rd : bool) (m : Message) : Message :=
  {| id := id m; op_code := op_code m; is_query := is_query m; recursion_desired := rd; recursion_available := recursion_available m;
     response_code := c; queries := queries m; answers := answers m; additionals := additionals m |}.

Definition with_id (i : Z) (m : Message) : Message :=
  {| id := i; op_code := op_code m; is_query := is_query m; recursion_desired := recursion_desired m; recursion_available := recursion_available m;
     response_code := response_code m; queries := queries m; answers := answers m; additionals := additionals m |}.

(** [DnsClient::resolve], with the result of [acl_lookup] for the first query. *)
Definition resolve (acl : option AccessControl) (request : Message) (lookup : Query → outcome io_error (outcome io_error Message * bool))
    (drops : nat → list IpAddr) (cache : ReverseCache) : outcome io_error (Message * ReverseCache) :=
  let message := empty_response request in
  if negb (recursion_desired request) then Ok (with_code NotImp false message, cache)
  else if negb (op_code request =? OP_QUERY) || negb (is_query request) then Ok (with_code NotImp true message, cache)
  else
    match queries request with
    | [] => Ok (message, cache)
    | query :: _ =>
        match lookup query with
        | Ok (Ok result, forward) => Ok (with_id (id request) result, cache_records acl forward drops 0 (answers result) cache)
        | Ok (Err _, _) => Ok (with_code ServFail true message, cache)
        | Ok (Panic m, _) => Panic m
        | Err e => Err e
        | Panic m => Panic m
        end
    end.

(** ** Reverse names *)
Definition ptr_v4 (ip : Z) : list bytes :=
  [show_octet (ip mod 256); show_octet (ip / 2 ^ 8 mod 256); show_octet (ip / 2 ^ 16 mod 256); show_octet (ip / 2 ^ 24 mod 256); str "in-addr"; str "arpa"].

Definition nibbles (g : Z) : list bytes :=
  (λ d, [digit_char d]) <$> [g / 4096 mod 16; g / 256 mod 16; g / 16 mod 16; g mod 16].

Definition ptr_v6 (ip : Z) : list bytes := reverse (str "arpa" :: str "ip6" :: (segments ip ≫= nibbles)).

Lemma ascii_label s : is_ascii s = true → default (str "*") (from_utf8 s) = s.
Proof using. intros H%ascii_utf8_valid. by rewrite from_utf8_valid. Qed.

Lemma show_octet_ascii z : is_ascii (show_octet z) = true.
Proof using.
  unfold is_ascii. apply forallb_forall. intros b Hb%list_elem_of_In%show_number_decimal. unfold in_range. lia.
Qed.

Lemma parse_octet z : 0 ≤ z < 256 → parse_unsigned 256 (show_octet z) = Some z.
Proof using. intros H. apply (parse_show_unsigned 2); [change (10 ^ Z.of_nat 3) with 1000; lia|lia]. Qed.

Lemma ptr_octets_v4 ip : 0 ≤ ip < 2 ^ 32 →
  ptr_octets 4 0 [show_octet (ip / 2 ^ 24 mod 256); show_octet (ip / 2 ^ 16 mod 256); show_octet (ip / 2 ^ 8 mod 256); show_octet (ip mod 256)] = Some ip.
Proof using.
  intros Hip. cbn [ptr_octets next_label].
  do 4 (rewrite ascii_label by apply show_octet_ascii; rewrite parse_octet by (apply Z.mod_pos_bound; lia)).
  f_equal. rewrite (Z.mod_small (ip / 2 ^ 24)) by (split; [apply Z.div_pos; lia|apply Z.div_lt_upper_bound; lia]).
  change (2 ^ 24) with (256 * 256 * 256). change (2 ^ 16) with (256 * 256). change (2 ^ 8) with 256.
  rewrite <- !Z.div_div by lia.
  pose proof (Z.div_mod ip 256). pose proof (Z.div_mod (ip / 256) 256). pose proof (Z.div_mod (ip / 256 / 256) 256). lia.
Qed.

Lemma nibble_label d : 0 ≤ d < 16 → default (str "*") (from_utf8 [digit_char d]) = [digit_char d].
Proof using.
  intros Hd. apply ascii_label. unfold is_ascii, digit_char. cbn [forallb]. unfold in_range.
  destruct (d <? 10) eqn:E; rewrite unsigned_of_Z_small by lia; lia.
Qed.

Lemma ptr_segments_nibbles n gs acc : Forall group gs → length gs = n →
  ptr_segments n acc (gs ≫= nibbles) = Some (foldl (λ z g, z * 65536 + g) acc gs).
Proof using.
  intros Hg. revert n acc. induction Hg as [|g gs Hg Hgs IH]; intros n acc Hn; simpl in Hn; subst n; [done|].
  cbn [mbind list_bind ptr_segments]. unfold nibbles at 1. cbn [fmap list_fmap app next_label].
  rewrite !nibble_label by (apply Z.mod_pos_bound; lia). cbn [app].
  pose proof (from_str_radix_show 16 (2 ^ 16) (g / 4096 mod 16) [g / 256 mod 16; g / 16 mod 16; g mod 16] ltac:(lia)) as E.
  cbn [fmap list_fmap] in E.
  assert (value 16 0 [g / 4096 mod 16; g / 256 mod 16; g / 16 mod 16; g mod 16] = g) as Hv.
  { unfold value. cbn [foldl]. unfold group in Hg.
    rewrite (Z.mod_small (g / 4096)) by (split; [apply Z.div_pos; lia|apply Z.div_lt_upper_bound; lia]).
    change 4096 with (16 * 16 * 16). change 256 with (16 * 16). rewrite <- !Z.div_div by lia.
    pose proof (Z.div_mod g 16). pose proof (Z.div_mod (g / 16) 16). pose proof (Z.div_mod (g / 16 / 16) 16). lia. }
  rewrite Hv in E. rewrite E; [|repeat constructor; apply Z.mod_pos_bound; lia|unfold group in Hg; lia]. cbn [foldl]. by apply IH.
Qed.

(** A reverse query is routed as the address it asks about: the names of
    in-addr.arpa and ip6.arpa that stand for an address get the decision of the
    access control list for it. *)
Theorem ptr_routed_as_address acl name ip :
  match ip with IpV4 z => labels name = ptr_v4 z ∧ 0 ≤ z < 2 ^ 32 | IpV6 z => labels name = ptr_v6 z ∧ 0 ≤ z < 2 ^ 128 end →
  should_forward_by_ptr_name acl name = check_ip_in_proxy_list acl ip.
Proof using.
  destruct ip as [z|z]; intros [Hl Hz]; unfold should_forward_by_ptr_name; rewrite Hl.
  - unfold ptr_v4. cbn [reverse rev_append]. change (reverse [?a; ?b; ?c; ?d; ?e; ?f]) with [f; e; d; c; b; a].
    cbn [next_label]. rewrite !ascii_label by done. rewrite !bool_decide_true by done. cbn [negb]. by rewrite ptr_octets_v4.
  - unfold ptr_v6. rewrite reverse_involutive. cbn [next_label]. rewrite !ascii_label by done.
    rewrite bool_decide_true by done. cbn [negb]. rewrite bool_decide_false, bool_decide_true by done.
    rewrite ptr_segments_nibbles by (apply segments_group || done). fold (groups_Z (segments z)). by rewrite groups_segments.
Qed.

(** ** The choice between the two answers *)
Lemma select_loop_done remote local b r events :
  match r with Some x => x = remote ∧ DeciderReady ∈ events | None => RemoteReady ∈ events ∧ DeciderReady ∈ events end →
  select_loop remote local (Ok b) false r events = Some (Ok (if b then (remote, true) else (local, false))).
Proof using.
  revert r. induction events as [|e events IH]; intros r H; [destruct r; set_solver|].
  destruct e; cbn [select_loop].
  - destruct r as [x|]; [apply IH|apply (IH (Some remote))]; set_solver.
  - destruct b; [|done]. destruct r as [x|]; [by destruct H as [-> _]|].
    destruct H as [H _]. assert (RemoteReady ∈ events) as Hr by set_solver. clear -Hr.
    induction events as [|e events IH]; [set_solver|]. destruct e; cbn [select_loop]; [done|]. apply IH. set_solver.
Qed.

Lemma should_forward_by_query_None acl servers query :
  should_forward_by_query acl servers query = None → ∃ a, acl = Some a.
Proof using. unfold should_forward_by_query. case_bool_decide; [done|]. destruct (queries_server query servers); [done|]. destruct acl; [eauto|done]. Qed.

(** The records that can make the examination hit the branch that is marked
    unreachable. *)
Definition is_ptr (r : DnsRecord) : bool := match rec_data r with PTR _ => true | _ => false end.

Lemma examine_record_ptr acl query names r b : examine_record acl query names r b = Unreachable → is_ptr r = true.
Proof using.
  unfold examine_record, is_ptr. destruct (rec_data r) as [| |name| | | |]; try done; repeat case_match; try done; intros; simplify_eq.
Qed.

Lemma should_forward_by_response_total a m query :
  Forall (λ r, is_ptr r = false) (answers m ++ additionals m) → ∃ b, should_forward_by_response (Some a) (Ok m) query = Ok b.
Proof using.
  intros [H1 H2]%list.Forall_app. unfold should_forward_by_response.
  assert (∀ recs names, Forall (λ r, is_ptr r = false) recs → examine_answers a query names recs ≠ Unreachable) as Ha.
  { induction recs as [|r recs IH]; intros names Hr; [done|]. apply list.Forall_cons in Hr as [Hr Hrs]. cbn [examine_answers].
    destruct (negb _); [done|]. destruct (examine_record a query names r true) eqn:E; [by apply IH|done|].
    apply examine_record_ptr in E. congruence. }
  assert (∀ recs names, Forall (λ r, is_ptr r = false) recs → examine_additionals a query names recs ≠ Unreachable) as Hb.
  { induction recs as [|r recs IH]; intros names Hr; [done|]. apply list.Forall_cons in Hr as [Hr Hrs]. cbn [examine_additionals].
    destruct (has_name _ _); [|by apply IH]. destruct (examine_record a query names r false) eqn:E; [by apply IH|done|].
    apply examine_record_ptr in E. congruence. }
  specialize (Ha (answers m) [query_name query] H1). destruct (examine_answers a query [query_name query] (answers m)) as [names|b|]; [|eauto|done].
  specialize (Hb (additionals m) names H2). destruct (examine_additionals a query names (additionals m)); eauto. done.
Qed.

(** Which answer is used does not depend on which comes first.  Once both the
    remote answer and the decision on the local one are there, in whatever order and
    with whatever turns of the loop before, the lookup has returned: the local
    answer when it is accepted, the remote one otherwise; it does not fail unless
    the local answer has a PTR record. *)
Theorem acl_lookup_order_independent acl servers query remote m events :
  Forall (λ r, is_ptr r = false) (answers m ++ additionals m) → RemoteReady ∈ events → DeciderReady ∈ events →
  ∃ forward, acl_lookup acl servers query remote (Ok m) events = Some (Ok (if forward : bool then (remote, true) else (Ok m, false))) ∧
    match should_forward_by_query acl servers query with
    | Some f => forward = f
    | None => should_forward_by_response acl (Ok m) query = Ok forward
    end.
Proof using.
  intros Hp Hr Hd. unfold acl_lookup. destruct (should_forward_by_query acl servers query) as [[]|] eqn:E; [by exists true|by exists false|].
  apply should_forward_by_query_None in E as [a ->]. destruct (should_forward_by_response_total a m query Hp) as [b Hb].
  exists b. rewrite Hb. split; [|done]. by apply (select_loop_done remote (Ok m) b None).
Qed.

(** A local answer is used for a query that no rule decides only with a reason:
    the default is not to use the tunnel, or a record has an address that is not to
    be proxied, or an answer leads to a name of the bypass list. *)
Theorem local_answer_justified a m query :
  should_forward_by_response (Some a) (Ok m) query = Ok false →
  is_default_in_proxy_list a = false ∨
  (∃ r ip, r ∈ answers m ++ additionals m ∧ (rec_data r = A ip ∧ check_ip_in_proxy_list a (IpV4 ip) = false ∨ rec_data r = AAAA ip ∧ check_ip_in_proxy_list a (IpV6 ip) = false)) ∨
  (∃ r n, r ∈ answers m ∧ (rec_data r = CNAME n ∨ rec_data r = MX n ∨ rec_data r = NS n) ∧ check_name_in_proxy_list a n = Some false).
Proof using.
  set (J := λ (ans : bool) (r : DnsRecord), is_default_in_proxy_list a = false ∨
    (∃ ip, rec_data r = A ip ∧ check_ip_in_proxy_list a (IpV4 ip) = false ∨ rec_data r = AAAA ip ∧ check_ip_in_proxy_list a (IpV6 ip) = false) ∨
    (ans = true ∧ ∃ n, (rec_data r = CNAME n ∨ rec_data r = MX n ∨ rec_data r = NS n) ∧ check_name_in_proxy_list a n = Some false)).
  assert (∀ names r b, examine_record a query names r b = Return false → J b r) as Hrec.
  { intros names r b. unfold examine_record, J. destruct (rec_data r) as [ip|ip|n|n|n|n|t] eqn:Ed.
    all: try (destruct (b && _ && _); [done|]).
    - destruct (check_ip_in_proxy_list a (IpV4 ip)) eqn:E; [done|]. intros _. right; left. eauto.
    - destruct (check_ip_in_proxy_list a (IpV6 ip)) eqn:E; [done|]. intros _. right; left. eauto.
    - destruct b; [|done]. destruct (check_name_in_proxy_list a n) as [v|] eqn:E; [|done]. intros [= ->]. right; right. eauto 10.
    - unfold examine_name. destruct b; [|destruct (is_default_in_proxy_list a) eqn:E; [done|by left]].
      destruct (check_name_in_proxy_list a n) as [[]|] eqn:E; simpl; [done|intros _; right; right; eauto 10|].
      destruct (is_default_in_proxy_list a) eqn:E'; [done|by left].
    - unfold examine_name. destruct b; [|destruct (is_default_in_proxy_list a) eqn:E; [done|by left]].
      destruct (check_name_in_proxy_list a n) as [[]|] eqn:E; simpl; [done|intros _; right; right; eauto 10|].
      destruct (is_default_in_proxy_list a) eqn:E'; [done|by left].
    - done.
    - destruct (is_default_in_proxy_list a) eqn:E; [done|by left]. }
  assert (∀ recs names, examine_answers a query names recs = Return false → ∃ r, r ∈ recs ∧ J true r) as Ha.
  { induction recs as [|r recs IH]; intros names; cbn [examine_answers]; [done|]. destruct (negb _); [done|].
    destruct (examine_record a query names r true) eqn:E; [intros (r' & ? & ?)%IH; exists r'; split; [by right|done]| |done].
    intros [= ->]. exists r. split; [by left|eauto]. }
  assert (∀ recs names, examine_additionals a query names recs = Return false → ∃ r, r ∈ recs ∧ J false r) as Hb.
  { induction recs as [|r recs IH]; intros names; cbn [examine_additionals]; [done|].
    destruct (has_name _ _); [|intros (r' & ? & ?)%IH; exists r'; split; [by right|done]].
    destruct (examine_record a query names r false) eqn:E; [intros (r' & ? & ?)%IH; exists r'; split; [by right|done]| |done].
    intros [= ->]. exists r. split; [by left|eauto]. }
  unfold should_forward_by_response. intros H.
  assert ((∃ r, r ∈ answers m ∧ J true r) ∨ (∃ r, r ∈ additionals m ∧ J false r)) as [(r & Hr & HJ)|(r & Hr & HJ)].
  { destruct (examine_answers _ _ _ _) as [names|b|] eqn:E; [|injection H as ->; left; eauto|done].
    destruct (examine_additionals _ _ _ _) as [names'|b|] eqn:E'; [done|injection H as ->; right; eauto|done]. }
  - destruct HJ as [?|[(ip & ?)|(_ & n & ? & ?)]]; [by left|right; left|right; right]; [exists r, ip; rewrite elem_of_app; eauto|exists r, n; eauto].
  - destruct HJ as [?|[(ip & ?)|(? & _)]]; [by left|right; left|done]. exists r, ip. rewrite elem_of_app. eauto.
Qed.

(** A PTR record for the name that was asked, in the additional section of the
    local answer, reaches the branch marked unreachable, whatever the query type:
    the lookup panics. *)
Theorem ptr_record_panics a query m r n :
  answers m = [] → additionals m = [r] → name_eqb (rec_name r) (query_name query) = true → rec_data r = PTR n →
  should_forward_by_response (Some a) (Ok m) query = Panic "internal error: entered unreachable code".
Proof using.
  intros Ha Hb Hn Hr. unfold should_forward_by_response. rewrite Ha, Hb. cbn [examine_answers examine_additionals has_name existsb].
  rewrite Hn. cbn [orb]. unfold examine_record. by rewrite Hr.
Qed.

(** ** Connections to the addresses of an answer *)
Definition answer_ip (r : DnsRecord) : option IpAddr := match rec_data r with A ip => Some (IpV4 ip) | AAAA ip => Some (IpV6 ip) | _ => None end.

(** What the context decides for an address. *)
Definition routed (a : AccessControl) (cache : ReverseCache) (ip : IpAddr) : bool :=
  match cache !! ip with Some forward => forward | None => check_ip_in_proxy_list a ip end.

Lemma routed_bypassed a cache saddr :
  context_check_target_bypassed (Some a) cache (SocketAddress saddr) = negb (routed a cache (SocketAddr_ip saddr)).
Proof using. unfold context_check_target_bypassed, routed. by destruct (cache !! SocketAddr_ip saddr). Qed.

Lemma drop_entries_lookup dropped cache ip :
  drop_entries dropped cache !! ip = if bool_decide (ip ∈ dropped) then None else cache !! ip.
Proof using.
  induction dropped as [|x l IH]; [by rewrite bool_decide_false by set_solver|]. simpl. destruct (decide (x = ip)) as [->|Hne].
  - rewrite lookup_delete_eq. by rewrite bool_decide_true by set_solver.
  - rewrite lookup_delete_ne, IH by done. by rewrite (bool_decide_ext (ip ∈ x :: l) (ip ∈ l)) by set_solver.
Qed.

Lemma drop_routed a dropped cache ip :
  routed a (drop_entries dropped cache) ip = if bool_decide (ip ∈ dropped) then check_ip_in_proxy_list a ip else routed a cache ip.
Proof using. unfold routed. rewrite drop_entries_lookup. by case_bool_decide. Qed.

Lemma add_routed a ip forward dropped cache ip' :
  routed a (add_to_reverse_lookup_cache (Some a) ip forward dropped cache) ip' =
  if bool_decide (ip' = ip) then forward else routed a (drop_entries dropped cache) ip'.
Proof using.
  unfold add_to_reverse_lookup_cache. set (c := drop_entries dropped cache). unfold routed. case_bool_decide as Hip.
  - subst ip'. destruct (Bool.eqb forward (check_ip_in_proxy_list a ip)) eqn:E; cbn [negb].
    + apply eqb_prop in E as ->. destruct (c !! ip) eqn:Ec; rewrite ?lookup_delete_eq, ?Ec; done.
    + destruct (c !! ip); by rewrite lookup_insert_eq.
  - destruct (c !! ip), (negb _); rewrite ?lookup_insert_ne, ?lookup_delete_ne by congruence; done.
Qed.

(** What is dropped before the [i]-th record is looked at: a record that is no
    address leaves the cache alone. *)
Definition dropped_at (drops : nat → list IpAddr) (recs : list DnsRecord) (i : nat) (ip : IpAddr) : Prop :=
  ip ∈ drops i ∧ ∃ r, recs !! i = Some r ∧ is_Some (answer_ip r).

Lemma cache_record_routed a forward dropped cache r ip :
  routed a (cache_record (Some a) forward dropped r cache) ip =
  match answer_ip r with
  | None => routed a cache ip
  | Some x => if bool_decide (ip = x) then forward else if bool_decide (ip ∈ dropped) then check_ip_in_proxy_list a ip else routed a cache ip
  end.
Proof using. unfold cache_record, answer_ip. destruct (rec_data r); by rewrite ?add_routed, ?drop_routed. Qed.

Lemma cache_records_app acl forward drops recs r : ∀ i cache,
  cache_records acl forward drops i (recs ++ [r]) cache =
  cache_record acl forward (drops (i + length recs)%nat) r (cache_records acl forward drops i recs cache).
Proof using.
  induction recs as [|x recs IH]; intros i cache; simpl; [by rewrite Nat.add_0_r|]. rewrite IH. by rewrite <- plus_n_Sm.
Qed.

(** The last thing that happens to an address decides. *)
Lemma cache_records_routed a forward drops recs cache ip :
  let cache' := cache_records (Some a) forward drops 0 recs cache in
  (∀ i r, recs !! i = Some r → answer_ip r = Some ip → (∀ j, (i < j)%nat → ¬ dropped_at drops recs j ip) → routed a cache' ip = forward) ∧
  (Some ip ∉ answer_ip <$> recs → (∀ j, ¬ dropped_at drops recs j ip) → routed a cache' ip = routed a cache ip) ∧
  (Some ip ∉ answer_ip <$> recs → (∃ j, dropped_at drops recs j ip) → routed a cache' ip = check_ip_in_proxy_list a ip).
Proof using.
  assert (∀ l r j, dropped_at drops l j ip → dropped_at drops (l ++ [r]) j ip) as Hl.
  { intros l r j [? (x & Hx & ?)]. split; [done|]. exists x. split; [by apply lookup_app_l_Some|done]. }
  assert (∀ l r, ip ∈ drops (length l) → is_Some (answer_ip r) → dropped_at drops (l ++ [r]) (length l) ip) as Hlast.
  { intros l r Hd Hr. split; [done|]. exists r. by rewrite list_lookup_middle. }
  assert (∀ l r j, dropped_at drops (l ++ [r]) j ip → dropped_at drops l j ip ∨ ip ∈ drops (length l) ∧ is_Some (answer_ip r)) as Hinv.
  { intros l r j [Hd (x & Hx & Ha)]. apply lookup_app_Some in Hx as [Hx|[Hge Hx]]; [left; split; eauto|right].
    apply list_lookup_singleton_Some in Hx as [Hj ->]. by replace j with (length l) in Hd by lia. }
  induction recs as [|r recs IH] using rev_ind.
  { split_and!; [by intros i r|done|]. by intros _ (j & _ & x & Hx & _). }
  destruct IH as (IH1 & IH2 & IH3). cbv zeta.
  assert (Some ip ∉ answer_ip <$> recs ++ [r] → Some ip ∉ answer_ip <$> recs ∧ answer_ip r ≠ Some ip) as Hno.
  { rewrite fmap_app, not_elem_of_app. intros [? Hr]. split; [done|]. intros E. apply Hr. rewrite <- E. by apply list_elem_of_here. }
  rewrite cache_records_app, cache_record_routed, Nat.add_0_l. split_and!.
  - intros i x Hx Hax Hkeep. destruct (answer_ip r) as [y|] eqn:Hr.
    + case_bool_decide as Hy; [done|]. apply lookup_app_Some in Hx as [Hx|[Hge Hx]].
      * rewrite bool_decide_false; [|intros Hd; apply (Hkeep (length recs)); [by apply lookup_lt_Some in Hx|apply Hlast; [done|by rewrite Hr]]].
        eapply IH1; [done|done|]. intros j Hj Hd. by apply (Hkeep j Hj), Hl.
      * apply list_lookup_singleton_Some in Hx as [_ ->]. congruence.
    + apply lookup_app_Some in Hx as [Hx|[_ Hx]]; [|apply list_lookup_singleton_Some in Hx as [_ ->]; congruence].
      eapply IH1; [done|done|]. intros j Hj Hd. by apply (Hkeep j Hj), Hl.
  - intros [Hn Hr]%Hno Hd. rewrite <- IH2; [|done|intros j Hj; by apply (Hd j), Hl].
    destruct (answer_ip r) as [y|] eqn:Ey; [|done]. rewrite bool_decide_false by congruence.
    rewrite bool_decide_false; [done|]. intros Hin. apply (Hd (length recs)), Hlast; [done|by rewrite Ey].
  - intros [Hn Hr]%Hno (j & Hj). destruct (answer_ip r) as [y|] eqn:Ey.
    + rewrite bool_decide_false by congruence. case_bool_decide as Hin; [done|]. apply IH3; [done|].
      apply Hinv in Hj as [Hj|[Hj _]]; [by exists j|done].
    + apply IH3; [done|]. apply Hinv in Hj as [Hj|[_ Hj]]; [by exists j|]. rewrite Ey in Hj. by destruct Hj.
Qed.

(** C21. Connections follow the answer, with an access control list.  A request that
    is looked up is answered with its own id.  Afterwards, while the cache keeps its
    entry (an LRU cache of 10240 entries that expire after 3 days: [drops] is what
    it drops while the answer is recorded, [later] what it drops until the
    connection), a connection to an address of the answer goes through the tunnel
    exactly when the answer came through it; the route of an address that is not in
    the answer is as before, or the one of the list alone when the cache has dropped
    its entry; and so is the route of an address whose entry was dropped later.  A
    lookup that fails is answered with the code for a server failure and changes
    nothing. *)
Theorem resolve_routes a request query qs lookup drops cache result forward :
  recursion_desired request = true → op_code request = OP_QUERY → is_query request = true → queries request = query :: qs →
  lookup query = Ok (result, forward) → (∀ msg, result ≠ Panic msg) →
  ∃ m cache', resolve (Some a) request lookup drops cache = Ok (m, cache') ∧ id m = id request ∧
    match result with
    | Ok r => answers m = answers r ∧ ∀ later saddr,
        let ip := SocketAddr_ip saddr in
        let bypassed c := context_check_target_bypassed (Some a) c (SocketAddress saddr) in
        let now := bypassed (drop_entries later cache') in
        (ip ∉ later → (∃ i x, answers r !! i = Some x ∧ answer_ip x = Some ip ∧ ∀ j, (i < j)%nat → ¬ dropped_at drops (answers r) j ip) →
           now = negb forward) ∧
        (ip ∉ later → Some ip ∉ answer_ip <$> answers r → (∀ j, ¬ dropped_at drops (answers r) j ip) → now = bypassed cache) ∧
        (ip ∈ later ∨ Some ip ∉ answer_ip <$> answers r ∧ (∃ j, dropped_at drops (answers r) j ip) →
           now = Acl.check_target_bypassed a (SocketAddress saddr))
    | _ => response_code m = ServFail ∧ answers m = [] ∧ cache' = cache
    end.
Proof using.
  intros Hrd Hop Hq Hqs Hl Hnp. unfold resolve. rewrite Hrd, Hop, Hq, Hqs, Hl. cbn [negb orb Z.eqb OP_QUERY].
  destruct result as [r|e|msg]; [|by eexists _, _|by destruct (Hnp msg)].
  eexists _, _. split; [done|]. split; [done|]. split; [done|]. intros later saddr. cbn zeta.
  destruct (cache_records_routed a forward drops (answers r) cache (SocketAddr_ip saddr)) as (H1 & H2 & H3).
  rewrite !routed_bypassed, drop_routed. split_and!.
  - intros Hn (i & x & Hx & Ha & Hk). rewrite bool_decide_false by done. f_equal. by eapply H1.
  - intros Hn Hno Hk. rewrite bool_decide_false by done. f_equal. by apply H2.
  - cbn [Acl.check_target_bypassed]. intros [Hin|[Hno Hk]]; [by rewrite bool_decide_true|]. case_bool_decide; [done|]. f_equal. by apply H3.
Qed.
End Dns.

(** ** Examples *)
Module DnsExamples.
Import AclExamples.
#[local] Existing Instances list_range literal_regex toy_env.

#[local] Instance names : DnsNames := {
  Name := list bytes * bool;
  labels n := n.1;
  is_fqdn n := n.2;
  set_fqdn n := (n.1, true);
  to_ascii n := join DOT n.1 ++ (if n.2 then [DOT] else []);
  name_from_str s := Some (split_on DOT s, false);
  name_eqb a b := bool_decide (to_ascii_lowercase <$> a.1 = to_ascii_lowercase <$> b.1);
  name_cmp_equal a b := bool_decide (to_ascii_lowercase <$> a.1 = to_ascii_lowercase <$> b.1 ∧ a.2 = b.2);
}.

Definition fqdn (s : string) : Name := (split_on DOT (str s), true).

Lemma ptr_routed_as_address_witness :
  should_forward_by_ptr_name acl0 (fqdn "7.0.1.10.in-addr.arpa") = false ∧ check_ip_in_proxy_list acl0 (IpV4 167837703) = false.
Proof.
  rewrite (ptr_routed_as_address acl0 (fqdn "7.0.1.10.in-addr.arpa") (IpV4 167837703)); [by vm_compute|]. split; [by vm_compute|lia].
Defined.

Definition ask (t : Z) : Query := {| query_name := fqdn "host.test"; query_class := CLASS_IN; query_type := t |}.
Definition answer (rs add : list DnsRecord) : Message :=
  {| id := 7; op_code := OP_QUERY; is_query := false; recursion_desired := true; recursion_available := true; response_code := NoError;
     queries := []; answers := rs; additionals := add |}.
Definition inside : Message := answer [{| rec_name := fqdn "host.test"; rec_data := A 167772161 |}] [].
Definition outside : Message := answer [{| rec_name := fqdn "host.test"; rec_data := A 16909060 |}] [].
Definition remote_servers : list ServerConf.ServerAddr := [ServerConf.DomainName (str "server.test") 8388].

Lemma acl_lookup_order_independent_witness :
  acl_lookup (Some acl0) remote_servers (ask TYPE_A) (Ok outside) (Ok inside) [RemoteReady; DeciderReady] = Some (Ok (Ok inside, false)).
Proof.
  destruct (acl_lookup_order_independent (Some acl0) remote_servers (ask TYPE_A) (Ok outside) inside [RemoteReady; DeciderReady]) as (f & -> & H).
  - repeat constructor.
  - by left.
  - right; by left.
  - destruct f; [by vm_compute in H|done].
Defined.

Lemma local_answer_justified_witness : ∃ r ip, r ∈ answers inside ∧ rec_data r = A ip ∧ check_ip_in_proxy_list acl0 (IpV4 ip) = false.
Proof.
  assert (should_forward_by_response (Some acl0) (Ok inside) (ask TYPE_A) = Ok false) as E by (by vm_compute).
  destruct (local_answer_justified acl0 inside (ask TYPE_A) E) as [H|[(r & ip & Hr & H)|(r & n & Hr & H & _)]].
  - by vm_compute in H.
  - apply list_elem_of_singleton in Hr as ->. destruct H as [[H1 H2]|[H1 _]]; [|discriminate H1].
    eexists _, ip. split; [apply list_elem_of_here|split; [exact H1|exact H2]].
  - apply list_elem_of_singleton in Hr as ->. destruct H as [H|[H|H]]; discriminate H.
Defined.

Definition ptr_rec : DnsRecord := {| rec_name := fqdn "HOST.test"; rec_data := PTR (fqdn "x.test") |}.

Lemma ptr_record_panics_witness :
  should_forward_by_response (Some acl0) (Ok (answer [] [ptr_rec])) (ask TYPE_A) = Panic "internal error: entered unreachable code".
Proof.
  apply (ptr_record_panics acl0 (ask TYPE_A) (answer [] [ptr_rec]) ptr_rec (fqdn "x.test")); [reflexivity|reflexivity|vm_compute; reflexivity|reflexivity].
Defined.

Definition request : Message :=
  {| id := 99; op_code := OP_QUERY; is_query := true; recursion_desired := true; recursion_available := false; response_code := NoError;
     queries := [ask TYPE_A]; answers := []; additionals := [] |}.

Lemma resolve_routes_witness : ∃ m cache,
  resolve (Some acl0) request (λ _, Ok (Ok outside, false)) (λ _, []) ∅ = Ok (m, cache) ∧ id m = 99 ∧
  context_check_target_bypassed (Some acl0) cache (SocketAddress (V4 16909060 443)) = true.
Proof.
  destruct (resolve_routes acl0 request (ask TYPE_A) [] (λ _, Ok (Ok outside, false)) (λ _, []) ∅ (Ok outside) false)
    as (m & cache & E & Hid & _ & H); [reflexivity..|discriminate|].
  exists m, cache. split; [exact E|]. split; [exact Hid|]. apply (H [] (V4 16909060 443)).
  - apply not_elem_of_nil.
  - exists 0%nat. eexists. split; [reflexivity|]. split; [reflexivity|]. intros j _ [Hj _]. by apply not_elem_of_nil in Hj.
Defined.
End DnsExamples.
