(* ===== verification/FakeDns.v ===== *)
(** * Fake DNS (crates/shadowsocks-service/src/local/fake_dns/manager.rs, proto.rs)

    The manager gives every domain name an address out of a private network and
    remembers both directions in a database until they expire.  Shown, for both
    families and any clock: a new address is the first one in cyclic order that is
    free when it is looked at, the call returns within one round after one has
    become free and not before, and the address is known as that of the name until
    it expires; and that a name can keep an address that has meanwhile been given
    to another name, because a lookup of the name extends only one of the two
    records. *)
From S2P Require Import Prelude.
From S2P Require Import StdNet.
From S2P Require Import NetText.

(** ** Records (proto.rs) *)
Record IpAddrMapping := { im_domain_name : bytes; im_expire_time : Z }.
Record DomainNameMapping := { dm_ipv4_addr : bytes; dm_ipv6_addr : bytes; dm_expire_time : Z }.

Definition DomainNameMapping_default : DomainNameMapping := {| dm_ipv4_addr := []; dm_ipv6_addr := []; dm_expire_time := 0 |}.

(** The bson crate, and the parser of names of hickory; a [Name] is its text. *)
Class FakeDnsLib := {
  im_encode : IpAddrMapping → option bytes;
  im_decode : bytes → option IpAddrMapping;
  dm_encode : DomainNameMapping → option bytes;
  dm_decode : bytes → option DomainNameMapping;
  parse_name : bytes → option bytes;
}.

Class FakeDnsLaws (L : FakeDnsLib) : Prop := {
  im_roundtrip m : ∃ v, im_encode m = Some v ∧ im_decode v = Some m;
  dm_roundtrip m : ∃ v, dm_encode m = Some v ∧ dm_decode v = Some m;
}.

(** [Cycle<..>]: the whole range and what is left of the current round. *)
Record cycle := { cy_all : list Z; cy_rest : list Z }.

Definition cycle_next (c : cycle) : option Z * cycle :=
  match cy_rest c with
  | ip :: rest => (Some ip, {| cy_all := cy_all c; cy_rest := rest |})
  | [] =>
      match cy_all c with
      | ip :: rest => (Some ip, {| cy_all := cy_all c; cy_rest := rest |})
      | [] => (None, c)
      end
  end.

(** The database is a map from keys to values whose calls succeed. *)
Record FakeDnsManager := {
  db : gmap bytes bytes;
  ipv4_network : cycle;
  ipv6_network : cycle;
  expire_duration : Z;
}.

Definition get_name2ip_key (domain : bytes) : bytes := str "shadowsocks_fakedns_name2ip_" ++ domain.
Definition get_ip2name_key (ip : bytes) : bytes := str "shadowsocks_fakedns_ip2name_" ++ ip.

Definition db_put (k v : bytes) (self : FakeDnsManager) : FakeDnsManager :=
  {| db := <[k := v]> (db self); ipv4_network := ipv4_network self; ipv6_network := ipv6_network self;
     expire_duration := expire_duration self |}.

(** ** The two instances of map_domain_ip *)
Record family := {
  fam_parse : bytes → option Z;
  fam_show : Z → bytes;
  fam_field : DomainNameMapping → bytes;
  fam_set_field : bytes → DomainNameMapping → DomainNameMapping;
  fam_network : FakeDnsManager → cycle;
  fam_set_network : cycle → FakeDnsManager → FakeDnsManager;
}.

Definition ipv4_family : family := {|
  fam_parse := parse_ipv4;
  fam_show := show_ipv4;
  fam_field := dm_ipv4_addr;
  fam_set_field a m := {| dm_ipv4_addr := a; dm_ipv6_addr := dm_ipv6_addr m; dm_expire_time := dm_expire_time m |};
  fam_network := ipv4_network;
  fam_set_network c self := {| db := db self; ipv4_network := c; ipv6_network := ipv6_network self; expire_duration := expire_duration self |};
|}.

Definition ipv6_family : family := {|
  fam_parse := parse_ipv6;
  fam_show := show_ipv6;
  fam_field := dm_ipv6_addr;
  fam_set_field a m := {| dm_ipv4_addr := dm_ipv4_addr m; dm_ipv6_addr := a; dm_expire_time := dm_expire_time m |};
  fam_network := ipv6_network;
  fam_set_network c self := {| db := db self; ipv4_network := ipv4_network self; ipv6_network := c; expire_duration := expire_duration self |};
|}.

Definition dm_set_expire (e : Z) (m : DomainNameMapping) : DomainNameMapping :=
  {| dm_ipv4_addr := dm_ipv4_addr m; dm_ipv6_addr := dm_ipv6_addr m; dm_expire_time := e |}.
Definition im_set_expire (e : Z) (m : IpAddrMapping) : IpAddrMapping := {| im_domain_name := im_domain_name m; im_expire_time := e |}.

Section Manager.
Context `{FL : FakeDnsLib} (fam : family).

(** A value read from the database, [decode(&v)?]; encoding and decoding fail with
    an I/O error. *)
Definition bson_error : io_error := OtherKind "bson".
Definition or_error {A} (o : option A) : outcome io_error A := match o with Some a => Ok a | None => Err bson_error end.

Definition db_get {A} (decode : bytes → option A) (k : bytes) (self : FakeDnsManager) : outcome io_error (option A) :=
  match db self !! k with Some v => Some <$> or_error (decode v) | None => Ok None end.

(** The time is read several times: [clock i] is the [i]-th reading in a call. *)
Implicit Types clock : nat → Z.

(** What the first part of a turn finds: an address to return, with the new
    database, or the record to complete with a new address and the number of
    readings of the clock. *)
Inductive lookup_result := Known (ip : Z) (self : FakeDnsManager) | Allocate (m : DomainNameMapping) (k : nat).

Definition extend_or_reuse (clock : nat → Z) (domain : bytes) (m : DomainNameMapping) (i : Z) (k : nat) (self : FakeDnsManager) : outcome io_error lookup_result :=
  let now := clock k in
  let expire_secs := clock (S k) + expire_duration self in
  if now <=? dm_expire_time m then
    nv ← or_error (dm_encode (dm_set_expire expire_secs m));
    Ok (Known i (db_put (get_name2ip_key domain) nv self))
  else
    let ip2name_key := get_ip2name_key (fam_show fam i) in
    ip_mapping ← db_get im_decode ip2name_key self;
    match ip_mapping with
    | Some ip_mapping =>
        if bool_decide (im_domain_name ip_mapping = domain) then
          nv ← or_error (im_encode (im_set_expire expire_secs ip_mapping));
          Ok (Known i (db_put ip2name_key nv self))
        else Ok (Allocate m (S (S k)))
    | None => Ok (Allocate m (S (S k)))
    end.

Definition lookup_domain (clock : nat → Z) (domain : bytes) (k : nat) (self : FakeDnsManager) : outcome io_error lookup_result :=
  m ← db_get dm_decode (get_name2ip_key domain) self;
  match m with
  | None => Ok (Allocate DomainNameMapping_default k)
  | Some m =>
      if bool_decide (fam_field fam m = []) then Ok (Allocate m k)
      else match fam_parse fam (fam_field fam m) with
           | Some i => extend_or_reuse clock domain m i k self
           | None => Ok (Allocate m k)
           end
  end.

(** Writes both records of a new address; the first stays written when the second
    cannot be encoded. *)
Definition assign (domain : bytes) (m : DomainNameMapping) (ip expire_secs : Z) (self : FakeDnsManager) : outcome io_error unit * FakeDnsManager :=
  let text := fam_show fam ip in
  match im_encode {| im_domain_name := domain; im_expire_time := expire_secs |} with
  | None => (Err bson_error, self)
  | Some nv =>
      let self := db_put (get_ip2name_key text) nv self in
      match dm_encode (dm_set_expire expire_secs (fam_set_field fam text m)) with
      | None => (Err bson_error, self)
      | Some nv => (Ok tt, db_put (get_name2ip_key domain) nv self)
      end
  end.

(** What the [while let] loop ends with; [Exhausted] is the end of the network. *)
Inductive alloc_result := Allocated (ip : Z) (self : FakeDnsManager) | AllocError (e : io_error) (self : FakeDnsManager) | Exhausted (k : nat) (self : FakeDnsManager).

Definition finish_alloc (clock : nat → Z) (domain : bytes) (m : DomainNameMapping) (ip : Z) (k : nat) (self : FakeDnsManager) : alloc_result :=
  match assign domain m ip (clock k + expire_duration self) self with
  | (Ok _, self) => Allocated ip self
  | (Err e, self) => AllocError e self
  | (Panic _, self) => AllocError bson_error self
  end.

Fixpoint allocate (fuel : nat) (clock : nat → Z) (domain : bytes) (m : DomainNameMapping) (k : nat) (self : FakeDnsManager) : option alloc_result :=
  match fuel with
  | O => None
  | S fuel =>
      let '(next, net) := cycle_next (fam_network fam self) in
      let self := fam_set_network fam net self in
      match next with
      | None => Some (Exhausted k self)
      | Some ip =>
          match db_get im_decode (get_ip2name_key (fam_show fam ip)) self with
          | Ok (Some ip_mapping) =>
              if clock k <? im_expire_time ip_mapping then allocate fuel clock domain m (S k) self
              else Some (finish_alloc clock domain m ip (S k) self)
          | Ok None => Some (finish_alloc clock domain m ip k self)
          | Err e => Some (AllocError e self)
          | Panic _ => Some (AllocError bson_error self)
          end
      end
  end.

(** The outer loop; [None] when it has not ended with the fuel given. *)
Fixpoint map_domain_loop (fuel : nat) (clock : nat → Z) (domain : bytes) (k : nat) (self : FakeDnsManager) : option (outcome io_error Z * FakeDnsManager) :=
  match fuel with
  | O => None
  | S fuel' =>
      match lookup_domain clock domain k self with
      | Ok (Known ip self) => Some (Ok ip, self)
      | Ok (Allocate m k) =>
          match allocate fuel clock domain m k self with
          | None => None
          | Some (Allocated ip self) => Some (Ok ip, self)
          | Some (AllocError e self) => Some (Err e, self)
          | Some (Exhausted k self) => map_domain_loop fuel' clock domain k self
          end
      | Err e => Some (Err e, self)
      | Panic m => Some (Panic m, self)
      end
  end.

(** [map_domain_ipv4] and [map_domain_ipv6]; the duration they also return is
    [expire_duration]. *)
Definition map_domain_ip (fuel : nat) (clock : nat → Z) (domain : bytes) (self : FakeDnsManager) : option (outcome io_error Z * FakeDnsManager) :=
  map_domain_loop fuel clock domain 0 self.

(** [map_ip_domain]: the name of an address given by its text. *)
Definition map_ip_domain (clock : nat → Z) (ip : bytes) (self : FakeDnsManager) : outcome io_error (option bytes) * FakeDnsManager :=
  match db_get im_decode (get_ip2name_key ip) self with
  | Err e => (Err e, self)
  | Panic m => (Panic m, self)
  | Ok None => (Ok None, self)
  | Ok (Some ip_mapping) =>
      let now := clock 0%nat in
      if now <=? im_expire_time ip_mapping then
        let expire := now + expire_duration self in
        match im_encode (im_set_expire expire ip_mapping) with
        | None => (Err bson_error, self)
        | Some nv =>
            let self := db_put (get_ip2name_key ip) nv self in
            match parse_name (im_domain_name ip_mapping) with
            | None => (Ok None, self)
            | Some name =>
                let name2ip_key := get_name2ip_key name in
                match db_get dm_decode name2ip_key self with
                | Err e => (Err e, self)
                | Panic m => (Panic m, self)
                | Ok None => (Ok None, self)
                | Ok (Some m) =>
                    match dm_encode (dm_set_expire expire m) with
                    | None => (Err bson_error, self)
                    | Some nv => (Ok (Some name), db_put name2ip_key nv self)
                    end
                end
            end
        end
      else (Ok None, self)
  end.
End Manager.

(** ** Facts about the database *)
Section Facts.
Context `{FL : FakeDnsLib} `{LL : !FakeDnsLaws FL}.

Lemma name_key_inj a b : get_name2ip_key a = get_name2ip_key b → a = b.
Proof. apply (inj (app _)). Qed.

Lemma ip_key_inj a b : get_ip2name_key a = get_ip2name_key b → a = b.
Proof. apply (inj (app _)). Qed.

Lemma name_ip_key a b : get_name2ip_key a ≠ get_ip2name_key b.
Proof. by vm_compute. Qed.

(** The records of a name and of an address. *)
Abbreviation name_at d self := (db_get dm_decode (get_name2ip_key d) self).
Abbreviation addr_at fam ip self := (db_get im_decode (get_ip2name_key (fam_show fam ip)) self).

Lemma db_get_put_eq {A} (dec : bytes → option A) k v a self : dec v = Some a → db_get dec k (db_put k v self) = Ok (Some a).
Proof. intros E. unfold db_get, db_put. simpl. by rewrite lookup_insert_eq, E. Qed.

Lemma db_get_put_ne {A} (dec : bytes → option A) k k' v self : k ≠ k' → db_get dec k' (db_put k v self) = db_get dec k' self.
Proof. intros E. unfold db_get, db_put. simpl. by rewrite lookup_insert_ne. Qed.

(** What the two instances have in common; addresses have [bits] bits. *)
Record family_ok (fam : family) (bits : Z) : Prop := {
  fam_parse_show ip : 0 ≤ ip < 2 ^ bits → fam_parse fam (fam_show fam ip) = Some ip;
  fam_parse_nil : fam_parse fam [] = None;
  fam_field_set a e m : fam_field fam (dm_set_expire e (fam_set_field fam a m)) = a;
  fam_network_set c self : fam_network fam (fam_set_network fam c self) = c;
  fam_set_set c c' self : fam_set_network fam c (fam_set_network fam c' self) = fam_set_network fam c self;
  fam_set_db c self : db (fam_set_network fam c self) = db self;
  fam_set_duration c self : expire_duration (fam_set_network fam c self) = expire_duration self;
  fam_network_put k v self : fam_network fam (db_put k v self) = fam_network fam self;
}.

Lemma ipv4_family_ok : family_ok ipv4_family 32.
Proof. split; try done. apply parse_show_ipv4. Qed.

Lemma ipv6_family_ok : family_ok ipv6_family 128.
Proof. split; try done. apply parse_show_ipv6. Qed.

(** ** Allocation *)
Section Allocation.
Context (fam : family) (bits : Z) (FO : family_ok fam bits).

(** An address is free at [now] when no record of it lasts longer. *)
Definition free (now : Z) (self : FakeDnsManager) (ip : Z) : bool :=
  match addr_at fam ip self with Ok (Some m) => im_expire_time m <=? now | _ => true end.

Definition recorded (self : FakeDnsManager) (ip : Z) : bool :=
  match addr_at fam ip self with Ok (Some _) => true | _ => false end.

Definition readable (self : FakeDnsManager) (ip : Z) : Prop := is_ok (addr_at fam ip self) = true.

(** A range that is being cycled through, and the [i]-th address from where it is. *)
Definition cycle_ok (c : cycle) : Prop := cy_rest c `suffix_of` cy_all c ∧ cy_all c ≠ [].

Definition tried (c : cycle) (i : nat) : Z :=
  nth ((length (cy_all c) - length (cy_rest c) + i) mod length (cy_all c)) (cy_all c) 0.

Lemma tried_in c i : cycle_ok c → tried c i ∈ cy_all c.
Proof.
  intros [_ Hn]. apply list_elem_of_In, nth_In, Nat.mod_upper_bound. by destruct (cy_all c).
Qed.

Lemma cycle_next_tried c :
  cycle_ok c → ∃ c', cycle_next c = (Some (tried c 0), c') ∧ cycle_ok c' ∧ cy_all c' = cy_all c ∧ ∀ i, tried c' i = tried c (S i).
Proof.
  intros [[pre Hs] Hn]. destruct c as [all rest]; unfold cycle_next, tried, cycle_ok; simpl in *.
  assert (length all = length pre + length rest)%nat as Hl by (rewrite Hs, length_app; lia).
  destruct rest as [|x rest].
  - destruct all as [|y all]; [done|]. exists {| cy_all := y :: all; cy_rest := all |}. split_and!; [|by exists [y]|done|done|].
    + rewrite Nat.add_0_r, Nat.sub_0_r, Nat.Div0.mod_same. done.
    + intros i. simpl cy_all. simpl cy_rest. f_equal.
      replace (length (y :: all) - length all + i)%nat with (S i) by (simpl; lia).
      replace (length (y :: all) - length [] + S i)%nat with (S i + 1 * length (y :: all))%nat by (simpl; lia). by rewrite Nat.Div0.mod_add.
  - simpl in Hl. exists {| cy_all := all; cy_rest := rest |}. split_and!; [|exists (pre ++ [x]); by rewrite <- app_assoc|done|done|].
    + f_equal. f_equal. rewrite Nat.mod_small by (simpl; lia). rewrite Hs at 2. simpl.
      replace (length all - S (length rest) + 0)%nat with (length pre) by lia. by rewrite app_nth2, Nat.sub_diag by lia.
    + intros i. simpl cy_all. simpl cy_rest. f_equal. f_equal. simpl. lia.
Qed.

(** Every address of the range comes in any [length (cy_all c)] turns. *)
Lemma tried_again c n ip : cycle_ok c → ip ∈ cy_all c → ∃ i, (n ≤ i < n + length (cy_all c))%nat ∧ tried c i = ip.
Proof.
  intros [_ Hn] Hin. apply list_elem_of_lookup in Hin as [p Hp]. pose proof (lookup_lt_Some _ _ _ Hp) as Hlt.
  set (L := length (cy_all c)) in *. unfold tried. fold L. set (off := (L - length (cy_rest c))%nat).
  pose proof (Nat.mod_upper_bound (off + n) L ltac:(lia)) as Hm. set (q := ((off + n) mod L)%nat) in *.
  assert (off + n = q + L * ((off + n) / L))%nat as Hd by (pose proof (Nat.div_mod_eq (off + n) L); lia).
  set (k := ((off + n) / L)%nat) in *.
  assert (nth p (cy_all c) 0 = ip) as Hnth by (by apply nth_lookup_Some with (d := 0) in Hp).
  destruct (decide (q ≤ p)%nat) as [Hle|Hgt].
  - exists (n + (p - q))%nat. split; [lia|].
    replace (off + (n + (p - q)))%nat with (p + k * L)%nat by lia. by rewrite Nat.Div0.mod_add, Nat.mod_small.
  - exists (n + (L + p - q))%nat. split; [lia|].
    replace (off + (n + (L + p - q)))%nat with (p + (S k) * L)%nat by lia. by rewrite Nat.Div0.mod_add, Nat.mod_small.
Qed.

Lemma db_get_network {A} (dec : bytes → option A) k c self : db_get dec k (fam_set_network fam c self) = db_get dec k self.
Proof. unfold db_get. by rewrite (fam_set_db _ _ FO). Qed.

Lemma free_network now c self ip : free now (fam_set_network fam c self) ip = free now self ip.
Proof. unfold free. by rewrite db_get_network. Qed.

(** One turn on an address that can be read. *)
Lemma allocate_turn fuel clock domain m k self ip c :
  cycle_next (fam_network fam self) = (Some ip, c) → readable self ip →
  allocate fam (S fuel) clock domain m k self =
    if free (clock k) self ip
    then Some (finish_alloc fam clock domain m ip (if recorded self ip then S k else k) (fam_set_network fam c self))
    else allocate fam fuel clock domain m (S k) (fam_set_network fam c self).
Proof.
  intros Hc Hr. cbn [allocate]. rewrite Hc. unfold readable, free, recorded in *. rewrite db_get_network.
  destruct (addr_at fam ip self) as [[im|]|x|x]; try done.
  rewrite Z.leb_antisym. by destruct (clock k <? im_expire_time im).
Qed.

(** The loop stops at the first turn that finds its address free, *)
Lemma allocate_first j fuel clock domain m k self :
  cycle_ok (fam_network fam self) → (∀ ip, ip ∈ cy_all (fam_network fam self) → readable self ip) →
  (∀ i, (i < j)%nat → free (clock (k + i)%nat) self (tried (fam_network fam self) i) = false) →
  free (clock (k + j)%nat) self (tried (fam_network fam self) j) = true → (j < fuel)%nat →
  let ip := tried (fam_network fam self) j in
  ∃ c, (∀ i, tried c i = tried (fam_network fam self) (S j + i)) ∧
    allocate fam fuel clock domain m k self =
      Some (finish_alloc fam clock domain m ip (if recorded self ip then S (k + j) else k + j) (fam_set_network fam c self)).
Proof.
  revert fuel k self. induction j as [|j IH]; intros fuel k self Hok Hr Hb Hf Hfuel ip.
  all: destruct fuel as [|fuel]; [lia|]; destruct (cycle_next_tried _ Hok) as (c & Hc & Hok' & Hall & Ht).
  all: rewrite (allocate_turn _ _ _ _ _ _ _ _ Hc (Hr _ (tried_in _ 0 Hok))).
  - rewrite Nat.add_0_r in *. rewrite Hf. exists c. split; [exact Ht|done].
  - pose proof (Hb 0%nat ltac:(lia)) as H0. rewrite Nat.add_0_r in H0. rewrite H0.
    destruct (IH fuel (S k) (fam_set_network fam c self)) as (c' & Hc' & Ha);
      rewrite ?(fam_network_set _ _ FO), ?Hall in *; [done|..|lia|].
    + intros x Hx. unfold readable. rewrite db_get_network. by apply Hr.
    + intros i Hi. rewrite free_network, Ht. specialize (Hb (S i) ltac:(lia)). by rewrite Nat.add_succ_r in Hb.
    + rewrite free_network, Ht. by rewrite Nat.add_succ_r in Hf.
    + exists c'. split; [intros i; rewrite Hc', Ht; done|]. rewrite Ha, (fam_set_set _ _ FO), Ht. unfold recorded. rewrite db_get_network.
      by rewrite Nat.add_succ_r.
Qed.

(** and goes on as long as there is none. *)
Lemma allocate_waits fuel clock domain m k self :
  cycle_ok (fam_network fam self) → (∀ ip, ip ∈ cy_all (fam_network fam self) → readable self ip) →
  (∀ i, (i < fuel)%nat → free (clock (k + i)%nat) self (tried (fam_network fam self) i) = false) →
  allocate fam fuel clock domain m k self = None.
Proof.
  revert k self. induction fuel as [|fuel IH]; intros k self Hok Hr Hb; [done|].
  destruct (cycle_next_tried _ Hok) as (c & Hc & Hok' & Hall & Ht).
  rewrite (allocate_turn _ _ _ _ _ _ _ _ Hc (Hr _ (tried_in _ 0 Hok))).
  pose proof (Hb 0%nat ltac:(lia)) as H0. rewrite Nat.add_0_r in H0. rewrite H0.
  apply IH; rewrite ?(fam_network_set _ _ FO), ?Hall in *; [done|..].
  - intros x Hx. unfold readable. rewrite db_get_network. by apply Hr.
  - intros i Hi. rewrite free_network, Ht. specialize (Hb (S i) ltac:(lia)). by rewrite Nat.add_succ_r in Hb.
Qed.

(** What writing both records of a new address does. *)
Lemma assign_ok domain m ip e self :
  ∃ self', assign fam domain m ip e self = (Ok tt, self') ∧
    addr_at fam ip self' = Ok (Some {| im_domain_name := domain; im_expire_time := e |}) ∧
    name_at domain self' = Ok (Some (dm_set_expire e (fam_set_field fam (fam_show fam ip) m))) ∧
    (∀ k, k ≠ get_name2ip_key domain → k ≠ get_ip2name_key (fam_show fam ip) → db self' !! k = db self !! k) ∧
    fam_network fam self' = fam_network fam self ∧ expire_duration self' = expire_duration self.
Proof.
  unfold assign.
  destruct (im_roundtrip {| im_domain_name := domain; im_expire_time := e |}) as (v1 & E1 & D1). rewrite E1.
  set (m' := dm_set_expire e _). destruct (dm_roundtrip m') as (v2 & E2 & D2). rewrite E2.
  eexists. split; [done|]. split_and!; [..|by rewrite !(fam_network_put _ _ FO)|done].
  - rewrite db_get_put_ne by apply name_ip_key. by apply db_get_put_eq.
  - by apply db_get_put_eq.
  - intros k Hk1 Hk2. unfold db_put. simpl. by rewrite !lookup_insert_ne.
Qed.

(** The name of an address whose two records name each other. *)
Lemma map_ip_domain_known ip clk im m self :
  addr_at fam ip self = Ok (Some im) → parse_name (im_domain_name im) = Some (im_domain_name im) →
  name_at (im_domain_name im) self = Ok (Some m) →
  fst (map_ip_domain clk (fam_show fam ip) self) = Ok (if clk 0%nat <=? im_expire_time im then Some (im_domain_name im) else None).
Proof.
  intros Ha Hp Hn. unfold map_ip_domain. rewrite Ha. destruct (_ <=? _); [|done]. set (t := clk 0%nat).
  destruct (im_roundtrip (im_set_expire (t + expire_duration self) im)) as (v & E & _). rewrite E, Hp.
  rewrite db_get_put_ne by (intros Eq; by apply (name_ip_key (im_domain_name im) (fam_show fam ip))). rewrite Hn.
  destruct (dm_roundtrip (dm_set_expire (t + expire_duration self) m)) as (v2 & E2 & _). by rewrite E2.
Qed.

(** The record of a name that has not expired is extended, that of its address is
    not. *)
Lemma lookup_extends clock domain m ip self :
  name_at domain self = Ok (Some m) → fam_field fam m = fam_show fam ip → 0 ≤ ip < 2 ^ bits → clock 0%nat ≤ dm_expire_time m →
  ∃ self', (∀ fuel, map_domain_ip fam (S fuel) clock domain self = Some (Ok ip, self')) ∧
    name_at domain self' = Ok (Some (dm_set_expire (clock 1%nat + expire_duration self) m)) ∧
    (∀ k, k ≠ get_name2ip_key domain → db self' !! k = db self !! k) ∧
    fam_network fam self' = fam_network fam self ∧ expire_duration self' = expire_duration self.
Proof.
  intros Hn Hm Hip Ht.
  destruct (dm_roundtrip (dm_set_expire (clock 1%nat + expire_duration self) m)) as (v & E & D).
  exists (db_put (get_name2ip_key domain) v self). split_and!; [..|by rewrite (fam_network_put _ _ FO)|done].
  - intros fuel. unfold map_domain_ip. cbn [map_domain_loop]. unfold lookup_domain. rewrite Hn. cbn [mbind outcome_bind].
    pose proof (fam_parse_show _ _ FO ip Hip) as Hps. rewrite Hm, bool_decide_false.
    2:{ intros Hnil. rewrite Hnil, (fam_parse_nil _ _ FO) in Hps. done. }
    rewrite Hps. unfold extend_or_reuse. rewrite (proj2 (Z.leb_le _ _) Ht), E. done.
  - by apply db_get_put_eq.
  - intros k Hk. unfold db_put. simpl. by rewrite lookup_insert_ne.
Qed.

(** A name that has no address of the family. *)
Definition nameless (o : option DomainNameMapping) : Prop := ∀ m, o = Some m → fam_field fam m = [].

Lemma lookup_new clock domain k self o :
  name_at domain self = Ok o → nameless o → lookup_domain fam clock domain k self = Ok (Allocate (default DomainNameMapping_default o) k).
Proof.
  intros E Ho. unfold lookup_domain. rewrite E. cbn [mbind outcome_bind]. destruct o as [m|]; [|done].
  by rewrite bool_decide_true by (by apply Ho).
Qed.

(** [self'] has given [ip] to [domain] until [e]: the address is found by asking for
    the name again until then, and no address but this; until then, and not after,
    the name is found by the address; and no record of another name or another
    address is different. *)
Definition given (domain : bytes) (ip e : Z) (self self' : FakeDnsManager) : Prop :=
  (∀ fuel clk, clk 0%nat ≤ e → ∃ self'', map_domain_ip fam (S fuel) clk domain self' = Some (Ok ip, self'')) ∧
  (∀ clk, fst (map_ip_domain clk (fam_show fam ip) self') = Ok (if clk 0%nat <=? e then Some domain else None)) ∧
  (∀ k, k ≠ get_name2ip_key domain → k ≠ get_ip2name_key (fam_show fam ip) → db self' !! k = db self !! k).

Lemma finish_alloc_given clock domain m ip k self :
  0 ≤ ip < 2 ^ bits → parse_name domain = Some domain →
  ∃ self', finish_alloc fam clock domain m ip k self = Allocated ip self' ∧
    given domain ip (clock k + expire_duration self) self self' ∧ fam_network fam self' = fam_network fam self.
Proof.
  intros Hip Hp. unfold finish_alloc.
  destruct (assign_ok domain m ip (clock k + expire_duration self) self) as (self' & -> & Ha & Hn & Hk & Hnet & _).
  exists self'. split; [done|]. split; [|done]. split_and!; [|intros clk; exact (map_ip_domain_known ip clk _ _ _ Ha Hp Hn)|exact Hk].
  intros fuel clk Hclk.
  destruct (lookup_extends clk domain _ ip self' Hn (fam_field_set _ _ FO _ _ _) Hip Hclk) as (s & Hs & _). by exists s.
Qed.

(** The turn that finds its address free: what the call returns. *)
Lemma map_domain_given clock domain self o j fuel :
  name_at domain self = Ok o → nameless o → parse_name domain = Some domain → cycle_ok (fam_network fam self) →
  (∀ ip, ip ∈ cy_all (fam_network fam self) → 0 ≤ ip < 2 ^ bits ∧ readable self ip) →
  (∀ i, (i < j)%nat → free (clock i) self (tried (fam_network fam self) i) = false) →
  free (clock j) self (tried (fam_network fam self) j) = true → (j < fuel)%nat →
  let ip := tried (fam_network fam self) j in
  ∃ self', map_domain_ip fam fuel clock domain self = Some (Ok ip, self') ∧
    given domain ip (clock (if recorded self ip then S j else j) + expire_duration self) self self' ∧
    ∀ i, tried (fam_network fam self') i = tried (fam_network fam self) (S j + i).
Proof.
  intros E Ho Hp Hok Hr Hb Hf Hfuel ip. unfold map_domain_ip. destruct fuel as [|fuel]; [lia|]. cbn [map_domain_loop].
  rewrite (lookup_new _ _ _ _ o) by done.
  destruct (allocate_first j (S fuel) clock domain (default DomainNameMapping_default o) 0 self Hok (λ x Hx, proj2 (Hr x Hx)) Hb Hf Hfuel) as (c & Hc & ->).
  fold ip. destruct (finish_alloc_given clock domain (default DomainNameMapping_default o) ip (if recorded self ip then S j else j)
    (fam_set_network fam c self) (proj1 (Hr _ (tried_in _ j Hok))) Hp) as (self' & Hfin & Hg & Hnet).
  change (0 + j)%nat with j. rewrite Hfin. exists self'. split; [done|]. rewrite (fam_set_duration _ _ FO) in Hg. split.
  - destruct Hg as (H1 & H2 & H3). split_and!; [exact H1|exact H2|]. intros k K1 K2. rewrite H3 by done. by rewrite (fam_set_db _ _ FO).
  - intros i. by rewrite Hnet, (fam_network_set _ _ FO), Hc.
Qed.

(** A first turn that finds its address free. *)
Lemma first_turn (P : nat → bool) n : P n = true → ∃ j, (j ≤ n)%nat ∧ P j = true ∧ ∀ i, (i < j)%nat → P i = false.
Proof.
  revert P. induction n as [|n IH]; intros P Hn; [exists 0%nat; split_and!; [done|done|lia]|].
  destruct (P 0%nat) eqn:H0; [exists 0%nat; split_and!; [lia|done|lia]|].
  destruct (IH (λ i, P (S i)) Hn) as (j & Hj & HP & Hb). exists (S j). split_and!; [lia|done|]. intros [|i] Hi; [done|]. apply Hb. lia.
Qed.
End Allocation.

(** The two instances, with the width of their addresses. *)
Definition instance (fam : family) (bits : Z) : Prop := (fam = ipv4_family ∧ bits = 32) ∨ (fam = ipv6_family ∧ bits = 128).

Lemma instance_ok fam bits : instance fam bits → family_ok fam bits.
Proof. intros [[-> ->]|[-> ->]]; [apply ipv4_family_ok|apply ipv6_family_ok]. Qed.

(** C36. A name without an address of the family, IPv4 or IPv6, whatever the clock
    says at each reading.  The call takes the addresses of the network in cyclic
    order and returns at the first that is free when it is looked at, that is, has
    no record or one that has expired by then: the address is given to the name for
    [expire_duration] from the reading after, and the next call goes on behind it.
    Before such a turn it does not return, and it holds the database all the while.
    It does return when an address becomes free and stays so: within one round
    after the [n]-th reading if that is when it does, and within one round if it
    was free before. *)
Theorem fake_dns_allocates fam bits clock domain self o :
  instance fam bits → name_at domain self = Ok o → nameless fam o → parse_name domain = Some domain →
  cycle_ok (fam_network fam self) → (∀ ip, ip ∈ cy_all (fam_network fam self) → 0 ≤ ip < 2 ^ bits ∧ readable fam self ip) →
  let host := tried (fam_network fam self) in
  let free_turn i := free fam (clock i) self (host i) in
  (∀ j fuel, (∀ i, (i < j)%nat → free_turn i = false) → free_turn j = true → (j < fuel)%nat →
     ∃ self', map_domain_ip fam fuel clock domain self = Some (Ok (host j), self') ∧
       given fam domain (host j) (clock (if recorded fam self (host j) then S j else j) + expire_duration self) self self' ∧
       ∀ i, tried (fam_network fam self') i = host (S j + i)%nat) ∧
  (∀ n, (∀ i, (i < n)%nat → free_turn i = false) → map_domain_ip fam n clock domain self = None) ∧
  (∀ n ip fuel, ip ∈ cy_all (fam_network fam self) → (∀ i, (n ≤ i)%nat → free fam (clock i) self ip = true) →
     (n + length (cy_all (fam_network fam self)) ≤ fuel)%nat →
     ∃ ip' self', map_domain_ip fam fuel clock domain self = Some (Ok ip', self')).
Proof.
  intros HI E Ho Hp Hok Hr host free_turn. pose proof (instance_ok _ _ HI) as FO. split_and!.
  - intros j fuel Hb Hf Hfuel. by apply (map_domain_given fam bits FO clock domain self o).
  - intros [|n] Hb; [done|]. unfold map_domain_ip. cbn [map_domain_loop]. rewrite (lookup_new _ _ _ _ _ o) by done.
    by rewrite (allocate_waits fam bits FO (S n) clock domain _ 0 self Hok (λ x Hx, proj2 (Hr x Hx)) Hb).
  - intros n ip fuel Hin Hfree Hfuel. destruct (tried_again _ n ip Hok Hin) as (i & Hi & Hti).
    destruct (first_turn free_turn i) as (j & Hj & Hf & Hb); [unfold free_turn, host; rewrite Hti; apply Hfree; lia|].
    destruct (map_domain_given fam bits FO clock domain self o j fuel E Ho Hp Hok Hr Hb Hf ltac:(lia)) as (self' & Hs & _). eauto.
Qed.

(** *** Two names with one address *)

(** Two names can have the same address at the same time: a name that was
    looked up again before its address expired keeps the address as long as its
    own record lasts, but once the record of the address has expired the address
    is given to another name, and is known as that of the other name only. *)
Theorem fake_dns_shared_address a b x d t0 t1 t2 t3 :
  a ≠ b → parse_name b = Some b → 0 ≤ x < 2 ^ 32 → 0 ≤ d → t0 ≤ t1 ≤ t0 + d → t0 + d ≤ t2 → t3 ≤ t1 + d →
  let self := {| db := ∅; ipv4_network := {| cy_all := [x]; cy_rest := [] |}; ipv6_network := {| cy_all := []; cy_rest := [] |}; expire_duration := d |} in
  ∃ s1 s2 s3 s4,
    map_domain_ip ipv4_family 3 (λ _, t0) a self = Some (Ok x, s1) ∧
    map_domain_ip ipv4_family 3 (λ _, t1) a s1 = Some (Ok x, s2) ∧
    map_domain_ip ipv4_family 3 (λ _, t2) b s2 = Some (Ok x, s3) ∧
    map_domain_ip ipv4_family 3 (λ _, t3) a s3 = Some (Ok x, s4) ∧
    ∀ t, t ≤ t2 + d → fst (map_ip_domain (λ _, t) (show_ipv4 x) s4) = Ok (Some b).
Proof.
  intros Hab Hb Hx Hd Ht1 Ht2 Ht3 self. pose proof ipv4_family_ok as FO. pose (c0 := {| cy_all := [x]; cy_rest := [] |}).
  destruct (assign_ok ipv4_family 32 FO a DomainNameMapping_default x (t0 + d) (fam_set_network ipv4_family c0 self)) as (s1 & E1 & A1 & N1 & O1 & Net1 & D1).
  destruct (lookup_extends ipv4_family 32 FO (λ _, t1) a _ x s1 N1 eq_refl Hx ltac:(simpl; lia)) as (s2 & E2 & N2 & O2 & Net2 & D2).
  destruct (assign_ok ipv4_family 32 FO b DomainNameMapping_default x (t2 + d) (fam_set_network ipv4_family c0 s2)) as (s3 & E3 & A3 & N3 & O3 & Net3 & D3).
  assert (get_name2ip_key a ≠ get_name2ip_key b) as Hkey by (intros E; by apply name_key_inj in E).
  assert (name_at a s3 = name_at a s2) as N3a by (unfold db_get; by rewrite O3 by (done || apply name_ip_key)).
  rewrite N2 in N3a. simpl in D1, D2, Net1, Net2.
  destruct (lookup_extends ipv4_family 32 FO (λ _, t3) a _ x s3 N3a eq_refl Hx ltac:(simpl; lia)) as (s4 & E4 & N4 & O4 & _).
  exists s1, s2, s3, s4. split_and!; [|apply E2| |apply E4|].
  - unfold map_domain_ip. cbn [map_domain_loop]. rewrite (lookup_new _ _ _ _ _ None) by done.
    rewrite (allocate_turn ipv4_family 32 FO _ _ _ _ _ _ x c0) by done. unfold recorded, free, db_get. simpl db. rewrite lookup_empty.
    unfold finish_alloc. change (default _ None) with DomainNameMapping_default. change (_ + expire_duration _) with (t0 + d). by rewrite E1.
  - assert (addr_at ipv4_family x s2 = Ok (Some {| im_domain_name := a; im_expire_time := t0 + d |})) as A2x.
    { rewrite <- A1. unfold db_get. rewrite O2; [done|]. intros E. by apply (name_ip_key a (show_ipv4 x)). }
    assert (name_at b s2 = Ok None) as Nb.
    { unfold db_get. rewrite O2, O1 by (done || apply name_ip_key). done. }
    unfold map_domain_ip. cbn [map_domain_loop]. rewrite (lookup_new _ _ _ _ _ None) by done.
    rewrite (allocate_turn ipv4_family 32 FO _ _ _ _ _ _ x c0); [|simpl; rewrite Net2, Net1; done|unfold readable; by rewrite A2x].
    unfold free. rewrite A2x. simpl im_expire_time. rewrite (proj2 (Z.leb_le _ _)) by lia.
    unfold finish_alloc. change (default _ None) with DomainNameMapping_default. change (expire_duration (fam_set_network _ _ s2)) with (expire_duration s2).
    rewrite D2, D1. by rewrite E3.
  - intros t Ht.
    assert (addr_at ipv4_family x s4 = Ok (Some {| im_domain_name := b; im_expire_time := t2 + d |})) as A4.
    { rewrite <- A3. unfold db_get. rewrite O4; [done|]. intros E. by apply (name_ip_key a (show_ipv4 x)). }
    assert (name_at b s4 = name_at b s3) as N4b by (unfold db_get; by rewrite O4).
    rewrite N3 in N4b. pose proof (map_ip_domain_known ipv4_family x (λ _, t) _ _ s4 A4 Hb N4b) as Hm. simpl in Hm.
    by rewrite (proj2 (Z.leb_le _ _) Ht) in Hm.
Qed.
End Facts.

(** ** Examples *)
Module FakeDnsExamples.
Fixpoint bits_of (p : positive) : bytes :=
  match p with xH => [] | xO p => b# 0 :: bits_of p | xI p => b# 1 :: bits_of p end.
Fixpoint of_bits (l : bytes) : positive :=
  match l with [] => xH | b :: l => if bool_decide (b = b# 0) then xO (of_bits l) else xI (of_bits l) end.

Lemma of_bits_of p : of_bits (bits_of p) = p.
Proof. by induction p as [p IH|p IH|]; simpl; rewrite ?IH. Qed.

(** Any countable record can be stored. *)
#[local] Instance toy_lib : FakeDnsLib := {
  im_encode m := Some (bits_of (encode (im_domain_name m, im_expire_time m)));
  im_decode v := (λ '(d, e), {| im_domain_name := d; im_expire_time := e |}) <$> decode (of_bits v);
  dm_encode m := Some (bits_of (encode (dm_ipv4_addr m, dm_ipv6_addr m, dm_expire_time m)));
  dm_decode v := (λ '(a, b, e), {| dm_ipv4_addr := a; dm_ipv6_addr := b; dm_expire_time := e |}) <$> decode (of_bits v);
  parse_name n := Some n;
}.

#[local] Instance toy_laws : FakeDnsLaws toy_lib.
Proof.
  split; intros []; eexists; (split; [done|]); simpl; by rewrite of_bits_of, decode_encode.
Qed.

Definition hosts : list Z := [3232235777; 3232235778].
Definition fresh : FakeDnsManager :=
  {| db := ∅; ipv4_network := {| cy_all := hosts; cy_rest := hosts |}; ipv6_network := {| cy_all := []; cy_rest := [] |}; expire_duration := 10 |}.

(** Both addresses are held, by [x.test.] until 103 and by [y.test.] until 120: the
    clock says 100, 100 and 103 at the first readings, and the third turn finds the
    first address again. *)
Definition put_addr (domain : bytes) (e ip : Z) (self : FakeDnsManager) : FakeDnsManager :=
  snd (assign ipv4_family domain DomainNameMapping_default ip e self).
Definition busy : FakeDnsManager := put_addr (str "x.test.") 103 3232235777 (put_addr (str "y.test.") 120 3232235778 fresh).
Definition ticking (i : nat) : Z := match i with 0%nat | 1%nat => 100 | _ => 103 end.

Lemma fake_dns_allocates_witness :
  map_domain_ip ipv4_family 2 ticking (str "a.test.") busy = None ∧
  ∃ self', map_domain_ip ipv4_family 9 ticking (str "a.test.") busy = Some (Ok 3232235777, self') ∧
    fst (map_ip_domain (λ _, 113) (show_ipv4 3232235777) self') = Ok (Some (str "a.test.")) ∧
    fst (map_ip_domain (λ _, 114) (show_ipv4 3232235777) self') = Ok None.
Proof.
  destruct (fake_dns_allocates ipv4_family 32 ticking (str "a.test.") busy None ltac:(by left) ltac:(by vm_compute) ltac:(done) eq_refl
    ltac:(split; [by exists []|done])
    ltac:(intros ip [->|[->|H%elem_of_nil]%elem_of_cons]%elem_of_cons; [by vm_compute..|done])) as (H1 & H2 & _).
  split; [apply H2; intros [|[|i]] Hi; [by vm_compute..|lia]|].
  destruct (H1 2%nat 9%nat ltac:(intros [|[|i]] Hi; [by vm_compute..|lia]) ltac:(by vm_compute) ltac:(lia)) as (self' & E & (_ & Hr & _) & _).
  exists self'. split_and!; [exact E|exact (Hr (λ _, 113))|exact (Hr (λ _, 114))].
Defined.

Lemma fake_dns_shared_address_witness :
  ∃ s1 s2 s3 s4 : FakeDnsManager,
    map_domain_ip ipv4_family 3 (λ _, 9) (str "a.test.") s1 = Some (Ok 3232235777, s2) ∧
    map_domain_ip ipv4_family 3 (λ _, 11) (str "b.test.") s2 = Some (Ok 3232235777, s3) ∧
    map_domain_ip ipv4_family 3 (λ _, 12) (str "a.test.") s3 = Some (Ok 3232235777, s4).
Proof.
  destruct (fake_dns_shared_address (str "a.test.") (str "b.test.") 3232235777 10 0 9 11 12
    ltac:(by vm_compute) eq_refl ltac:(lia) ltac:(lia) ltac:(lia) ltac:(lia) ltac:(lia)) as (s1 & s2 & s3 & s4 & _ & H2 & H3 & H4 & _).
  by exists s1, s2, s3, s4.
Defined.
End FakeDnsExamples.
