(* ===== verification/UdpProxySocket.v ===== *)
(** * UDP proxy sockets (crates/shadowsocks/src/relay/udprelay/proxy_socket.rs)

    The sockets of both ends around the datagram functions: a client's socket
    encrypts for the server and decrypts its answers, a server's socket the other
    way round and with the key of the user.  Shown: what one end sends the other
    receives, in both directions, with the ids and the user. *)
From S2P Require Import Prelude.
From S2P Require Import AsyncIo.
From S2P Require Import External.
From S2P Require Import Users.
From S2P Require Import Replay.
From S2P Require Import Socks5.
From S2P Require Import UdpAead2022.
From S2P Require Import UdpCryptoIo.

Inductive UdpSocketType := Client | Server.

Inductive ProxySocketError :=
| SocketIoError (e : io_error)
| SocketProtocolError (e : ProtocolError)
| ProtocolErrorWithPeer (peer : SocketAddr) (e : ProtocolError).

Section ProxySocket.
Context `{CS : CipherSuite, KS : !StreamCipher, SC : !StreamCipher, DC : !DatagramCipher}.
Context `{B3 : Blake3, AE : Aes, BF : BloomFilter, LC : LruTimeCache}.

(** What a socket takes from the configuration of a server. *)
Record ServerConfig := {
  cfg_method : CipherKind;
  cfg_key : bytes;
  cfg_identity_keys : list bytes;
  cfg_user_manager : option ServerUserManager;
}.

(** The transport [io] is given to the calls. *)
Record ProxySocket := {
  socket_type : UdpSocketType;
  method : CipherKind;
  key : bytes;
  send_timeout : option Z;
  recv_timeout : option Z;
  context : Context;
  identity_keys : list bytes;
  user_manager : option ServerUserManager;
}.

Definition from_socket (t : UdpSocketType) (context : Context) (svr_cfg : ServerConfig) : ProxySocket :=
  {| socket_type := t; method := cfg_method svr_cfg; key := cfg_key svr_cfg; send_timeout := None; recv_timeout := None;
     context := context;
     identity_keys := match t with Client => cfg_identity_keys svr_cfg | Server => [] end;
     user_manager := match t with Client => None | Server => cfg_user_manager svr_cfg end |}.

Definition set_send_timeout (t : option Z) (self : ProxySocket) : ProxySocket :=
  {| socket_type := socket_type self; method := method self; key := key self; send_timeout := t; recv_timeout := recv_timeout self;
     context := context self; identity_keys := identity_keys self; user_manager := user_manager self |}.
Definition set_recv_timeout (t : option Z) (self : ProxySocket) : ProxySocket :=
  {| socket_type := socket_type self; method := method self; key := key self; send_timeout := send_timeout self; recv_timeout := t;
     context := context self; identity_keys := identity_keys self; user_manager := user_manager self |}.

(** ** Sending *)

(** [encrypt_send_buffer] at the time [now], with what the random generator gives. *)
Definition encrypt_send_buffer (now : Z) (draw padding : bytes) (self : ProxySocket) (addr : Address)
    (control : UdpSocketControlData) (payload : bytes) : outcome ProxySocketError bytes :=
  map_err SocketProtocolError
    match socket_type self with
    | Client =>
        encrypt_client_payload (KS := KS) (SC := SC) now draw padding (context self) (method self) (key self) addr control
          (identity_keys self) payload
    | Server =>
        let key := match user control with Some u => user_key u | None => key self end in
        encrypt_server_payload (KS := KS) (SC := SC) now draw padding (context self) (method self) key addr control payload
    end.

(** The end of a call with an optional timeout: [None] when the transport has not
    answered; without a timeout the call then waits. *)
Definition with_timeout {A} (timeout : option Z) (io : option (outcome io_error A)) : option (outcome ProxySocketError A) :=
  match io, timeout with
  | Some r, _ => Some (map_err SocketIoError r)
  | None, Some _ => Some (Err (SocketIoError TimedOut))
  | None, None => None
  end.

(** [send_with_ctrl] and [send_to_with_ctrl]: the datagram is given to the
    transport, whose answer is the result. *)
Definition send_with_ctrl (now : Z) (draw padding : bytes) (io : bytes → option (outcome io_error nat)) (self : ProxySocket)
    (addr : Address) (control : UdpSocketControlData) (payload : bytes) : option (outcome ProxySocketError nat) :=
  match encrypt_send_buffer now draw padding self addr control payload with
  | Ok send_buf => with_timeout (send_timeout self) (io send_buf)
  | Err e => Some (Err e)
  | Panic m => Some (Panic m)
  end.

Definition default_control : UdpSocketControlData :=
  {| client_session_id := 0; server_session_id := 0; packet_id := 0; user := None |}.

Definition send (now : Z) (draw padding : bytes) (io : bytes → option (outcome io_error nat)) (self : ProxySocket)
    (addr : Address) (payload : bytes) : option (outcome ProxySocketError nat) :=
  send_with_ctrl now draw padding io self addr default_control payload.

Definition send_to_with_ctrl (now : Z) (draw padding : bytes) (io : SocketAddr → bytes → option (outcome io_error nat))
    (self : ProxySocket) (target : SocketAddr) (addr : Address) (control : UdpSocketControlData) (payload : bytes)
  : option (outcome ProxySocketError nat) :=
  send_with_ctrl now draw padding (io target) self addr control payload.

(** [poll_send_with_ctrl] and [poll_send_to_with_ctrl]: a datagram that is cut
    short is an error, and the length reported is that of the payload. *)
Definition poll_send_with_ctrl (now : Z) (draw padding : bytes) (io : bytes → pres io_error nat) (self : ProxySocket)
    (addr : Address) (control : UdpSocketControlData) (payload : bytes) : pres ProxySocketError nat :=
  match encrypt_send_buffer now draw padding self addr control payload with
  | Ok send_buf =>
      match io send_buf with
      | Ready l => if bool_decide (l = length send_buf) then Ready (length payload) else Failed (SocketIoError WriteZero)
      | Failed e => Failed (SocketIoError e)
      | Panicked m => Panicked m
      | Pending => Pending
      end
  | Err e => Failed e
  | Panic m => Panicked m
  end.

(** ** Receiving *)
Definition decrypt_recv_buffer (now : Z) (self : ProxySocket) (recv_buf : bytes)
  : outcome ProtocolError (nat * Address * option UdpSocketControlData * bytes) :=
  match socket_type self with
  | Client => decrypt_server_payload (KS := KS) (SC := SC) now (method self) (key self) recv_buf
  | Server => decrypt_client_payload (KS := KS) (SC := SC) now (method self) (key self) recv_buf (user_manager self)
  end.

(** The datagram in a buffer of [size] bytes, with the length of the payload, its
    address and control data, the length received and the buffer. *)
Definition recv_with_ctrl (now : Z) (size : nat) (io : option (outcome io_error bytes)) (self : ProxySocket)
  : option (outcome ProxySocketError (nat * Address * nat * option UdpSocketControlData * bytes)) :=
  match with_timeout (recv_timeout self) io with
  | None => None
  | Some (Ok pkt) =>
      let recv_buf := take size pkt in
      Some match decrypt_recv_buffer now self recv_buf with
           | Ok (n, addr, control, buf) => Ok (n, addr, length recv_buf, control, buf)
           | Err e => Err (SocketProtocolError e)
           | Panic m => Panic m
           end
  | Some (Err e) => Some (Err e)
  | Some (Panic m) => Some (Panic m)
  end.

Definition recv_from_with_ctrl (now : Z) (size : nat) (io : option (outcome io_error (bytes * SocketAddr))) (self : ProxySocket)
  : option (outcome ProxySocketError (nat * SocketAddr * Address * nat * option UdpSocketControlData * bytes)) :=
  match with_timeout (recv_timeout self) io with
  | None => None
  | Some (Ok (pkt, target_addr)) =>
      let recv_buf := take size pkt in
      Some match decrypt_recv_buffer now self recv_buf with
           | Ok (n, addr, control, buf) => Ok (n, target_addr, addr, length recv_buf, control, buf)
           | Err e => Err (ProtocolErrorWithPeer target_addr e)
           | Panic m => Panic m
           end
  | Some (Err e) => Some (Err e)
  | Some (Panic m) => Some (Panic m)
  end.

Definition poll_recv_from_with_ctrl (now : Z) (size : nat) (io : pres io_error (bytes * SocketAddr)) (self : ProxySocket)
  : pres ProxySocketError (nat * SocketAddr * Address * nat * option UdpSocketControlData * bytes) :=
  match io with
  | Ready (pkt, src) =>
      let recv_buf := take size pkt in
      match decrypt_recv_buffer now self recv_buf with
      | Ok (n, addr, control, buf) => Ready (n, src, addr, length recv_buf, control, buf)
      | Err e => Failed (SocketProtocolError e)
      | Panic m => Panicked m
      end
  | Failed e => Failed (SocketIoError e)
  | Panicked m => Panicked m
  | Pending => Pending
  end.
End ProxySocket.

(** ** Both ends *)
Section Exchange.
Context `{CS : CipherSuite, KS : !StreamCipher, SC : !StreamCipher, DC : !DatagramCipher}.
Context `{B3 : Blake3, AE : Aes, BF : BloomFilter, LC : LruTimeCache}.
Context `{HK : !KeystreamLaws KS, HSC : !StreamCipherLaws SC, HDC : !DatagramCipherLaws DC}.
Context `{HB3 : !Blake3Laws B3, HAE : !AesLaws AE}.

(** A client and a server configured for each other, where the server sees [u]. *)
Definition configured (client server : ServerConfig) (u : option ServerUser) : Prop :=
  cfg_method client = cfg_method server ∧
  peers (cfg_method client) (cfg_key client) (cfg_identity_keys client) (cfg_key server) (cfg_user_manager server) u ∧
  (category (cfg_method client) = Cat_Aead2022 → datagram_key (cfg_method client) (cfg_key client)).

Lemma configured_reply_key client server u :
  configured client server u →
  (match (if is_aead_2022 (cfg_method client) then u else None) with Some x => user_key x | None => cfg_key server end) = cfg_key client.
Proof.
  intros (_ & Hp & _). unfold peers, is_aead_2022 in *. destruct (category (cfg_method client)); simpl; try done.
  by inversion Hp.
Qed.

(** The random bytes, the ids and the clocks of an exchange. *)
Definition sendable (method : CipherKind) (now now' : Z) (draw padding : bytes) (addr : Address) (control : UdpSocketControlData) : Prop :=
  length draw = draw_len method ∧ (length padding ≤ AEAD2022_MAX_PADDING_SIZE)%nat ∧ Address_wf addr ∧ Address_fits addr ∧
  in_u64 (client_session_id control) ∧ in_u64 (server_session_id control) ∧ in_u64 (packet_id control) ∧
  in_u64 (get_now_timestamp now) ∧ abs_diff (get_now_timestamp now') (get_now_timestamp now) ≤ 30.

(** C4. Between a client's and a server's socket that are configured for each
    other, over a transport that delivers datagrams whole: what the client sends
    the server receives, with the address, the payload and, for AEAD-2022, the
    session, the packet id and the user; and what the server answers for that user
    the client receives, with the address, the payload and the ids. *)
Theorem proxy_socket_exchange cfg_c cfg_s u ctx_c ctx_s :
  configured cfg_c cfg_s u →
  let client := from_socket Client ctx_c cfg_c in
  let server := from_socket Server ctx_s cfg_s in
  let m := cfg_method cfg_c in
  (∀ now now' draw padding addr control payload peer,
     sendable m now now' draw padding addr control →
     ∃ pkt, (∀ io, send_with_ctrl (KS := KS) (SC := SC) now draw padding io client addr control payload = with_timeout None (io pkt)) ∧
       (∀ size, (length pkt ≤ size)%nat → ∃ buf,
          recv_from_with_ctrl (KS := KS) (SC := SC) now' size (Some (Ok (pkt, peer))) server =
            Some (Ok (length payload, peer, Address_canon addr, length pkt,
                      control_of m {| client_session_id := client_session_id control; server_session_id := 0;
                                      packet_id := packet_id control; user := u |}, buf)) ∧
          take (length payload) buf = payload)) ∧
  (∀ now now' draw padding addr control payload target,
     sendable m now now' draw padding addr control → user control = (if is_aead_2022 m then u else None) →
     ∃ pkt, (∀ io, send_to_with_ctrl (KS := KS) (SC := SC) now draw padding io server target addr control payload = with_timeout None (io target pkt)) ∧
       (∀ size, (length pkt ≤ size)%nat → ∃ buf,
          recv_with_ctrl (KS := KS) (SC := SC) now' size (Some (Ok pkt)) client =
            Some (Ok (length payload, Address_canon addr, length pkt,
                      control_of m {| client_session_id := client_session_id control; server_session_id := server_session_id control;
                                      packet_id := packet_id control; user := None |}, buf)) ∧
          take (length payload) buf = payload)).
Proof.
  intros Hcfg client server m. pose proof Hcfg as (Hm & Hp & Hk). subst m. split.
  - intros now now' draw padding addr control payload peer (H1 & H2 & H3 & H4 & H5 & H6 & H7 & H8 & H9).
    destruct (client_datagram_roundtrip (KS := KS) (SC := SC) now now' draw padding ctx_c (cfg_method cfg_c) (cfg_key cfg_c) (cfg_identity_keys cfg_c)
      (cfg_key cfg_s) (cfg_user_manager cfg_s) u addr control payload) as (pkt & buf & E & D & T); [done..|].
    exists pkt. split.
    + intros io. unfold send_with_ctrl, encrypt_send_buffer. simpl. by rewrite E.
    + intros size Hs. exists buf. split; [|done]. unfold recv_from_with_ctrl, decrypt_recv_buffer. simpl.
      rewrite take_ge by done. rewrite <- Hm. by rewrite D.
  - intros now now' draw padding addr control payload target (H1 & H2 & H3 & H4 & H5 & H6 & H7 & H8 & H9) Hu.
    destruct (server_datagram_roundtrip (KS := KS) (SC := SC) now now' draw padding ctx_s (cfg_method cfg_c) (cfg_key cfg_c) addr control payload)
      as (pkt & buf & E & D & T); [done..|].
    exists pkt. split.
    + intros io. unfold send_to_with_ctrl, send_with_ctrl, encrypt_send_buffer. simpl. rewrite Hu, <- Hm.
      pose proof (configured_reply_key _ _ _ Hcfg) as Hr. by rewrite Hr, E.
    + intros size Hs. exists buf. split; [|done]. unfold recv_with_ctrl, decrypt_recv_buffer. simpl. rewrite take_ge by done. by rewrite D.
Qed.
End Exchange.

(** ** Examples *)
Module SocketExamples.
#[local] Existing Instances Toy.suite Toy.udp_cipher Toy.blake3 Toy.aes Toy.bloom Toy.lru.

Definition client_cfg : ServerConfig :=
  {| cfg_method := Toy.Aead2022_16; cfg_key := toy_user_key; cfg_identity_keys := [toy_key]; cfg_user_manager := None |}.
Definition server_cfg : ServerConfig :=
  {| cfg_method := Toy.Aead2022_16; cfg_key := toy_key; cfg_identity_keys := []; cfg_user_manager := Some toy_users |}.

Lemma proxy_socket_exchange_witness :
  ∃ pkt buf,
    send_with_ctrl (KS := Toy.stream_cipher) (SC := Toy.cipher) 1000 [] [] (λ p, Some (Ok (length p)))
      (from_socket Client toy_context client_cfg) (SocketAddress (V4 167772161 53)) toy_control (be_bytes 3 7) = Some (Ok (length pkt)) ∧
    recv_from_with_ctrl (KS := Toy.stream_cipher) (SC := Toy.cipher) 2000 (length pkt) (Some (Ok (pkt, V4 1 2)))
      (from_socket Server toy_context server_cfg) =
      Some (Ok (3%nat, V4 1 2, SocketAddress (V4 167772161 53), length pkt,
        Some {| client_session_id := 3; server_session_id := 0; packet_id := 9; user := Some (ServerUser_new "bob" toy_user_key) |}, buf)).
Proof.
  destruct (proxy_socket_exchange (KS := Toy.stream_cipher) (SC := Toy.cipher)
    (HK := Toy.keystream_laws) (HSC := Toy.cipher_laws) (HDC := Toy.udp_cipher_laws) (HB3 := Toy.blake3_laws) (HAE := Toy.aes_laws)
    client_cfg server_cfg (Some (ServerUser_new "bob" toy_user_key)) toy_context toy_context) as [H _].
  { split; [done|]. split; [by apply (serves_user (CS := Toy.suite) Toy.Aead2022_16 toy_user_key 16)|].
    intros _. right. by exists 16%nat. }
  destruct (H 1000 2000 [] [] (SocketAddress (V4 167772161 53)) toy_control (be_bytes 3 7) (V4 1 2)) as (pkt & H1 & H2).
  { unfold sendable, in_u64. simpl. split_and!; try done; try lia; unfold in_u; try lia; by vm_compute. }
  destruct (H2 (length pkt) ltac:(done)) as (buf & H3 & _). exists pkt, buf. split; [exact (H1 (λ p, Some (Ok (length p))))|exact H3].
Defined.
End SocketExamples.
