(* ===== verification/Lookup.v ===== *)
(** * Trying the addresses of a name (crates/shadowsocks/src/dns_resolver/mod.rs)

    The macro [lookup_then]: resolves a name and tries its addresses, one family
    after the other, until one succeeds. *)
From S2P Require Import Prelude.
From S2P Require Import Socks5.

Section LookupThen.
Context {S R : Type} (body : SocketAddr → S → outcome io_error R * S).

(** The inner form: tries the addresses until one succeeds. *)
Fixpoint try_addrs (addrs : list SocketAddr) (result : option (outcome io_error R)) (s : S) : outcome io_error R * S :=
  match addrs with
  | [] => (default (Panic "resolved empty address") result, s)
  | a :: addrs =>
      match body a s with
      | (Ok r, s) => (Ok r, s)
      | (Err e, s) => try_addrs addrs (Some (Err e)) s
      | (Panic m, s) => (Panic m, s)
      end
  end.

Definition is_v4 (a : SocketAddr) : bool := match a with V4 _ _ => true | V6 _ _ _ _ => false end.

Definition lookup_then (ipv6_first : bool) (resolved : outcome io_error (list SocketAddr)) (s : S) : outcome io_error R * S :=
  match resolved with
  | Err e => (Err e, s)
  | Panic m => (Panic m, s)
  | Ok addrs =>
      let v4_addrs := filter (λ a, is_true (is_v4 a)) addrs in
      let v6_addrs := filter (λ a, is_true (negb (is_v4 a))) addrs in
      let has_v4 := negb (bool_decide (v4_addrs = [])) in
      let has_v6 := negb (bool_decide (v6_addrs = [])) in
      if negb (has_v4 || has_v6) then (Panic "resolved empty address", s)
      else if negb has_v4 && has_v6 then try_addrs v6_addrs None s
      else if has_v4 && negb has_v6 then try_addrs v4_addrs None s
      else
        let '(first, second) := if ipv6_first then (v6_addrs, v4_addrs) else (v4_addrs, v6_addrs) in
        match try_addrs first None s with
        | (Err _, s) => try_addrs second None s
        | r => r
        end
  end.
End LookupThen.

(** ** What holds of a lookup *)

(** An invariant of the attempts is an invariant of the whole lookup. *)
Lemma try_addrs_inv {S R} (P : S → Prop) (body : SocketAddr → S → outcome io_error R * S) addrs result s :
  (∀ a s, P s → P (snd (body a s))) → P s → P (snd (try_addrs body addrs result s)).
Proof.
  intros Hb. revert result s. induction addrs as [|a addrs IH]; intros result s Hs; [done|].
  simpl. specialize (Hb a s Hs). destruct (body a s) as [[r|e|m] s']; [done| |done]. by apply IH.
Qed.

Lemma lookup_then_inv {S R} (P : S → Prop) (body : SocketAddr → S → outcome io_error R * S) first resolved s :
  (∀ a s, P s → P (snd (body a s))) → P s → P (snd (lookup_then body first resolved s)).
Proof.
  intros Hb Hs. pose proof (λ addrs result s, try_addrs_inv P body addrs result s Hb) as Ht.
  unfold lookup_then. destruct resolved as [addrs|e|m]; [|done|done].
  repeat case_match; simplify_eq; try done; try (by apply Ht);
    match goal with H : try_addrs body ?a ?r s = _ |- _ => pose proof (Ht a r s Hs) as Hm; rewrite H in Hm end;
    simpl in *; auto.
Qed.

