(* ===== verification/UdpRelay.v ===== *)
(** * The server's UDP relay (crates/shadowsocks-service/src/server/udprelay.rs)

    The server keeps an association per client address or, for AEAD-2022, per
    client session; each passes the datagrams of its client on and sends the
    answers back.  Shown: whatever datagrams, answers and failures an association
    sees, it passes no packet id on twice, its own packet ids strictly increase and
    carry the ids of its session, and answers are encrypted for the user of the
    last datagram passed on; the server drops empty and blocked datagrams before any
    association sees them and gives every other datagram to the association of its
    session; and a replayed datagram that is refused there still redirects the
    answers to its sender. *)
From S2P Require Import Prelude.
From S2P Require Import External.
From S2P Require Import StdNet.
From S2P Require Import Socks5.
From S2P Require Import Users.
From S2P Require Import UdpAead2022.
From S2P Require Import PacketWindow.
From S2P Require Import Lookup.

(** ** Associations *)
Section Relay.
Context `{CS : CipherSuite, B3 : Blake3}.

Record ClientSessionContext := {
  s_client_session_id : Z;
  packet_window_filter : PacketWindowFilter;
  client_user : option ServerUser;
}.

Definition ClientSessionContext_new (client_session_id : Z) : ClientSessionContext :=
  {| s_client_session_id := client_session_id; packet_window_filter := PacketWindowFilter_new; client_user := None |}.

(** The two outbound sockets are there or not. *)
Record UdpAssociationContext := {
  peer_addr : SocketAddr;
  outbound_ipv4_socket : bool;
  outbound_ipv6_socket : bool;
  keepalive_flag : bool;
  client_session : option ClientSessionContext;
  a_server_session_id : Z;
  server_packet_id : Z;
}.

(** [create], with the session id that was drawn. *)
Definition create (peer : SocketAddr) (client_session_id : option Z) (server_session_id : Z) : UdpAssociationContext :=
  {| peer_addr := peer; outbound_ipv4_socket := false; outbound_ipv6_socket := false; keepalive_flag := false;
     client_session := ClientSessionContext_new <$> client_session_id;
     a_server_session_id := server_session_id; server_packet_id := 0 |}.

(** What an association does: datagrams to targets, answers to the client (with
    the control data of a session), and keep-alive messages. *)
Inductive NatKey := PeerAddr (a : SocketAddr) | SessionId (id : Z).

Inductive effect :=
| ToTarget (target : SocketAddr) (data : bytes)
| ToClient (peer : SocketAddr) (addr : Address) (control : option UdpSocketControlData) (data : bytes)
| KeepAlive (key : NatKey).

(** What the surroundings answer during a call: the access control list, the
    resolver, the capabilities of the IP stack, and the sockets. *)
Record surroundings := {
  check_outbound_blocked : Address → bool;
  ipv6_first : bool;
  dns_resolve : bytes → Z → outcome io_error (list SocketAddr);
  support_ipv4_mapped_ipv6 : bool;
  support_ipv6 : bool;
  connect_any : bool → outcome io_error unit;
  socket_send_to : SocketAddr → bytes → outcome io_error nat;
}.

Definition set_peer (p : SocketAddr) (self : UdpAssociationContext) : UdpAssociationContext :=
  {| peer_addr := p; outbound_ipv4_socket := outbound_ipv4_socket self; outbound_ipv6_socket := outbound_ipv6_socket self;
     keepalive_flag := keepalive_flag self; client_session := client_session self;
     a_server_session_id := a_server_session_id self; server_packet_id := server_packet_id self |}.
Definition set_sockets (v4 v6 : bool) (self : UdpAssociationContext) : UdpAssociationContext :=
  {| peer_addr := peer_addr self; outbound_ipv4_socket := v4; outbound_ipv6_socket := v6;
     keepalive_flag := keepalive_flag self; client_session := client_session self;
     a_server_session_id := a_server_session_id self; server_packet_id := server_packet_id self |}.
Definition set_keepalive (b : bool) (self : UdpAssociationContext) : UdpAssociationContext :=
  {| peer_addr := peer_addr self; outbound_ipv4_socket := outbound_ipv4_socket self; outbound_ipv6_socket := outbound_ipv6_socket self;
     keepalive_flag := b; client_session := client_session self;
     a_server_session_id := a_server_session_id self; server_packet_id := server_packet_id self |}.
Definition set_session (s : ClientSessionContext) (self : UdpAssociationContext) : UdpAssociationContext :=
  {| peer_addr := peer_addr self; outbound_ipv4_socket := outbound_ipv4_socket self; outbound_ipv6_socket := outbound_ipv6_socket self;
     keepalive_flag := keepalive_flag self; client_session := Some s;
     a_server_session_id := a_server_session_id self; server_packet_id := server_packet_id self |}.
Definition set_packet_id (i : Z) (self : UdpAssociationContext) : UdpAssociationContext :=
  {| peer_addr := peer_addr self; outbound_ipv4_socket := outbound_ipv4_socket self; outbound_ipv6_socket := outbound_ipv6_socket self;
     keepalive_flag := keepalive_flag self; client_session := client_session self;
     a_server_session_id := a_server_session_id self; server_packet_id := i |}.

(** *** From the client *)
Definition outbound_target (env : surroundings) (original : SocketAddr) : SocketAddr :=
  match original with
  | V4 ip port => if support_ipv4_mapped_ipv6 env then V6 (to_ipv6_mapped ip) port 0 0 else original
  | V6 ip port _ _ =>
      if negb (support_ipv6 env) || negb (support_ipv4_mapped_ipv6 env) then
        match to_ipv4_mapped ip with Some v4 => V4 v4 port | None => original end
      else original
  end.

(** The socket of the family, made when there is none. *)
Definition ensure_socket (env : surroundings) (target : SocketAddr) (self : UdpAssociationContext) : outcome io_error UdpAssociationContext :=
  match target with
  | V4 _ _ =>
      if outbound_ipv4_socket self then Ok self
      else (_ ← connect_any env false; Ok (set_sockets true (outbound_ipv6_socket self) self))
  | V6 _ _ _ _ =>
      if outbound_ipv6_socket self then Ok self
      else (_ ← connect_any env true; Ok (set_sockets (outbound_ipv4_socket self) true self))
  end.

Definition send_received_outbound_packet (env : surroundings) (data : bytes) (original : SocketAddr)
    (st : UdpAssociationContext * list effect) : outcome io_error unit * (UdpAssociationContext * list effect) :=
  let '(self, effects) := st in
  let target := outbound_target env original in
  match ensure_socket env target self with
  | Ok self => ((λ _, tt) <$> socket_send_to env target data, (self, effects ++ [ToTarget target data]))
  | Err e => (Err e, (self, effects))
  | Panic m => (Panic m, (self, effects))
  end.

Definition dispatch_received_outbound_packet (env : surroundings) (target_addr : Address) (data : bytes)
    (self : UdpAssociationContext) : outcome io_error unit * (UdpAssociationContext * list effect) :=
  match target_addr with
  | SocketAddress sa => send_received_outbound_packet env data sa (self, [])
  | DomainNameAddress dname port =>
      lookup_then (send_received_outbound_packet env data) (ipv6_first env) (dns_resolve env dname port) (self, [])
  end.

(** What becomes of a datagram of the client. *)
Inductive verdict := Blocked | OutOfWindow | PassedOn (r : outcome io_error unit).

(** The check of the packet id, and the user of an accepted one. *)
Definition check_window (control : UdpSocketControlData) (self : UdpAssociationContext) : bool * UdpAssociationContext :=
  let session := default (ClientSessionContext_new (client_session_id control)) (client_session self) in
  let '(ok, w) := validate_packet_id (packet_window_filter session) (packet_id control) (u64_max - 1) in
  (ok, set_session {| s_client_session_id := s_client_session_id session; packet_window_filter := w;
                      client_user := if ok then user control else client_user session |} self).

(** A session follows the address its client sends from. *)
Definition follow_peer (peer : SocketAddr) (self : UdpAssociationContext) : UdpAssociationContext :=
  match client_session self with Some _ => set_peer peer self | None => self end.

Definition dispatch_received_packet (env : surroundings) (peer : SocketAddr) (target_addr : Address) (data : bytes)
    (control : option UdpSocketControlData) (self : UdpAssociationContext) : verdict * (UdpAssociationContext * list effect) :=
  let self := follow_peer peer self in
  if check_outbound_blocked env target_addr then (Blocked, (self, []))
  else
    let '(ok, self) := match control with Some c => check_window c self | None => (true, self) end in
    if ok then
      let '(r, st) := dispatch_received_outbound_packet env target_addr data self in (PassedOn r, st)
    else (OutOfWindow, (self, [])).

(** *** From the targets *)

(** The client sees an IPv4 target as such. *)
Definition unmap_address (addr : Address) : Address :=
  match addr with
  | SocketAddress (V6 ip port _ _) => match to_ipv4_mapped ip with Some v4 => SocketAddress (V4 v4 port) | None => addr end
  | _ => addr
  end.

Definition send_received_respond_packet (addr : Address) (data : bytes) (self : UdpAssociationContext) : UdpAssociationContext * list effect :=
  let self := set_keepalive true self in
  let addr := unmap_address addr in
  match client_session self with
  | None => (self, [ToClient (peer_addr self) addr None data])
  | Some s =>
      if server_packet_id self + 1 <? u64_max then
        let self := set_packet_id (server_packet_id self + 1) self in
        (self, [ToClient (peer_addr self) addr
                  (Some {| client_session_id := s_client_session_id s; server_session_id := a_server_session_id self;
                           packet_id := server_packet_id self; user := client_user s |}) data])
      else (self, [])
  end.

Definition keepalive_tick (accepted : bool) (self : UdpAssociationContext) : UdpAssociationContext * list effect :=
  if keepalive_flag self then
    let key := match client_session self with None => PeerAddr (peer_addr self) | Some s => SessionId (s_client_session_id s) end in
    if accepted then (set_keepalive false self, [KeepAlive key]) else (self, [])
  else (self, []).

(** ** The loop of an association: one turn per event. *)
Inductive event :=
| FromClient (env : surroundings) (peer : SocketAddr) (target : Address) (data : bytes) (control : option UdpSocketControlData)
| FromTarget (addr : SocketAddr) (data : bytes)
| SocketFailed (v6 : bool)
| Tick (accepted : bool).

Definition assoc_step (e : event) (self : UdpAssociationContext) : option verdict * (UdpAssociationContext * list effect) :=
  match e with
  | FromClient env peer target data control =>
      let '(v, st) := dispatch_received_packet env peer target data control self in (Some v, st)
  | FromTarget addr data => (None, send_received_respond_packet (SocketAddress addr) data self)
  | SocketFailed true => (None, (set_sockets (outbound_ipv4_socket self) false self, []))
  | SocketFailed false => (None, (set_sockets false (outbound_ipv6_socket self) self, []))
  | Tick accepted => (None, keepalive_tick accepted self)
  end.

(** A panic ends the task of the association. *)
Definition panicked (v : option verdict) : bool := match v with Some (PassedOn (Panic _)) => true | _ => false end.

(** What happened at each event, in order. *)
Definition trace : Type := list (event * option verdict * list effect).

Fixpoint assoc_run (es : list event) (self : UdpAssociationContext) : trace * UdpAssociationContext :=
  match es with
  | [] => ([], self)
  | e :: es =>
      let '(v, (self, eff)) := assoc_step e self in
      if panicked v then ([(e, v, eff)], self)
      else let '(tr, self) := assoc_run es self in ((e, v, eff) :: tr, self)
  end.
End Relay.

(** ** The server

    Its associations, each with the channel that leads to its task; a task that
    panicked is gone. *)
Section Server.
#[local] Instance peer_eq_dec : EqDecision SocketAddr.
Proof. solve_decision. Defined.

#[local] Instance peer_countable : Countable SocketAddr.
Proof.
  apply (inj_countable' (λ a, match a with V4 i p => inl (i, p) | V6 i p f s => inr (i, p, f, s) end)
    (λ x, match x with inl (i, p) => V4 i p | inr (i, p, f, s) => V6 i p f s end)).
  by intros [].
Defined.

Definition UDP_ASSOCIATION_SEND_CHANNEL_SIZE : nat := 1024.

Record UdpAssociationSendMessage := {
  m_peer_addr : SocketAddr;
  m_target_addr : Address;
  m_data : bytes;
  m_control : option UdpSocketControlData;
}.

Record UdpAssociation := { channel : list UdpAssociationSendMessage; task : option UdpAssociationContext }.

Inductive NatMap := Associations (m : gmap SocketAddr UdpAssociation) | Sessions (m : gmap Z UdpAssociation).

(** What the listener received and decrypted, unless it is empty or the list blocks
    the client or the target. *)
Definition recv_one_packet (client_blocked : SocketAddr → bool) (outbound_blocked : Address → bool)
    (received : io_error + UdpAssociationSendMessage) : option UdpAssociationSendMessage :=
  match received with
  | inl _ => None
  | inr msg =>
      if (length (m_data msg) =? 0)%nat then None
      else if client_blocked (m_peer_addr msg) then None
      else if outbound_blocked (m_target_addr msg) then None
      else Some msg
  end.

Definition try_send (msg : UdpAssociationSendMessage) (a : UdpAssociation) : outcome io_error unit * UdpAssociation :=
  match task a with
  | Some _ =>
      if (length (channel a) <? UDP_ASSOCIATION_SEND_CHANNEL_SIZE)%nat then (Ok tt, {| channel := channel a ++ [msg]; task := task a |})
      else (Err (OtherKind "udp relay channel full"), a)
  | None => (Err (OtherKind "udp relay channel full"), a)
  end.

(** The association at [k], or a new one that is kept when it takes the datagram. *)
Definition send_to_entry `{Countable K} (k : K) (fresh : UdpAssociation) (msg : UdpAssociationSendMessage) (m : gmap K UdpAssociation) :
    outcome io_error unit * gmap K UdpAssociation :=
  match m !! k with
  | Some a => let '(r, a) := try_send msg a in (r, <[k := a]> m)
  | None => match try_send msg fresh with (Ok _, a) => (Ok tt, <[k := a]> m) | (r, _) => (r, m) end
  end.

(** [ssid] is the session id that [create] draws. *)
Definition new_association (peer : SocketAddr) (client_session_id : option Z) (ssid : Z) : UdpAssociation :=
  {| channel := []; task := Some (create peer client_session_id ssid) |}.

Definition send_packet (ssid : Z) (msg : UdpAssociationSendMessage) (self : NatMap) : outcome io_error unit * NatMap :=
  match self with
  | Associations m =>
      let '(r, m) := send_to_entry (m_peer_addr msg) (new_association (m_peer_addr msg) None ssid) msg m in (r, Associations m)
  | Sessions m =>
      match m_control msg with
      | None => (Err (OtherKind "control data missing in packet"), self)
      | Some c =>
          let sid := client_session_id c in
          let '(r, m) := send_to_entry sid (new_association (m_peer_addr msg) (Some sid) ssid) msg m in (r, Sessions m)
      end
  end.

(** The branches of the task of an association: the next datagram of its channel, an
    answer, the failure of a socket, the timer. *)
Inductive turn :=
| TakeMessage (env : surroundings)
| Answered (addr : SocketAddr) (data : bytes)
| Failed (v6 : bool)
| Ticked (accepted : bool).

Definition turn_event (t : turn) (ch : list UdpAssociationSendMessage) : option (event * list UdpAssociationSendMessage) :=
  match t, ch with
  | TakeMessage env, msg :: ch => Some (FromClient env (m_peer_addr msg) (m_target_addr msg) (m_data msg) (m_control msg), ch)
  | TakeMessage _, [] => None
  | Answered addr data, _ => Some (FromTarget addr data, ch)
  | Failed v6, _ => Some (SocketFailed v6, ch)
  | Ticked accepted, _ => Some (Tick accepted, ch)
  end.

Definition task_turn (t : turn) (a : UdpAssociation) : UdpAssociation * list effect :=
  match task a, turn_event t (channel a) with
  | Some self, Some (e, ch) =>
      let '(v, (self, eff)) := assoc_step e self in
      ({| channel := ch; task := if panicked v then None else Some self |}, eff)
  | _, _ => (a, [])
  end.

Definition turn_at `{Countable K} (k : K) (t : turn) (m : gmap K UdpAssociation) : gmap K UdpAssociation * list effect :=
  match m !! k with Some a => let '(a, eff) := task_turn t a in (<[k := a]> m, eff) | None => (m, []) end.

(** What happens to the server: a datagram arrives, the task of an association takes
    a turn, an association expires or makes room for another. *)
Inductive server_event :=
| Received (client_blocked : SocketAddr → bool) (outbound_blocked : Address → bool) (received : io_error + UdpAssociationSendMessage) (ssid : Z)
| Turn (key : NatKey) (t : turn)
| Dropped (key : NatKey).

Definition server_step (e : server_event) (self : NatMap) : NatMap * list effect :=
  match e with
  | Received client_blocked outbound_blocked received ssid =>
      match recv_one_packet client_blocked outbound_blocked received with
      | None => (self, [])
      | Some msg => (snd (send_packet ssid msg self), [])
      end
  | Turn key t =>
      match self, key with
      | Associations m, PeerAddr a => let '(m, eff) := turn_at a t m in (Associations m, eff)
      | Sessions m, SessionId sid => let '(m, eff) := turn_at sid t m in (Sessions m, eff)
      | _, _ => (self, [])
      end
  | Dropped key =>
      match self, key with
      | Associations m, PeerAddr a => (Associations (delete a m), [])
      | Sessions m, SessionId sid => (Sessions (delete sid m), [])
      | _, _ => (self, [])
      end
  end.

Fixpoint server_run (es : list server_event) (self : NatMap) : list (list effect) * NatMap :=
  match es with
  | [] => ([], self)
  | e :: es => let '(self, eff) := server_step e self in let '(effs, self) := server_run es self in (eff :: effs, self)
  end.
End Server.

(** ** What a datagram and an answer change *)
Section RelayFacts.

(** Two states of an association that differ in their sockets only. *)
Definition same_session (a b : UdpAssociationContext) : Prop :=
  ∃ v4 v6, b = set_sockets v4 v6 a.

Lemma same_session_refl a : same_session a a.
Proof. exists (outbound_ipv4_socket a), (outbound_ipv6_socket a). by destruct a. Qed.

Lemma same_session_sockets v4 v6 a b : same_session a b → same_session a (set_sockets v4 v6 b).
Proof. intros (w4 & w6 & ->). by exists v4, v6. Qed.

Lemma ensure_socket_same env target a b b' :
  same_session a b → ensure_socket env target b = Ok b' → same_session a b'.
Proof.
  intros Hs. unfold ensure_socket. destruct target; case_match; try (by intros [= <-]);
    (destruct (connect_any env _) as [[]|e|m]; cbn [mbind outcome_bind]; [|done|done]);
    intros [= <-]; by apply same_session_sockets.
Qed.

Definition sent_to_target (data : bytes) (eff : effect) : Prop := ∃ t, eff = ToTarget t data.

(** Passing a datagram on changes the sockets only, and sends nothing but it. *)
Lemma dispatch_outbound_inv env target data self :
  let st := snd (dispatch_received_outbound_packet env target data self) in
  same_session self st.1 ∧ Forall (sent_to_target data) st.2.
Proof.
  set (P := λ st : UdpAssociationContext * list effect, same_session self st.1 ∧ Forall (sent_to_target data) st.2).
  assert (∀ a st, P st → P (snd (send_received_outbound_packet env data a st))) as Hb.
  { intros a [b eff] [Hs Hf]. unfold send_received_outbound_packet.
    destruct (ensure_socket env _ b) as [b'|e|m] eqn:E; [|by split|by split].
    split; simpl; [by eapply ensure_socket_same|].
    apply Forall_app. split; [done|]. constructor; [by eexists|constructor]. }
  assert (P (self, [])) as H0 by (split; [apply same_session_refl|constructor]).
  cbv zeta. unfold dispatch_received_outbound_packet. destruct target as [sa|dname port].
  - exact (Hb sa _ H0).
  - by apply (lookup_then_inv P).
Qed.

(** ** The packet ids of a session

    The relay of a session over the abstract window: a datagram is passed on when
    its target is not blocked and the window accepts its id. *)
Inductive ruling := RBlocked | ROutOfWindow | RPassed.

Definition ruling_of (v : verdict) : ruling :=
  match v with Blocked => RBlocked | OutOfWindow => ROutOfWindow | PassedOn _ => RPassed end.

Definition window_limit : Z := u64_max - 1.

Definition spec_ruling (e : event) (s : window_spec) : option ruling * window_spec :=
  match e with
  | FromClient env _ target _ (Some c) =>
      if check_outbound_blocked env target then (Some RBlocked, s)
      else let '(ok, s) := spec_step s (Validate (packet_id c) window_limit) in
           (Some (if bool_decide (ok = Some true) then RPassed else ROutOfWindow), s)
  | _ => (None, s)
  end.

Fixpoint spec_rulings (es : list event) (s : window_spec) : list (option ruling) :=
  match es with
  | [] => []
  | e :: es => let '(r, s) := spec_ruling e s in r :: spec_rulings es s
  end.

(** The events of a session: AEAD-2022 datagrams carry control data. *)
Definition session_event (e : event) : bool :=
  match e with
  | FromClient _ _ _ _ (Some c) => (0 <=? packet_id c) && (packet_id c <? u64_max)
  | FromClient _ _ _ _ None => false
  | _ => true
  end.

(** The ids of the datagrams that were passed on. *)
Definition passed_id (e : event) (v : option verdict) : option Z :=
  match e, v with FromClient _ _ _ _ (Some c), Some (PassedOn _) => Some (packet_id c) | _, _ => None end.
Definition passed_ids (tr : trace) : list Z := omap (λ x, passed_id x.1.1 x.1.2) tr.

(** The association is in its session and its window simulates [s]. *)
Definition session_sim (sid ssid : Z) (s : window_spec) (self : UdpAssociationContext) : Prop :=
  a_server_session_id self = ssid ∧
  ∃ c, client_session self = Some c ∧ s_client_session_id c = sid ∧ simulates (packet_window_filter c) s.

Lemma session_sim_same sid ssid s a b : same_session a b → session_sim sid ssid s a → session_sim sid ssid s b.
Proof. by intros (v4 & v6 & ->). Qed.

Lemma create_session_sim peer sid ssid : session_sim sid ssid spec_new (create peer (Some sid) ssid).
Proof. split; [done|]. eexists. split; [done|]. split; [done|]. apply new_simulates. Qed.

Lemma check_window_spec sid ssid s control self :
  session_sim sid ssid s self → in_u64 (packet_id control) →
  let '(ok, s') := spec_step s (Validate (packet_id control) window_limit) in
  Some (check_window control self).1 = ok ∧ session_sim sid ssid s' (check_window control self).2 ∧
  server_packet_id (check_window control self).2 = server_packet_id self ∧
  client_user <$> client_session (check_window control self).2 =
    (if (check_window control self).1 then Some (user control) else client_user <$> client_session self).
Proof.
  intros (Hss & c & Hc & Hid & Hsim) Hp.
  pose proof (step_simulates _ s (Validate (packet_id control) window_limit) Hsim) as Hstep.
  unfold check_window. rewrite Hc. simpl default. unfold window_step in Hstep. fold window_limit.
  destruct (validate_packet_id _ _ _) as [ok w]. destruct (spec_step s _) as [ok' s'].
  destruct Hstep as [Hok Hs']; [split; [done|by vm_compute]|]. simpl in Hok, Hs' |- *.
  split; [done|]. split; [split; [done|]; by eexists|]. by destruct ok.
Qed.
End RelayFacts.

(** ** Runs of a session *)
Section SessionRuns.

Definition cur_user (self : UdpAssociationContext) : option ServerUser := client_session self ≫= client_user.

(** The user of the last datagram passed on. *)
Definition passed_user (e : event) (v : option verdict) (u : option ServerUser) : option ServerUser :=
  match e, v with FromClient _ _ _ _ (Some c), Some (PassedOn _) => user c | _, _ => u end.
Definition last_user (tr : trace) (u : option ServerUser) : option ServerUser :=
  foldl (λ u '(e, v, _), passed_user e v u) u tr.

(** The control data of the answers. *)
Definition answers (eff : list effect) : list (option UdpSocketControlData) :=
  omap (λ x, match x with ToClient _ _ control _ => Some control | _ => None end) eff.

Lemma answers_sent data eff : Forall (sent_to_target data) eff → answers eff = [].
Proof. induction 1 as [|x eff [t ->] _ IH]; [done|]. exact IH. Qed.

(** What a datagram of the client does to its session. *)
Lemma client_step_sim sid ssid s env peer target data c self :
  session_sim sid ssid s self → session_event (FromClient env peer target data (Some c)) = true →
  let '(v, (self', eff)) := dispatch_received_packet env peer target data (Some c) self in
  let '(r, s') := spec_ruling (FromClient env peer target data (Some c)) s in
  Some (ruling_of v) = r ∧ session_sim sid ssid s' self' ∧ server_packet_id self' = server_packet_id self ∧
  cur_user self' = passed_user (FromClient env peer target data (Some c)) (Some v) (cur_user self) ∧
  Forall (sent_to_target data) eff ∧ (eff = [] ∨ ruling_of v = RPassed).
Proof.
  intros Hsim He. simpl in He. apply andb_true_iff in He as [He1%Z.leb_le He2%Z.ltb_lt].
  unfold dispatch_received_packet, spec_ruling.
  assert (session_sim sid ssid s (follow_peer peer self) ∧ server_packet_id (follow_peer peer self) = server_packet_id self
          ∧ cur_user (follow_peer peer self) = cur_user self) as (Hf & Hp & Hu).
  { destruct Hsim as (Hss & k & Hk & Hid & Hw). unfold follow_peer, cur_user. rewrite Hk. simpl.
    split; [split; [done|by exists k]|]. split; [done|]. by rewrite ?Hk. }
  destruct (check_outbound_blocked env target); [split_and!; eauto; constructor|].
  pose proof (check_window_spec _ _ _ c _ Hf ltac:(done)) as Hw.
  destruct (spec_step s _) as [ok' s']. destruct (check_window c _) as [ok self1]. simpl in Hw.
  destruct Hw as (<- & Hs1 & Hp1 & Hu1). destruct ok.
  - pose proof (dispatch_outbound_inv env target data self1) as [Hsame Hsent].
    destruct (dispatch_received_outbound_packet _ _ _ _) as [r [self2 eff]]. simpl in Hsame, Hsent |- *.
    split; [done|]. split; [by eapply session_sim_same|]. destruct Hsame as (v4 & v6 & ->). simpl.
    split; [congruence|]. split; [|by eauto]. unfold cur_user. simpl.
    destruct (client_session self1); simpl in Hu1; [by simplify_eq|done].
  - rewrite bool_decide_false by done. split_and!; [done|done|congruence| |constructor|by left]. simpl. rewrite <- Hu. unfold cur_user.
    destruct (client_session self1), (client_session (follow_peer peer self)); simpl in Hu1; simplify_eq; done.
Qed.

Definition to_target (x : effect) : bool := match x with ToTarget _ _ => true | _ => false end.

Lemma no_target eff : forallb (λ x, negb (to_target x)) eff = true → Forall (λ x, ∀ t d, x ≠ ToTarget t d) eff.
Proof. induction eff as [|[] eff IH]; simpl; intros H; [constructor|done|..]; constructor; auto. Qed.

(** Every other event leaves the window and the user alone; answers take the next
    packet id while there is one. *)
Lemma other_step_sim sid ssid s e self :
  session_sim sid ssid s self → (∀ env peer target data control, e ≠ FromClient env peer target data control) →
  0 ≤ server_packet_id self < u64_max →
  let '(v, (self', eff)) := assoc_step e self in
  v = None ∧ session_sim sid ssid s self' ∧ cur_user self' = cur_user self ∧
  Forall (λ x, ∀ t d, x ≠ ToTarget t d) eff ∧
  (answers eff = [] ∧ server_packet_id self' = server_packet_id self ∨
   answers eff = [Some {| client_session_id := sid; server_session_id := ssid;
                          packet_id := server_packet_id self + 1; user := cur_user self |}] ∧
   server_packet_id self' = server_packet_id self + 1 ∧ server_packet_id self + 1 < u64_max).
Proof.
  intros (Hss & c & Hc & Hid & Hw) Hne Hb.
  assert (∀ self', a_server_session_id self' = a_server_session_id self ∧ client_session self' = client_session self →
                   session_sim sid ssid s self') as kept.
  { intros self1 [Ha Hcs]. split; [congruence|]. exists c. by rewrite Hcs. }
  unfold assoc_step. destruct e as [env peer target data control|addr data|[]|accepted].
  - by destruct (Hne env peer target data control).
  - unfold send_received_respond_packet. cbn [set_keepalive server_packet_id client_session].
    rewrite Hc. destruct (Z.ltb_spec (server_packet_id self + 1) u64_max) as [Hlt|_];
      (split; [reflexivity|]); (split; [apply kept; split; reflexivity|]); (split; [reflexivity|]);
      (split; [apply no_target; reflexivity|]).
    + right. split; [|split; [reflexivity|exact Hlt]]. simpl. unfold cur_user. by rewrite Hc, Hid, Hss.
    + left. split; reflexivity.
  - split; [reflexivity|]. split; [apply kept; split; reflexivity|]. split; [reflexivity|]. split; [constructor|].
    left. split; reflexivity.
  - split; [reflexivity|]. split; [apply kept; split; reflexivity|]. split; [reflexivity|]. split; [constructor|].
    left. split; reflexivity.
  - unfold keepalive_tick. destruct (keepalive_flag self), accepted;
      (split; [reflexivity|]); (split; [apply kept; split; reflexivity|]); (split; [reflexivity|]);
      (split; [apply no_target; reflexivity|]); left; split; reflexivity.
Qed.
End SessionRuns.

Section SessionTraces.

(** Datagrams leave for a target only when the client's was passed on, unchanged. *)
Definition targets_ok (e : event) (v : option verdict) (eff : list effect) : Prop :=
  ∀ t d, ToTarget t d ∈ eff →
    ∃ env peer target control r, e = FromClient env peer target d control ∧ v = Some (PassedOn r).

Definition answer_of (sid ssid id : Z) (u : option ServerUser) : option UdpSocketControlData :=
  Some {| client_session_id := sid; server_session_id := ssid; packet_id := id; user := u |}.

Lemma session_step sid ssid s e self :
  session_sim sid ssid s self → session_event e = true → 0 ≤ server_packet_id self < u64_max →
  let '(v, (self', eff)) := assoc_step e self in
  let '(r, s') := spec_ruling e s in
  ruling_of <$> v = r ∧ session_sim sid ssid s' self' ∧ cur_user self' = passed_user e v (cur_user self) ∧
  targets_ok e v eff ∧
  ∃ n, answers eff = take n [answer_of sid ssid (server_packet_id self + 1) (cur_user self)] ∧
       server_packet_id self' = server_packet_id self + Z.of_nat (length (answers eff)) ∧
       server_packet_id self' < u64_max.
Proof.
  intros Hsim He Hb.
  pose proof (λ H, other_step_sim sid ssid s e self Hsim H Hb) as Hother.
  destruct e as [env peer target data [c|]|addr data|b|accepted]; [|done|..];
    [|specialize (Hother ltac:(congruence)) as Hstep; unfold spec_ruling..].
  2-4: destruct (assoc_step _ self) as [v [self' eff]]; destruct Hstep as (-> & Hs & Hu & Ht & Ha);
    (split; [done|]); (split; [done|]); (split; [done|]); split;
    [ intros t d Hin; by edestruct (proj1 (list.Forall_forall _ _) Ht _ Hin)
    | destruct Ha as [[-> Hp]|(-> & Hp & Hlt)];
      [exists 0%nat; simpl; (split; [done|]); lia | exists 1%nat; simpl; (split; [done|]); lia] ].
  pose proof (client_step_sim sid ssid s env peer target data c self Hsim He) as Hstep. unfold assoc_step.
  destruct (dispatch_received_packet _ _ _ _ _ _) as [v [self' eff]]. destruct (spec_ruling _ s) as [r s'].
  destruct Hstep as (Hr & Hs & Hp & Hu & Hf & He'). split; [done|]. split; [done|]. split; [done|]. split.
  - intros t d Hin. pose proof (proj1 (list.Forall_forall _ _) Hf _ Hin) as [t' [= -> ->]].
    destruct He' as [->|Hv]; [by apply elem_of_nil in Hin|]. destruct v as [| |x]; [done|done|]. by eexists _, _, _, _, x.
  - exists 0%nat. rewrite (answers_sent _ _ Hf). simpl. split; [done|]. lia.
Qed.

Definition rulings (tr : trace) : list (option ruling) := map (λ x, ruling_of <$> x.1.2) tr.

(** The whole run of a session, from any state of it. *)
Lemma session_rulings sid ssid es s self :
  session_sim sid ssid s self → 0 ≤ server_packet_id self < u64_max → forallb session_event es = true →
  let tr := (assoc_run es self).1 in
  rulings tr = take (length tr) (spec_rulings es s) ∧
  (NoDup (passed_ids tr) ∧ ∀ p, p ∈ passed_ids tr → p ∉ sp_seen s) ∧
  Forall (λ '(e, v, eff), targets_ok e v eff) tr.
Proof.
  revert s self. induction es as [|e es IH]; intros s self Hsim Hb Hes; simpl.
  { split; [done|]. split; [split; [constructor|set_solver]|constructor]. }
  simpl in Hes. apply andb_true_iff in Hes as [He Hes].
  pose proof (session_step sid ssid s e self Hsim He Hb) as Hstep.
  destruct (assoc_step e self) as [v [self' eff]].
  assert (match passed_id e v with
          | Some p => p ∉ sp_seen s ∧ sp_seen (spec_ruling e s).2 = {[p]} ∪ sp_seen s
          | None => sp_seen s ⊆ sp_seen (spec_ruling e s).2 end) as Hseen.
  { destruct e as [env peer target data [c|]| | |]; simpl in Hstep |- *; try done.
    destruct (check_outbound_blocked env target); simpl in *.
    - destruct v as [[]|]; try done; destruct Hstep as ([=] & _).
    - destruct (spec_in_window s _ _); simpl in *.
      + case_bool_decide; simpl in *; destruct v as [[]|]; simpl; try set_solver;
          destruct Hstep as ([=] & _); case_bool_decide; set_solver.
      + destruct v as [[]|]; simpl; try set_solver; destruct Hstep as ([=] & _). }
  destruct (spec_ruling e s) as [r s']. destruct Hstep as (Hr & Hs & _ & Ht & n & _ & Hp & Hlt). simpl in Hseen.
  assert (0 ≤ server_packet_id self' < u64_max) as Hb' by lia.
  specialize (IH s' self' Hs Hb' Hes). destruct (panicked v) eqn:Ep; simpl.
  - split; [by rewrite Hr, take_0|]. split; [|by repeat constructor].
    unfold passed_ids. simpl. destruct (passed_id e v); [split; [apply NoDup_singleton|]|split; [constructor|]]; set_solver.
  - destruct (assoc_run es self') as [tr self2]. simpl in *. destruct IH as (IH1 & [IHn IHf] & IH3).
    split; [by rewrite Hr, IH1|]. split; [|by constructor].
    unfold passed_ids. simpl. destruct (passed_id e v); [|split; [done|set_solver]].
    destruct Hseen as [Hnew Hs']. rewrite Hs' in IHf. split; [constructor; [|done]|]; set_solver.
Qed.
End SessionTraces.

(** ** The contract of an association *)
Section SessionContract.

(** The control data of all answers of a run. *)
Definition controls (tr : trace) : list (option UdpSocketControlData) := concat (map (λ x, answers x.2) tr).

Definition of_session (sid ssid : Z) (c : UdpSocketControlData) : Prop :=
  client_session_id c = sid ∧ server_session_id c = ssid.

Lemma last_user_cons x tr u : last_user (x :: tr) u = last_user tr (passed_user x.1.1 x.1.2 u).
Proof. by destruct x as [[e v] eff]. Qed.

Lemma session_answers sid ssid es s self :
  session_sim sid ssid s self → 0 ≤ server_packet_id self < u64_max → forallb session_event es = true →
  let tr := (assoc_run es self).1 in
  (∃ cs, controls tr = map Some cs ∧ map packet_id cs = seqZ (server_packet_id self + 1) (Z.of_nat (length cs)) ∧
         Forall (of_session sid ssid) cs ∧ server_packet_id self + Z.of_nat (length cs) < u64_max) ∧
  ∀ tr1 x tr2 c, tr = tr1 ++ x :: tr2 → Some c ∈ answers x.2 → user c = last_user tr1 (cur_user self).
Proof.
  revert s self. induction es as [|e es IH]; intros s self Hsim Hb Hes; simpl.
  { split; [exists []; simpl; repeat split; [constructor|lia]|]. intros tr1 x tr2 c E. by destruct tr1. }
  simpl in Hes. apply andb_true_iff in Hes as [He Hes].
  pose proof (session_step sid ssid s e self Hsim He Hb) as Hstep.
  destruct (assoc_step e self) as [v [self' eff]]. destruct (spec_ruling e s) as [r s'].
  destruct Hstep as (_ & Hs & Hu & _ & n & Ha & Hp & Hlt).
  assert (0 ≤ server_packet_id self' < u64_max) as Hb' by lia.
  assert (∃ cs, answers eff = map Some cs ∧ map packet_id cs = seqZ (server_packet_id self + 1) (Z.of_nat (length cs)) ∧
    Forall (of_session sid ssid) cs ∧ Forall (λ c, user c = cur_user self) cs) as (cs & Hcs & Hids & Hof & Hus).
  { rewrite Ha. destruct n as [|n]; [by exists []|]. simpl. rewrite take_nil. eexists [_].
    split; [reflexivity|]. split; [reflexivity|]. by repeat constructor. }
  assert (∀ c, Some c ∈ answers eff → user c = cur_user self) as Huser.
  { rewrite Hcs. intros c (c' & [= ->] & Hin)%list_elem_of_fmap. exact (proj1 (list.Forall_forall _ _) Hus _ Hin). }
  rewrite Hcs, length_map in Hp. specialize (IH s' self' Hs Hb' Hes). destruct (panicked v); simpl.
  - split; [exists cs; unfold controls; simpl; rewrite app_nil_r; split_and!; [done|done|done|lia]|].
    intros tr1 x tr2 c E Hc. destruct tr1 as [|? tr1]; [|by destruct tr1]. injection E as <- _. by apply Huser.
  - destruct (assoc_run es self') as [tr self2]. simpl in *. destruct IH as ((cs2 & Hcs2 & Hids2 & Hof2 & Hlt2) & Hus2). split.
    + exists (cs ++ cs2). unfold controls in *. simpl. rewrite Hcs, Hcs2, !map_app, Hids, Hids2, length_app. split_and!.
      * done.
      * rewrite Nat2Z.inj_add, seqZ_app by lia. do 2 f_equal. lia.
      * by apply Forall_app.
      * lia.
    + intros tr1 x tr2 c E Hc. destruct tr1 as [|y tr1]; simplify_eq/=; [by apply Huser|].
      rewrite <- Hu. by eapply Hus2.
Qed.

Lemma run_complete es self :
  let tr := (assoc_run es self).1 in
  forallb (λ x, negb (panicked x.1.2)) tr = true → length tr = length es.
Proof.
  revert self. induction es as [|e es IH]; intros self; [done|]. simpl.
  destruct (assoc_step e self) as [v [self' eff]]. destruct (panicked v) eqn:E; simpl; [by rewrite E|].
  specialize (IH self'). destruct (assoc_run es self') as [tr self2]. simpl in *. rewrite E. simpl. auto.
Qed.

(** C5. Refinement and replay protection of the server's UDP relay: whatever
    datagrams, answers, socket failures and timer ticks an AEAD-2022 association
    sees, in any order and with any behaviour of the ACL, the resolver and the
    sockets, it rules on every datagram as the abstract window of accepted ids does
    (blocked targets aside): no packet id is passed on twice, nothing is sent to
    a target that is not the data of a datagram passed on, and every event is
    handled unless passing one on panics. *)
Theorem relay_session_refines peer sid ssid es :
  forallb session_event es = true →
  let tr := (assoc_run es (create peer (Some sid) ssid)).1 in
  rulings tr = take (length tr) (spec_rulings es spec_new) ∧ NoDup (passed_ids tr) ∧
  Forall (λ '(e, v, eff), targets_ok e v eff) tr ∧
  (forallb (λ x, negb (panicked x.1.2)) tr = true → length tr = length es).
Proof.
  intros Hes. pose proof (session_rulings sid ssid es spec_new _ (create_session_sim peer sid ssid) ltac:(done) Hes) as (H1 & [H2 _] & H3).
  split_and!; [done|done|done|apply run_complete].
Qed.

(** Bounds of the server's packet ids: the answers of an association carry
    the ids of its session, their packet ids are 1, 2, 3, ... without gap or
    repetition and stay below 2^64 (answers after the last id are dropped rather
    than wrapping around), and each is encrypted for the user of the last datagram
    that was passed on before it. *)
Theorem relay_answers_numbered peer sid ssid es :
  forallb session_event es = true →
  let tr := (assoc_run es (create peer (Some sid) ssid)).1 in
  (∃ cs, controls tr = map Some cs ∧ map packet_id cs = seqZ 1 (Z.of_nat (length cs)) ∧
         Forall (of_session sid ssid) cs ∧ Z.of_nat (length cs) < u64_max) ∧
  ∀ tr1 x tr2 c, tr = tr1 ++ x :: tr2 → Some c ∈ answers x.2 → user c = last_user tr1 None.
Proof.
  intros Hes. exact (session_answers sid ssid es spec_new _ (create_session_sim peer sid ssid) ltac:(done) Hes).
Qed.

(** After any run the session knows the ids it passed on. *)
Lemma session_run_sim sid ssid es s self :
  session_sim sid ssid s self → 0 ≤ server_packet_id self < u64_max → forallb session_event es = true →
  let '(tr, self') := assoc_run es self in
  ∃ s', session_sim sid ssid s' self' ∧ sp_seen s ⊆ sp_seen s' ∧ (∀ p, p ∈ passed_ids tr → p ∈ sp_seen s' ∧ in_u64 p) ∧
    0 ≤ server_packet_id self' < u64_max.
Proof.
  revert s self. induction es as [|e es IH]; intros s self Hsim Hb Hes; simpl; [exists s; split_and!; set_solver|].
  simpl in Hes. apply andb_true_iff in Hes as [He Hes].
  pose proof (session_step sid ssid s e self Hsim He Hb) as Hstep.
  destruct (assoc_step e self) as [v [self1 eff]].
  assert (sp_seen s ⊆ sp_seen (spec_ruling e s).2 ∧
    (ruling_of <$> v = (spec_ruling e s).1 → ∀ p, passed_id e v = Some p → p ∈ sp_seen (spec_ruling e s).2 ∧ in_u64 p)) as [Hsub Hpid].
  { destruct e as [env peer target data [c|]| | |]; simpl; try done. simpl in He. apply andb_true_iff in He as [?%Z.leb_le ?%Z.ltb_lt].
    destruct (check_outbound_blocked env target); simpl; [split; [done|]; by intros Hv p; destruct v as [[]|]|].
    destruct (spec_in_window s _ _); simpl; [split; [set_solver|]|split; [done|]; by intros Hv p; destruct v as [[]|]].
    intros _ p. destruct v as [[]|]; try done. intros [= <-]. split; [set_solver|done]. }
  destruct (spec_ruling e s) as [r s1]. simpl in Hsub, Hpid. destruct Hstep as (Hr & Hs & _ & _ & n & _ & Hp & Hlt).
  specialize (Hpid Hr). assert (0 ≤ server_packet_id self1 < u64_max) as Hb1 by lia.
  specialize (IH s1 self1 Hs Hb1 Hes). destruct (panicked v).
  - exists s1. split_and!; [done|done| |lia|lia]. unfold passed_ids. simpl. intros p.
    destruct (passed_id e v) as [q|]; [|by intros ?%elem_of_nil]. intros ->%list_elem_of_singleton. by apply Hpid.
  - destruct (assoc_run es self1) as [tr self2]. destruct IH as (s2 & H1 & H2 & H3 & H4).
    exists s2. split_and!; [done|set_solver| |lia|lia]. unfold passed_ids. simpl. intros p.
    destruct (passed_id e v) as [q|]; [|by apply H3]. intros [->|Hin]%elem_of_cons; [|by apply H3].
    destruct (Hpid q eq_refl). split; [set_solver|done].
Qed.

(** A datagram whose id is known: it is not passed on, and the peer is its sender. *)
Lemma refused_step sid ssid s env peer target data control self :
  session_sim sid ssid s self → packet_id control ∈ sp_seen s → in_u64 (packet_id control) → check_outbound_blocked env target = false →
  ∃ self', assoc_step (FromClient env peer target data (Some control)) self = (Some OutOfWindow, (self', [])) ∧
    peer_addr self' = peer ∧ server_packet_id self' = server_packet_id self ∧ cur_user self' = cur_user self ∧
    ∃ s', session_sim sid ssid s' self'.
Proof.
  intros Hsim Hseen Hu Hblk. pose proof (client_step_sim sid ssid s env peer target data control self Hsim) as Hstep.
  cbn [assoc_step]. unfold dispatch_received_packet, spec_ruling in *. rewrite Hblk in *.
  destruct Hsim as (_ & c & Hc & _). unfold follow_peer in *. rewrite Hc in *.
  unfold check_window in *. cbn [set_peer client_session] in *. rewrite Hc in *. cbn [default] in *.
  destruct (validate_packet_id _ _ _) as [ok w].
  assert (∀ o s', spec_step s (Validate (packet_id control) window_limit) = (o, s') → o = Some false) as Hno.
  { intros o s'. simpl. destruct (spec_in_window s _ _); intros [= <- <-]; [|done]. by rewrite bool_decide_true. }
  destruct (spec_step s _) as [o s'] eqn:Ho. rewrite (Hno _ _ eq_refl) in Hstep. rewrite bool_decide_false in Hstep by done. destruct ok.
  - exfalso. destruct (dispatch_received_outbound_packet _ _ _ _) as [r [self2 eff]]. simpl in Hstep. destruct Hstep as ([=] & _).
    apply andb_true_iff. destruct Hu. split; [by apply Z.leb_le|by apply Z.ltb_lt].
  - destruct Hstep as (_ & Hs & Hp & Hcu & _); [apply andb_true_iff; destruct Hu; split; [by apply Z.leb_le|by apply Z.ltb_lt]|].
    eexists. split; [done|]. split_and!; [done|done|exact Hcu|by eexists].
Qed.

Lemma session_answer_step sid ssid s addr data self :
  session_sim sid ssid s self → server_packet_id self + 1 < u64_max →
  ∃ self', assoc_step (FromTarget addr data) self =
    (None, (self', [ToClient (peer_addr self) (unmap_address (SocketAddress addr)) (answer_of sid ssid (server_packet_id self + 1) (cur_user self)) data])).
Proof.
  intros (Hss & c & Hc & Hid & _) Hlt. cbn [assoc_step]. unfold send_received_respond_packet. cbn [set_keepalive client_session server_packet_id].
  rewrite Hc, (proj2 (Z.ltb_lt _ _) Hlt). eexists. unfold cur_user. rewrite Hc. cbn. by rewrite Hss, Hid.
Qed.

(** C39. Datagrams that are refused.  One that cannot be received, is empty, or
    comes from a blocked client or asks for a blocked target changes nothing in the
    server.  One with a packet id that its session has already passed on, say a copy
    of an earlier one, is not passed on either, but it does have an effect: its
    sender, whoever that is, becomes the peer of the session, and the next answer
    of the target, encrypted for the user of the session, is sent there. *)
Theorem relay_refused_redirects client_blocked outbound_blocked peer0 sid ssid es m msg control env addr answer drawn :
  let '(tr, self) := assoc_run es (create peer0 (Some sid) ssid) in
  forallb session_event es = true → m !! sid = Some {| channel := []; task := Some self |} → server_packet_id self + 1 < u64_max →
  m_control msg = Some control → client_session_id control = sid → packet_id control ∈ passed_ids tr →
  m_data msg ≠ [] → client_blocked (m_peer_addr msg) = false → outbound_blocked (m_target_addr msg) = false →
  check_outbound_blocked env (m_target_addr msg) = false →
  (server_run [Received client_blocked outbound_blocked (inr msg) drawn; Turn (SessionId sid) (TakeMessage env);
               Turn (SessionId sid) (Answered addr answer)] (Sessions m)).1 =
    [[]; []; [ToClient (m_peer_addr msg) (unmap_address (SocketAddress addr)) (answer_of sid ssid (server_packet_id self + 1) (cur_user self)) answer]] ∧
  ∀ received srv,
    match received with inl _ => True | inr msg => m_data msg = [] ∨ client_blocked (m_peer_addr msg) = true ∨ outbound_blocked (m_target_addr msg) = true end →
    server_step (Received client_blocked outbound_blocked received drawn) srv = (srv, []).
Proof.
  destruct (assoc_run es (create peer0 (Some sid) ssid)) as [tr self] eqn:Erun.
  intros Hes Hm Hid Hc Hsid Hin Hd Hcb Hob Henv. split.
  - pose proof (session_run_sim sid ssid es spec_new _ (create_session_sim peer0 sid ssid) ltac:(done) Hes) as H. rewrite Erun in H.
    destruct H as (s & Hsim & _ & Hseen & _). destruct (Hseen _ Hin) as [Hs Hu].
    destruct (refused_step sid ssid s env (m_peer_addr msg) (m_target_addr msg) (m_data msg) control self Hsim Hs Hu Henv)
      as (self1 & E1 & Hpeer & Hpid & Huser & s1 & Hs1).
    destruct (session_answer_step sid ssid s1 addr answer self1 Hs1 ltac:(by rewrite Hpid)) as (self2 & E2).
    cbn [server_run server_step]. unfold recv_one_packet. rewrite Hcb, Hob.
    rewrite (proj2 (Nat.eqb_neq _ _)) by (by destruct (m_data msg)).
    unfold send_packet. rewrite Hc, Hsid. unfold send_to_entry. rewrite Hm. unfold try_send. cbn [task channel length].
    change (0 <? UDP_ASSOCIATION_SEND_CHANNEL_SIZE)%nat with true. cbn [app snd].
    unfold turn_at. rewrite lookup_insert_eq. unfold task_turn. cbn [task channel turn_event app]. rewrite Hc, E1. cbn [panicked].
    rewrite lookup_insert_eq. cbn [task channel turn_event]. rewrite E2. cbn. by rewrite Hpeer, Hpid, Huser.
  - intros [e|msg'] srv Hr; cbn [server_step]; unfold recv_one_packet; [done|].
    destruct Hr as [->|[Hr|Hr]]; [done|rewrite Hr; by destruct (_ =? _)%nat|rewrite Hr]. by destruct (_ =? _)%nat, (client_blocked (m_peer_addr msg')).
Qed.

(** *** The session of a datagram *)
Lemma assoc_step_session e self c :
  client_session self = Some c →
  ∃ c', client_session (assoc_step e self).2.1 = Some c' ∧ s_client_session_id c' = s_client_session_id c.
Proof.
  intros Hc. destruct e as [env peer target data control|addr data|[]|accepted]; cbn [assoc_step]; [|..|].
  - unfold dispatch_received_packet, follow_peer. rewrite Hc. destruct (check_outbound_blocked env target); [by exists c|].
    assert (∀ x c', client_session x = Some c' →
      client_session (let '(r, st) := dispatch_received_outbound_packet env target data x in (PassedOn r, st)).2.1 = Some c') as Hout.
    { intros x c' Hx. pose proof (dispatch_outbound_inv env target data x) as [(v4 & v6 & Hs) _].
      destruct (dispatch_received_outbound_packet env target data x) as [r [y eff]]. simpl in *. by subst y. }
    destruct control as [control|].
    + unfold check_window. cbn [set_peer client_session]. rewrite Hc. cbn [default]. destruct (validate_packet_id _ _ _) as [[] w].
      * set (x := set_session _ _). specialize (Hout x _ eq_refl). destruct (dispatch_received_outbound_packet env target data x) as [r st]. eexists. split; [exact Hout|done].
      * by eexists.
    + specialize (Hout (set_peer peer self) c Hc). destruct (dispatch_received_outbound_packet _ _ _ _) as [r st]. exists c. split; [exact Hout|done].
  - unfold send_received_respond_packet. cbn [set_keepalive client_session server_packet_id]. rewrite Hc. case_match; by exists c.
  - by exists c.
  - by exists c.
  - unfold keepalive_tick. destruct (keepalive_flag self), accepted; by exists c.
Qed.

(** What is kept under a session id: a task of that session, whose channel has
    datagrams of that session only. *)
Definition of_entry (sid : Z) (a : UdpAssociation) : Prop :=
  Forall (λ msg, client_session_id <$> m_control msg = Some sid) (channel a) ∧
  ∀ self, task a = Some self → s_client_session_id <$> client_session self = Some sid.

Lemma task_turn_entry sid t a : of_entry sid a → of_entry sid (task_turn t a).1.
Proof.
  intros Ha. pose proof Ha as [Hch Ht]. unfold task_turn. destruct (task a) as [self|] eqn:E; [|done].
  destruct (turn_event t (channel a)) as [[e ch]|] eqn:Et; [|done].
  assert (Forall (λ msg, client_session_id <$> m_control msg = Some sid) ch) as Hch'.
  { destruct t; simpl in Et; [destruct (channel a) as [|x l]; simplify_eq; by apply Forall_cons_1 in Hch as [_ ?]|by simplify_eq..]. }
  specialize (Ht self eq_refl). destruct (client_session self) as [c|] eqn:Ec; [|done].
  destruct (assoc_step_session e self c Ec) as (c' & Hc' & Hid). destruct (assoc_step e self) as [v [self' eff]]. simpl in Hc'.
  split; [done|]. cbn [task fst]. destruct (panicked v); [done|]. intros ? [= <-]. rewrite Hc'. simpl in *. congruence.
Qed.

(** In a server of sessions every datagram is in the hands of its own session,
    whatever arrives, in whatever order the tasks run and whichever associations
    are dropped. *)
Theorem server_routes_sessions es m :
  map_Forall of_entry m → ∃ m', (server_run es (Sessions m)).2 = Sessions m' ∧ map_Forall of_entry m'.
Proof.
  revert m. induction es as [|e es IH]; intros m Hm; [by exists m|]. cbn [server_run].
  assert (∃ m', (server_step e (Sessions m)).1 = Sessions m' ∧ map_Forall of_entry m') as (m1 & E1 & H1).
  2:{ destruct (server_step e (Sessions m)) as [srv eff]. simpl in E1. subst srv. specialize (IH m1 H1).
      by destruct (server_run es (Sessions m1)) as [effs srv]. }
  destruct e as [cb ob received ssid|[a|sid] t|[a|sid]]; cbn [server_step]; try (by exists m).
  - destruct (recv_one_packet _ _ _) as [msg|]; [|by exists m]. unfold send_packet.
    destruct (m_control msg) as [c|] eqn:Ec; [|by exists m]. unfold send_to_entry.
    assert (∀ a, of_entry (client_session_id c) a → of_entry (client_session_id c) (try_send msg a).2) as Hsend.
    { intros a Ha. pose proof Ha as [Hch Ht]. unfold try_send. destruct (task a) eqn:Et; [|done]. destruct (_ <? _)%nat; [|done]. split; [|exact Ht].
      apply Forall_app. split; [done|]. repeat constructor. by rewrite Ec. }
    destruct (m !! client_session_id c) as [a|] eqn:El.
    + specialize (Hsend a (Hm _ _ El)). destruct (try_send msg a) as [r a']. eexists. split; [done|]. by apply map_Forall_insert_2.
    + specialize (Hsend (new_association (m_peer_addr msg) (Some (client_session_id c)) ssid)).
      destruct (try_send msg _) as [r a']. destruct r; [|by exists m..]. eexists. split; [done|]. apply map_Forall_insert_2; [|done].
      apply Hsend. split; [constructor|]. by intros ? [= <-].
  - unfold turn_at. destruct (m !! sid) as [a|] eqn:El; [|by exists m]. pose proof (task_turn_entry sid t a (Hm _ _ El)) as Ht.
    destruct (task_turn t a) as [a' eff]. eexists. split; [done|]. by apply map_Forall_insert_2.
  - eexists. split; [done|]. by apply map_Forall_delete.
Qed.
End SessionContract.

Module RelayExamples.
Import Init.Byte.
(** Surroundings that resolve a name to an IPv4 and an IPv6 address, block port 25
    and refuse to send over IPv6. *)
Definition env : surroundings :=
  {| check_outbound_blocked := λ a, match a with SocketAddress (V4 _ 25) => true | _ => false end;
     ipv6_first := true;
     dns_resolve := λ _ port, Ok [V4 16909060 port; V6 1 port 0 0];
     support_ipv4_mapped_ipv6 := false; support_ipv6 := true;
     connect_any := λ _, Ok tt;
     socket_send_to := λ a d, match a with V4 _ _ => Ok (length d) | V6 _ _ _ _ => Err UnexpectedEof end |}.

Definition ctrl (id : Z) : UdpSocketControlData :=
  {| client_session_id := 7; server_session_id := 0; packet_id := id; user := None |}.
Definition client : SocketAddr := V4 167772161 4000.
Definition other : SocketAddr := V4 167772162 5000.
Definition name : Address := DomainNameAddress (str "example.org") 53.
Definition answer : event := FromTarget (V6 (to_ipv6_mapped 16909060) 53 0 0) [x00].

Definition es : list event :=
  [ FromClient env client name [x01] (Some (ctrl 1)); FromClient env client name [x02] (Some (ctrl 3));
    answer; FromClient env other name [x01] (Some (ctrl 1)); answer;
    FromClient env client (SocketAddress (V4 16909060 25)) [x03] (Some (ctrl 4)); Tick true;
    FromClient env client name [x04] (Some (ctrl 2)); SocketFailed false; answer ].

Example relay_effects :
  map snd (assoc_run es (create client (Some 7) 99)).1 =
  [ [ToTarget (V6 1 53 0 0) [x01]; ToTarget (V4 16909060 53) [x01]];
    [ToTarget (V6 1 53 0 0) [x02]; ToTarget (V4 16909060 53) [x02]];
    [ToClient client (SocketAddress (V4 16909060 53)) (answer_of 7 99 1 None) [x00]];
    []; [ToClient other (SocketAddress (V4 16909060 53)) (answer_of 7 99 2 None) [x00]];
    []; [KeepAlive (SessionId 7)];
    [ToTarget (V6 1 53 0 0) [x04]; ToTarget (V4 16909060 53) [x04]]; [];
    [ToClient client (SocketAddress (V4 16909060 53)) (answer_of 7 99 3 None) [x00]] ].
Proof. vm_compute. reflexivity. Qed.

Lemma relay_session_refines_witness :
  passed_ids (assoc_run es (create client (Some 7) 99)).1 = [1; 3; 2] ∧
  rulings (assoc_run es (create client (Some 7) 99)).1 = take 10 (spec_rulings es spec_new).
Proof.
  split; [vm_compute; reflexivity|].
  exact (proj1 (relay_session_refines client 7 99 es ltac:(vm_compute; reflexivity))).
Defined.

Lemma relay_answers_numbered_witness :
  map (option_map packet_id) (controls (assoc_run es (create client (Some 7) 99)).1) = [Some 1; Some 2; Some 3] ∧
  ∃ cs, controls (assoc_run es (create client (Some 7) 99)).1 = map Some cs ∧ Forall (of_session 7 99) cs.
Proof.
  split; [vm_compute; reflexivity|].
  destruct (relay_answers_numbered client 7 99 es ltac:(vm_compute; reflexivity)) as [(cs & H1 & _ & H3 & _) _].
  exists cs. split; assumption.
Defined.

Definition used : UdpAssociationContext := (assoc_run (take 2 es) (create client (Some 7) 99)).2.

Definition copy : UdpAssociationSendMessage := {| m_peer_addr := other; m_target_addr := name; m_data := [x01]; m_control := Some (ctrl 1) |}.

(** The copy of the first datagram, sent by another. *)
Lemma relay_refused_redirects_witness :
  (server_run [Received (λ _, false) (λ _, false) (inr copy) 5; Turn (SessionId 7) (TakeMessage env);
               Turn (SessionId 7) (Answered (V6 (to_ipv6_mapped 16909060) 53 0 0) [x00])]
     (Sessions {[7 := {| channel := []; task := Some used |}]})).1 =
  [[]; []; [ToClient other (SocketAddress (V4 16909060 53)) (answer_of 7 99 1 None) [x00]]].
Proof.
  exact (proj1 (relay_refused_redirects (λ _, false) (λ _, false) client 7 99 (take 2 es) {[7 := {| channel := []; task := Some used |}]} copy (ctrl 1)
    env (V6 (to_ipv6_mapped 16909060) 53 0 0) [x00] 5 ltac:(vm_compute; reflexivity) ltac:(reflexivity) ltac:(vm_compute; reflexivity)
    ltac:(reflexivity) ltac:(reflexivity) ltac:(apply list_elem_of_In; vm_compute; by left) ltac:(discriminate) ltac:(reflexivity) ltac:(reflexivity) ltac:(reflexivity))).
Defined.
End RelayExamples.
