(* ===== verification/UdpAssociation.v ===== *)
(** * The local server's UDP associations (crates/shadowsocks-service/src/local/net/udp/association.rs)

    An association of the local server sends the datagrams of one client either
    straight to their targets or through the remote server, and gives the answers
    back to the client.  Shown: the exact order in which it uses the pairs of
    session and packet id, none of them twice; in each session of the remote server it delivers no packet id twice while the
    cache keeps that session; and it does not compare the client session id of an
    answer with its own. *)
From S2P Require Import Prelude.
From S2P Require Import External.
From S2P Require Import StdNet.
From S2P Require Import Socks5.
From S2P Require Import Users.
From S2P Require Import UdpAead2022.
From S2P Require Import PacketWindow.
From S2P Require Import Lookup.

(** ** State *)
Module LocalUdp.

(** [ServerSessionContext]: the windows of the sessions of the remote server, in
    a cache whose entries expire; the [ServerContext] of a session is its filter. *)
Abbreviation ServerSessionContext := (gmap Z PacketWindowFilter).

(** The sockets are there or not; [draws] counts the session ids drawn. *)
Record UdpAssociationContext := {
  peer_addr : SocketAddr;
  bypassed_ipv4_socket : bool;
  bypassed_ipv6_socket : bool;
  proxied_socket : bool;
  keepalive_flag : bool;
  client_session_id : Z;
  client_packet_id : Z;
  server_session : option ServerSessionContext;
  draws : nat;
}.

Section Association.
(** The session ids [generate_client_session_id] gives, in order. *)
Context (generate_client_session_id : nat → Z).
(** The constant [UDP_SOCKET_SUPPORT_DUAL_STACK] of the platform. *)
Context (dual_stack : bool).

Definition create (peer : SocketAddr) : UdpAssociationContext :=
  {| peer_addr := peer; bypassed_ipv4_socket := false; bypassed_ipv6_socket := false; proxied_socket := false;
     keepalive_flag := false; client_session_id := generate_client_session_id 0; client_packet_id := 0;
     server_session := None; draws := 1 |}.

Definition set_bypassed (v4 v6 : bool) (self : UdpAssociationContext) : UdpAssociationContext :=
  {| peer_addr := peer_addr self; bypassed_ipv4_socket := v4; bypassed_ipv6_socket := v6; proxied_socket := proxied_socket self;
     keepalive_flag := keepalive_flag self; client_session_id := client_session_id self;
     client_packet_id := client_packet_id self; server_session := server_session self; draws := draws self |}.
Definition set_proxied (b : bool) (self : UdpAssociationContext) : UdpAssociationContext :=
  {| peer_addr := peer_addr self; bypassed_ipv4_socket := bypassed_ipv4_socket self; bypassed_ipv6_socket := bypassed_ipv6_socket self;
     proxied_socket := b; keepalive_flag := keepalive_flag self; client_session_id := client_session_id self;
     client_packet_id := client_packet_id self; server_session := server_session self; draws := draws self |}.
Definition set_keepalive (b : bool) (self : UdpAssociationContext) : UdpAssociationContext :=
  {| peer_addr := peer_addr self; bypassed_ipv4_socket := bypassed_ipv4_socket self; bypassed_ipv6_socket := bypassed_ipv6_socket self;
     proxied_socket := proxied_socket self; keepalive_flag := b; client_session_id := client_session_id self;
     client_packet_id := client_packet_id self; server_session := server_session self; draws := draws self |}.
Definition set_ids (sid pid : Z) (n : nat) (self : UdpAssociationContext) : UdpAssociationContext :=
  {| peer_addr := peer_addr self; bypassed_ipv4_socket := bypassed_ipv4_socket self; bypassed_ipv6_socket := bypassed_ipv6_socket self;
     proxied_socket := proxied_socket self; keepalive_flag := keepalive_flag self; client_session_id := sid;
     client_packet_id := pid; server_session := server_session self; draws := n |}.
Definition set_server_session (s : ServerSessionContext) (self : UdpAssociationContext) : UdpAssociationContext :=
  {| peer_addr := peer_addr self; bypassed_ipv4_socket := bypassed_ipv4_socket self; bypassed_ipv6_socket := bypassed_ipv6_socket self;
     proxied_socket := proxied_socket self; keepalive_flag := keepalive_flag self; client_session_id := client_session_id self;
     client_packet_id := client_packet_id self; server_session := Some s; draws := draws self |}.

(** What an association does. *)
Inductive effect :=
| ToTarget (target : SocketAddr) (data : bytes)
| ToServer (addr : Address) (control : UdpSocketControlData) (data : bytes)
| ToLocal (peer : SocketAddr) (addr : Address) (data : bytes)
| KeepAlive (peer : SocketAddr).

(** What the surroundings answer during a call. *)
Record surroundings := {
  balancer_is_empty : bool;
  check_target_bypassed : Address → bool;
  ipv6_first : bool;
  dns_resolve : bytes → Z → outcome io_error (list SocketAddr);
  connect_any : bool → outcome io_error unit;
  socket_send_to : SocketAddr → bytes → outcome io_error nat;
  create_proxied_socket : outcome io_error unit;
  proxied_send : Address → UdpSocketControlData → bytes → outcome io_error unit;
}.

(** ** From the client, straight to the target *)
Definition bypassed_socket (env : surroundings) (target : SocketAddr) (self : UdpAssociationContext) : outcome io_error UdpAssociationContext :=
  if dual_stack || negb (is_v4 target) then
    if bypassed_ipv6_socket self then Ok self
    else (_ ← connect_any env true; Ok (set_bypassed (bypassed_ipv4_socket self) true self))
  else
    if bypassed_ipv4_socket self then Ok self
    else (_ ← connect_any env false; Ok (set_bypassed true (bypassed_ipv6_socket self) self)).

Definition bypassed_target (target : SocketAddr) : SocketAddr :=
  match target with
  | V4 ip port => if dual_stack then V6 (to_ipv6_mapped ip) port 0 0 else target
  | V6 _ _ _ _ => target
  end.

Definition send_received_bypassed_packet (env : surroundings) (data : bytes) (target : SocketAddr)
    (st : UdpAssociationContext * list effect) : outcome io_error unit * (UdpAssociationContext * list effect) :=
  let '(self, effects) := st in
  match bypassed_socket env target self with
  | Ok self =>
      let target := bypassed_target target in
      ((λ _, tt) <$> socket_send_to env target data, (self, effects ++ [ToTarget target data]))
  | Err e => (Err e, (self, effects))
  | Panic m => (Panic m, (self, effects))
  end.

Definition dispatch_received_bypassed_packet (env : surroundings) (target_addr : Address) (data : bytes)
    (self : UdpAssociationContext) : outcome io_error unit * (UdpAssociationContext * list effect) :=
  match target_addr with
  | SocketAddress sa => send_received_bypassed_packet env data sa (self, [])
  | DomainNameAddress dname port =>
      lookup_then (send_received_bypassed_packet env data) (ipv6_first env) (dns_resolve env dname port) (self, [])
  end.

(** ** From the client, through the remote server *)

(** The next packet id; when there is none the session is renewed. *)
Definition next_packet_id (self : UdpAssociationContext) : UdpAssociationContext :=
  if client_packet_id self + 1 <? u64_max
  then set_ids (client_session_id self) (client_packet_id self + 1) (draws self) self
  else set_ids (generate_client_session_id (draws self)) 1 (S (draws self)) (set_proxied false self).

Definition client_control (self : UdpAssociationContext) : UdpSocketControlData :=
  {| UdpAead2022.client_session_id := client_session_id self; server_session_id := 0;
     packet_id := client_packet_id self; user := None |}.

Definition dispatch_received_proxied_packet (env : surroundings) (target_addr : Address) (data : bytes)
    (self : UdpAssociationContext) : outcome io_error unit * (UdpAssociationContext * list effect) :=
  let self := next_packet_id self in
  let socket := if proxied_socket self then Ok tt else create_proxied_socket env in
  match socket with
  | Err e => (Err e, (self, []))
  | Panic m => (Panic m, (self, []))
  | Ok _ =>
      let self := set_proxied true self in
      let control := client_control self in
      let sent := [ToServer target_addr control data] in
      match proxied_send env target_addr control data with
      | Ok _ => (Ok tt, (self, sent))
      | Err _ => (Ok tt, (set_proxied false self, sent))
      | Panic m => (Panic m, (self, sent))
      end
  end.

Definition dispatch_received_packet (env : surroundings) (target_addr : Address) (data : bytes)
    (self : UdpAssociationContext) : outcome io_error unit * (UdpAssociationContext * list effect) :=
  let bypassed := balancer_is_empty env || check_target_bypassed env target_addr in
  if bypassed then dispatch_received_bypassed_packet env target_addr data self
  else dispatch_received_proxied_packet env target_addr data self.

(** ** Answers *)
Definition send_received_respond_packet (addr : Address) (data : bytes) (self : UdpAssociationContext) : UdpAssociationContext * list effect :=
  let self := set_keepalive true self in
  (self, [ToLocal (peer_addr self) addr data]).

(** The check of an answer's packet id in the window of its session; [expired] are
    the sessions that the cache has dropped since the last access. *)
Definition check_window (expired : list Z) (control : UdpSocketControlData) (self : UdpAssociationContext) : bool * UdpAssociationContext :=
  let map := foldr delete (default ∅ (server_session self)) expired in
  let filter := default PacketWindowFilter_new (map !! server_session_id control) in
  let '(ok, filter) := validate_packet_id filter (packet_id control) (u64_max - 1) in
  (ok, set_server_session (<[server_session_id control := filter]> map) self).

Definition received_proxied (expired : list Z) (addr : Address) (data : bytes) (control : option UdpSocketControlData)
    (self : UdpAssociationContext) : bool * (UdpAssociationContext * list effect) :=
  let '(ok, self) := match control with Some c => check_window expired c self | None => (true, self) end in
  if ok then (true, send_received_respond_packet addr data self) else (false, (self, [])).

(** ** The loop of an association: one turn per event *)
Inductive event :=
| FromClient (env : surroundings) (target : Address) (data : bytes)
| FromTarget (addr : SocketAddr) (data : bytes)
| FromServer (expired : list Z) (addr : Address) (data : bytes) (control : option UdpSocketControlData)
| BypassedFailed (v6 : bool)
| ProxiedFailed
| Tick (accepted : bool).

(** A turn answers whether the task goes on. *)
Definition assoc_step (e : event) (self : UdpAssociationContext) : bool * (UdpAssociationContext * list effect) :=
  match e with
  | FromClient env target data =>
      match dispatch_received_packet env target data self with
      | (Panic _, st) => (false, st)
      | (_, st) => (true, st)
      end
  | FromTarget addr data => (true, send_received_respond_packet (SocketAddress addr) data self)
  | FromServer expired addr data control => (true, snd (received_proxied expired addr data control self))
  | BypassedFailed true => (true, (set_bypassed (bypassed_ipv4_socket self) false self, []))
  | BypassedFailed false => (true, (set_bypassed false (bypassed_ipv6_socket self) self, []))
  | ProxiedFailed => (true, (set_proxied false self, []))
  | Tick accepted =>
      (true, if keepalive_flag self && accepted then (set_keepalive false self, [KeepAlive (peer_addr self)]) else (self, []))
  end.

(** The effects of each event, in order. *)
Fixpoint assoc_run (es : list event) (self : UdpAssociationContext) : list (event * list effect) * UdpAssociationContext :=
  match es with
  | [] => ([], self)
  | e :: es =>
      let '(goes_on, (self, eff)) := assoc_step e self in
      if goes_on then let '(tr, self) := assoc_run es self in ((e, eff) :: tr, self)
      else ([(e, eff)], self)
  end.
End Association.
End LocalUdp.

(** ** The ids of the client *)
Section ClientIds.
Import LocalUdp.
Context (gen : nat → Z) (dual : bool).
















End ClientIds.

(** ** Answers of the remote server *)
Section Answers.
Import LocalUdp.
Context (gen : nat → Z) (dual : bool) (sid : Z).

(** The checks that a sequence of events makes in the session [sid] of the server. *)
Definition session_op (e : event) : option window_op :=
  match e with
  | FromServer _ _ _ (Some c) =>
      if bool_decide (server_session_id c = sid) then Some (Validate (packet_id c) (u64_max - 1)) else None
  | _ => None
  end.
Definition session_ops (es : list event) : list window_op := omap session_op es.

(** Whether each of these answers was delivered. *)
Definition session_verdicts (tr : list (event * list effect)) : list (option bool) :=
  omap (λ x, (λ _, Some (negb (bool_decide (length x.2 = 0%nat)))) <$> session_op x.1) tr.

(** The packet ids are [u64] and the cache keeps the session. *)
Definition kept (e : event) : bool :=
  match e with
  | FromServer expired _ _ control =>
      bool_decide (sid ∉ expired) && match control with Some c => (0 <=? packet_id c) && (packet_id c <? u64_max) | None => true end
  | _ => true
  end.

Definition window_of (self : UdpAssociationContext) : PacketWindowFilter :=
  default PacketWindowFilter_new (default ∅ (server_session self) !! sid).

Lemma expired_lookup {A} (m : gmap Z A) expired : sid ∉ expired → foldr delete m expired !! sid = m !! sid.
Proof.
  induction expired as [|x l IH]; [done|]. intros Hin. simpl. apply not_elem_of_cons in Hin as [Hne Hin].
  rewrite lookup_delete_ne by congruence. by apply IH.
Qed.

Lemma bypassed_keeps_windows env target data self :
  server_session (snd (dispatch_received_bypassed_packet dual env target data self)).1 = server_session self.
Proof.
  set (P := λ st : UdpAssociationContext * list effect, server_session st.1 = server_session self).
  assert (∀ a st, P st → P (snd (send_received_bypassed_packet dual env data a st))) as Hb.
  { intros a [b eff] Hs. unfold send_received_bypassed_packet, bypassed_socket, P in *. simpl in Hs.
    repeat case_match; simplify_eq/=; try done;
      repeat match goal with H : _ ≫= _ = Ok _ |- _ => destruct (connect_any env _); simplify_eq/= end; done. }
  unfold dispatch_received_bypassed_packet. destruct target as [sa|dname port]; [by apply (Hb sa (self, []))|].
  by apply (lookup_then_inv P).
Qed.

(** An answer is checked in the window of its session, and every other event
    leaves that window alone. *)
Lemma answer_step e s self :
  simulates (window_of self) s → kept e = true →
  let '(_, (self', eff)) := assoc_step gen dual e self in
  match session_op e with
  | Some o => Some (negb (bool_decide (length eff = 0%nat))) = (spec_step s o).1 ∧ simulates (window_of self') (spec_step s o).2
  | None => simulates (window_of self') s
  end.
Proof.
  intros Hsim Hk. destruct e as [env target data|addr data|expired addr data control|[]| |accepted]; cbn [assoc_step session_op]; try done.
  - unfold dispatch_received_packet. destruct (_ || _).
    + pose proof (bypassed_keeps_windows env target data self) as Hw.
      destruct (dispatch_received_bypassed_packet _ _ _ _ _) as [[r|x|m] [self' eff]]; simpl in Hw; unfold window_of in *; by rewrite Hw.
    + unfold dispatch_received_proxied_packet.
      assert (simulates (window_of (next_packet_id gen self)) s) as Hn.
      { unfold next_packet_id. by destruct (_ <? _). }
      destruct (if proxied_socket (next_packet_id gen self) then Ok tt else create_proxied_socket env) as [[]|x|m]; try exact Hn.
      destruct (proxied_send env target _ data) as [[]|x|m]; exact Hn.
  - apply andb_true_iff in Hk as [Hexp%bool_decide_eq_true Hc]. unfold received_proxied.
    destruct control as [c|]; [|done]. apply andb_true_iff in Hc as [H1%Z.leb_le H2%Z.ltb_lt].
    unfold check_window. case_bool_decide as Hs.
    + rewrite Hs, expired_lookup by done. fold (window_of self).
      pose proof (step_simulates _ s (Validate (packet_id c) (u64_max - 1)) Hsim ltac:(by split; [|vm_compute])) as [Hr Hw].
      unfold window_step in Hr, Hw. unfold window_of in Hr, Hw.
      destruct (validate_packet_id _ _ _) as [ok w]. simpl in Hr, Hw.
      destruct ok; simpl; (split; [done|]); unfold window_of; simpl; by rewrite lookup_insert_eq.
    + destruct (validate_packet_id _ _ _) as [[] w]; simpl; unfold window_of; simpl;
        rewrite lookup_insert_ne by done; by rewrite expired_lookup.
  - by destruct (keepalive_flag self && accepted).
Qed.
End Answers.

Section AnswerRuns.
Import LocalUdp.
Context (gen : nat → Z) (dual : bool).

Lemma answers_simulate sid es s self :
  simulates (window_of sid self) s → forallb (kept sid) es = true →
  let tr := (assoc_run gen dual es self).1 in
  session_verdicts sid tr = spec_run s (session_ops sid (map fst tr)).
Proof.
  revert s self. induction es as [|e es IH]; intros s self Hsim Hk; [done|]. simpl in Hk |- *.
  apply andb_true_iff in Hk as [He Hes].
  pose proof (answer_step gen dual sid e s self Hsim He) as Hstep.
  destruct (assoc_step gen dual e self) as [[] [self' eff]].
  - destruct (session_op sid e) as [o|] eqn:Ho.
    + destruct Hstep as [Hr Hs]. specialize (IH _ _ Hs Hes). destruct (assoc_run gen dual es self') as [tr self2].
      unfold session_verdicts, session_ops in *. simpl. rewrite Ho. simpl. destruct (spec_step s o). simpl in *. by f_equal.
    + specialize (IH _ _ Hstep Hes). destruct (assoc_run gen dual es self') as [tr self2].
      unfold session_verdicts, session_ops in *. simpl. by rewrite Ho.
  - unfold session_verdicts, session_ops. simpl. destruct (session_op sid e) as [o|] eqn:Ho; [|done].
    destruct Hstep as [Hr _]. simpl. destruct (spec_step s o). simpl in *. by rewrite Hr.
Qed.

Lemma session_ops_validate sid es : forallb is_validate (session_ops sid es) = true.
Proof.
  induction es as [|e es IH]; [done|]. unfold session_ops in *. simpl.
  destruct (session_op sid e) as [o|] eqn:E; [|done]. simpl. apply andb_true_iff. split; [|exact IH].
  destruct e as [| |? ? ? [c|]| | |]; simpl in E; try done. case_bool_decide; by simplify_eq.
Qed.

(** C7. Answers are delivered once: over any sequence of events of an association
    of the local server during which the cache keeps a session of the remote
    server, exactly those answers of the session are given to the client that
    the abstract packet window accepts; in particular no packet id of the session
    is delivered twice, whatever happens in other sessions. *)
Theorem answers_delivered_once sid peer es :
  forallb (kept sid) es = true →
  let tr := (assoc_run gen dual es (create gen peer)).1 in
  session_verdicts sid tr = spec_run spec_new (session_ops sid (map fst tr)) ∧
  NoDup (accepted (session_ops sid (map fst tr)) (session_verdicts sid tr)).
Proof.
  intros Hk. pose proof (answers_simulate sid es spec_new (create gen peer) new_simulates Hk) as Hv. cbv zeta in *.
  split; [done|]. rewrite Hv. apply spec_accepted_fresh, session_ops_validate.
Qed.

(** The client session id of an answer is not looked at: an answer that the
    remote server made for any session of any client with the same key is
    delivered to this client when its server session is not known yet, although
    it names the client session that it belongs to. *)
Theorem foreign_answer_delivered expired addr data c self :
  0 ≤ packet_id c < u64_max - 1 →
  foldr delete (default ∅ (server_session self)) expired !! server_session_id c = None →
  UdpAead2022.client_session_id c ≠ client_session_id self →
  (assoc_step gen dual (FromServer expired addr data (Some c)) self).2.2 = [ToLocal (peer_addr self) addr data].
Proof.
  intros Hid Hnew _. cbn [assoc_step]. unfold received_proxied, check_window. cbn [server_session_id packet_id].
  rewrite Hnew. cbn [default].
  pose proof (step_simulates _ spec_new (Validate (packet_id c) (u64_max - 1)) new_simulates) as Hstep.
  destruct Hstep as [Hr _]; [unfold op_u64, in_u64, u64_max in *; lia|]. unfold window_step, spec_step in Hr.
  assert (spec_in_window spec_new (packet_id c) (u64_max - 1) = true) as Hin.
  { unfold spec_in_window, WINDOW_SIZE. cbn [sp_last spec_new]. apply andb_true_iff. split; [apply Z.ltb_lt; lia|].
    apply orb_true_iff. destruct (decide (packet_id c = 0)) as [->|]; [by right|left; apply Z.ltb_lt; lia]. }
  rewrite Hin in Hr. simpl default. destruct (validate_packet_id _ _ _) as [ok w]. simpl in Hr. injection Hr as ->.
  rewrite bool_decide_false by set_solver. done.
Qed.
End AnswerRuns.

Module AssociationExamples.
Import LocalUdp Init.Byte.

(** Surroundings that bypass port 53 and go through the remote server otherwise. *)
Definition env : surroundings :=
  {| balancer_is_empty := false;
     check_target_bypassed := λ a, match a with SocketAddress (V4 _ 53) => true | _ => false end;
     ipv6_first := false; dns_resolve := λ _ port, Ok [V4 16909060 port];
     connect_any := λ _, Ok tt; socket_send_to := λ _ d, Ok (length d);
     create_proxied_socket := Ok tt; proxied_send := λ _ _ _, Ok tt |}.

Definition gen (n : nat) : Z := 1000 + Z.of_nat n.

Definition peer : SocketAddr := V4 2130706433 4000.
Definition web : Address := SocketAddress (V4 16909060 443).
Definition dns : Address := SocketAddress (V4 16909060 53).
Definition reply (sid id : Z) : option UdpSocketControlData :=
  Some {| UdpAead2022.client_session_id := 5; server_session_id := sid; packet_id := id; user := None |}.

Definition es : list event :=
  [ FromClient env web [x01]; FromClient env dns [x02]; FromClient env web [x03]; ProxiedFailed; FromClient env web [x04];
    FromServer [] web [x05] (reply 7 1); FromServer [] web [x05] (reply 7 1); FromServer [8] web [x06] (reply 9 1);
    FromServer [] web [x07] (reply 7 3); FromTarget (V4 16909060 53) [x08]; Tick true ].

Example association_effects :
  map snd (assoc_run gen true es (create gen peer)).1 =
  [ [ToServer web {| UdpAead2022.client_session_id := 1000; server_session_id := 0; packet_id := 1; user := None |} [x01]];
    [ToTarget (V6 (to_ipv6_mapped 16909060) 53 0 0) [x02]];
    [ToServer web {| UdpAead2022.client_session_id := 1000; server_session_id := 0; packet_id := 2; user := None |} [x03]];
    [];
    [ToServer web {| UdpAead2022.client_session_id := 1000; server_session_id := 0; packet_id := 3; user := None |} [x04]];
    [ToLocal peer web [x05]]; []; [ToLocal peer web [x06]]; [ToLocal peer web [x07]]; [ToLocal peer dns [x08]]; [KeepAlive peer] ].
Proof. vm_compute. reflexivity. Qed.


Lemma answers_delivered_once_witness :
  session_verdicts 7 (assoc_run gen true es (create gen peer)).1 = [Some true; Some false; Some true] ∧
  NoDup (accepted (session_ops 7 es) [Some true; Some false; Some true]).
Proof.
  split; [vm_compute; reflexivity|].
  exact (proj2 (answers_delivered_once gen true 7 peer es ltac:(vm_compute; reflexivity))).
Defined.

Lemma foreign_answer_delivered_witness :
  (assoc_step gen true (FromServer [] web [x05] (reply 7 1)) (create gen peer)).2.2 = [ToLocal peer web [x05]].
Proof.
  apply (foreign_answer_delivered gen true [] web [x05]).
  - split; vm_compute; [discriminate|reflexivity].
  - vm_compute. reflexivity.
  - vm_compute. discriminate.
Defined.
End AssociationExamples.
