(* ===== verification/Socks4.v ===== *)
(** * SOCKS4 and SOCKS4a messages (crates/shadowsocks-service/src/local/socks/socks4.rs)

    The handshake request and response.  Shown: every request is read back as it
    was written, except that a target 0.0.0.x is read as the mark of a host name;
    every response is read back; and what the reader accepts is exactly the wire
    format. *)
From S2P Require Import Prelude.
From S2P Require Import Utf8.
From S2P Require Socks5.

Module Socks4.
Definition SOCKS4_VERSION : Z := 4.
Definition SOCKS4_COMMAND_CONNECT : Z := 1.
Definition SOCKS4_COMMAND_BIND : Z := 2.
Definition SOCKS4_RESULT_REQUEST_GRANTED : Z := 90.
Definition SOCKS4_RESULT_REQUEST_REJECTED_OR_FAILED : Z := 91.
Definition SOCKS4_RESULT_REQUEST_REJECTED_CANNOT_CONNECT : Z := 92.
Definition SOCKS4_RESULT_REQUEST_REJECTED_DIFFERENT_USER_ID : Z := 93.

Inductive Command := Connect | Bind.

Definition Command_as_u8 (self : Command) : Z :=
  match self with Connect => SOCKS4_COMMAND_CONNECT | Bind => SOCKS4_COMMAND_BIND end.

Definition Command_from_u8 (code : Z) : option Command :=
  if code =? SOCKS4_COMMAND_CONNECT then Some Connect
  else if code =? SOCKS4_COMMAND_BIND then Some Bind
  else None.

Inductive ResultCode :=
| RequestGranted
| RequestRejectedOrFailed
| RequestRejectedCannotConnect
| RequestRejectedDifferentUserId
| Other (c : Z).

Definition ResultCode_as_u8 (self : ResultCode) : Z :=
  match self with
  | RequestGranted => SOCKS4_RESULT_REQUEST_GRANTED
  | RequestRejectedOrFailed => SOCKS4_RESULT_REQUEST_REJECTED_OR_FAILED
  | RequestRejectedCannotConnect => SOCKS4_RESULT_REQUEST_REJECTED_CANNOT_CONNECT
  | RequestRejectedDifferentUserId => SOCKS4_RESULT_REQUEST_REJECTED_DIFFERENT_USER_ID
  | Other c => c
  end.

Definition ResultCode_from_u8 (code : Z) : ResultCode :=
  if code =? SOCKS4_RESULT_REQUEST_GRANTED then RequestGranted
  else if code =? SOCKS4_RESULT_REQUEST_REJECTED_OR_FAILED then RequestRejectedOrFailed
  else if code =? SOCKS4_RESULT_REQUEST_REJECTED_CANNOT_CONNECT then RequestRejectedCannotConnect
  else if code =? SOCKS4_RESULT_REQUEST_REJECTED_DIFFERENT_USER_ID then RequestRejectedDifferentUserId
  else Other code.

Inductive Address := SocketAddress (ip port : Z) | DomainNameAddress (host : bytes) (port : Z).

(** [From<Address> for socks5::Address]. *)
Definition to_socks5 (addr : Address) : Socks5.Address :=
  match addr with
  | SocketAddress ip port => Socks5.SocketAddress (Socks5.V4 ip port)
  | DomainNameAddress d p => Socks5.DomainNameAddress d p
  end.

Inductive Error :=
| IoError (e : io_error)
| AddressHostInvalidEncoding
| UnsupportedSocksVersion (v : Z)
| UnsupportedCommand (c : Z)
| Result_ (c : ResultCode).

Definition io_Error_from (err : Error) : io_error :=
  match err with IoError e => e | _ => OtherKind "socks4" end.

Record HandshakeRequest := { cd : Command; dst : Address; user_id : bytes }.
Record HandshakeResponse := { result : ResultCode }.

Definition NUL : byte := b# 0.

(** What is before the first byte [d], and what is after it. *)
Fixpoint split_once (d : byte) (l : bytes) : option (bytes * bytes) :=
  match l with
  | [] => None
  | b :: l => if bool_decide (b = d) then Some ([], l) else (λ '(pre, post), (b :: pre, post)) <$> split_once d l
  end.

(** [AsyncBufReadExt::read_until]: the bytes up to [d] and [d] itself, or all that
    there is when the stream ends before. *)
Definition read_until (d : byte) : parser reader io_error bytes := λ r,
  match split_once d (rd_data r) with
  | Some (pre, post) => Ok (pre ++ [d], Reader post (rd_end r))
  | None => match rd_end r with None => Ok (rd_data r, Reader [] None) | Some e => Err e end
  end.

(** The text before the next NUL byte: [read_until], the test and [pop]. *)
Definition read_text : parser reader Error bytes :=
  text ← parse_err IoError (read_until NUL);
  if bool_decide (list.last text = Some NUL) then mret (take (length text - 1) text)
  else fail (IoError UnexpectedEof).

Definition HandshakeRequest_read_from : parser reader Error HandshakeRequest :=
  buf ← parse_err IoError (read_exact 8);
  let vn := u8_at buf 0 in
  if negb (vn =? SOCKS4_VERSION) then fail (UnsupportedSocksVersion vn) else
  let cd := u8_at buf 1 in
  match Command_from_u8 cd with
  | None => fail (UnsupportedSocksVersion cd)
  | Some command =>
      let port := be_Z (take 2 (drop 2 buf)) in
      user_id ← read_text;
      dst ← (if (u8_at buf 4 =? 0) && (u8_at buf 5 =? 0) && (u8_at buf 6 =? 0) && negb (u8_at buf 7 =? 0) then
               host ← read_text;
               match from_utf8 host with
               | Some host => mret (DomainNameAddress host port)
               | None => fail AddressHostInvalidEncoding
               end
             else mret (SocketAddress (Socks5.Ipv4Addr_new (drop 4 buf)) port));
      mret {| cd := command; dst := dst; user_id := user_id |}
  end.

Definition PLACEHOLDER : bytes := [b# 0; b# 0; b# 0; b# 255].

Definition HandshakeRequest_write_to_buf (self : HandshakeRequest) (buf : bytes) : bytes :=
  let buf := buf ++ [b# SOCKS4_VERSION] ++ [b# (Command_as_u8 (cd self))] in
  match dst self with
  | SocketAddress ip port =>
      buf ++ be_bytes 2 port ++ Socks5.Ipv4Addr_octets ip ++ user_id self ++ [NUL]
  | DomainNameAddress dname port =>
      buf ++ be_bytes 2 port ++ PLACEHOLDER ++ user_id self ++ [NUL] ++ dname ++ [NUL]
  end.

Definition HandshakeRequest_serialized_len (self : HandshakeRequest) : nat :=
  let s := (1 + 1 + 2 + 4 + length (user_id self) + 1)%nat in
  match dst self with DomainNameAddress dname _ => (s + (length dname + 1))%nat | SocketAddress _ _ => s end.

Definition HandshakeResponse_read_from : parser reader Error HandshakeResponse :=
  buf ← parse_err IoError (read_exact 8);
  let vn := u8_at buf 0 in
  if negb (vn =? 0) then fail (UnsupportedSocksVersion vn) else
  mret {| result := ResultCode_from_u8 (u8_at buf 1) |}.

Definition HandshakeResponse_write_to_buf (self : HandshakeResponse) (buf : bytes) : bytes :=
  buf ++ [b# 0; b# (ResultCode_as_u8 (result self)); b# 0; b# 0; b# 0; b# 0; b# 0; b# 0].

Definition HandshakeResponse_serialized_len (self : HandshakeResponse) : nat := (1 + 1 + 2 + 4)%nat.
End Socks4.

(** ** The wire format *)
Import Socks4.

Section Wire.

(** The bytes of a request; [mark] is the last byte of the address 0.0.0.x that
    announces a host name. *)
Definition request_wire (mark : byte) (req : HandshakeRequest) : bytes :=
  [b# 4] ++ [b# (Command_as_u8 (cd req))] ++
  match dst req with
  | SocketAddress ip port => be_bytes 2 port ++ be_bytes 4 ip ++ user_id req ++ [NUL]
  | DomainNameAddress host port => be_bytes 2 port ++ [NUL; NUL; NUL; mark] ++ user_id req ++ [NUL] ++ host ++ [NUL]
  end.

(** The requests that the format can carry. *)
Definition request_ok (req : HandshakeRequest) : Prop :=
  NUL ∉ user_id req ∧
  match dst req with
  | SocketAddress ip port => 0 ≤ port < 2 ^ 16 ∧ 0 ≤ ip < 2 ^ 32 ∧ ¬ (0 < ip < 256)
  | DomainNameAddress host port => 0 ≤ port < 2 ^ 16 ∧ NUL ∉ host ∧ utf8_valid host = true
  end.

Definition code_ok (c : ResultCode) : Prop := match c with Other z => 0 ≤ z < 256 ∧ ¬ (90 ≤ z ≤ 93) | _ => True end.

Lemma split_once_app d l post : d ∉ l → split_once d (l ++ d :: post) = Some (l, post).
Proof.
  induction l as [|b l IH]; intros Hd; simpl; [by rewrite bool_decide_true|].
  apply not_elem_of_cons in Hd as [Hne Hd]. rewrite bool_decide_false by congruence. by rewrite IH.
Qed.

Lemma split_once_Some d l pre post : split_once d l = Some (pre, post) → l = pre ++ d :: post ∧ d ∉ pre.
Proof.
  revert pre post. induction l as [|b l IH]; intros pre post; simpl; [done|]. case_bool_decide as Hb.
  - intros [= <- <-]. subst. split; [done|set_solver].
  - destruct (split_once d l) as [[p q]|]; [|done]. intros [= <- <-].
    destruct (IH p q eq_refl) as [-> Hp]. split; [done|]. set_solver.
Qed.

Lemma split_once_None d l : split_once d l = None → d ∉ l.
Proof.
  induction l as [|b l IH]; simpl; intros H; [set_solver|]. case_bool_decide; [done|].
  destruct (split_once d l) as [[p q]|]; [done|]. specialize (IH eq_refl). set_solver.
Qed.

Lemma read_text_app l post e : NUL ∉ l → read_text (Reader (l ++ NUL :: post) e) = Ok (l, Reader post e).
Proof.
  intros Hl. unfold read_text, read_until, mbind, parser_bind, parse_err. simpl. rewrite split_once_app by done.
  simpl. rewrite list.last_snoc, bool_decide_true by done. unfold mret, parser_ret.
  rewrite length_app, take_app_length' by (simpl; lia). done.
Qed.

Lemma read_text_Ok r t r' :
  read_text r = Ok (t, r') → NUL ∉ t ∧ rd_data r = t ++ NUL :: rd_data r' ∧ rd_end r' = rd_end r.
Proof.
  unfold read_text, read_until, mbind, parser_bind, parse_err.
  destruct (split_once NUL (rd_data r)) as [[pre post]|] eqn:E; simpl.
  - apply split_once_Some in E as [E Hp]. rewrite list.last_snoc, bool_decide_true by done. unfold mret, parser_ret.
    rewrite length_app, take_app_length' by (simpl; lia). by intros [= <- <-].
  - apply split_once_None in E. destruct (rd_end r); [done|]. simpl. case_bool_decide as Hl; [|done].
    exfalso. apply E. by apply list.last_Some_elem_of.
Qed.
End Wire.

(** ** Reading requests *)
Section Requests.

Lemma le_combine_cons b l : le_combine (b :: l) = byte.unsigned b + 256 * le_combine l.
Proof.
  pose proof (byte_unsigned_range b) as Hb. change (le_combine (b :: l)) with (Z.lor (byte.unsigned b) (Z.shiftl (le_combine l) 8)).
  rewrite Z.shiftl_mul_pow2 by lia.
  rewrite <- Z.lxor_lor, <- Z.add_nocarry_lxor; [lia|..]; apply Z.bits_inj'; intros n Hn; rewrite Z.land_spec, Z.bits_0;
    (destruct (Z.ltb_spec n 8);
     [rewrite (Z.mul_pow2_bits_low (le_combine l) 8) by done; apply andb_false_r
     |rewrite <- (Z.mod_small (byte.unsigned b) (2 ^ 8)) by lia; by rewrite Z.mod_pow2_bits_high by lia]).
Qed.

(** Four octets are 0.0.0.x with x not 0. *)
Definition host_mark (o : bytes) : bool :=
  (u8_at o 0 =? 0) && (u8_at o 1 =? 0) && (u8_at o 2 =? 0) && negb (u8_at o 3 =? 0).

Lemma host_mark_spec o : length o = 4%nat → host_mark o = true ↔ 0 < be_Z o < 256.
Proof.
  destruct o as [|a [|b [|c [|d [|]]]]]; try done. intros _. unfold host_mark, u8_at, be_Z. cbn [nth].
  change (reverse [a; b; c; d]) with [d; c; b; a]. rewrite !le_combine_cons, le_combine_nil.
  pose proof (byte_unsigned_range a). pose proof (byte_unsigned_range b). pose proof (byte_unsigned_range c).
  pose proof (byte_unsigned_range d). rewrite !andb_true_iff, negb_true_iff, !Z.eqb_eq, Z.eqb_neq. lia.
Qed.

(** The fixed part of a request. *)
Definition request_head (cmd : Command) (port o : bytes) : bytes := [b# 4; b# (Command_as_u8 cmd)] ++ port ++ o.

Lemma read_request_head cmd port o rest e :
  length port = 2%nat → length o = 4%nat →
  HandshakeRequest_read_from (Reader (request_head cmd port o ++ rest) e) =
  (user ← read_text;
   dst ← (if host_mark o then
            host ← read_text;
            match from_utf8 host with
            | Some host => mret (DomainNameAddress host (be_Z port))
            | None => fail AddressHostInvalidEncoding
            end
          else mret (SocketAddress (be_Z o) (be_Z port)));
   mret {| cd := cmd; dst := dst; user_id := user |}) (Reader rest e).
Proof.
  intros Hp Ho. unfold HandshakeRequest_read_from. unfold mbind at 1, parser_bind at 1, parse_err at 1.
  rewrite read_exact_app by (unfold request_head; rewrite !length_app, Hp, Ho; done).
  destruct port as [|p1 [|p2 [|? ?]]]; try done. destruct o as [|o1 [|o2 [|o3 [|o4 [|? ?]]]]]; try done. cbn [map_err]. unfold host_mark, u8_at, request_head. cbn [app nth drop take].
  rewrite !unsigned_of_Z_small by (done || by destruct cmd). by destruct cmd.
Qed.

Lemma request_wire_head mark req :
  request_wire mark req =
  match dst req with
  | SocketAddress ip port => request_head (cd req) (be_bytes 2 port) (be_bytes 4 ip) ++ user_id req ++ [NUL]
  | DomainNameAddress host port =>
      request_head (cd req) (be_bytes 2 port) [NUL; NUL; NUL; mark] ++ user_id req ++ [NUL] ++ host ++ [NUL]
  end.
Proof. unfold request_wire, request_head. destruct (dst req); by rewrite <- !app_assoc. Qed.

Lemma read_request_wire mark req rest e :
  mark ≠ NUL → request_ok req →
  HandshakeRequest_read_from (Reader (request_wire mark req ++ rest) e) = Ok (req, Reader rest e).
Proof.
  intros Hm [Hu Hd]. rewrite request_wire_head. destruct req as [cmd [ip port|host port] u]; cbn [dst cd user_id] in *;
    rewrite <- app_assoc.
  - destruct Hd as (Hport & Hip & Hx).
    rewrite read_request_head by apply length_be_bytes. rewrite <- app_assoc. unfold mbind, parser_bind.
    change ([NUL] ++ rest) with (NUL :: rest). rewrite read_text_app by done.
    assert (host_mark (be_bytes 4 ip) = false) as ->.
    { apply not_true_iff_false. intros H%host_mark_spec; [|apply length_be_bytes]. rewrite be_Z_be_bytes_small in H by done. done. }
    unfold mret, parser_ret. by rewrite !be_Z_be_bytes_small by done.
  - destruct Hd as (Hport & Hh & Hutf).
    rewrite read_request_head by (apply length_be_bytes || done). rewrite <- !app_assoc. unfold mbind, parser_bind.
    change ([NUL] ++ host ++ [NUL] ++ rest) with (NUL :: host ++ NUL :: rest). rewrite read_text_app by done.
    assert (host_mark [NUL; NUL; NUL; mark] = true) as ->.
    { unfold host_mark, u8_at. cbn [nth]. change (byte.unsigned NUL) with 0. simpl. apply negb_true_iff, Z.eqb_neq. intros E.
      apply Hm. by apply Socks5.of_Z_u8. }
    rewrite read_text_app by done. rewrite from_utf8_valid by done. unfold mret, parser_ret.
    by rewrite be_Z_be_bytes_small by done.
Qed.
End Requests.

Section Soundness.

Lemma Command_from_u8_Some z c : Command_from_u8 z = Some c → z = Command_as_u8 c.
Proof. unfold Command_from_u8. repeat case_match; intros; simplify_eq; by apply Z.eqb_eq. Qed.

(** What is read starts with the fixed part of a request. *)
Lemma request_head_read r req r' :
  HandshakeRequest_read_from r = Ok (req, r') →
  ∃ cmd port o rest, length port = 2%nat ∧ length o = 4%nat ∧ r = Reader (request_head cmd port o ++ rest) (rd_end r).
Proof.
  intros H. unfold HandshakeRequest_read_from in H. unfold mbind at 1, parser_bind at 1, parse_err at 1 in H.
  destruct (read_exact 8 r) as [[buf r1]|e|m] eqn:E; [|done|done]. apply read_exact_Ok in E as (Hl & Hd & He). cbn [map_err] in H.
  destruct (u8_at buf 0 =? SOCKS4_VERSION) eqn:Ev; cbn [negb] in H; [|done]. apply Z.eqb_eq in Ev.
  destruct (Command_from_u8 (u8_at buf 1)) as [cmd|] eqn:Ec; [|done]. apply Command_from_u8_Some in Ec.
  do 8 (destruct buf as [|? buf]; [done|]). destruct buf; [|done]. unfold u8_at in Ev, Ec. cbn [nth] in Ev, Ec.
  apply Socks5.of_Z_u8 in Ev, Ec. subst. eexists cmd, [_; _], [_; _; _; _], (rd_data r1). split; [done|]. split; [done|].
  destruct r as [data e]. simpl in *. by rewrite Hd.
Qed.

Lemma read_request_Ok r req r' :
  HandshakeRequest_read_from r = Ok (req, r') →
  request_ok req ∧ rd_end r' = rd_end r ∧ ∃ mark, mark ≠ NUL ∧ rd_data r = request_wire mark req ++ rd_data r'.
Proof.
  intros H. destruct (request_head_read _ _ _ H) as (cmd & port & o & rest & Hp & Ho & Hr). destruct r as [data e].
  assert (data = request_head cmd port o ++ rest) as -> by exact (f_equal rd_data Hr). clear Hr. rewrite read_request_head in H by done. unfold mbind, parser_bind in H.
  destruct (read_text (Reader rest e)) as [[u r1]|x|m] eqn:Eu; [|done|done].
  apply read_text_Ok in Eu as (Hu & Hrest & He1). simpl in Hrest, He1.
  pose proof (be_Z_range port) as Hport. rewrite Hp in Hport. pose proof (be_Z_range o) as Hip. rewrite Ho in Hip.
  destruct (host_mark o) eqn:Em.
  - destruct (read_text r1) as [[h r2]|x|m] eqn:Eh; [|done|done]. apply read_text_Ok in Eh as (Hh & Hr1 & He2).
    destruct (from_utf8 h) as [h'|] eqn:Ef; [|done]. apply from_utf8_Some in Ef as [-> Hutf].
    unfold mret, parser_ret in H. injection H as <- <-. split; [split; [exact Hu|]; split; [exact Hport|by split]|]. split; [simpl; congruence|].
    destruct o as [|o1 [|o2 [|o3 [|o4 [|? ?]]]]]; try done. exists o4.
    unfold host_mark, u8_at in Em. cbn [nth] in Em. rewrite !andb_true_iff, negb_true_iff, !Z.eqb_eq, Z.eqb_neq in Em.
    destruct Em as [[[E1 E2] E3] E4]. split; [by intros ->|].
    apply Socks5.of_Z_u8 in E1, E2, E3. subst o1 o2 o3. simpl rd_data.
    rewrite request_wire_head. cbn [dst cd user_id]. rewrite be_bytes_be_Z by done. rewrite Hrest, Hr1.
    unfold request_head. by rewrite <- !app_assoc.
  - unfold mret, parser_ret in H. injection H as <- <-. split.
    { split; [done|]. simpl. split; [done|]. split; [done|]. rewrite <- host_mark_spec by done. by rewrite Em. }
    split; [done|]. exists (b# 1). split; [done|]. simpl rd_data.
    rewrite request_wire_head. cbn [dst cd user_id]. rewrite !be_bytes_be_Z by done. rewrite Hrest.
    unfold request_head. by rewrite <- !app_assoc.
Qed.

Lemma response_roundtrip c rest e :
  code_ok c →
  HandshakeResponse_read_from (Reader (HandshakeResponse_write_to_buf {| result := c |} [] ++ rest) e) = Ok ({| result := c |}, Reader rest e).
Proof.
  intros Hc. unfold HandshakeResponse_read_from, mbind, parser_bind, parse_err. rewrite read_exact_app by done. simpl.
  unfold u8_at. cbn [nth]. unfold mret, parser_ret. do 3 f_equal.
  destruct c as [| | | |z]; try done. simpl in Hc |- *. rewrite unsigned_of_Z_small by lia. unfold ResultCode_from_u8.
  repeat case_match; try done; rewrite ?Z.eqb_eq in *; unfold SOCKS4_RESULT_REQUEST_GRANTED,
    SOCKS4_RESULT_REQUEST_REJECTED_OR_FAILED, SOCKS4_RESULT_REQUEST_REJECTED_CANNOT_CONNECT, SOCKS4_RESULT_REQUEST_REJECTED_DIFFERENT_USER_ID in *; lia.
Qed.

(** The SOCKS4 messages: what the reader takes for a request is exactly the wire
    format of that request, and leaves the rest of the stream; every request that
    the format can carry is written so that it is read back, in as many bytes as
    announced, after what the buffer holds; and every response code is read back.
    A target address 0.0.0.x is not among the requests: it is read as the mark of
    a host name. *)
Theorem socks4_messages_roundtrip :
  (∀ r req r', HandshakeRequest_read_from r = Ok (req, r') ↔
     request_ok req ∧ rd_end r' = rd_end r ∧ ∃ mark, mark ≠ NUL ∧ rd_data r = request_wire mark req ++ rd_data r') ∧
  (∀ req buf, ∃ mark, mark ≠ NUL ∧ HandshakeRequest_write_to_buf req buf = buf ++ request_wire mark req ∧
     length (request_wire mark req) = HandshakeRequest_serialized_len req) ∧
  (∀ c rest e, code_ok c →
     HandshakeResponse_read_from (Reader (HandshakeResponse_write_to_buf {| result := c |} [] ++ rest) e) = Ok ({| result := c |}, Reader rest e)).
Proof.
  split_and!.
  - intros r req r'. split; [apply read_request_Ok|]. intros (Hok & He & mark & Hm & Hd).
    destruct r as [d e], r' as [d' e']. simpl in *. subst. by apply read_request_wire.
  - intros req buf. exists (b# 255). split; [done|]. unfold HandshakeRequest_write_to_buf, HandshakeRequest_serialized_len, request_wire.
    destruct (dst req); rewrite <- !app_assoc; (split; [done|]);
      rewrite !length_app, !length_be_bytes; simpl; rewrite ?length_app; simpl; lia.
  - apply response_roundtrip.
Qed.

(** An unknown command is reported as an unsupported version, although there is an
    error for it. *)
Example unknown_command_error :
  HandshakeRequest_read_from (Reader (b# 4 :: b# 7 :: replicate 7 (b# 0)) None) = Err (UnsupportedSocksVersion 7).
Proof. vm_compute. reflexivity. Qed.
End Soundness.
