(* ===== verification/AutoProxy.v ===== *)
(** * Connections of the local server (crates/shadowsocks-service/src/local/net/tcp/auto_proxy_stream.rs, local/utils.rs)

    A connection to a target goes either straight to it or through a server, over
    TCP, an outbound proxy chain or a realm carrier ([local/context.rs] decides,
    [loadbalancing/server_data.rs] keeps the carrier).  What the network answers is
    a [Network].  Shown: a target is connected to directly exactly when the access
    control list bypasses it, everything else only ever reaches the server, an
    address out of the fake DNS is replaced by its name first, every failure of a
    server is counted against it, and a tunnel starts with exactly what the client
    sent. *)
From S2P Require Import Prelude.
From S2P Require Import External.
From S2P Require Import StdNet.
From S2P Require Import Socks5.
From S2P Require Import SubDomainsTree.
From S2P Require Import Acl.
From S2P Require DnsServer.
From S2P Require Import FakeDns.
From S2P Require Import ServerConf.
From S2P Require Import ServerStat.
From S2P Require Import PingBalancer.

#[local] Existing Instance DnsServer.IpAddr_countable.

(** ** Realm configuration and certificate pins *)
Record RealmConfig := {
  rendezvous : bytes;
  stun_servers : list bytes;
  prefer_tcp : bool;
  lport : option Z;
  self_signed : bool;
  pin_sha256 : option bytes;
  insecure : bool;
  tcp_upgrade : bool;
  tcp_upgrade_methods : list bytes;
  tcp_upgrade_external_port : Z;
}.

Inductive ClientTls := Pin (sha256 : bytes) | Insecure.

(** [u8::from_str_radix] of every two characters. *)
Fixpoint hex_pairs (l : bytes) : option bytes :=
  match l with
  | h :: d :: l =>
      match digit 16 h, digit 16 d, hex_pairs l with
      | Some h, Some d, Some l => Some (b# (16 * h + d) :: l)
      | _, _, _ => None
      end
  | _ => Some []
  end.

Definition is_ascii_hexdigit (b : byte) : bool := bool_decide (is_Some (digit 16 b)).

Definition parse_pin_sha256 (pin : option bytes) : outcome io_error bytes :=
  match pin with
  | None => Err (OtherKind "realm client requires quic_tls.pin_sha256")
  | Some pin =>
      let pin := trim pin in
      if negb (length pin =? 64)%nat || negb (forallb is_ascii_hexdigit pin)
      then Err (OtherKind "quic_tls.pin_sha256 must be 64 hex characters (SHA-256 of the server cert)")
      else match hex_pairs pin with
           | Some out => Ok out
           | None => Err (OtherKind "invalid pin_sha256")
           end
  end.

(** The choice of the verification in [ServerIdent::realm_client]. *)
Definition realm_tls (cfg : RealmConfig) : outcome io_error ClientTls :=
  match pin_sha256 cfg, insecure cfg with
  | Some pin, _ => Pin <$> parse_pin_sha256 (Some pin)
  | None, true => Ok Insecure
  | None, false => Err (OtherKind "realm client requires quic_tls.pin_sha256 (64 hex) or quic_tls.insecure = true")
  end.

(** TCP streams, tunnels of the outbound chain, realm carriers and their streams. *)
Class Transports := { Conn : Type; Chain : Type; Carrier : Type; RealmStream : Type }.

Section AutoProxy.
Context `{CS : CipherSuite, B64 : Base64, CN : !CipherNames, BL : Blake3, RL : IpRangeLib, XL : RegexLib, AE : AclEnv, FL : FakeDnsLib}.
Context (overflow_checks : bool).
Context `{TR : Transports}.

(** ** State *)

(** [reverse_lookup_cache] has the entries that the cache has not dropped. *)
Record ServiceContext := {
  acl : option AccessControl;
  reverse_lookup_cache : gmap IpAddr bool;
  fake_dns_manager : list FakeDnsManager;
}.

(** What a [ServerIdent] has for a realm server: its configuration and the
    carrier once it is there. *)
Record RealmSlot := { realm_config : option RealmConfig; realm_carrier : option Carrier }.

(** What has been connected to, in order. *)
Inductive dialed :=
| DialedTcp (addr : Address)
| DialedChain (addr : Address)
| DialedCarrier (cfg : RealmConfig) (tls : ClientTls)
| DialedRealm (addr : Address).

(** The context, the balancer, and the realm part of its servers by their index:
    an [Arc<ServerIdent>] is the index of the server. *)
Record Local := {
  context : ServiceContext;
  balancer : PingBalancerContext;
  realms : gmap nat RealmSlot;
  dials : list dialed;
}.

(** What the network answers, the time at which each fake DNS manager is asked,
    and the time at which a failure is recorded. *)
Record Network := {
  connect_remote : Address → outcome io_error Conn;
  outbound_client : option (Address → outcome io_error Chain);
  realm_connect : RealmConfig → ClientTls → outcome io_error Carrier;
  realm_connect_target : Carrier → Address → outcome io_error RealmStream;
  conn_local_addr : Conn → outcome io_error Socks5.SocketAddr;
  chain_local_addr : Chain → outcome io_error Socks5.SocketAddr;
  clock : nat → Z;
  failed_at : Z;
}.

Definition set_context (c : ServiceContext) (s : Local) : Local :=
  {| context := c; balancer := balancer s; realms := realms s; dials := dials s |}.
Definition set_balancer (b : PingBalancerContext) (s : Local) : Local :=
  {| context := context s; balancer := b; realms := realms s; dials := dials s |}.
Definition set_realms (r : gmap nat RealmSlot) (s : Local) : Local :=
  {| context := context s; balancer := balancer s; realms := r; dials := dials s |}.
Definition dial (d : dialed) : action Local io_error unit := act_mod (λ s,
  {| context := context s; balancer := balancer s; realms := realms s; dials := dials s ++ [d] |}).

Definition set_fake_dns (l : list FakeDnsManager) (c : ServiceContext) : ServiceContext :=
  {| acl := acl c; reverse_lookup_cache := reverse_lookup_cache c; fake_dns_manager := l |}.

(** ** The context (local/context.rs) *)
Definition show_ip (ip : IpAddr) : bytes := match ip with IpV4 v => show_ipv4 v | IpV6 v => show_ipv6 v end.

(** The loop over the managers: [done] have been asked. *)
Fixpoint map_fake_ip (clock : nat → Z) (i : nat) (ip : bytes) (done mgrs : list FakeDnsManager) : outcome io_error (option bytes) * list FakeDnsManager :=
  match mgrs with
  | [] => (Ok None, done)
  | mgr :: mgrs =>
      let '(r, mgr) := map_ip_domain (λ _, clock i) ip mgr in
      match r with
      | Ok (Some name) => (Ok (Some name), done ++ mgr :: mgrs)
      | Panic m => (Panic m, done ++ mgr :: mgrs)
      | _ => map_fake_ip clock (S i) ip (done ++ [mgr]) mgrs
      end
  end.

Definition try_map_fake_address (net : Network) (addr : Address) : action Local io_error (option Address) := λ s,
  match addr with
  | DomainNameAddress _ _ => (Ok None, s)
  | SocketAddress sa =>
      let '(r, mgrs) := map_fake_ip (clock net) 0 (show_ip (SocketAddr_ip sa)) [] (fake_dns_manager (context s)) in
      (fmap (M := outcome io_error) (option_map (λ name, DomainNameAddress name (Address_port addr))) r, set_context (set_fake_dns mgrs (context s)) s)
  end.

Definition check_target_bypassed (addr : Address) (s : Local) : bool :=
  DnsServer.context_check_target_bypassed (acl (context s)) (reverse_lookup_cache (context s)) addr.

(** ** Servers (loadbalancing/server_data.rs) *)
Definition get_server (i : nat) : action Local io_error ServerIdent := λ s,
  match servers (balancer s) !! i with Some x => (Ok x, s) | None => (Panic "index out of bounds", s) end.

Definition report_tcp_failure (net : Network) (i : nat) : action Local io_error unit :=
  server ← get_server i;
  '(_, sc) ← act_of (report_failure overflow_checks (failed_at net) (tcp_score server));
  act_mod (λ s, set_balancer (with_servers (<[i := with_score Tcp sc server]> (servers (balancer s))) (balancer s)) s).

Definition realm_slot (i : nat) (s : Local) : RealmSlot := default {| realm_config := None; realm_carrier := None |} (realms s !! i).

Definition set_carrier (i : nat) (c : option Carrier) : action Local io_error unit := act_mod (λ s,
  set_realms (<[i := {| realm_config := realm_config (realm_slot i s); realm_carrier := c |}]> (realms s)) s).

Definition reset_realm_client (i : nat) : action Local io_error unit := set_carrier i None.

Definition realm_client (net : Network) (i : nat) : action Local io_error Carrier :=
  slot ← act_gets (realm_slot i);
  match realm_carrier slot with
  | Some c => mret c
  | None =>
      match realm_config slot with
      | None => act_fail (OtherKind "server is not configured for realm transport")
      | Some cfg =>
          tls ← act_of (realm_tls cfg);
          _ ← dial (DialedCarrier cfg tls);
          client ← act_of (realm_connect net cfg tls);
          _ ← set_carrier i (Some client);
          mret client
      end
  end.

(** ** AutoProxyClientStream *)
Inductive OutboundTransport := Direct (c : Conn) | Chained (c : Chain).

(** [Proxied] has what [ProxyClientStream::from_stream] is given. *)
Inductive AutoProxyClientStream :=
| Proxied (transport : OutboundTransport) (svr_cfg : ServerConfig) (target : Address)
| Bypassed (c : Conn)
| Realm (s : RealmStream).

Definition is_proxied (s : AutoProxyClientStream) : bool := match s with Bypassed _ => false | _ => true end.

Definition transport_local_addr (net : Network) (t : OutboundTransport) : outcome io_error Socks5.SocketAddr :=
  match t with Direct c => conn_local_addr net c | Chained c => chain_local_addr net c end.

Definition stream_local_addr (net : Network) (s : AutoProxyClientStream) : outcome io_error Socks5.SocketAddr :=
  match s with
  | Proxied t _ _ => transport_local_addr net t
  | Bypassed c => conn_local_addr net c
  | Realm _ => Ok (V4 0 0)
  end.

Definition connect_bypassed_with_opts_inner (net : Network) (addr : Address) : action Local io_error AutoProxyClientStream :=
  _ ← dial (DialedTcp addr);
  stream ← act_of (connect_remote net addr);
  mret (Bypassed stream).

(** The transport to the server [ss_addr]. *)
Definition dial_server (net : Network) (ss_addr : Address) : action Local io_error OutboundTransport :=
  match outbound_client net with
  | None =>
      _ ← dial (DialedTcp ss_addr);
      act_of (Direct <$> connect_remote net ss_addr)
  | Some client =>
      _ ← dial (DialedChain ss_addr);
      act_of (Chained <$> client ss_addr)
  end.

Definition connect_realm (net : Network) (i : nat) (target_addr : Address) : action Local io_error AutoProxyClientStream :=
  client ← attempt (realm_client net i);
  match client with
  | inr err => _ ← report_tcp_failure net i; act_fail err
  | inl client =>
      _ ← dial (DialedRealm target_addr);
      r ← attempt (act_of (realm_connect_target net client target_addr));
      match r with
      | inl s => mret (Realm s)
      | inr err => _ ← reset_realm_client i; _ ← report_tcp_failure net i; act_fail err
      end
  end.

Definition connect_proxied_with_opts_inner (net : Network) (i : nat) (target_addr : Address) : action Local io_error AutoProxyClientStream :=
  slot ← act_gets (realm_slot i);
  match realm_config slot with
  | Some _ => connect_realm net i target_addr
  | None =>
      server ← get_server i;
      let ss_addr := Address_from_server_addr (tcp_external_addr (svr_cfg server)) in
      dial_result ← attempt (dial_server net ss_addr);
      match dial_result with
      | inl transport => mret (Proxied transport (svr_cfg server) target_addr)
      | inr err => _ ← report_tcp_failure net i; act_fail err
      end
  end.

(** An address of the fake DNS is replaced by the name it stands for. *)
Definition map_target (net : Network) (addr : Address) : action Local io_error Address :=
  mapped ← try_map_fake_address net addr;
  mret (default addr mapped).

Definition connect_with_opts (net : Network) (i : nat) (addr : Address) : action Local io_error AutoProxyClientStream :=
  addr ← map_target net addr;
  bypassed ← act_gets (check_target_bypassed addr);
  if bypassed : bool then connect_bypassed_with_opts_inner net addr
  else connect_proxied_with_opts_inner net i addr.

Definition connect_bypassed_with_opts (net : Network) (addr : Address) : action Local io_error AutoProxyClientStream :=
  addr ← map_target net addr;
  connect_bypassed_with_opts_inner net addr.

Definition connect_proxied_with_opts (net : Network) (i : nat) (addr : Address) : action Local io_error AutoProxyClientStream :=
  addr ← map_target net addr;
  connect_proxied_with_opts_inner net i addr.

(** The choice every local server makes: without servers straight to the target,
    otherwise by the best server, whose index is kept ([server_opt]). *)
Definition best_tcp_server : action Local io_error nat := λ s,
  ((λ _, best_tcp_idx (balancer s)) <$> best_server Tcp (balancer s), s).

Definition connect_balanced (net : Network) (addr : Address) : action Local io_error ((AutoProxyClientStream + io_error) * option nat) :=
  is_empty ← act_gets (λ s, bool_decide (servers (balancer s) = []));
  if is_empty : bool then
    r ← attempt (connect_bypassed_with_opts net addr);
    mret (r, None)
  else
    i ← best_tcp_server;
    r ← attempt (connect_with_opts net i addr);
    mret (r, Some i).

End AutoProxy.

(** ** Certificate pins *)
Lemma hex_pairs_length l out : hex_pairs l = Some out → length out = (length l / 2)%nat.
Proof.
  revert out. induction l as [[|h [|d l]] IH] using (well_founded_ind (well_founded_ltof _ length)); intros out.
  - by intros [= <-].
  - by intros [= <-].
  - simpl hex_pairs. destruct (digit 16 h), (digit 16 d), (hex_pairs l) as [x|] eqn:E; try done. intros [= <-].
    apply IH in E; [|unfold ltof; simpl; lia]. simpl length. rewrite E.
    replace (S (S (length l))) with (length l + 1 * 2)%nat by lia. rewrite Nat.div_add by lia. lia.
Qed.

Lemma hexdigits_decode l : forallb is_ascii_hexdigit l = true → is_Some (hex_pairs l).
Proof.
  induction l as [[|h [|d l]] IH] using (well_founded_ind (well_founded_ltof _ length)); [by eauto..|].
  simpl forallb. unfold is_ascii_hexdigit at 1 2. rewrite !andb_true_iff, !bool_decide_eq_true. intros ([x Hx] & [y Hy] & Hl).
  simpl hex_pairs. rewrite Hx, Hy. destruct (IH l) as [z Hz]; [unfold ltof; simpl; lia|done|]. rewrite Hz. eauto.
Qed.

(** What a realm server is verified with: a pin of 32 bytes, or nothing when the
    configuration says so; a configuration without either, or with a pin that is
    not 64 hexadecimal digits, is an error and never falls back. *)
Theorem realm_tls_spec cfg :
  match pin_sha256 cfg with
  | Some pin =>
      match realm_tls cfg with
      | Ok (Pin p) => length p = 32%nat ∧ length (trim pin) = 64%nat ∧ hex_pairs (trim pin) = Some p
      | Err _ => length (trim pin) ≠ 64%nat ∨ forallb is_ascii_hexdigit (trim pin) = false
      | _ => False
      end
  | None => if insecure cfg then realm_tls cfg = Ok Insecure else ∃ e, realm_tls cfg = Err e
  end.
Proof.
  unfold realm_tls. destruct (pin_sha256 cfg) as [pin|]; [|destruct (insecure cfg); eauto].
  unfold parse_pin_sha256. destruct (Nat.eqb_spec (length (trim pin)) 64) as [Hl|]; [|simpl; auto].
  destruct (forallb is_ascii_hexdigit (trim pin)) eqn:Hh; [|simpl; auto].
  destruct (hexdigits_decode _ Hh) as [p Hp]. simpl. rewrite Hp. simpl. split_and!; try done.
  by rewrite (hex_pairs_length _ _ Hp), Hl.
Qed.

(** ** Connections *)
Section AutoProxyFacts.
Context `{CS : CipherSuite, B64 : Base64, CN : !CipherNames, BL : Blake3, RL : IpRangeLib, XL : RegexLib, AE : AclEnv, FL : FakeDnsLib}.
Context (overflow_checks : bool) `{TR : Transports}.
Implicit Types (net : Network) (s : Local) (a addr : Address).

(** Everything but the records of the fake DNS managers. *)
Definition same_but_fake (s s' : Local) : Prop := ∃ mgrs, s' = set_context (set_fake_dns mgrs (context s)) s.

Lemma map_target_state net addr s : act_wp (map_target net addr) (λ _ s', same_but_fake s s') s.
Proof.
  unfold map_target. repeat wp_step. unfold act_wp, try_map_fake_address. destruct addr as [sa|dn port]; simpl.
  - destruct (map_fake_ip _ _ _ _ _) as [[o|e|p] mgrs]; simpl; [|by exists mgrs..]. repeat wp_step. by exists mgrs.
  - repeat wp_step. exists (fake_dns_manager (context s)). by destruct s as [[]].
Qed.

(** What the fake DNS manager number [k] answers for an address. *)
Definition asked (net : Network) (s : Local) (sa : Socks5.SocketAddr) (k : nat) : option (outcome io_error (option bytes)) :=
  (λ mgr, fst (map_ip_domain (λ _, clock net k) (show_ip (SocketAddr_ip sa)) mgr)) <$> fake_dns_manager (context s) !! k.

(** The manager has no name for the address; a failed look is one as well. *)
Definition nameless (o : option (outcome io_error (option bytes))) : Prop := ∀ r, o = Some r → r = Ok None ∨ ∃ e, r = Err e.

(** The target that a connection to [addr] is made to: the name that the first
    manager who knows the address has for it, with the same port, or [addr] itself
    if it is a name or no manager knows it. *)
Definition fake_target (net : Network) (s : Local) (addr a : Address) : Prop :=
  match addr with
  | DomainNameAddress _ _ => a = addr
  | SocketAddress sa =>
      (∃ k name, asked net s sa k = Some (Ok (Some name)) ∧ (∀ j, (j < k)%nat → nameless (asked net s sa j)) ∧
         a = DomainNameAddress name (Address_port addr)) ∨
      (∀ j, nameless (asked net s sa j)) ∧ a = addr
  end.

(** A look that panics takes the connection with it. *)
Definition fake_panics (net : Network) (s : Local) (addr : Address) (m : string) : Prop :=
  ∃ sa k, addr = SocketAddress sa ∧ asked net s sa k = Some (Panic m).

Lemma map_fake_ip_spec clock ip mgrs : ∀ i done,
  let look k := (λ mgr, fst (map_ip_domain (λ _, clock (i + k)%nat) ip mgr)) <$> mgrs !! k in
  match fst (map_fake_ip clock i ip done mgrs) with
  | Ok (Some name) => ∃ k, look k = Some (Ok (Some name)) ∧ ∀ j, (j < k)%nat → nameless (look j)
  | Ok None => ∀ j, nameless (look j)
  | Err _ => False
  | Panic m => ∃ k, look k = Some (Panic m)
  end.
Proof.
  induction mgrs as [|m mgrs IH]; intros i done; [by intros j r|]. cbn zeta. simpl map_fake_ip.
  destruct (map_ip_domain (λ _, clock i) ip m) as [r m'] eqn:E.
  assert (∀ r0, (λ mgr, fst (map_ip_domain (λ _, clock (i + 0)%nat) ip mgr)) <$> (m :: mgrs) !! 0%nat = Some r0 → r0 = r) as H0
    by (intros r0; simpl; rewrite Nat.add_0_r, E; by intros [= <-]).
  assert ((λ mgr, fst (map_ip_domain (λ _, clock (i + 0)%nat) ip mgr)) <$> (m :: mgrs) !! 0%nat = Some r) as H0'
    by (simpl; by rewrite Nat.add_0_r, E).
  assert (r = Ok None ∨ (∃ e, r = Err e) → match fst (map_fake_ip clock (S i) ip (done ++ [m']) mgrs) with
    | Ok (Some name) => ∃ k, (λ mgr, fst (map_ip_domain (λ _, clock (i + k)%nat) ip mgr)) <$> (m :: mgrs) !! k = Some (Ok (Some name)) ∧
        ∀ j, (j < k)%nat → nameless ((λ mgr, fst (map_ip_domain (λ _, clock (i + j)%nat) ip mgr)) <$> (m :: mgrs) !! j)
    | Ok None => ∀ j, nameless ((λ mgr, fst (map_ip_domain (λ _, clock (i + j)%nat) ip mgr)) <$> (m :: mgrs) !! j)
    | Err _ => False
    | Panic msg => ∃ k, (λ mgr, fst (map_ip_domain (λ _, clock (i + k)%nat) ip mgr)) <$> (m :: mgrs) !! k = Some (Panic msg)
    end) as Hrest.
  { intros Hr. specialize (IH (S i) (done ++ [m'])). cbn zeta in IH.
    destruct (fst (map_fake_ip clock (S i) ip (done ++ [m']) mgrs)) as [[name|]|e|msg]; [| |done|].
    - destruct IH as (k & Hk & Hj). exists (S k). rewrite <- plus_n_Sm. split; [exact Hk|]. intros [|j] Hlt; [by intros r0 ->%H0|].
      rewrite <- plus_n_Sm. apply Hj. lia.
    - intros [|j]; [by intros r0 ->%H0|]. rewrite <- plus_n_Sm. apply IH.
    - destruct IH as [k Hk]. exists (S k). by rewrite <- plus_n_Sm. }
  destruct r as [[name|]|e|msg]; simpl; [|apply Hrest; eauto..|by exists 0%nat]. exists 0%nat. split; [done|lia].
Qed.

Lemma map_target_spec net addr s :
  match map_target net addr s with
  | (Ok a, s0) => fake_target net s addr a ∧ same_but_fake s s0
  | (Err _, _) => False
  | (Panic m, s0) => fake_panics net s addr m ∧ same_but_fake s s0
  end.
Proof.
  unfold map_target, mbind, action_bind, try_map_fake_address. destruct addr as [sa|dn port]; simpl.
  - pose proof (map_fake_ip_spec (clock net) (show_ip (SocketAddr_ip sa)) (fake_dns_manager (context s)) 0 []) as H. cbn zeta in H.
    destruct (map_fake_ip _ _ _ _ _) as [[[name|]|e|m] mgrs]; simpl in H |- *; [| |done|].
    + destruct H as (k & Hk & Hj). split; [left; by exists k, name|by exists mgrs].
    + split; [by right|by exists mgrs].
    + destruct H as [k Hk]. split; [by exists sa, k|by exists mgrs].
  - split; [done|]. exists (fake_dns_manager (context s)). by destruct s as [[]].
Qed.

Lemma wp_dial d Q s :
  Q (Ok tt) {| context := context s; balancer := balancer s; realms := realms s; dials := dials s ++ [d] |} → act_wp (dial d) Q s.
Proof. done. Qed.

(** What may be connected to on the way to the target [a] by server [i]: without a
    realm its address, over the outbound chain if one is configured and directly
    otherwise; with a realm its carrier and the target over it. *)
Definition to_server (net : Network) (s : Local) (i : nat) (a : Address) (d : dialed) : Prop :=
  match d with
  | DialedTcp x | DialedChain x =>
      (if d is DialedChain _ then is_Some (outbound_client net) else outbound_client net = None) ∧
      realm_config (realm_slot i s) = None ∧
      ∃ srv, servers (balancer s) !! i = Some srv ∧ x = Address_from_server_addr (tcp_external_addr (svr_cfg srv))
  | DialedCarrier cfg tls => realm_config (realm_slot i s) = Some cfg ∧ realm_tls cfg = Ok tls
  | DialedRealm x => is_Some (realm_config (realm_slot i s)) ∧ x = a
  end.

(** The transport is what the network gave for the server's address. *)
Definition transport_to (net : Network) (x : Address) (t : OutboundTransport) : Prop :=
  match outbound_client net, t with
  | None, Direct c => connect_remote net x = Ok c
  | Some client, Chained c => client x = Ok c
  | _, _ => False
  end.

(** A stream that leads to [a] by server [i]. *)
Definition leads_by (net : Network) (s : Local) (i : nat) (a : Address) (st : AutoProxyClientStream) : Prop :=
  match st with
  | Proxied t cfg target =>
      target = a ∧ ∃ srv, servers (balancer s) !! i = Some srv ∧ cfg = svr_cfg srv ∧
        transport_to net (Address_from_server_addr (tcp_external_addr (svr_cfg srv))) t
  | Realm _ => is_Some (realm_config (realm_slot i s))
  | Bypassed _ => False
  end.

(** The failure of server [i] has been counted. *)
Definition failure_counted (net : Network) (s s' : Local) (i : nat) : Prop :=
  ∃ srv z sc, servers (balancer s) !! i = Some srv ∧ report_failure overflow_checks (failed_at net) (tcp_score srv) = Ok (z, sc) ∧
    servers (balancer s') = <[i := with_score Tcp sc srv]> (servers (balancer s)).

Definition proxied_post (net : Network) (i : nat) (a : Address) (s : Local) (r : outcome io_error AutoProxyClientStream) (s' : Local) : Prop :=
  (∃ new, dials s' = dials s ++ new ∧ Forall (to_server net s i a) new) ∧
  match r with
  | Ok st => leads_by net s i a st ∧ servers (balancer s') = servers (balancer s)
  | Err _ => failure_counted net s s' i
  | Panic _ => True
  end.

(** A failure is reported last, and then nothing else changes. *)
Lemma report_fails net i s e (Q : outcome io_error AutoProxyClientStream → Local → Prop) :
  (∀ s' srv z sc, servers (balancer s) !! i = Some srv → report_failure overflow_checks (failed_at net) (tcp_score srv) = Ok (z, sc) →
     s' = set_balancer (with_servers (<[i := with_score Tcp sc srv]> (servers (balancer s))) (balancer s)) s → Q (Err e) s') →
  (∀ p, Q (Panic p) s) →
  act_wp (_ ← report_tcp_failure overflow_checks net i; act_fail e) Q s.
Proof.
  intros HE HP. unfold report_tcp_failure. repeat wp_step. unfold act_wp, get_server.
  destruct (servers (balancer s) !! i) as [srv|] eqn:Hi; simpl; [|apply HP]. repeat wp_step.
  destruct (report_failure _ _ _) as [[z sc]|e'|p] eqn:Hr; repeat wp_step; [|exfalso|apply HP].
  - by eapply HE.
  - unfold report_failure, score_push in Hr. destruct (push_score _ _ _ _) as [[]|[]|]; done.
Qed.

Lemma dial_server_spec net ss_addr s :
  act_wp (dial_server net ss_addr) (λ r s', balancer s' = balancer s ∧ realms s' = realms s ∧ context s' = context s ∧
    (∀ t, r = Ok t → transport_to net ss_addr t) ∧
    dials s' = dials s ++ [match outbound_client net with None => DialedTcp ss_addr | Some _ => DialedChain ss_addr end]) s.
Proof.
  unfold dial_server, transport_to. destruct (outbound_client net) as [client|]; repeat (wp_step || apply wp_dial); split_and!; try done.
  - by destruct (client ss_addr); intros t [= <-].
  - by destruct (connect_remote net ss_addr); intros t [= <-].
Qed.

(** The carrier of a realm server: the kept one, or a new one that is kept. *)
Lemma realm_client_spec net i s :
  act_wp (realm_client net i) (λ r s', balancer s' = balancer s ∧ context s' = context s ∧
    realm_config (realm_slot i s') = realm_config (realm_slot i s) ∧
    ∃ new, dials s' = dials s ++ new ∧ ∀ a, Forall (to_server net s i a) new) s.
Proof.
  unfold realm_client. repeat wp_step. destruct (realm_carrier (realm_slot i s)) as [c|].
  { repeat wp_step. split_and!; try done. exists []. rewrite app_nil_r. auto. }
  destruct (realm_config (realm_slot i s)) as [cfg|] eqn:Hc.
  2: { repeat wp_step. split_and!; try done. exists []. rewrite app_nil_r. auto. }
  repeat wp_step. destruct (realm_tls cfg) as [tls|e|p] eqn:Ht.
  2, 3: repeat wp_step; split_and!; try done; exists []; rewrite app_nil_r; auto.
  repeat (wp_step || apply wp_dial).
  assert (∀ a, Forall (to_server net s i a) [DialedCarrier cfg tls]) as Hto by (intros a; by repeat constructor).
  destruct (realm_connect net cfg tls) as [client|e|p]; repeat wp_step; try by (split_and!; eauto).
  unfold set_carrier. repeat wp_step. split_and!; try done; [|eauto]. unfold realm_slot at 1. simpl. by rewrite lookup_insert_eq.
Qed.

Lemma connect_proxied_inner_spec net i a s :
  act_wp (connect_proxied_with_opts_inner overflow_checks net i a) (proxied_post net i a s) s.
Proof.
  unfold connect_proxied_with_opts_inner. repeat wp_step. destruct (realm_config (realm_slot i s)) as [cfg|] eqn:Hc.
  - unfold connect_realm. do 2 wp_step. eapply wp_mono; [apply realm_client_spec|]. intros r s1 (Hb & Hx & Hs & new & Hd & Hf).
    destruct r as [client|err|p]; [|apply report_fails|]; repeat wp_step.
    + apply wp_dial. repeat wp_step.
      assert (Forall (to_server net s i a) (new ++ [DialedRealm a])) as Hnew.
      { apply Forall_app. split; [apply Hf|]. repeat constructor. rewrite Hc. eauto. }
      destruct (realm_connect_target net client a) as [st|err|p]; repeat wp_step.
      * split; [|split; [simpl; rewrite Hc; eauto|simpl; by rewrite Hb]]. eexists. simpl. by rewrite Hd, <- app_assoc.
      * unfold reset_realm_client, set_carrier. do 2 wp_step. apply report_fails; simpl.
        -- intros s' srv z sc Hi Hr ->. simpl. rewrite Hb in Hi. split; [eexists; simpl; by rewrite Hd, <- app_assoc|].
           exists srv, z, sc. simpl. by rewrite Hb.
        -- intros p. split; [|done]. eexists. simpl. by rewrite Hd, <- app_assoc.
      * split; [|done]. eexists. simpl. by rewrite Hd, <- app_assoc.
    + intros s' srv z sc Hi Hr ->. rewrite Hb in Hi. split; [eexists; simpl; eauto|]. exists srv, z, sc. simpl. by rewrite Hb.
    + intros p. split; [|done]. eauto.
    + split; [|done]. eauto.
  - repeat wp_step. unfold act_wp, get_server. destruct (servers (balancer s) !! i) as [srv|] eqn:Hi; simpl.
    2: { split; [|done]. exists []. by rewrite app_nil_r. }
    do 2 wp_step. eapply wp_mono; [apply dial_server_spec|]. intros r s1 (Hb & Hr & Hx & Ht & Hd).
    assert (Forall (to_server net s i a) [match outbound_client net with None => DialedTcp (Address_from_server_addr (tcp_external_addr (svr_cfg srv)))
      | Some _ => DialedChain (Address_from_server_addr (tcp_external_addr (svr_cfg srv))) end]) as Hf
      by (constructor; [|constructor]; destruct (outbound_client net) eqn:Ho; simpl; rewrite ?Ho; eauto 10).
    destruct r as [t|err|p]; [|apply report_fails|]; repeat wp_step.
    + split; [eauto|]. split; [simpl; split; [done|]; exists srv; split_and!; [done|done|by apply Ht]|by rewrite Hb].
    + intros s' srv' z sc Hi' Hr' ->. rewrite Hb in Hi'. split; [simpl; eauto|]. exists srv', z, sc. simpl. by rewrite Hb.
    + intros p. split; [eauto|done].
    + split; [eauto|done].
Qed.

Lemma connect_bypassed_inner_eq net a s :
  connect_bypassed_with_opts_inner net a s =
  (Bypassed <$> connect_remote net a, {| context := context s; balancer := balancer s; realms := realms s; dials := dials s ++ [DialedTcp a] |}).
Proof. unfold connect_bypassed_with_opts_inner, mbind, action_bind, dial, act_mod, act_of, mret, action_ret. by destruct (connect_remote net a). Qed.

Lemma connect_with_opts_eq net i addr s :
  connect_with_opts overflow_checks net i addr s =
  match map_target net addr s with
  | (Ok a, s0) =>
      if check_target_bypassed a s0 then connect_bypassed_with_opts_inner net a s0
      else connect_proxied_with_opts_inner overflow_checks net i a s0
  | (Err e, s0) => (Err e, s0)
  | (Panic m, s0) => (Panic m, s0)
  end.
Proof.
  unfold connect_with_opts, mbind, action_bind, act_gets. destruct (map_target net addr s) as [[a|e|p] s0]; try done.
  by destruct (check_target_bypassed a s0).
Qed.

(** C12. Where a connection of the local server goes.  A target that is an address of
    the fake DNS is first replaced by the name that the first manager who knows it
    has for it, with the same port, and is otherwise taken as it is; this touches
    nothing but the records of the fake DNS.  When the access control list bypasses
    what comes out, the one thing connected to is that target.  Otherwise only the
    server is: its address, over the outbound chain if one is configured and
    directly if not, or its realm carrier, verified as configured; the stream that
    results carries exactly the target and the server's configuration over that
    transport, and when it fails the failure is recorded with the server. *)
Theorem connection_routes net i addr s :
  let '(r, s') := connect_with_opts overflow_checks net i addr s in
  (∃ a, fake_target net s addr a ∧
     if check_target_bypassed a s
     then dials s' = dials s ++ [DialedTcp a] ∧ r = Bypassed <$> connect_remote net a ∧ balancer s' = balancer s
     else proxied_post net i a s r s') ∨
  (∃ m, r = Panic m ∧ fake_panics net s addr m ∧ same_but_fake s s').
Proof.
  pose proof (map_target_spec net addr s) as Hm. rewrite connect_with_opts_eq.
  destruct (map_target net addr s) as [[a|e|m] s0]; [|done|right; by exists m]. destruct Hm as [Ha [mgrs ->]].
  change (check_target_bypassed a (set_context (set_fake_dns mgrs (context s)) s)) with (check_target_bypassed a s).
  destruct (check_target_bypassed a s) eqn:Hb.
  - rewrite connect_bypassed_inner_eq. left. exists a. by rewrite Hb.
  - pose proof (connect_proxied_inner_spec net i a (set_context (set_fake_dns mgrs (context s)) s)) as H. unfold act_wp in H.
    destruct (connect_proxied_with_opts_inner _ _ _ _ _) as [r s']. left. exists a. by rewrite Hb.
Qed.

End AutoProxyFacts.
