(* ===== verification/SocksServer.v ===== *)
(** * The SOCKS server (crates/shadowsocks-service/src/local/socks)

    [config.rs]: the users; [server/socks5/tcprelay.rs], [server/socks4/tcprelay.rs]
    and [server/server.rs]: a client's connection from its first byte to the tunnel;
    [server/socks5/udprelay.rs]: datagrams; [local/utils.rs]: the start of a tunnel.
    A client is the bytes it sends, what was written to it and how its writes end.
    Shown: when users are configured nothing at all is done for a client that has
    not given the name and password of one of them, over any of the protocols; a
    client that follows the protocol gets through; every byte sent after a request
    goes into the tunnel; and datagrams to the client are read back as they were
    meant. *)
From S2P Require Import Prelude.
From S2P Require Import Utf8.
From S2P Require Import External.
From S2P Require Import StdNet.
From S2P Require Import Socks5.
From S2P Require Import SubDomainsTree.
From S2P Require Import Acl.
From S2P Require Import FakeDns.
From S2P Require Import ServerConf.
From S2P Require Import ServerStat.
From S2P Require Import PingBalancer.
From S2P Require Import AutoProxy.
From S2P Require Socks4.

(** ** Users (config.rs) *)
Record Socks5AuthConfig := { auth_passwd : gmap bytes bytes }.

Definition Socks5AuthConfig_new : Socks5AuthConfig := {| auth_passwd := ∅ |}.

Definition add_user (user_name password : bytes) (self : Socks5AuthConfig) : Socks5AuthConfig :=
  {| auth_passwd := <[user_name := password]> (auth_passwd self) |}.

Definition check_user (self : Socks5AuthConfig) (user_name password : bytes) : bool :=
  match auth_passwd self !! user_name with
  | Some pwd => bool_decide (pwd = password)
  | None => false
  end.

Definition total_users (self : Socks5AuthConfig) : nat := size (auth_passwd self).

Definition auth_required (self : Socks5AuthConfig) : bool := (0 <? total_users self)%nat.

(** [load_from_file], from what the JSON crate makes of the file: the users with
    their passwords, if there is that part. *)
Definition load_from_json (jconf : outcome io_error (option (list (bytes * bytes)))) : outcome io_error Socks5AuthConfig :=
  match jconf with
  | Ok users => Ok (foldl (λ passwd '(u, p), add_user u p passwd) Socks5AuthConfig_new (default [] users))
  | Err _ => Err (OtherKind "json5")
  | Panic m => Panic m
  end.

(** [net/utils.rs]. *)
Definition unmap_address (a : Address) : Address :=
  match a with
  | SocketAddress sa =>
      SocketAddress (match sa with
                     | V4 _ _ => sa
                     | V6 ip port _ _ => match to_ipv4_mapped ip with Some v4 => V4 v4 port | None => sa end
                     end)
  | DomainNameAddress _ _ => a
  end.

Section Socks.
Context `{CS : CipherSuite, B64 : Base64, CN : !CipherNames, BL : Blake3, RL : IpRangeLib, XL : RegexLib, AE : AclEnv, FL : FakeDnsLib}.
Context (overflow_checks : bool) `{TR : Transports}.

(** ** A connection

    [writes] says how the next writes to the client end: [None] when all is
    written, [Some (n, e)] when the error [e] comes after [n] bytes; further writes
    succeed.  [to_remote] has the writes to the remote end before the copying,
    [tunnel] the copying once it has started, with the cipher method when it is
    encrypted; what is left of [input] then is what it copies. *)
Record Tunnel := { t_remote : AutoProxyClientStream; t_method : option CipherKind }.

Record Session := {
  input : reader;
  writes : list (option (nat * io_error));
  output : bytes;
  local : Local;
  to_remote : list bytes;
  tunnel : option Tunnel;
  udp_held : bool;
  http_served : bool;
}.

(** What the surroundings answer: the network; how many bytes are there when the
    first packet of a tunnel is waited for ([None]: nothing within 500ms); how
    writes to the remote end end; the bytes in the [BufReader] after a SOCKS4
    request; and the HTTP server. *)
Record Surroundings := {
  net : Network;
  first_read : option nat;
  remote_write : bytes → option (nat * io_error);
  buffered : nat;
  serve_connection : outcome io_error unit;
}.

(** [Socks5TcpHandler] and [SocksTcpHandler], as far as they are not shared state. *)
Record Handler := {
  udp_associate_addr : ServerAddr;
  handler_mode : Mode;
  auth : Socks5AuthConfig;
  peer_addr : Socks5.SocketAddr;
}.

Definition set_input (r : reader) (s : Session) : Session :=
  {| input := r; writes := writes s; output := output s; local := local s; to_remote := to_remote s; tunnel := tunnel s;
     udp_held := udp_held s; http_served := http_served s |}.
Definition set_local (l : Local) (s : Session) : Session :=
  {| input := input s; writes := writes s; output := output s; local := l; to_remote := to_remote s; tunnel := tunnel s;
     udp_held := udp_held s; http_served := http_served s |}.
Definition wrote (data : bytes) (ws : list (option (nat * io_error))) (s : Session) : Session :=
  {| input := input s; writes := ws; output := output s ++ data; local := local s; to_remote := to_remote s; tunnel := tunnel s;
     udp_held := udp_held s; http_served := http_served s |}.
Definition forwarded (data : bytes) (s : Session) : Session :=
  {| input := input s; writes := writes s; output := output s; local := local s; to_remote := to_remote s ++ [data]; tunnel := tunnel s;
     udp_held := udp_held s; http_served := http_served s |}.
Definition tunnelled (t : Tunnel) (s : Session) : Session :=
  {| input := input s; writes := writes s; output := output s; local := local s; to_remote := to_remote s; tunnel := Some t;
     udp_held := udp_held s; http_served := http_served s |}.
Definition held (s : Session) : Session :=
  {| input := Reader [] (rd_end (input s)); writes := writes s; output := output s; local := local s; to_remote := to_remote s;
     tunnel := tunnel s; udp_held := true; http_served := http_served s |}.
Definition served (s : Session) : Session :=
  {| input := input s; writes := writes s; output := output s; local := local s; to_remote := to_remote s; tunnel := tunnel s;
     udp_held := udp_held s; http_served := true |}.

Definition in_local {A} (m : action Local io_error A) : action Session io_error A := λ s,
  let '(r, l) := m (local s) in (r, set_local l s).

(** A message read from the client; nothing more is read after an error. *)
Definition read_from {E A} (p : parser reader E A) : action Session io_error (A + E) := λ s,
  match p (input s) with
  | Ok (a, r) => (Ok (inl a), set_input r s)
  | Err e => (Ok (inr e), s)
  | Panic m => (Panic m, s)
  end.

Definition write_all (data : bytes) : action Session io_error unit := λ s,
  match writes s with
  | Some (n, e) :: ws => (Err e, wrote (take n data) ws s)
  | None :: ws => (Ok tt, wrote data ws s)
  | [] => (Ok tt, wrote data [] s)
  end.

(** [write_to] of a message. *)
Definition write_to (buf : outcome io_error bytes) : action Session io_error unit :=
  data ← act_of buf;
  write_all data.

Definition write_remote (env : Surroundings) (data : bytes) : action Session io_error unit := λ s,
  match remote_write env data with
  | None => (Ok tt, forwarded data s)
  | Some (n, e) => (Err e, forwarded (take n data) s)
  end.

(** ** The start of a tunnel (local/utils.rs) *)

(** [time::timeout(500ms, plain.read(..))]: [None] for the timeout, [Some []] for
    the end of the stream. *)
Definition timed_read (env : Surroundings) (size : nat) : action Session io_error (option bytes) := λ s,
  match first_read env with
  | None => (Ok None, s)
  | Some k =>
      match rd_data (input s) with
      | [] => match rd_end (input s) with None => (Ok (Some []), s) | Some e => (Err e, s) end
      | data =>
          let n := Nat.min size (Nat.max 1 k) in
          (Ok (Some (take n data)), set_input (Reader (drop n data) (rd_end (input s))) s)
      end
  end.

(** How the copying ends is only logged. *)
Definition establish_tcp_tunnel_bypassed (remote : AutoProxyClientStream) : action Session io_error unit :=
  act_mod (tunnelled {| t_remote := remote; t_method := None |}).

Definition establish_tcp_tunnel (env : Surroundings) (svr_cfg : ServerConfig) (remote : AutoProxyClientStream) : action Session io_error unit :=
  if negb (is_proxied remote) then establish_tcp_tunnel_bypassed remote
  else
    first ← timed_read env (Z.to_nat 8192);
    match first with
    | Some [] => mret tt
    | Some data =>
        _ ← write_remote env data;
        act_mod (tunnelled {| t_remote := remote; t_method := Some (method svr_cfg) |})
    | None =>
        _ ← write_remote env [];
        act_mod (tunnelled {| t_remote := remote; t_method := Some (method svr_cfg) |})
    end.

Definition establish (env : Surroundings) (server_opt : option nat) (remote : AutoProxyClientStream) : action Session io_error unit :=
  match server_opt with
  | Some i =>
      server ← in_local (get_server i);
      establish_tcp_tunnel env (svr_cfg server) remote
  | None => establish_tcp_tunnel_bypassed remote
  end.

(** ** SOCKS5 (server/socks5/tcprelay.rs) *)
Definition PASSWORD_AUTH_STATUS_FAILURE : Z := 255.

Definition auth_response (st : Z) : outcome io_error bytes := Ok (PasswdAuthResponse_write_to_buf {| status := st |} []).
Definition method_response (m : Z) : outcome io_error bytes := Ok (HandshakeResponse_write_to_buf {| chosen_method := m |} []).
Definition reply_response (r : Reply) (a : Address) : outcome io_error bytes :=
  TcpResponseHeader_write_to_buf {| rsp_reply := r; rsp_address := a |} [].

Definition check_auth_password (self : Handler) : action Session io_error unit :=
  req ← read_from PasswdAuthRequest_read_from;
  match req with
  | inr err =>
      _ ← attempt (F := io_error) (write_to (auth_response (Reply_as_u8 (Error_as_reply err))));
      act_fail (OtherKind "Username/Password Authentication Initial request failed")
  | inl req =>
      match from_utf8 (uname req), from_utf8 (passwd req) with
      | None, _ =>
          _ ← attempt (F := io_error) (write_to (auth_response PASSWORD_AUTH_STATUS_FAILURE));
          act_fail (OtherKind "Username/Password Authentication Initial request uname contains invalid characters")
      | _, None =>
          _ ← attempt (F := io_error) (write_to (auth_response PASSWORD_AUTH_STATUS_FAILURE));
          act_fail (OtherKind "Username/Password Authentication Initial request passwd contains invalid characters")
      | Some user_name, Some password =>
          if check_user (auth self) user_name password then write_to (auth_response 0)
          else
            _ ← write_to (auth_response PASSWORD_AUTH_STATUS_FAILURE);
            act_fail (OtherKind "Username/Password Authentication failed")
      end
  end.

(** The loop over the methods the client offers. *)
Fixpoint check_auth (self : Handler) (offered : bytes) : action Session io_error unit :=
  match offered with
  | [] =>
      _ ← write_to (method_response SOCKS5_AUTH_METHOD_NOT_ACCEPTABLE);
      act_fail (OtherKind "currently shadowsocks-rust does not support authentication")
  | m :: offered =>
      if byte.unsigned m =? SOCKS5_AUTH_METHOD_PASSWORD then
        _ ← write_to (method_response SOCKS5_AUTH_METHOD_PASSWORD);
        check_auth_password self
      else if byte.unsigned m =? SOCKS5_AUTH_METHOD_NONE then
        if auth_required (auth self) then check_auth self offered
        else write_to (method_response SOCKS5_AUTH_METHOD_NONE)
      else check_auth self offered
  end.

Definition connect_error_reply (e : io_error) : Reply :=
  match e with
  | ConnectionRefused => ReplyConnectionRefused
  | ConnectionAborted => HostUnreachable
  | _ => NetworkUnreachable
  end.

Definition handle_tcp_connect (env : Surroundings) (self : Handler) (target_addr : Address) : action Session io_error unit :=
  if negb (enable_tcp (handler_mode self)) then write_to (reply_response CommandNotSupported target_addr)
  else
    '(remote_result, server_opt) ← in_local (connect_balanced overflow_checks (net env) target_addr);
    match remote_result with
    | inl remote =>
        local_addr ← act_of (stream_local_addr (net env) remote);
        _ ← write_to (reply_response Succeeded (SocketAddress local_addr));
        establish env server_opt remote
    | inr err =>
        _ ← write_to (reply_response (connect_error_reply err) (SocketAddress (V4 0 0)));
        act_fail err
    end.

Definition handle_udp_associate (self : Handler) (client_addr : Address) : action Session io_error unit :=
  if negb (enable_udp (handler_mode self)) then write_to (reply_response CommandNotSupported client_addr)
  else
    _ ← write_to (reply_response Succeeded (Address_from_server_addr (udp_associate_addr self)));
    act_mod held.

Definition handle_command (env : Surroundings) (self : Handler) (header : TcpRequestHeader) : action Session io_error unit :=
  match req_command header with
  | TcpConnect => handle_tcp_connect env self (req_address header)
  | UdpAssociate => handle_udp_associate self (req_address header)
  | TcpBind => write_to (reply_response CommandNotSupported (req_address header))
  end.

Definition handle_socks5_client (env : Surroundings) (self : Handler) : action Session io_error unit :=
  handshake_req ← read_from HandshakeRequest_read_from;
  match handshake_req with
  | inr (IoError UnexpectedEof) => mret tt
  | inr err => act_fail (io_Error_from err)
  | inl handshake_req =>
      _ ← check_auth self (methods handshake_req);
      header ← read_from TcpRequestHeader_read_from;
      match header with
      | inr err =>
          _ ← write_to (reply_response (Error_as_reply err) (SocketAddress (peer_addr self)));
          act_fail (io_Error_from err)
      | inl header => handle_command env self header
      end
  end.

(** ** SOCKS4 (server/socks4/tcprelay.rs) *)
Definition socks4_response (c : Socks4.Socks4.ResultCode) : outcome io_error bytes :=
  Ok (Socks4.Socks4.HandshakeResponse_write_to_buf {| Socks4.Socks4.result := c |} []).

Definition socks4_error_result (e : io_error) : Socks4.Socks4.ResultCode :=
  match e with
  | ConnectionRefused | ConnectionAborted => Socks4.Socks4.RequestRejectedCannotConnect
  | _ => Socks4.Socks4.RequestRejectedOrFailed
  end.

(** The bytes in the [BufReader] go to the remote end first, then it is unwrapped. *)
Definition transfer_buffer (env : Surroundings) : action Session io_error unit :=
  data ← act_gets (λ s, rd_data (input s));
  let buffer := take (buffered env) data in
  _ ← (if negb (bool_decide (buffer = [])) then write_remote env buffer else mret tt);
  act_mod (λ s, set_input (Reader (drop (buffered env) data) (rd_end (input s))) s).

Definition handle_socks4_connect (env : Surroundings) (self : Handler) (target_addr : Socks4.Socks4.Address) : action Session io_error unit :=
  if negb (enable_tcp (handler_mode self)) then write_to (socks4_response Socks4.Socks4.RequestRejectedOrFailed)
  else
    '(server_result, server_opt) ← in_local (connect_balanced overflow_checks (net env) (Socks4.Socks4.to_socks5 target_addr));
    match server_result with
    | inl remote =>
        _ ← write_to (socks4_response Socks4.Socks4.RequestGranted);
        _ ← transfer_buffer env;
        establish env server_opt remote
    | inr err =>
        _ ← write_to (socks4_response (socks4_error_result err));
        act_fail err
    end.

Definition handle_socks4_client (env : Surroundings) (self : Handler) : action Session io_error unit :=
  handshake_req ← read_from Socks4.Socks4.HandshakeRequest_read_from;
  match handshake_req with
  | inr (Socks4.Socks4.IoError UnexpectedEof) => mret tt
  | inr err => act_fail (Socks4.Socks4.io_Error_from err)
  | inl handshake_req =>
      match Socks4.Socks4.cd handshake_req with
      | Socks4.Socks4.Connect => handle_socks4_connect env self (Socks4.Socks4.dst handshake_req)
      | Socks4.Socks4.Bind => write_to (socks4_response Socks4.Socks4.RequestRejectedOrFailed)
      end
  end.

(** ** The protocol of a client (server/server.rs) *)

(** The first letters of the HTTP methods, in both cases. *)
Definition http_letters : bytes := str "GgHhPpDdCcOoTt".

Definition handle_tcp_client (env : Surroundings) (self : Handler) : action Session io_error unit :=
  r ← act_gets input;
  match rd_data r with
  | [] => act_fail (default UnexpectedEof (rd_end r))
  | version :: _ =>
      if byte.unsigned version =? 4 then
        if auth_required (auth self) then act_fail (OtherKind "SOCKS4 unsupported") else handle_socks4_client env self
      else if byte.unsigned version =? 5 then handle_socks5_client env self
      else if bool_decide (version ∈ http_letters) then
        if auth_required (auth self) then act_fail (OtherKind "HTTP unsupported")
        else
          _ ← act_mod served;
          match serve_connection env with
          | Ok _ => mret tt
          | Err _ => act_fail (OtherKind "http")
          | Panic m => act_of (Panic m)
          end
      else act_fail (OtherKind "unsupported socks version")
  end.

(** ** Datagrams (server/socks5/udprelay.rs) *)

(** [Socks5UdpInboundWriter::send_to]: the datagram for the client. *)
Definition udp_send_to (remote_addr : Address) (data : bytes) : outcome io_error bytes :=
  payload_buffer ← UdpAssociateHeader_write_to_buf {| frag := 0; udp_address := unmap_address remote_addr |} [];
  Ok (payload_buffer ++ data).

(** What the loop of [Socks5UdpServer] makes of a datagram: the target and the
    payload that [manager.send_to] is given, or nothing. *)
Definition udp_received (data : bytes) : option (Address * bytes) :=
  match UdpAssociateHeader_read_from (Reader data None) with
  | Ok (header, cur) => if negb (frag header =? 0) then None else Some (udp_address header, rd_data cur)
  | _ => None
  end.
End Socks.

(** ** Logins on the wire *)
Definition handshake_wire (ms : bytes) : bytes := HandshakeRequest_write_to_buf {| methods := ms |} [].
Definition login_wire (u p : bytes) : bytes := PasswdAuthRequest_write_to_buf {| uname := u; passwd := p |} [].

(** The stream starts with an offer of password authentication and with the name
    and the password of a configured user. *)
Definition authenticated (cfg : Socks5AuthConfig) (data : bytes) : Prop :=
  ∃ ms u p rest, data = handshake_wire ms ++ login_wire u p ++ rest ∧ (length ms ≤ 255)%nat ∧ (length u ≤ 255)%nat ∧ (length p ≤ 255)%nat ∧
    b# SOCKS5_AUTH_METHOD_PASSWORD ∈ ms ∧ auth_passwd cfg !! u = Some p.

Lemma read_exact_io_inv {B} n (k : bytes → parser reader Error B) r b r' :
  (read_exact_io n ≫= k) r = Ok (b, r') →
  ∃ l r1, length l = n ∧ rd_data r = l ++ rd_data r1 ∧ rd_end r1 = rd_end r ∧ k l r1 = Ok (b, r').
Proof.
  unfold mbind, parser_bind, read_exact_io, parse_err. destruct (read_exact n r) as [[l r1]| |] eqn:E; simpl; try done.
  intros H. apply read_exact_Ok in E as (? & ? & ?). eauto 10.
Qed.

Lemma byte_of_u8_at l x l' z : l = x :: l' → u8_at l 0 = z → x = b# z.
Proof. intros -> <-. unfold u8_at. simpl. by rewrite byte.of_Z_unsigned. Qed.

Lemma length_byte l x l' (u : bytes) : l = x :: l' → length u = Z.to_nat (u8_at l 0) → x = b# (Z.of_nat (length u)).
Proof.
  intros Hl Hu. eapply byte_of_u8_at; [exact Hl|]. rewrite Hu, Z2Nat.id; [done|]. unfold u8_at. apply byte_unsigned_range.
Qed.

Lemma length_le_255 (u : bytes) l : length u = Z.to_nat (u8_at l 0) → (length u ≤ 255)%nat.
Proof. intros ->. pose proof (byte_unsigned_range (nth 0 l (b# 0))). unfold u8_at. lia. Qed.

Lemma handshake_read_inv r h r' :
  HandshakeRequest_read_from r = Ok (h, r') → rd_data r = handshake_wire (methods h) ++ rd_data r' ∧ (length (methods h) ≤ 255)%nat.
Proof.
  unfold HandshakeRequest_read_from. intros (l & r1 & Hl & Hd & He & H)%read_exact_io_inv.
  destruct l as [|v [|n [|]]]; try done. destruct (u8_at [v; n] 0 =? SOCKS5_VERSION) eqn:Ev; [|done]. apply Z.eqb_eq in Ev.
  apply read_exact_io_inv in H as (ms & r2 & Hm & Hd2 & He2 & [= <- <-]). simpl.
  rewrite Hd, Hd2. split; [|by eapply (length_le_255 ms [n])]. unfold handshake_wire, HandshakeRequest_write_to_buf. simpl.
  rewrite (byte_of_u8_at [v; n] v [n] _ eq_refl Ev). by rewrite (length_byte [n] n [] ms eq_refl Hm).
Qed.

Lemma passwd_read_inv r q r' :
  PasswdAuthRequest_read_from r = Ok (q, r') → rd_data r = login_wire (uname q) (passwd q) ++ rd_data r' ∧ (length (uname q) ≤ 255)%nat ∧ (length (passwd q) ≤ 255)%nat.
Proof.
  unfold PasswdAuthRequest_read_from. intros (l & r1 & Hl & Hd & He & H)%read_exact_io_inv.
  destruct l as [|v [|]]; try done. destruct (u8_at [v] 0 =? 1) eqn:Ev; [|done]. apply Z.eqb_eq in Ev.
  apply read_exact_io_inv in H as (l & r2 & Hl2 & Hd2 & He2 & H). destruct l as [|n [|]]; try done.
  cbv zeta in H. destruct (_ =? 0)%nat; [done|]. apply read_exact_io_inv in H as (u & r3 & Hu & Hd3 & He3 & H).
  apply read_exact_io_inv in H as (l & r4 & Hl4 & Hd4 & He4 & H). destruct l as [|m [|]]; try done.
  cbv zeta in H. destruct (_ =? 0)%nat; [done|]. apply read_exact_io_inv in H as (p & r5 & Hp & Hd5 & He5 & [= <- <-]).
  simpl. rewrite Hd, Hd2, Hd3, Hd4, Hd5. split; [|split; by eapply length_le_255]. unfold login_wire, PasswdAuthRequest_write_to_buf. simpl.
  rewrite (byte_of_u8_at [v] v [] _ eq_refl Ev), (length_byte [n] n [] u eq_refl Hu), (length_byte [m] m [] p eq_refl Hp).
  by rewrite <- app_assoc.
Qed.

(** ** Nothing without a login *)
Section Auth.
Context `{CS : CipherSuite, B64 : Base64, CN : !CipherNames, BL : Blake3, RL : IpRangeLib, XL : RegexLib, AE : AclEnv, FL : FakeDnsLib}.
Context (overflow_checks : bool) `{TR : Transports}.

(** Nothing was done but reading from the client and writing to it. *)
Definition served_nothing (s s' : Session) : Prop :=
  local s' = local s ∧ to_remote s' = to_remote s ∧ tunnel s' = tunnel s ∧ udp_held s' = udp_held s ∧ http_served s' = http_served s.

Lemma served_nothing_refl s : served_nothing s s.
Proof. by split_and!. Qed.

Lemma served_nothing_trans s1 s2 s3 : served_nothing s1 s2 → served_nothing s2 s3 → served_nothing s1 s3.
Proof. intros (? & ? & ? & ? & ?) (? & ? & ? & ? & ?). split_and!; congruence. Qed.

Lemma write_to_spec buf s : act_wp (write_to buf) (λ r s', served_nothing s s' ∧ input s' = input s) s.
Proof.
  unfold write_to. repeat wp_step. destruct buf as [data| |]; repeat wp_step; [|by repeat split..].
  unfold act_wp, write_all. destruct (writes s) as [|[[n e]|] ws]; by repeat split.
Qed.

Lemma refusal_spec buf e s :
  act_wp (_ ← attempt (F := io_error) (write_to buf); act_fail (A := unit) e) (λ r s', served_nothing s s' ∧ r ≠ Ok tt) s.
Proof. do 2 wp_step. eapply wp_mono; [apply write_to_spec|]. intros [[]|e'|p] s' [H _]; by repeat wp_step. Qed.

Lemma read_from_spec {E A} (p : parser reader E A) s :
  act_wp (read_from p) (λ r s', served_nothing s s' ∧ match r with Ok (inl a) => p (input s) = Ok (a, input s') | Ok (inr e) => p (input s) = Err e ∧ s' = s | _ => True end) s.
Proof. unfold act_wp, read_from. destruct (p (input s)) as [[a r]|e|m]; by repeat split. Qed.

(** The client has sent the name and password of a user. *)
Definition logged_in (cfg : Socks5AuthConfig) (s s' : Session) : Prop :=
  ∃ u p, rd_data (input s) = login_wire u p ++ rd_data (input s') ∧ (length u ≤ 255)%nat ∧ (length p ≤ 255)%nat ∧ auth_passwd cfg !! u = Some p.

Lemma check_auth_password_spec self s :
  act_wp (check_auth_password self) (λ r s', served_nothing s s' ∧
    (r = Ok tt → logged_in (auth self) s s')) s.
Proof.
  unfold check_auth_password. wp_step. eapply wp_mono; [apply read_from_spec|]. intros r s1 [Hs Hr].
  assert (∀ buf e, act_wp (_ ← attempt (F := io_error) (write_to buf); act_fail (A := unit) e)
    (λ r s', served_nothing s s' ∧ (r = Ok tt → logged_in (auth self) s s')) s1) as Href.
  { intros buf e. eapply wp_mono; [apply refusal_spec|]. simpl. intros r' s2 [H1 H2]. split; [by eapply served_nothing_trans|done]. }
  destruct r as [[q|err]|e|m]; wp_step; [|apply Href|by split..].
  destruct (from_utf8 (uname q)) as [u|] eqn:Eu; [|apply Href]. destruct (from_utf8 (passwd q)) as [p|] eqn:Ep; [|apply Href].
  apply from_utf8_Some in Eu as [-> _], Ep as [-> _]. apply passwd_read_inv in Hr as (Hd & Hl1 & Hl2).
  unfold check_user. destruct (auth_passwd (auth self) !! uname q) as [pwd|] eqn:Hu; [destruct (bool_decide_reflect (pwd = passwd q)) as [->|]|].
  - eapply wp_mono; [apply write_to_spec|]. intros r s2 [H1 H2]. split; [by eapply served_nothing_trans|]. intros _. exists (uname q), (passwd q). by rewrite H2.
  - wp_step. eapply wp_mono; [apply write_to_spec|]. intros [[]|e|m] s2 [H1 H2]; repeat wp_step; (split; [by eapply served_nothing_trans|done]).
  - wp_step. eapply wp_mono; [apply write_to_spec|]. intros [[]|e|m] s2 [H1 H2]; repeat wp_step; (split; [by eapply served_nothing_trans|done]).
Qed.

Lemma check_auth_spec self ms s :
  act_wp (check_auth self ms) (λ r s', served_nothing s s' ∧
    (r = Ok tt → (auth_required (auth self) = false ∧ input s' = input s) ∨
       b# SOCKS5_AUTH_METHOD_PASSWORD ∈ ms ∧ logged_in (auth self) s s')) s.
Proof.
  induction ms as [|m ms IH]; simpl check_auth.
  - wp_step. eapply wp_mono; [apply write_to_spec|]. intros [[]|e|p] s' [H _]; repeat wp_step; by split.
  - assert (act_wp (check_auth self ms) (λ r s', served_nothing s s' ∧
      (r = Ok tt → (auth_required (auth self) = false ∧ input s' = input s) ∨
         b# SOCKS5_AUTH_METHOD_PASSWORD ∈ m :: ms ∧ logged_in (auth self) s s')) s) as IH'.
    { eapply wp_mono; [exact IH|]. intros r s' [H1 H2]. split; [done|]. intros Hr.
      destruct (H2 Hr) as [?|[? ?]]; [by left|]. right. split; [by apply list_elem_of_further|done]. }
    destruct (Z.eqb_spec (byte.unsigned m) SOCKS5_AUTH_METHOD_PASSWORD) as [Hm|].
    + wp_step. eapply wp_mono; [apply write_to_spec|]. intros [[]|e|p] s1 [H1 H2]; repeat wp_step; [|by split..].
      eapply wp_mono; [apply check_auth_password_spec|]. intros r s' [H3 H4]. split; [by eapply served_nothing_trans|]. intros Hr.
      right. unfold logged_in in *. rewrite <- H2. split; [|by apply H4]. rewrite <- Hm, byte.of_Z_unsigned. apply list_elem_of_here.
    + destruct (_ =? _); [|exact IH']. destruct (auth_required (auth self)) eqn:Ha; [exact IH'|].
      eapply wp_mono; [apply write_to_spec|]. intros r s' [H1 H2]. by split; [|left].
Qed.

(** C13. With users configured nobody else is served over a TCP connection to the
    SOCKS server: whatever a client sends, over SOCKS4, SOCKS5 or HTTP, and however
    its writes end, unless its stream starts with an offer of password
    authentication and with the name and password of a configured user, nothing is
    connected to for the connection, no state of the service changes, no tunnel
    starts, no UDP associate request is granted and the HTTP server is not reached.
    This is about TCP only: the UDP server relays datagrams without any login
    ([udp_received]). *)
Theorem socks_requires_login env self s :
  auth_required (auth self) = true → ¬ authenticated (auth self) (rd_data (input s)) →
  served_nothing s (snd (handle_tcp_client overflow_checks env self s)).
Proof.
  intros Ha Hn. change (act_wp (handle_tcp_client overflow_checks env self) (λ _ s', served_nothing s s') s).
  unfold handle_tcp_client. repeat wp_step. destruct (rd_data (input s)) as [|version data] eqn:Hd; [repeat wp_step; apply served_nothing_refl|].
  rewrite <- Hd in Hn. rewrite Ha. destruct (_ =? 4); [repeat wp_step; apply served_nothing_refl|].
  destruct (_ =? 5); [|case_bool_decide; repeat wp_step; apply served_nothing_refl].
  unfold handle_socks5_client. wp_step. eapply wp_mono; [apply read_from_spec|]. intros r s1 [H1 Hr].
  destruct r as [[h|err]|e|m]; repeat wp_step; [|repeat case_match; by repeat wp_step|done..].
  eapply wp_mono; [apply check_auth_spec|]. intros [[]|e|m] s2 [H2 Hok]; repeat wp_step; [|by eapply served_nothing_trans..].
  exfalso. apply Hn. apply handshake_read_inv in Hr as [Hh Hl]. destruct (Hok eq_refl) as [[Hf _]|(Hm & u & p & Hu & Hlu & Hlp & Hp)]; [by rewrite Ha in Hf|].
  exists (methods h), u, p, (rd_data (input s2)). by rewrite Hh, Hu.
Qed.
End Auth.

(** ** A client that follows the protocol *)

(** The method the server picks: the first of the client's that it knows. *)
Fixpoint picked (required : bool) (ms : bytes) : option Z :=
  match ms with
  | [] => None
  | m :: ms =>
      if byte.unsigned m =? SOCKS5_AUTH_METHOD_PASSWORD then Some SOCKS5_AUTH_METHOD_PASSWORD
      else if (byte.unsigned m =? SOCKS5_AUTH_METHOD_NONE) && negb required then Some SOCKS5_AUTH_METHOD_NONE
      else picked required ms
  end.

(** What the client sends for the method, and what it is told. *)
Definition login_part (m : Z) (u p : bytes) : bytes := if m =? SOCKS5_AUTH_METHOD_PASSWORD then login_wire u p else [].
Definition login_reply (m : Z) : bytes := [b# 5; b# m] ++ (if m =? SOCKS5_AUTH_METHOD_PASSWORD then [b# 1; b# 0] else []).

(** A name and a password a client can send, of a configured user. *)
Definition login_ok (cfg : Socks5AuthConfig) (u p : bytes) : Prop :=
  is_ok (PasswdAuthRequest_new (E := Error) u p) = true ∧ utf8_valid u = true ∧ utf8_valid p = true ∧ check_user cfg u p = true.

Section Protocol.
Context `{CS : CipherSuite, B64 : Base64, CN : !CipherNames, BL : Blake3, RL : IpRangeLib, XL : RegexLib, AE : AclEnv, FL : FakeDnsLib}.
Context (overflow_checks : bool) `{TR : Transports}.

(** A message of the client, read from the front of its stream. *)
Lemma read_from_wire_eq {A} `{M : Message A} (a : A) w rest e (s : Session) :
  msg_roundtrips M → msg_ok a → msg_write a [] = Ok w → input s = Reader (w ++ rest) e →
  read_from msg_read s = (Ok (inl a), set_input (Reader rest e) s).
Proof.
  intros HM Ha Hw Hi. destruct (HM a Ha) as (w' & Hw' & _ & Hr). rewrite Hw' in Hw. injection Hw as <-.
  unfold read_from. by rewrite Hi, Hr.
Qed.

Lemma write_to_ok data (s : Session) : writes s = [] → write_to (Ok data) s = (Ok tt, wrote data [] s).
Proof. intros H. unfold write_to, mbind, action_bind, act_of, write_all. by rewrite H. Qed.

Lemma bind_eq {S E A B} (m : action S E A) (f : A → action S E B) s a s' : m s = (Ok a, s') → (m ≫= f) s = f a s'.
Proof. unfold mbind, action_bind. by intros ->. Qed.

Lemma check_auth_password_ok self u p rest e (s : Session) :
  login_ok (auth self) u p → writes s = [] → input s = Reader (login_wire u p ++ rest) e →
  check_auth_password self s = (Ok tt, wrote [b# 1; b# 0] [] (set_input (Reader rest e) s)).
Proof.
  intros (Hn & Hu & Hp & Hc) Hw Hi. unfold check_auth_password. erewrite bind_eq.
  2: { eapply (read_from_wire_eq (M := PasswdAuthRequest_message) {| uname := u; passwd := p |}); [apply passwd_messages_ok|done|done|exact Hi]. }
  simpl. rewrite !from_utf8_valid by done. rewrite Hc. by apply write_to_ok.
Qed.

Lemma check_auth_ok self ms m u p rest e (s : Session) :
  picked (auth_required (auth self)) ms = Some m → (m = SOCKS5_AUTH_METHOD_PASSWORD → login_ok (auth self) u p) →
  writes s = [] → input s = Reader (login_part m u p ++ rest) e →
  check_auth self ms s = (Ok tt, set_input (Reader rest e) (wrote (login_reply m) [] s)).
Proof.
  intros Hm Hl Hw Hi. induction ms as [|x ms IH]; [done|]. simpl in Hm |- *. destruct (_ =? SOCKS5_AUTH_METHOD_PASSWORD).
  - injection Hm as <-. unfold method_response at 1. rewrite (bind_eq _ _ _ _ _ (write_to_ok _ s Hw)).
    rewrite (check_auth_password_ok self u p rest e); [|by apply Hl|done|done].
    unfold wrote, set_input. simpl. by rewrite <- app_assoc.
  - destruct (_ =? SOCKS5_AUTH_METHOD_NONE); [|by apply IH]. destruct (auth_required (auth self)); [by apply IH|].
    injection Hm as <-. unfold method_response. rewrite write_to_ok by done. unfold wrote, set_input. simpl. by rewrite Hi.
Qed.

(** A client that follows the protocol gets to its request: when the server
    picks the method [m] from those offered and, for passwords, the client sends the
    name and password of a user, the server has answered exactly the choice and the
    success of the login, and goes on with exactly the request that was sent; what
    the client sent after it is untouched.  When no method can be picked, the client
    is told so and nothing of the rest is read. *)
Theorem socks5_negotiation env self ms u p h w rest e s :
  writes s = [] → (length ms ≤ 255)%nat → address_ok (req_address h) → TcpRequestHeader_write_to_buf (E := Error) h [] = Ok w →
  match picked (auth_required (auth self)) ms with
  | Some m =>
      (m = SOCKS5_AUTH_METHOD_PASSWORD → login_ok (auth self) u p) →
      input s = Reader (handshake_wire ms ++ login_part m u p ++ w ++ rest) e →
      handle_socks5_client overflow_checks env self s =
      handle_command overflow_checks env self h (set_input (Reader rest e) (wrote (login_reply m) [] s))
  | None =>
      input s = Reader (handshake_wire ms ++ rest) e →
      ∃ err, handle_socks5_client overflow_checks env self s = (Err err, set_input (Reader rest e) (wrote [b# 5; b# 255] [] s))
  end.
Proof.
  intros Hw Hms Ha Hh. destruct (picked (auth_required (auth self)) ms) as [m|] eqn:Hm; [intros Hl Hi|intros Hi]; unfold handle_socks5_client.
  - erewrite bind_eq. 2: { eapply (read_from_wire_eq (M := HandshakeRequest_message) {| methods := ms |}); [apply handshake_messages_ok|done|done|exact Hi]. }
    cbv beta iota. erewrite bind_eq. 2: { eapply check_auth_ok; [exact Hm|exact Hl|done|reflexivity]. }
    erewrite bind_eq. 2: { eapply (read_from_wire_eq (M := TcpRequestHeader_message) h); [apply request_message_ok|done|exact Hh|reflexivity]. }
    reflexivity.
  - erewrite bind_eq. 2: { eapply (read_from_wire_eq (M := HandshakeRequest_message) {| methods := ms |}); [apply handshake_messages_ok|done|done|exact Hi]. }
    cbv beta iota. unfold mbind, action_bind at 1.
    assert (∀ s1, writes s1 = [] → ∃ err, check_auth self ms s1 = (Err err, wrote [b# 5; b# 255] [] s1)) as Hc.
    { clear Hi. intros s1 H1. induction ms as [|x ms IH]; simpl in Hm |- *.
      - unfold method_response. rewrite (bind_eq _ _ _ _ _ (write_to_ok _ s1 H1)). by eexists.
      - destruct (_ =? SOCKS5_AUTH_METHOD_PASSWORD); [done|]. simpl in Hms. destruct (_ =? SOCKS5_AUTH_METHOD_NONE); [|apply IH; [lia|done]].
        simpl in Hm. destruct (auth_required (auth self)); [apply IH; [lia|done]|done]. }
    simpl. destruct (Hc (set_input (Reader rest e) s) Hw) as [err ->]. by exists err.
Qed.

(** Without users a client that names password authentication first is asked for a
    password and refused whatever it answers, also if it offers to go without: it
    is served nothing. *)
Theorem password_offer_refused env self h s :
  auth_required (auth self) = false → HandshakeRequest_read_from (input s) = Ok h → head (methods h.1) = Some (b# SOCKS5_AUTH_METHOD_PASSWORD) →
  served_nothing s (snd (handle_socks5_client overflow_checks env self s)).
Proof.
  intros Ha Hr Hh. change (act_wp (handle_socks5_client overflow_checks env self) (λ _ s', served_nothing s s') s).
  unfold handle_socks5_client. wp_step. eapply wp_mono; [apply read_from_spec|]. intros r s1 [H1 Hr1]. rewrite Hr in Hr1.
  destruct r as [[q|err]|e|m]; wp_step; [|by destruct Hr1|done..]. injection Hr1 as ->. simpl in Hh.
  destruct (methods q) as [|x ms]; [done|]. injection Hh as ->. wp_step. simpl check_auth.
  wp_step. eapply wp_mono; [apply write_to_spec|]. intros [[]|e|m] s2 [H2 _]; wp_step; [|by eapply served_nothing_trans..].
  eapply wp_mono; [apply check_auth_password_spec|]. intros [[]|e|m] s3 [H3 H4]; try wp_step.
  - destruct (H4 eq_refl) as (u & p & _ & _ & _ & Hu). unfold auth_required, total_users in Ha. apply Nat.ltb_ge, Nat.le_0_r, map_size_empty_iff in Ha.
    by rewrite Ha in Hu.
  - do 2 (eapply served_nothing_trans; [eassumption|]). done.
  - do 2 (eapply served_nothing_trans; [eassumption|]). done.
Qed.
End Protocol.

(** ** What goes into the tunnel *)
Section Tunnels.
Context `{CS : CipherSuite, B64 : Base64, CN : !CipherNames, BL : Blake3, RL : IpRangeLib, XL : RegexLib, AE : AclEnv, FL : FakeDnsLib}.
Context (overflow_checks : bool) `{TR : Transports}.

(** The bytes of the client that have been passed on or are still to be copied. *)
Definition in_flight (s : Session) : bytes := concat (to_remote s) ++ rd_data (input s).

(** From [s] on: no byte was passed on twice or out of order, and once the copying
    has started none is missing; [st] is the remote end it copies to. *)
Definition tunnel_ok (st : AutoProxyClientStream) (s s' : Session) : Prop :=
  match tunnel s' with
  | Some t => t_remote t = st ∧ in_flight s' = in_flight s ∧ rd_end (input s') = rd_end (input s) ∧ (is_Some (t_method t) ↔ is_proxied st = true)
  | None => True
  end.

Lemma write_remote_spec env data s :
  act_wp (write_remote env data) (λ r s', tunnel s' = tunnel s ∧ input s' = input s ∧ local s' = local s ∧
    (r = Ok tt → to_remote s' = to_remote s ++ [data])) s.
Proof. unfold act_wp, write_remote. destruct (remote_write env data) as [[n e]|]; by split_and!. Qed.

Lemma timed_read_spec env n s : (0 < n)%nat →
  act_wp (timed_read env n) (λ r s', tunnel s' = tunnel s ∧ to_remote s' = to_remote s ∧ local s' = local s ∧ rd_end (input s') = rd_end (input s) ∧
    match r with
    | Ok (Some data) => rd_data (input s) = data ++ rd_data (input s') ∧ (length data ≤ n)%nat
    | _ => input s' = input s
    end) s.
Proof.
  intros Hn. unfold act_wp, timed_read. destruct (first_read env) as [k|]; [|by split_and!].
  destruct (rd_data (input s)) as [|x l] eqn:Hd; [destruct (rd_end (input s)) eqn:He; simpl; split_and!; try done; lia|].
  split_and!; try done; cbn [fst snd input set_input rd_data]; split; [by rewrite take_drop|rewrite length_take; lia].
Qed.

Lemma establish_tcp_tunnel_spec env cfg st s : tunnel s = None → is_proxied st = true →
  act_wp (establish_tcp_tunnel env cfg st) (λ _ s', tunnel_ok st s s') s.
Proof.
  intros Ht Hp. unfold establish_tcp_tunnel. rewrite Hp. cbn [negb]. wp_step.
  eapply wp_mono; [apply timed_read_spec; lia|]. intros r s1 (H1 & H2 & H3 & H4 & H5).
  assert (∀ data, in_flight s = concat (to_remote s1) ++ data ++ rd_data (input s1) →
    act_wp (_ ← write_remote env data; act_mod (tunnelled {| t_remote := st; t_method := Some (method cfg) |})) (λ _ s', tunnel_ok st s s') s1) as Hw.
  { intros data Hd. wp_step. eapply wp_mono; [apply write_remote_spec|]. intros [[]|e|m] s2 (K1 & K2 & K3 & K4); wp_step.
    - wp_step. unfold tunnel_ok. simpl. split_and!; [done| |by rewrite K2|by rewrite Hp; split; eauto].
      unfold in_flight at 1. simpl. rewrite (K4 eq_refl), concat_app, Hd, K2. simpl. by rewrite app_nil_r, <- app_assoc.
    - unfold tunnel_ok. by rewrite K1, H1, Ht.
    - unfold tunnel_ok. by rewrite K1, H1, Ht. }
  destruct r as [[[|x data]|]|e|m]; wp_step; try (unfold tunnel_ok; by rewrite H1, Ht).
  - wp_step. unfold tunnel_ok. by rewrite H1, Ht.
  - apply Hw. destruct H5 as [H5 _]. unfold in_flight. by rewrite H2, H5.
  - apply Hw. unfold in_flight. by rewrite H2, H5.
Qed.

Lemma establish_spec env o st s : tunnel s = None → (o = None → is_proxied st = false) →
  act_wp (establish env o st) (λ _ s', tunnel_ok st s s') s.
Proof.
  assert (∀ s1, in_flight s1 = in_flight s → rd_end (input s1) = rd_end (input s) → is_proxied st = false →
    act_wp (establish_tcp_tunnel_bypassed st) (λ _ s', tunnel_ok st s s') s1) as Hb.
  { intros s1 Hi He Hp. unfold establish_tcp_tunnel_bypassed. wp_step. unfold tunnel_ok. simpl. rewrite Hp. split_and!; try done; by intros []. }
  intros Ht Ho. destruct o as [i|]; simpl; [|by apply Hb; [..|apply Ho]].
  wp_step. unfold act_wp at 1, in_local, get_server. destruct (servers (balancer (local s)) !! i) as [srv|]; simpl.
  - destruct (is_proxied st) eqn:Hp; [|unfold establish_tcp_tunnel; rewrite Hp; by apply Hb].
    eapply wp_mono; [by apply establish_tcp_tunnel_spec|]. done.
  - unfold tunnel_ok. simpl. by rewrite Ht.
Qed.

(** Without servers the stream is a direct one. *)
Lemma connect_balanced_spec net addr l :
  act_wp (connect_balanced overflow_checks net addr) (λ r _, match r with Ok (inl st, None) => is_proxied st = false | _ => True end) l.
Proof.
  unfold connect_balanced. wp_step. wp_step. case_bool_decide; repeat wp_step.
  - unfold connect_bypassed_with_opts. wp_step. unfold act_wp at 1. destruct (map_target net addr l) as [[a| |] l1]; simpl; [|done..].
    unfold act_wp. rewrite connect_bypassed_inner_eq. simpl. by destruct (connect_remote net a).
  - unfold act_wp at 1, best_tcp_server. destruct (best_server Tcp (balancer l)); simpl; [|done..]. repeat wp_step.
    unfold act_wp at 1. destruct (connect_with_opts _ _ _ _ _) as [[| |] l1]; by simpl.
Qed.

Lemma served_in_flight s s1 : served_nothing s s1 → input s1 = input s → in_flight s1 = in_flight s ∧ tunnel s1 = tunnel s.
Proof. intros (_ & H1 & H2 & _) Hi. unfold in_flight. by rewrite H1, Hi. Qed.

(** The bytes a SOCKS4 client sent after its request are handed over in order. *)
Lemma transfer_buffer_spec env s :
  act_wp (transfer_buffer env) (λ r s', tunnel s' = tunnel s ∧ rd_end (input s') = rd_end (input s) ∧ (r = Ok tt → in_flight s' = in_flight s)) s.
Proof.
  unfold transfer_buffer. do 2 wp_step. wp_step. wp_step. case_bool_decide as Hb; cbn [negb].
  - repeat wp_step. cbn [tunnel input set_input rd_end]. split_and!; [done..|]. intros _. unfold in_flight. simpl. f_equal.
    rewrite <- (take_drop (buffered env) (rd_data (input s))) at 2. by rewrite Hb.
  - eapply wp_mono; [apply write_remote_spec|]. intros [[]|e|m] s1 (K1 & K2 & _ & K4); wp_step; [|by rewrite K2..].
    wp_step. simpl. rewrite K1, K2. split_and!; [done..|]. intros _. unfold in_flight. simpl. rewrite (K4 eq_refl), concat_app. simpl.
    by rewrite app_nil_r, <- app_assoc, take_drop.
Qed.

(** What every handler of a connect request ends with. *)
Definition connect_post (net_ : Network) (addr : Address) (s : Session) (r : outcome io_error unit) (s' : Session) : Prop :=
  match tunnel s' with
  | None => True
  | Some _ => ∃ st o l, connect_balanced overflow_checks net_ addr (local s) = (Ok (inl st, o), l) ∧ tunnel_ok st s s'
  end.

Lemma establish_post env addr s s1 st o l :
  connect_balanced overflow_checks (net env) addr (local s) = (Ok (inl st, o), l) →
  tunnel s1 = None → in_flight s1 = in_flight s → rd_end (input s1) = rd_end (input s) →
  act_wp (establish env o st) (connect_post (net env) addr s) s1.
Proof.
  intros Hc Ht Hi He. eapply wp_mono; [apply establish_spec; [done|]|].
  - intros ->. pose proof (wp_use _ _ _ _ _ (connect_balanced_spec (net env) addr (local s)) Hc). done.
  - intros r s' Hok. unfold connect_post. destruct (tunnel s') as [t|] eqn:E; [|done]. exists st, o, l. split; [done|].
    unfold tunnel_ok in *. rewrite E in *. by rewrite Hi, He in Hok.
Qed.

Lemma connect_post_none net_ addr s r s' : tunnel s' = None → connect_post net_ addr s r s'.
Proof. unfold connect_post. by intros ->. Qed.

(** A refusal of a request. *)
Lemma reply_post net_ addr buf s : tunnel s = None → act_wp (write_to buf) (connect_post net_ addr s) s.
Proof.
  intros Ht. eapply wp_mono; [apply write_to_spec|]. intros r s' [(_ & _ & H & _) _]. apply connect_post_none. by rewrite H.
Qed.

Lemma reply_fail_post net_ addr buf e s s1 : tunnel s1 = None →
  act_wp (_ ← write_to buf; act_fail e) (connect_post net_ addr s) s1.
Proof.
  intros Ht. wp_step. eapply wp_mono; [apply write_to_spec|].
  intros [[]|e'|m] s' [(_ & _ & H & _) _]; repeat wp_step; apply connect_post_none; by rewrite H.
Qed.

(** C14. Nothing a client sends is lost on its way into a tunnel: when a SOCKS5 or
    SOCKS4 connect request ends in a tunnel, its remote end is the stream that the
    connection to the target gave, and what was written to it before the copying
    starts, followed by what the copying has yet to read, is exactly what the client
    sent after the request; this includes the bytes a SOCKS4 server has read ahead,
    and the first packet that is waited for.  The copying is encrypted exactly when
    the stream goes through a server. *)
Theorem tunnel_keeps_bytes env self s :
  tunnel s = None →
  (∀ target, act_wp (handle_tcp_connect overflow_checks env self target) (connect_post (net env) target s) s) ∧
  (∀ target, act_wp (handle_socks4_connect overflow_checks env self target) (connect_post (net env) (Socks4.Socks4.to_socks5 target) s) s).
Proof.
  intros Ht. split; intros target; [unfold handle_tcp_connect|unfold handle_socks4_connect].
  - destruct (enable_tcp (handler_mode self)); cbn [negb]; [|by apply reply_post].
    wp_step. unfold act_wp at 1, in_local. destruct (connect_balanced _ _ _ _) as [[[[st|err] o]|e|m] l] eqn:Hc; cbn [fst snd].
    2-4: wp_step; first [by apply reply_fail_post|by apply connect_post_none].
    repeat wp_step. destruct (stream_local_addr (net env) st) as [a|e|m]; wp_step; [|by apply connect_post_none..].
    wp_step. eapply wp_mono; [apply write_to_spec|]. intros [[]|e|m] s1 [H Hi]; pose proof (served_in_flight _ _ H Hi) as [Hf Ht1]; wp_step.
    + eapply establish_post; [exact Hc|by rewrite Ht1|by rewrite Hf|by rewrite Hi].
    + apply connect_post_none. by rewrite Ht1.
    + apply connect_post_none. by rewrite Ht1.
  - destruct (enable_tcp (handler_mode self)); cbn [negb]; [|by apply reply_post].
    wp_step. unfold act_wp at 1, in_local. destruct (connect_balanced _ _ _ _) as [[[[st|err] o]|e|m] l] eqn:Hc; cbn [fst snd].
    2-4: wp_step; first [by apply reply_fail_post|by apply connect_post_none].
    do 2 wp_step. eapply wp_mono; [apply write_to_spec|]. intros [[]|e|m] s1 [H Hi]; pose proof (served_in_flight _ _ H Hi) as [Hf Ht1]; wp_step;
      [|apply connect_post_none; by rewrite Ht1..].
    wp_step. eapply wp_mono; [apply transfer_buffer_spec|]. intros [[]|e|m] s2 (K1 & K2 & K3); wp_step; [|apply connect_post_none; by rewrite K1, Ht1..].
    eapply establish_post; [exact Hc|by rewrite K1, Ht1|by rewrite K3, Hf by done|by rewrite K2, Hi].
Qed.
End Tunnels.

(** ** Datagrams *)
Lemma unmap_address_wf a : Address_wf a → Address_wf (unmap_address a).
Proof.
  destruct a as [[ip port|ip port f sc]|]; [exact (λ H, H)| |exact (λ H, H)]. cbn [unmap_address]. destruct (to_ipv4_mapped ip) as [v4|] eqn:E; [|exact (λ H, H)].
  intros (_ & Hp & _). unfold to_ipv4_mapped in E. destruct (_ =? _); [|discriminate]. injection E as <-. split; [|exact Hp].
  apply Z.mod_pos_bound. lia.
Qed.

(** What the SOCKS5 server sends to its client as the answer of [a] is read by
    the rules of the server itself as the payload from [a], where an IPv4 address in
    its IPv6 form has become IPv4 and the flow label and scope, for which there is no
    room, are dropped; and a datagram with a fragment number is never relayed. *)
Theorem socks5_udp_roundtrip a data :
  Address_wf a → Address_fits a →
  (∃ pkt, udp_send_to a data = Ok pkt ∧ udp_received pkt = Some (Address_canon (unmap_address a), data) ∧
     length pkt = (3 + Address_serialized_len (unmap_address a) + length data)%nat) ∧
  (∀ f pkt, in_u 8 f → f ≠ 0 → UdpAssociateHeader_write_to_buf (E := Error) {| frag := f; udp_address := a |} [] = Ok pkt → udp_received (pkt ++ data) = None).
Proof.
  intros Hwf Hf. assert (Address_fits (unmap_address a)) as Hf' by (by destruct a as [[]|]). pose proof (unmap_address_wf a Hwf) as Hwf'. split.
  - exists ([b# 0; b# 0; b# 0] ++ address_wire (unmap_address a) ++ data). split_and!.
    + unfold udp_send_to, UdpAssociateHeader_write_to_buf, Address_write_to_buf. cbn [frag udp_address]. rewrite write_address_wire by done. reflexivity.
    + unfold udp_received, UdpAssociateHeader_read_from. erewrite (bind_read_app 3 [b# 0; b# 0; b# 0]) by done.
      unfold mbind, parser_bind. rewrite read_from_wire by done. done.
    + rewrite !length_app, length_address_wire. simpl. lia.
  - intros f pkt Hfr Hn. unfold UdpAssociateHeader_write_to_buf, Address_write_to_buf. cbn [frag udp_address]. rewrite write_address_wire by done. intros [= <-].
    unfold udp_received, UdpAssociateHeader_read_from. simpl app. change (b# 0 :: b# 0 :: b# f :: address_wire a ++ data) with ([b# 0; b# 0; b# f] ++ address_wire a ++ data).
    rewrite (bind_read_app 3 [b# 0; b# 0; b# f]) by done. unfold mbind, parser_bind. rewrite read_from_wire by done. simpl. rewrite u8_at_2 by apply Hfr.
    by rewrite (proj2 (Z.eqb_neq _ _) Hn).
Qed.

(** ** Examples *)
Module SocksExamples.
Import Toy ToyConf Acl.AclExamples FakeDns.FakeDnsExamples.
#[local] Existing Instances list_range literal_regex toy_env toy_lib.
#[local] Instance units : Transports := {| Conn := unit; Chain := unit; Carrier := unit; RealmStream := unit |}.

Definition demo_net : Network :=
  {| connect_remote _ := Ok tt; outbound_client := None; realm_connect _ _ := Err ConnectionRefused; realm_connect_target _ _ := Ok tt;
     conn_local_addr _ := Ok (V4 2130706433 5000); chain_local_addr _ := Ok (V4 0 0); clock _ := 100; failed_at := 0 |}.
Definition demo_env : Surroundings :=
  {| net := demo_net; first_read := Some 3%nat; remote_write _ := None; buffered := 2; serve_connection := Ok tt |}.
Definition demo_handler : Handler :=
  {| udp_associate_addr := ServerConf.SocketAddr (V4 2130706433 1080); handler_mode := TcpAndUdp;
     auth := add_user (str "bob") (str "secret") Socks5AuthConfig_new; peer_addr := V4 2130706433 4000 |}.
(** A balancer without servers: everything goes straight to its target. *)
Definition demo_balancer : PingBalancerContext :=
  {| servers := []; best_tcp_idx := 0; best_udp_idx := 0; balancer_mode := TcpAndUdp; max_rtt := 0; check_interval := 0; check_best_interval := None |}.
Definition demo_local : Local :=
  {| context := {| acl := None; reverse_lookup_cache := ∅; fake_dns_manager := [fresh] |}; balancer := demo_balancer; realms := ∅; dials := [] |}.
Definition demo_session (data : bytes) : Session :=
  {| input := Reader data None; writes := []; output := []; local := demo_local; to_remote := []; tunnel := None; udp_held := false; http_served := false |}.

Definition web : Address := SocketAddress (V4 16909060 80).
Definition demo_request : TcpRequestHeader := {| req_command := TcpConnect; req_address := web |}.
Definition demo_request_wire : bytes := [b# 5; b# 1; b# 0] ++ address_wire web.

(** A client that offers to go without a login. *)
Definition anonymous : bytes := handshake_wire [b# 0] ++ demo_request_wire ++ str "GET /".

Lemma socks_requires_login_witness :
  served_nothing (demo_session anonymous) (snd (handle_tcp_client true demo_env demo_handler (demo_session anonymous))).
Proof.
  apply (socks_requires_login true demo_env demo_handler); [reflexivity|].
  intros (ms & u & p & rest & Hd & Hms & _ & _ & Hm & _). destruct (proj1 handshake_messages_ok {| methods := ms |} Hms) as (w & Hw & _ & Hr).
  specialize (Hw []). injection Hw as <-.
  assert (HandshakeRequest_read_from (Reader anonymous None) = Ok ({| methods := ms |}, Reader (login_wire u p ++ rest) None)) as E.
  { change anonymous with (rd_data (input (demo_session anonymous))). rewrite Hd. apply Hr. }
  injection E as <- _. apply list_elem_of_singleton in Hm. discriminate Hm.
Defined.

(** The same with a login, and what the client is told. *)
Definition bob : bytes := handshake_wire [b# 0; b# 2] ++ login_wire (str "bob") (str "secret") ++ demo_request_wire ++ str "GET /".

Lemma socks5_negotiation_witness :
  handle_socks5_client true demo_env demo_handler (demo_session bob) =
  handle_command true demo_env demo_handler demo_request (set_input (Reader (str "GET /") None) (wrote (login_reply SOCKS5_AUTH_METHOD_PASSWORD) [] (demo_session bob))).
Proof.
  pose proof (socks5_negotiation true demo_env demo_handler [b# 0; b# 2] (str "bob") (str "secret") demo_request demo_request_wire (str "GET /") None (demo_session bob)) as H.
  assert (picked (auth_required (auth demo_handler)) [b# 0; b# 2] = Some SOCKS5_AUTH_METHOD_PASSWORD) as E by reflexivity.
  rewrite E in H. apply H; clear H.
  - reflexivity.
  - simpl. lia.
  - split; [split; split; lia|split; [exact I|reflexivity]].
  - reflexivity.
  - intros _. split_and!; reflexivity.
  - reflexivity.
Defined.

Example bob_served :
  let s' := snd (handle_tcp_client true demo_env demo_handler (demo_session bob)) in
  dials (local s') = [DialedTcp web] ∧ is_Some (tunnel s') ∧ in_flight s' = str "GET /" ∧
  output s' = [b# 5; b# 2; b# 1; b# 0; b# 5; b# 0; b# 0] ++ address_wire (SocketAddress (V4 2130706433 5000)).
Proof. split_and!; [reflexivity|by eexists|reflexivity|reflexivity]. Qed.

Lemma tunnel_keeps_bytes_witness :
  connect_post true demo_net web (demo_session (str "abc")) (Ok tt)
    (snd (handle_tcp_connect true demo_env demo_handler web (demo_session (str "abc")))).
Proof. exact (proj1 (tunnel_keeps_bytes true demo_env demo_handler (demo_session (str "abc")) eq_refl) web). Defined.

Lemma socks5_udp_roundtrip_witness :
  ∃ pkt, udp_send_to (SocketAddress (V6 (to_ipv6_mapped 16909060) 53 0 7)) (str "ok") = Ok pkt ∧ udp_received pkt = Some (SocketAddress (V4 16909060 53), str "ok").
Proof.
  destruct (socks5_udp_roundtrip (SocketAddress (V6 (to_ipv6_mapped 16909060) 53 0 7)) (str "ok")) as [(pkt & H1 & H2 & _) _].
  - split_and!; apply (bool_decide_unpack _); vm_compute; reflexivity.
  - exact I.
  - exists pkt. split; [exact H1|exact H2].
Defined.

(** A client of a server without users that offers a password before going without. *)
Definition eager : bytes := handshake_wire [b# 2; b# 0] ++ login_wire (str "any") (str "thing") ++ demo_request_wire.
Example eager_refused :
  let self := {| udp_associate_addr := udp_associate_addr demo_handler; handler_mode := TcpAndUdp; auth := Socks5AuthConfig_new; peer_addr := V4 0 0 |} in
  let s' := snd (handle_socks5_client true demo_env self (demo_session eager)) in
  output s' = [b# 5; b# 2; b# 1; b# 255] ∧ served_nothing (demo_session eager) s'.
Proof. split; [reflexivity|]. by split_and!. Qed.
End SocksExamples.
