(* ===== verification/ServerTcp.v ===== *)
(** * The TCP relay of the remote server (crates/shadowsocks-service/src/server/tcprelay.rs, server/context.rs)

    One turn of the accept loop and the life of a client: the handshake on its
    decrypted stream, access control, the connection to the target, the first
    packet and the tunnel.  Calls that wait are a [Fut]: the time they take, if
    they end, and their result.  Shown: the server connects only to the target of
    a complete handshake of an admitted client, and only if the access control
    list lets it; what it does with clients that fail the handshake; every byte
    after the header goes into the tunnel; it always gets that far or ends when a
    timeout is configured; and what a client of this program sends reaches exactly
    its target. *)
From S2P Require Import Prelude.
From S2P Require Import External.
From S2P Require Import Socks5.
From S2P Require Import UdpAead2022.
From S2P Require Import TcpProtocol.
From S2P Require Import StdNet.
From S2P Require Import SubDomainsTree.
From S2P Require Import Acl.
From S2P Require Import ProxyStream.

(** ** Waiting *)
Record Fut (A : Type) := { took : option Z; result : outcome io_error A }.
Arguments took {A} _.
Arguments result {A} _.

(** [None]: it never returns.  [time::timeout] looks at the future before the
    clock. *)
Definition timeout_fut {A} (duration : option Z) (f : Fut A) : option (outcome io_error A) :=
  match duration, took f with
  | None, None => None
  | None, Some _ => Some (result f)
  | Some d, Some t => Some (if t <=? d then result f else Err TimedOut)
  | Some d, None => Some (Err TimedOut)
  end.

Section Relay.
Context `{CS : CipherSuite, RL : IpRangeLib, XL : RegexLib, AE : AclEnv}.

(** ** The context (server/context.rs) *)
Definition context_check_outbound_blocked (acl : option AccessControl) (addr : Address) : bool :=
  match acl with None => false | Some acl => check_outbound_blocked acl addr end.

Definition context_check_client_blocked (acl : option AccessControl) (addr : SocketAddr) : bool :=
  match acl with None => false | Some acl => check_client_blocked acl addr end.

(** ** A client *)
Inductive Outbound := Direct | Proxied.

(** What the server does. *)
Inductive effect :=
| Served
| SetLinger
| SilentDrop
| Connect (way : Outbound) (addr : Address)
| ToRemote (data : bytes)
| Copying.

Record TcpServerClient := { client_method : CipherKind; client_peer : SocketAddr; client_timeout : option Z }.

(** What the surroundings answer: how long the handshake takes and the chunk that
    [current_data_chunk_remaining] reports; whether there is an outbound chain, and
    the connection to the target; whether the silent drop sees the end of the
    stream; TCP fast open, the bytes there are when the first packet is waited for
    (None: none within 500ms), and the write of that packet. *)
Record Surroundings := {
  acl : option AccessControl;
  handshake_took : option Z;
  chunk : Z * nat;
  outbound_client : bool;
  connect : Address → Fut unit;
  client_ends : bool;
  fastopen : bool;
  first_read : option nat;
  write_remote : bytes → Fut unit;
}.

(** A result ([None]: still waiting), what was done, and what is left of the
    client's decrypted stream. *)
Abbreviation served := (option (outcome io_error unit) * list effect * reader)%type.

Definition then_ (es : list effect) (x : served) : served := let '(r, es', rest) := x in (r, es ++ es', rest).

(** The write of a first packet, then the tunnel; how the tunnel ends is logged. *)
Definition first_packet (env : Surroundings) (self : TcpServerClient) (data : bytes) (rest : reader) : served :=
  match timeout_fut (client_timeout self) (write_remote env data) with
  | Some (Ok _) => (Some (Ok tt), [ToRemote data; Copying], rest)
  | Some (Err e) => (Some (Err e), [], rest)
  | Some (Panic m) => (Some (Panic m), [], rest)
  | None => (None, [], rest)
  end.

Definition establish (env : Surroundings) (self : TcpServerClient) (stream : reader) : served :=
  if fastopen env then
    match first_read env with
    | Some k =>
        match rd_data stream with
        | [] => match rd_end stream with None => (Some (Ok tt), [], stream) | Some e => (Some (Err e), [], stream) end
        | data =>
            let n := Nat.min (Z.to_nat 8192) (Nat.max 1 k) in
            first_packet env self (take n data) (Reader (drop n data) (rd_end stream))
        end
    | None => first_packet env self [] stream
    end
  else (Some (Ok tt), [Copying], stream).

(** What becomes of a client whose handshake failed with [err]. *)
Definition handshake_failed (env : Surroundings) (self : TcpServerClient) (err : io_error) (stream : reader) : served :=
  match err with
  | UnexpectedEof => (Some (Ok tt), [], stream)
  | TimedOut => (Some (Ok tt), [], stream)
  | _ =>
      if is_aead_2022 (client_method self) then (Some (Ok tt), [SetLinger], stream)
      else (if client_ends env then Some (Ok tt) else None, [SilentDrop], stream)
  end.

Definition serve_target (env : Surroundings) (self : TcpServerClient) (target_addr : Address) (stream : reader) : served :=
  if context_check_outbound_blocked (acl env) target_addr then (Some (Ok tt), [], stream)
  else
    let way := if outbound_client env then Proxied else Direct in
    match timeout_fut (client_timeout self) (connect env target_addr) with
    | Some (Ok _) => then_ [Connect way target_addr] (establish env self stream)
    | Some (Err err) => (Some (Err err), [Connect way target_addr], stream)
    | Some (Panic m) => (Some (Panic m), [Connect way target_addr], stream)
    | None => (None, [Connect way target_addr], stream)
    end.

(** [self.stream.handshake()], with what is left of the stream in the result. *)
Definition handshake (env : Surroundings) (self : TcpServerClient) (stream : reader) : Fut (Address * reader) :=
  {| took := handshake_took env; result := server_handshake false (client_method self) (chunk env) stream |}.

Definition serve (env : Surroundings) (self : TcpServerClient) (stream : reader) : served :=
  match timeout_fut (client_timeout self) (handshake env self stream) with
  | Some (Ok (target_addr, rest)) => serve_target env self target_addr rest
  | Some (Err err) => handshake_failed env self err stream
  | Some (Panic m) => (Some (Panic m), [], stream)
  | None => (None, [], stream)
  end.

(** One turn of [TcpServer::run] for an accepted connection; the client is served
    in a task of its own. *)
Definition accepted (env : Surroundings) (self : TcpServerClient) (stream : reader) : served :=
  if context_check_client_blocked (acl env) (client_peer self) then (Some (Ok tt), [], stream)
  else then_ [Served] (serve env self stream).

(** ** What was done *)
Definition connected (es : list effect) : list (Outbound * Address) :=
  omap (λ e, match e with Connect w a => Some (w, a) | _ => None end) es.
Definition forwarded (es : list effect) : bytes :=
  concat (omap (λ e, match e with ToRemote d => Some d | _ => None end) es).

Lemma timeout_fut_Ok {A} d (f : Fut A) x : timeout_fut d f = Some (Ok x) → result f = Ok x ∧ is_Some (took f).
Proof.
  unfold timeout_fut. destruct d as [d|], (took f) as [t|]; try done; [|by intros [= ->]; eauto].
  destruct (t <=? d); [intros [= ->]; eauto|done].
Qed.

Lemma timeout_fut_ends {A} d (f : Fut A) : timeout_fut (Some d) f ≠ None.
Proof. unfold timeout_fut. by destruct (took f). Qed.

Lemma establish_effects env self stream :
  let '(r, es, rest) := establish env self stream in
  connected es = [] ∧ Served ∉ es ∧ (Copying ∈ es → forwarded es ++ rd_data rest = rd_data stream ∧ rd_end rest = rd_end stream ∧ r = Some (Ok tt)).
Proof.
  assert (∀ data rest0, data ++ rd_data rest0 = rd_data stream → rd_end rest0 = rd_end stream →
    let '(r, es, rest) := first_packet env self data rest0 in
    connected es = [] ∧ Served ∉ es ∧ (Copying ∈ es → forwarded es ++ rd_data rest = rd_data stream ∧ rd_end rest = rd_end stream ∧ r = Some (Ok tt))) as Hp.
  { intros data rest0 Hd He. unfold first_packet. destruct (timeout_fut _ _) as [[[]|e|m]|]; (split; [done|split; [set_solver|]]); try (intros H; set_solver).
    intros _. unfold forwarded. simpl. by rewrite app_nil_r. }
  unfold establish. destruct (fastopen env).
  - destruct (first_read env) as [k|]; [|by apply Hp].
    destruct (rd_data stream) as [|x l] eqn:Hd.
    + destruct (rd_end stream); (split; [done|split; [set_solver|intros H; set_solver]]).
    + rewrite <- Hd in *. apply Hp; [apply take_drop|done].
  - split; [done|split; [set_solver|by intros _]].
Qed.

(** C10. What the remote server does for a connection.  A client that the access
    control list blocks is not even served.  Otherwise a connection is made only
    when the handshake has come to its end in time, at most one, and exactly to the
    address the client sent, which the list must not block; and when the tunnel
    starts, what was passed on before it and what it has yet to copy is everything
    the client sent after the header. *)
Theorem server_connects_only_admitted env self stream :
  let '(r, es, rest) := accepted env self stream in
  (context_check_client_blocked (acl env) (client_peer self) = true → es = [] ∧ rest = stream) ∧
  (connected es ≠ [] →
     context_check_client_blocked (acl env) (client_peer self) = false ∧
     ∃ way a rest0, connected es = [(way, a)] ∧ (way = Proxied ↔ outbound_client env = true) ∧
       timeout_fut (client_timeout self) (handshake env self stream) = Some (Ok (a, rest0)) ∧
       context_check_outbound_blocked (acl env) a = false ∧
       (Copying ∈ es → r = Some (Ok tt) ∧ forwarded es ++ rd_data rest = rd_data rest0 ∧ rd_end rest = rd_end rest0)) ∧
  (connected es = [] → Copying ∉ es ∧ forwarded es = []).
Proof.
  unfold accepted. destruct (context_check_client_blocked _ _).
  { split; [done|]. split; [done|]. intros _. split; [set_solver|done]. }
  unfold serve. destruct (timeout_fut _ (handshake env self stream)) as [[[a rest0]|err|m]|]; simpl.
  3, 4: split; [done|]; split; [done|]; intros _; split; [set_solver|done].
  - unfold serve_target. destruct (context_check_outbound_blocked (acl env) a) eqn:Hb; simpl.
    { split; [done|]. split; [done|]. intros _. split; [set_solver|done]. }
    assert (((if outbound_client env then Proxied else Direct) = Proxied ↔ outbound_client env = true)) as Hw by (by destruct (outbound_client env)).
    set (way := if outbound_client env then Proxied else Direct) in *.
    destruct (timeout_fut _ (connect env a)) as [[[]|err|m]|]; simpl.
    2-4: split; [done|]; split; [|done]; intros _; split; [done|]; exists way, a, rest0; split_and!; try done; intros H; set_solver.
    pose proof (establish_effects env self rest0) as He. destruct (establish env self rest0) as [[r es] rest]. destruct He as (H1 & H2 & H3). simpl.
    split; [done|]. split; [|done]. intros _. split; [done|]. exists way, a, rest0. unfold connected in *. simpl. rewrite H1. split_and!; try done.
    intros Hc. assert (Copying ∈ es) as Hc' by set_solver. destruct (H3 Hc') as (K1 & K2 & K3). by split_and!.
  - unfold handshake_failed. destruct err; simpl; try destruct (is_aead_2022 _); simpl; (split; [done|split; [done|]]); intros _; (split; [set_solver|done]).
Qed.

(** A client that fails the handshake: the end of its stream and the timeout close
    the connection; a bad AEAD-2022 stream is reset; any other bad stream is read to
    its end in silence.  Nothing is ever connected to. *)
Theorem failed_handshake_outcomes env self stream err :
  timeout_fut (client_timeout self) (handshake env self stream) = Some (Err err) →
  serve env self stream =
    if bool_decide (err = UnexpectedEof) || bool_decide (err = TimedOut) then (Some (Ok tt), [], stream)
    else if is_aead_2022 (client_method self) then (Some (Ok tt), [SetLinger], stream)
    else (if client_ends env then Some (Ok tt) else None, [SilentDrop], stream).
Proof. intros H. unfold serve. rewrite H. by destruct err. Qed.

(** With a timeout a client is always done with or relayed, unless its stream is
    being drained in silence, which has no timeout. *)
Theorem serve_ends env self stream d :
  client_timeout self = Some d →
  let '(r, es, _) := serve env self stream in r ≠ None ∨ (SilentDrop ∈ es ∧ client_ends env = false).
Proof.
  intros Hd. unfold serve. rewrite Hd. destruct (timeout_fut (Some d) (handshake env self stream)) as [[[a rest0]|err|m]|] eqn:Ht;
    [|..|by apply timeout_fut_ends in Ht]; [| |by left].
  - unfold serve_target. rewrite Hd. destruct (context_check_outbound_blocked _ _); [by left|].
    destruct (timeout_fut (Some d) (connect env a)) as [[[]|err|m]|] eqn:Hc; simpl; [|by left..|by apply timeout_fut_ends in Hc].
    assert (∀ data rest1, let '(r, _, _) := first_packet env self data rest1 in r ≠ None) as Hp.
    { intros data rest1. unfold first_packet. rewrite Hd. destruct (timeout_fut (Some d) (write_remote env data)) as [[[]| |]|] eqn:E; try done.
      by apply timeout_fut_ends in E. }
    unfold establish. destruct (fastopen env); [|by left]. destruct (first_read env) as [k|].
    + destruct (rd_data rest0) as [|x l]; [destruct (rd_end rest0); by left|]. specialize (Hp (take (Nat.min (Z.to_nat 8192) (Nat.max 1 k)) (x :: l)) (Reader (drop (Nat.min (Z.to_nat 8192) (Nat.max 1 k)) (x :: l)) (rd_end rest0))).
      destruct (first_packet _ _ _ _) as [[r es] rest]. by left.
    + specialize (Hp [] rest0). destruct (first_packet _ _ _ _) as [[r es] rest]. by left.
  - unfold handshake_failed. destruct err; try (by left); destruct (is_aead_2022 _); try (by left); (destruct (client_ends env); [by left|right; split; [set_solver|done]]).
Qed.

(** The handshake is over before the timeout, if there is one. *)
Definition handshake_in_time (env : Surroundings) (self : TcpServerClient) : Prop :=
  ∃ t, handshake_took env = Some t ∧ ∀ d, client_timeout self = Some d → t ≤ d.

Lemma handshake_in_time_result env self stream :
  handshake_in_time env self →
  timeout_fut (client_timeout self) (handshake env self stream) = Some (server_handshake false (client_method self) (chunk env) stream).
Proof.
  intros (t & Ht & Hd). unfold timeout_fut, handshake. cbn [took result]. rewrite Ht. destruct (client_timeout self) as [d|]; [|done].
  by rewrite (proj2 (Z.leb_le t d) (Hd d eq_refl)).
Qed.

(** Nothing stands in the way of the tunnel: without fast open at once, with it when
    the writes succeed and there is a first packet, or none within 500ms. *)
Definition tunnel_starts (env : Surroundings) (self : TcpServerClient) (data : bytes) : Prop :=
  fastopen env = false ∨
  (data ≠ [] ∨ first_read env = None) ∧ ∀ d, timeout_fut (client_timeout self) (write_remote env d) = Some (Ok tt).

Lemma establish_starts env self stream : tunnel_starts env self (rd_data stream) → Copying ∈ (establish env self stream).1.2.
Proof.
  unfold establish, first_packet. intros [->|[Hd Hw]]; [by apply list_elem_of_here|]. destruct (fastopen env); [|by apply list_elem_of_here].
  destruct (first_read env); [|rewrite Hw; set_solver]. destruct (rd_data stream); [naive_solver|]. rewrite Hw. set_solver.
Qed.

(** C11. End to end: what a client of this program sends first for the target
    [addr], read by the remote server in time and in one chunk, for every cipher.
    An AEAD-2022 client that sends neither payload nor padding is refused and its
    connection reset.  Otherwise the server connects to exactly that target,
    directly or through the chain that is configured, unless the access control
    list blocks the client or the target; the tunnel starts when the connection
    succeeds in time (with fast open also the write of a first packet); and into
    the tunnel goes exactly the client's payload, from its first packet on. *)
Theorem client_reaches_target env self addr padding buf rest e :
  (length padding ≤ UdpAead2022.AEAD2022_MAX_PADDING_SIZE)%nat → Address_wf addr → Address_fits addr →
  chunk env = (1, length buf) → handshake_in_time env self →
  ∃ packet, make_first_packet_buffer (client_method self) addr padding buf = Ok packet ∧
    let '(r, es, tail) := accepted env self (Reader (packet ++ rest) e) in
    if context_check_client_blocked (acl env) (client_peer self) then es = []
    else if is_aead_2022 (client_method self) && bool_decide (buf = []) && bool_decide (padding = [])
    then r = Some (Ok tt) ∧ es = [Served; SetLinger]
    else if context_check_outbound_blocked (acl env) (Address_canon addr) then es = [Served]
    else
      connected es = [(if outbound_client env then Proxied else Direct, Address_canon addr)] ∧
      (timeout_fut (client_timeout self) (connect env (Address_canon addr)) = Some (Ok tt) →
       tunnel_starts env self (buf ++ rest) → Copying ∈ es) ∧
      (Copying ∈ es → r = Some (Ok tt) ∧ forwarded es ++ rd_data tail = buf ++ rest ∧ rd_end tail = e).
Proof.
  intros Hp Hwf Hf Hc Ht.
  destruct (handshake_first_read (client_method self) addr padding buf rest e Hp Hwf Hf) as (packet & Hm & Hr).
  exists packet. split; [exact Hm|]. unfold accepted. destruct (context_check_client_blocked _ _); [done|].
  unfold serve. rewrite (handshake_in_time_result env self _ Ht), Hc, Hr.
  destruct (is_aead_2022 (client_method self) && bool_decide (buf = []) && bool_decide (padding = [])) eqn:Hx.
  { rewrite !andb_true_iff in Hx. destruct Hx as [[Hx _] _]. cbn [handshake_failed]. by rewrite Hx. }
  unfold serve_target. destruct (context_check_outbound_blocked _ _); [done|].
  destruct (timeout_fut _ (connect env _)) as [[[]|err|m]|]; cbn [then_ app connected omap list_omap];
    [|by (split; [done|split; [done|set_solver]])..].
  pose proof (establish_effects env self (Reader (buf ++ rest) e)) as He.
  pose proof (establish_starts env self (Reader (buf ++ rest) e)) as Hs.
  destruct (establish env self (Reader (buf ++ rest) e)) as [[r es] tail]. destruct He as (H1 & _ & H3). unfold connected in H1.
  cbn [then_ app connected omap list_omap] in *. unfold connected. cbn. rewrite H1.
  split; [done|]. split; [intros _ H%Hs; set_solver|]. intros Hin. assert (Copying ∈ es) as Hin' by set_solver. naive_solver.
Qed.
End Relay.

(** ** Examples *)
Module ServerTcpExamples.
Import Toy Acl.AclExamples.
#[local] Existing Instances list_range literal_regex toy_env.

(** [acl0] blocks clients out of 10.0.0.0/8. *)
Definition demo_env : Surroundings :=
  {| acl := Some acl0; handshake_took := Some 5; chunk := (1, 3%nat); outbound_client := false; connect _ := {| took := Some 1; result := Ok tt |};
     client_ends := true; fastopen := false; first_read := None; write_remote _ := {| took := Some 1; result := Ok tt |} |}.
Definition demo_client (peer : SocketAddr) : TcpServerClient :=
  {| client_method := Toy.Aead2022_16; client_peer := peer; client_timeout := Some 60 |}.
Definition target : Address := DomainNameAddress (str "example.org") 443.

Lemma client_reaches_target_witness : ∃ packet,
  make_first_packet_buffer Toy.Aead2022_16 target [] (str "abc") = Ok packet ∧
  let '(r, es, tail) := accepted demo_env (demo_client (V4 16909060 999)) (Reader (packet ++ str "def") None) in
  connected es = [(Direct, target)] ∧ forwarded es ++ rd_data tail = str "abcdef".
Proof.
  destruct (client_reaches_target demo_env (demo_client (V4 16909060 999)) target [] (str "abc") (str "def") None) as (packet & Hm & H).
  - simpl. lia.
  - split; [reflexivity|split; lia].
  - simpl. lia.
  - reflexivity.
  - exists 5. split; [reflexivity|]. intros d [= <-]. lia.
  - exists packet. split; [exact Hm|]. destruct (accepted _ _ _) as [[r es] tail].
    assert (context_check_client_blocked (acl demo_env) (client_peer (demo_client (V4 16909060 999))) = false) as Hb by (vm_compute; reflexivity).
    assert (context_check_outbound_blocked (acl demo_env) (Address_canon target) = false) as Ho by (vm_compute; reflexivity).
    rewrite Hb, Ho in H. destruct H as (Hc & Hs & H). split; [exact Hc|].
    apply H, Hs; [reflexivity|left; reflexivity].
Defined.

Example blocked_client : (accepted demo_env (demo_client (V4 167772161 999)) (Reader (str "abc") None)).1 = (Some (Ok tt), []).
Proof. vm_compute. reflexivity. Qed.
End ServerTcpExamples.
