(* ===== verification/Outbound.v ===== *)
(** * Outbound proxy chains (crates/shadowsocks-service/src/net/outbound, config.rs)

    [config.rs]: a proxy as a URL; [socks5.rs]: the SOCKS5 client;
    [http_connect.rs]: what an HTTP proxy is asked; [chain.rs], [mod.rs]: the chain
    of proxies; [udp.rs]: datagrams nested in one header per proxy.  URLs, TLS and
    HTTP are other crates' and enter through their results.  Shown: the client and
    the SOCKS5 server of this program understand each other exactly when their
    credentials match, and never when the client has credentials and the server no
    users; a chain asks every proxy for the next one and the last for the target;
    every proxy on the way of a datagram finds the address of the next one; and
    which proxies cannot be written as URLs. *)
From S2P Require Import Prelude.
From S2P Require Import Utf8.
From S2P Require Import External.
From S2P Require Import StdNet.
From S2P Require Import NetText.
From S2P Require Import Socks5.
From S2P Require Import ServerConf.
From S2P Require Import ServerUrl.
From S2P Require Import SocksServer.

(** ** Proxies (config.rs) *)
Record OutboundProxyAuth := { proxy_username : bytes; proxy_password : bytes }.
Inductive OutboundProxyProtocol := PSocks5 | PHttp | PHttps.

Definition from_scheme (scheme : bytes) : outcome string OutboundProxyProtocol :=
  if bool_decide (scheme = str "socks5") then Ok PSocks5
  else if bool_decide (scheme = str "http") then Ok PHttp
  else if bool_decide (scheme = str "https") then Ok PHttps
  else Err "unsupported proxy scheme"%string.

Definition as_scheme (p : OutboundProxyProtocol) : bytes :=
  match p with PSocks5 => str "socks5" | PHttp => str "http" | PHttps => str "https" end.

Record OutboundProxy := {
  protocol : OutboundProxyProtocol;
  proxy_host : bytes;
  proxy_port : Z;
  proxy_auth : option OutboundProxyAuth;
}.

(** The credentials of a URL. *)
Definition read_proxy_auth (username : bytes) (password : option bytes) : outcome string (option OutboundProxyAuth) :=
  match username, password with
  | [], None => Ok None
  | _, None => Err "missing proxy password"%string
  | [], Some _ => Err "missing proxy username"%string
  | _, Some password =>
      if (255 <? length username)%nat then Err "proxy username is too long"%string
      else if bool_decide (password = []) then Err "missing proxy password"%string
      else if (255 <? length password)%nat then Err "proxy password is too long"%string
      else Ok (Some {| proxy_username := username; proxy_password := password |})
  end.

(** [trim_start_matches] and [trim_end_matches] of a character. *)
Definition trim_brackets (h : bytes) : bytes := trim_end [[b# 93]] (trim_start [[b# 91]] h).

Section Config.
Context {E : Type} (url_parse : bytes → Url + E).

Definition proxy_from_url (url : bytes) : outcome string OutboundProxy :=
  match url_parse url with
  | inr _ => Err "invalid proxy url"%string
  | inl parsed =>
      protocol ← from_scheme (scheme parsed);
      match host_str parsed with
      | None => Err "missing proxy host"%string
      | Some host =>
          let host := trim_brackets host in
          match url_port parsed with
          | None => Err "missing proxy port"%string
          | Some port =>
              auth ← read_proxy_auth (username parsed) (url_password parsed);
              Ok {| protocol := protocol; proxy_host := host; proxy_port := port; proxy_auth := auth |}
          end
      end
  end.

(** [SSOutboundProxyConfig]. *)
Inductive SSOutboundProxyConfig := Single (url : bytes) | Chain_ (urls : list bytes).

Definition into_proxies (self : SSOutboundProxyConfig) : outcome string (list OutboundProxy) :=
  match self with
  | Single s => p ← proxy_from_url s; Ok [p]
  | Chain_ v => foldr (λ s ps, p ← proxy_from_url s; ps ← ps; Ok (p :: ps)) (Ok []) v
  end.
End Config.

Definition proxy_address (self : OutboundProxy) : Address :=
  match parse_ip (proxy_host self) with
  | Some (IpV4 ip) => SocketAddress (V4 ip (proxy_port self))
  | Some (IpV6 ip) => SocketAddress (V6 ip (proxy_port self) 0 0)
  | None => DomainNameAddress (proxy_host self) (proxy_port self)
  end.

Definition proxy_to_url (self : OutboundProxy) : bytes :=
  let host := if existsb (λ b, bool_decide (b = COLON)) (proxy_host self) then b# 91 :: proxy_host self ++ [b# 93] else proxy_host self in
  as_scheme (protocol self) ++ str "://" ++
  (match proxy_auth self with
   | Some auth => proxy_username auth ++ COLON :: proxy_password auth ++ [b# 64]
   | None => []
   end) ++ host ++ COLON :: show_u16 (proxy_port self).

Definition from_proxies (proxies : list OutboundProxy) : option SSOutboundProxyConfig :=
  match proxies with
  | [] => None
  | [p] => Some (Single (proxy_to_url p))
  | ps => Some (Chain_ (proxy_to_url <$> ps))
  end.

(** ** Hops (mod.rs) *)
Inductive Socks5Auth := NoAuth | UsernamePassword (username password : bytes).
Inductive HttpProxyAuth := HttpNone | Basic (username password : bytes).
Inductive OutboundProxyKind := KSocks5 (auth : Socks5Auth) | KHttp (auth : HttpProxyAuth) | KHttps (auth : HttpProxyAuth) (sni : bytes).
Record OutboundProxyHop := { hop_addr : Address; kind : OutboundProxyKind }.

Definition http_auth_from_config (proxy : OutboundProxy) : HttpProxyAuth :=
  match proxy_auth proxy with Some a => Basic (proxy_username a) (proxy_password a) | None => HttpNone end.

Definition hop_from_config (proxy : OutboundProxy) : OutboundProxyHop :=
  {| hop_addr := proxy_address proxy;
     kind := match protocol proxy with
             | PSocks5 => KSocks5 (match proxy_auth proxy with Some a => UsernamePassword (proxy_username a) (proxy_password a) | None => NoAuth end)
             | PHttp => KHttp (http_auth_from_config proxy)
             | PHttps => KHttps (http_auth_from_config proxy) (proxy_host proxy)
             end |}.

Definition from_config (proxies : list OutboundProxy) : list OutboundProxyHop := hop_from_config <$> proxies.

Definition is_https (h : OutboundProxyHop) : bool := match kind h with KHttps _ _ => true | _ => false end.
Definition hop_supports_udp (h : OutboundProxyHop) : bool := match kind h with KSocks5 _ => true | _ => false end.
Definition supports_udp (hops : list OutboundProxyHop) : bool := negb (bool_decide (hops = [])) && forallb hop_supports_udp hops.

(** [tls_sni] of a hop that is not HTTPS is unreachable. *)
Definition tls_sni (h : OutboundProxyHop) : outcome io_error bytes :=
  match kind h with KHttps _ sni => Ok sni | _ => Panic "tls_sni called on non-HTTPS hop" end.

(** ** The SOCKS5 client (socks5.rs)

    A byte stream: what it delivers, how its writes end, and what was written. *)
Record Wire := { wire_in : reader; wire_writes : list (option (nat * io_error)); wire_out : bytes }.

Definition wire_read {A} (p : parser reader Error A) : action Wire Error A := λ w,
  match p (wire_in w) with
  | Ok (a, r) => (Ok a, {| wire_in := r; wire_writes := wire_writes w; wire_out := wire_out w |})
  | Err e => (Err e, w)
  | Panic m => (Panic m, w)
  end.

Definition wire_write (buf : outcome Error bytes) : action Wire Error unit := λ w,
  match buf with
  | Ok data =>
      match wire_writes w with
      | Some (n, e) :: ws => (Err (IoError e), {| wire_in := wire_in w; wire_writes := ws; wire_out := wire_out w ++ take n data |})
      | None :: ws => (Ok tt, {| wire_in := wire_in w; wire_writes := ws; wire_out := wire_out w ++ data |})
      | [] => (Ok tt, {| wire_in := wire_in w; wire_writes := []; wire_out := wire_out w ++ data |})
      end
  | Err e => (Err e, w)
  | Panic m => (Panic m, w)
  end.

Definition offered_methods (auth : Socks5Auth) : bytes :=
  match auth with
  | NoAuth => [b# SOCKS5_AUTH_METHOD_NONE]
  | UsernamePassword _ _ => [b# SOCKS5_AUTH_METHOD_PASSWORD; b# SOCKS5_AUTH_METHOD_NONE]
  end.

Definition handshake (auth : Socks5Auth) : action Wire Error unit :=
  _ ← wire_write (Ok (HandshakeRequest_write_to_buf {| methods := offered_methods auth |} []));
  resp ← wire_read HandshakeResponse_read_from;
  if chosen_method resp =? SOCKS5_AUTH_METHOD_NONE then mret tt
  else if chosen_method resp =? SOCKS5_AUTH_METHOD_PASSWORD then
    match auth with
    | UsernamePassword username password =>
        req ← act_of (PasswdAuthRequest_new username password);
        _ ← wire_write (Ok (PasswdAuthRequest_write_to_buf req []));
        resp ← wire_read PasswdAuthResponse_read_from;
        if status resp =? 0 then mret tt
        else act_fail (IoError (OtherKind "SOCKS5 username/password authentication failed"))
    | NoAuth => act_fail (IoError (OtherKind "SOCKS5 proxy requested USERNAME/PASSWORD but no credentials were provided"))
    end
  else act_fail (IoError (OtherKind "SOCKS5 proxy selected unsupported authentication method")).

Definition command (cmd : Command) (addr : Address) : action Wire Error TcpResponseHeader :=
  _ ← wire_write (TcpRequestHeader_write_to_buf {| req_command := cmd; req_address := addr |} []);
  resp ← wire_read TcpResponseHeader_read_from;
  match rsp_reply resp with
  | Succeeded => mret resp
  | reply => act_fail (ErrorReply reply)
  end.

Definition establish_tcp (target : Address) (auth : Socks5Auth) : action Wire Error TcpResponseHeader :=
  _ ← handshake auth;
  command TcpConnect target.

Definition establish_udp_associate (announce : Address) (auth : Socks5Auth) : action Wire Error TcpResponseHeader :=
  _ ← handshake auth;
  command UdpAssociate announce.

(** ** HTTP proxies (http_connect.rs) *)
Definition address_to_authority (addr : Address) : bytes :=
  match addr with
  | SocketAddress (V6 ip port _ _) => b# 91 :: show_ipv6 ip ++ b# 93 :: COLON :: show_u16 port
  | SocketAddress sa => show_socket_addr sa
  | DomainNameAddress host port => host ++ COLON :: show_u16 port
  end.

(** The value of [Proxy-Authorization]. *)
Definition proxy_authorization `{Base64} (auth : HttpProxyAuth) : option bytes :=
  match auth with
  | HttpNone => None
  | Basic username password => Some (str "Basic " ++ std_encode (username ++ COLON :: password))
  end.

(** ** Chains (chain.rs) *)
Section Chain.
Context `{B64 : Base64}.

(** What was done, in order. *)
Inductive chain_step :=
| Dialed (addr : Address)
| TlsWrapped (sni : bytes)
| Socks5Sent (data : bytes)
| HttpConnect (authority : bytes) (authorization : option bytes).

(** What the surroundings answer: the first connection, the TLS and the HTTP layer
    of the hop with an index give the stream on top of them. *)
Record Surroundings := {
  dial : Address → outcome io_error Wire;
  tls_connect : nat → bytes → outcome io_error Wire;
  http_connect : nat → bytes → option bytes → outcome io_error Wire;
}.

(** The stream before the first connection is made. *)
Definition no_wire : Wire := {| wire_in := Reader [] None; wire_writes := []; wire_out := [] |}.

Abbreviation Chain := (Wire * list chain_step)%type.

Definition logged (c : chain_step) : action Chain io_error unit := act_mod (λ '(w, l), (w, l ++ [c])).
Definition set_wire (w : Wire) : action Chain io_error unit := act_mod (λ '(_, l), (w, l)).

(** A negotiation on the stream; what it sends is logged. *)
Definition on_wire {A} (m : action Wire Error A) : action Chain io_error A := λ '(w, l),
  let '(r, w') := m {| wire_in := wire_in w; wire_writes := wire_writes w; wire_out := [] |} in
  (match r with Ok a => Ok a | Err _ => Err (OtherKind "socks5") | Panic m => Panic m end, (w', l ++ [Socks5Sent (wire_out w')])).

Definition tls_wrap (env : Surroundings) (idx : nat) (hop : OutboundProxyHop) : action Chain io_error unit :=
  sni ← act_of (tls_sni hop);
  _ ← logged (TlsWrapped sni);
  w ← act_of (tls_connect env idx sni);
  set_wire w.

Definition negotiate_hop (env : Surroundings) (idx : nat) (hop : OutboundProxyHop) (next_target : Address) : action Chain io_error unit :=
  match kind hop with
  | KSocks5 auth => _ ← on_wire (establish_tcp next_target auth); mret tt
  | KHttp auth | KHttps auth _ =>
      _ ← logged (HttpConnect (address_to_authority next_target) (proxy_authorization auth));
      w ← act_of (http_connect env idx (address_to_authority next_target) (proxy_authorization auth));
      set_wire w
  end.

(** The loop over the hops from index [idx] on. *)
Fixpoint traverse_hops (env : Surroundings) (idx : nat) (hops : list OutboundProxyHop) (target : Address) : action Chain io_error unit :=
  match hops with
  | [] => mret tt
  | hop :: hops =>
      _ ← (if is_https hop then tls_wrap env idx hop else mret tt);
      let next_target := match hops with h :: _ => hop_addr h | [] => target end in
      _ ← negotiate_hop env idx hop next_target;
      traverse_hops env (S idx) hops target
  end.

Definition connect_chain (env : Surroundings) (hops : list OutboundProxyHop) (target : Address) : action Chain io_error unit :=
  match hops with
  | [] => act_fail (OtherKind "empty outbound proxy chain")
  | first_hop :: _ =>
      _ ← logged (Dialed (hop_addr first_hop));
      w ← act_of (dial env (hop_addr first_hop));
      _ ← set_wire w;
      traverse_hops env 0 hops target
  end.

(** [connect_chain_for_udp_associate]: a connection that ends at hop [hop_index]. *)
Definition connect_chain_for_udp_associate (env : Surroundings) (hops : list OutboundProxyHop) (hop_index : nat) : action Chain io_error unit :=
  match hops !! hop_index with
  | None => act_of (Panic "index out of bounds")
  | Some target_hop =>
      if (hop_index =? 0)%nat then
        _ ← logged (Dialed (hop_addr target_hop));
        w ← act_of (dial env (hop_addr target_hop));
        set_wire w
      else connect_chain env (take hop_index hops) (hop_addr target_hop)
  end.

(** ** Datagrams (udp.rs) *)

(** What [associate] learns of one hop: the relay address, and the socket address it
    stands for, which [resolve] finds for a name. *)
Record Socks5UdpRelay := { relay_addr : Address; relay_socket_addr : Socks5.SocketAddr }.

Definition resolve_relay (resolve : bytes → Z → outcome io_error Socks5.SocketAddr) (addr : Address) : outcome io_error Socks5UdpRelay :=
  match addr with
  | SocketAddress sa => Ok {| relay_addr := addr; relay_socket_addr := sa |}
  | DomainNameAddress name port => sa ← resolve name port; Ok {| relay_addr := addr; relay_socket_addr := sa |}
  end.

(** The loop of [associate]: every hop is told where datagrams will come from.  Each
    hop has surroundings and a chain of its own, since every control connection is
    dialled anew. *)
Fixpoint associate_hops (envs : nat → Surroundings) (resolve : bytes → Z → outcome io_error Socks5.SocketAddr) (all hops : list OutboundProxyHop)
    (idx : nat) (announce : Address) : outcome io_error (list Socks5UdpRelay) * list (list chain_step) :=
  match hops with
  | [] => (Ok [], [])
  | hop :: hops =>
      match kind hop with
      | KSocks5 auth =>
          let '(r, (_, log)) :=
            (_ ← connect_chain_for_udp_associate (envs idx) all idx;
             on_wire (establish_udp_associate announce auth)) (no_wire, []) in
          match r with
          | Ok resp =>
              match resolve_relay resolve (rsp_address resp) with
              | Ok relay =>
                  let '(rs, logs) := associate_hops envs resolve all hops (S idx) (SocketAddress (relay_socket_addr relay)) in
                  ((λ rs, relay :: rs) <$> rs, log :: logs)
              | Err e => (Err e, [log])
              | Panic m => (Panic m, [log])
              end
          | Err e => (Err e, [log])
          | Panic m => (Panic m, [log])
          end
      | _ => (Panic "guarded above", [])
      end
  end.

Definition associate (envs : nat → Surroundings) (resolve : bytes → Z → outcome io_error Socks5.SocketAddr) (hops : list OutboundProxyHop)
    (local_udp_addr : Socks5.SocketAddr) : outcome io_error (list Socks5UdpRelay) * list (list chain_step) :=
  if bool_decide (hops = []) then (Err (OtherKind "empty outbound proxy chain"), [])
  else if negb (forallb hop_supports_udp hops) then (Err (OtherKind "outbound UDP relay requires every hop to be SOCKS5"), [])
  else associate_hops envs resolve hops hops 0 (SocketAddress local_udp_addr).
End Chain.

(** The addresses of the headers of a datagram, outermost first. *)
Definition header_addrs (relays : list Address) (target : Address) : list Address := tail relays ++ [target].

(** [encode]; [relays] are the relay addresses, at least one. *)
Definition encode (relays : list Address) (target : Address) (payload : bytes) : outcome io_error bytes :=
  buf ← foldl (λ buf addr, buf ← buf; UdpAssociateHeader_write_to_buf {| frag := 0; udp_address := addr |} buf) (Ok [])
    (if bool_decide (relays = []) then [] else header_addrs relays target);
  Ok (buf ++ payload).

(** The loop of [decode]. *)
Fixpoint strip_headers (n : nat) (last_addr : option Address) (cur : reader) : outcome io_error (option Address * reader) :=
  match n with
  | O => Ok (last_addr, cur)
  | S n =>
      match UdpAssociateHeader_read_from cur with
      | Ok (h, cur) => strip_headers n (Some (udp_address h)) cur
      | Err _ => Err (OtherKind "outbound udp: failed to parse SOCKS5 UDP header")
      | Panic m => Panic m
      end
  end.

(** [decode]: the innermost address, and the position of the payload. *)
Definition decode (relays : list Address) (recv_buf : bytes) : outcome io_error (Address * nat) :=
  '(last_addr, cur) ← strip_headers (length relays) None (Reader recv_buf None);
  match last_addr with
  | Some a => Ok (a, (length recv_buf - length (rd_data cur))%nat)
  | None => Panic "relays is non-empty"
  end.

(** [poll_recv] of a datagram into a buffer with room for [remaining] bytes; the
    scratch buffer has the [scratch] bytes it has grown to, and the socket cuts off
    what does not fit. *)
Definition datagram_recv (relays : list Address) (scratch remaining : nat) (datagram : bytes) : outcome io_error bytes * nat :=
  let needed := (remaining + 1024)%nat in
  let scratch := Nat.max scratch needed in
  let data := take scratch datagram in
  ('(_, pos) ← decode relays data;
   if (remaining <? length data - pos)%nat then Err InvalidData else Ok (drop pos data), scratch).

(** [poll_send]: the datagram, and the result when [sent] bytes of it went out. *)
Definition datagram_send (relays : list Address) (target : Address) (sent : bytes → outcome io_error nat) (buf : bytes) : outcome io_error nat :=
  wire ← encode relays target buf;
  n ← sent wire;
  if (n =? length wire)%nat then Ok (length buf) else Err WriteZero.

(** ** The client and the server of this program *)

(** The credentials a server asks of its clients. *)
Definition credentials_match (cfg : Socks5AuthConfig) (cauth : Socks5Auth) : Prop :=
  match cauth with NoAuth => auth_required cfg = false | UsernamePassword u p => login_ok cfg u p end.

Definition chosen (cauth : Socks5Auth) : Z := match cauth with NoAuth => SOCKS5_AUTH_METHOD_NONE | UsernamePassword _ _ => SOCKS5_AUTH_METHOD_PASSWORD end.
Definition client_login (cauth : Socks5Auth) : bytes := match cauth with NoAuth => [] | UsernamePassword u p => login_wire u p end.

(** What the client sends for a request. *)
Definition client_bytes (cauth : Socks5Auth) (request : bytes) : bytes := handshake_wire (offered_methods cauth) ++ client_login cauth ++ request.

Lemma wire_read_eq {A} `{M : Message A} (a : A) wa rest e w :
  msg_roundtrips M → msg_ok a → msg_write a [] = Ok wa → wire_in w = Reader (wa ++ rest) e →
  wire_read msg_read w = (Ok a, {| wire_in := Reader rest e; wire_writes := wire_writes w; wire_out := wire_out w |}).
Proof.
  intros HM Ha Hw Hi. destruct (HM a Ha) as (w' & Hw' & _ & Hr). rewrite Hw' in Hw. injection Hw as <-.
  unfold wire_read. by rewrite Hi, Hr.
Qed.

Lemma wire_write_ok data w : wire_writes w = [] →
  wire_write (Ok data) w = (Ok tt, {| wire_in := wire_in w; wire_writes := []; wire_out := wire_out w ++ data |}).
Proof. intros H. unfold wire_write. by rewrite H. Qed.

(** The SOCKS5 client on the answers of the server. *)
Lemma handshake_accepts cauth rest e w :
  match cauth with NoAuth => True | UsernamePassword u p => is_ok (PasswdAuthRequest_new (E := Error) u p) = true end →
  wire_writes w = [] → wire_in w = Reader (login_reply (chosen cauth) ++ rest) e →
  handshake cauth w = (Ok tt, {| wire_in := Reader rest e; wire_writes := []; wire_out := wire_out w ++ handshake_wire (offered_methods cauth) ++ client_login cauth |}).
Proof.
  intros Hc Hw Hi. unfold handshake. rewrite (bind_eq _ _ _ _ _ (wire_write_ok _ w Hw)).
  destruct cauth as [|u p]; unfold login_reply in Hi; cbn [chosen] in Hi.
  - erewrite bind_eq.
    2: { eapply (wire_read_eq (M := HandshakeResponse_message) {| chosen_method := SOCKS5_AUTH_METHOD_NONE |}); [apply handshake_messages_ok|split; done|reflexivity|exact Hi]. }
    cbn [chosen_method]. cbn -[handshake_wire]. by rewrite app_nil_r.
  - change (if SOCKS5_AUTH_METHOD_PASSWORD =? SOCKS5_AUTH_METHOD_PASSWORD then [b# 1; b# 0] else []) with [b# 1; b# 0] in Hi. rewrite <- app_assoc in Hi.
    erewrite bind_eq.
    2: { eapply (wire_read_eq (M := HandshakeResponse_message) {| chosen_method := SOCKS5_AUTH_METHOD_PASSWORD |}); [apply handshake_messages_ok|split; done|reflexivity|exact Hi]. }
    change (chosen_method _ =? SOCKS5_AUTH_METHOD_NONE) with false. change (chosen_method _ =? SOCKS5_AUTH_METHOD_PASSWORD) with true. cbv iota.
    assert (PasswdAuthRequest_new (E := Error) u p = Ok {| uname := u; passwd := p |}) as Hn.
    { revert Hc. unfold PasswdAuthRequest_new, rust_assert. by destruct (_ && _). }
    erewrite bind_eq by (unfold act_of; by rewrite Hn). erewrite bind_eq by (by apply wire_write_ok).
    erewrite bind_eq.
    2: { eapply (wire_read_eq (M := PasswdAuthResponse_message) {| status := 0 |} [b# 1; b# 0] rest e); [apply passwd_messages_ok|split; done|reflexivity|reflexivity]. }
    cbn [status wire_in wire_out wire_writes]. change (0 =? 0) with true. cbv iota. unfold mret, action_ret. do 2 f_equal. by rewrite <- app_assoc.
Qed.

Lemma command_accepts cmd target wr resp wresp rest e w :
  TcpRequestHeader_write_to_buf (E := Error) {| req_command := cmd; req_address := target |} [] = Ok wr →
  msg_ok resp → rsp_reply resp = Succeeded → TcpResponseHeader_write_to_buf (E := Error) resp [] = Ok wresp →
  wire_writes w = [] → wire_in w = Reader (wresp ++ rest) e →
  command cmd target w = (Ok resp, {| wire_in := Reader rest e; wire_writes := []; wire_out := wire_out w ++ wr |}).
Proof.
  intros Hr Hok Hs Hw Hws Hi. unfold command. rewrite Hr. rewrite (bind_eq _ _ _ _ _ (wire_write_ok _ w Hws)).
  erewrite bind_eq. 2: { eapply (wire_read_eq (M := TcpResponseHeader_message) resp); [apply response_message_ok|exact Hok|exact Hw|exact Hi]. }
  by rewrite Hs.
Qed.

Lemma picked_offered cfg cauth : credentials_match cfg cauth → picked (auth_required cfg) (offered_methods cauth) = Some (chosen cauth).
Proof. destruct cauth as [|u p]; simpl; [|done]. intros ->. done. Qed.

Section Interop.
Context `{CS : CipherSuite, B64 : Base64, CN : !CipherNames, BL : Blake3, RL : Acl.IpRangeLib, XL : Acl.RegexLib, AE : Acl.AclEnv, FL : FakeDns.FakeDnsLib}.
Context (overflow_checks : bool) `{TR : AutoProxy.Transports}.

(** C23. The SOCKS5 client and the SOCKS5 server of this program understand each
    other when their credentials match, that is when neither has any or the client
    has the name and password of a user: from what the client sends, the server gets
    to exactly the client's request and keeps what follows it, and from the answers
    of the server, up to a reply of success, the client gets to exactly that reply
    and keeps what follows it.  The two exchange the bytes of each other: what the
    one sends is what the other is shown to accept. *)
Theorem socks5_client_server env self cauth cmd target wr resp wresp rest e w (s : Session) data e' :
  credentials_match (auth self) cauth → address_ok target →
  TcpRequestHeader_write_to_buf (E := Error) {| req_command := cmd; req_address := target |} [] = Ok wr →
  msg_ok resp → rsp_reply resp = Succeeded → TcpResponseHeader_write_to_buf (E := Error) resp [] = Ok wresp →
  wire_writes w = [] → wire_in w = Reader (login_reply (chosen cauth) ++ wresp ++ rest) e →
  writes s = [] → input s = Reader (client_bytes cauth wr ++ data) e' →
  (_ ← handshake cauth; command cmd target) w =
    (Ok resp, {| wire_in := Reader rest e; wire_writes := []; wire_out := wire_out w ++ client_bytes cauth wr |}) ∧
  handle_socks5_client overflow_checks env self s =
    handle_command overflow_checks env self {| req_command := cmd; req_address := target |}
      (set_input (Reader data e') (wrote (login_reply (chosen cauth)) [] s)).
Proof.
  intros Hc Ha Hr Hok Hs Hwr Hw Hi Hsw Hsi. split.
  - erewrite bind_eq. 2: { apply handshake_accepts; [destruct cauth as [|u p]; [done|apply Hc]|exact Hw|exact Hi]. }
    erewrite command_accepts; [|exact Hr|exact Hok|exact Hs|exact Hwr|done|reflexivity]. cbn [wire_out]. unfold client_bytes. by rewrite <- !app_assoc.
  - unfold handle_socks5_client. unfold client_bytes in Hsi. rewrite <- !app_assoc in Hsi.
    assert (length (offered_methods cauth) ≤ 255)%nat as Hl by (destruct cauth; simpl; lia).
    erewrite bind_eq. 2: { eapply (read_from_wire_eq (M := HandshakeRequest_message) {| methods := offered_methods cauth |}); [apply handshake_messages_ok|exact Hl|reflexivity|exact Hsi]. }
    cbv beta iota. erewrite bind_eq.
    2: { eapply (check_auth_ok self (offered_methods cauth) (chosen cauth) (match cauth with NoAuth => [] | UsernamePassword u _ => u end) (match cauth with NoAuth => [] | UsernamePassword _ p => p end));
           [by apply picked_offered|by destruct cauth|exact Hsw|]. instantiate (1 := e'). instantiate (1 := wr ++ data). by destruct cauth. }
    erewrite bind_eq. 2: { eapply (read_from_wire_eq (M := TcpRequestHeader_message) {| req_command := cmd; req_address := target |}); [apply request_message_ok|exact Ha|exact Hr|reflexivity]. }
    reflexivity.
Qed.

(** A client with credentials never gets through a server without users, which asks
    for the password it is offered and then knows nobody: neither side falls back to
    going without, although both allow it. *)
Theorem credentials_without_users env self u p rest e w (s : Session) data e' :
  auth_required (auth self) = false → is_ok (PasswdAuthRequest_new (E := Error) u p) = true → utf8_valid u = true → utf8_valid p = true →
  wire_writes w = [] → wire_in w = Reader ([b# 5; b# 2; b# 1; b# 255] ++ rest) e →
  writes s = [] → input s = Reader (client_bytes (UsernamePassword u p) [] ++ data) e' →
  (∃ err, handle_socks5_client overflow_checks env self s = (Err err, set_input (Reader data e') (wrote [b# 5; b# 2; b# 1; b# 255] [] s))) ∧
  ∃ err, (handshake (UsernamePassword u p) w).1 = Err err.
Proof.
  intros Ha Hn Hu Hp Hw Hi Hsw Hsi. split.
  - unfold handle_socks5_client. unfold client_bytes in Hsi. rewrite <- !app_assoc in Hsi. cbn [app] in Hsi. eexists.
    erewrite bind_eq. 2: { eapply (read_from_wire_eq (M := HandshakeRequest_message) {| methods := offered_methods (UsernamePassword u p) |}); [apply handshake_messages_ok|simpl; lia|reflexivity|exact Hsi]. }
    cbv beta iota. unfold mbind, action_bind at 1. cbn [methods offered_methods check_auth].
    change (byte.unsigned (b# SOCKS5_AUTH_METHOD_PASSWORD) =? SOCKS5_AUTH_METHOD_PASSWORD) with true. cbv iota. unfold method_response.
    rewrite (bind_eq _ _ _ _ _ (write_to_ok _ (set_input _ s) Hsw)). unfold check_auth_password. erewrite bind_eq.
    2: { eapply (read_from_wire_eq (M := PasswdAuthRequest_message) {| uname := u; passwd := p |}); [apply passwd_messages_ok|exact Hn|reflexivity|reflexivity]. }
    cbn [uname passwd]. rewrite !from_utf8_valid by done. unfold auth_required, total_users in Ha. apply Nat.ltb_ge, Nat.le_0_r, map_size_empty_iff in Ha.
    unfold check_user. rewrite Ha, lookup_empty. unfold auth_response. erewrite bind_eq by (by apply write_to_ok). unfold act_fail. do 2 f_equal.
    unfold wrote, set_input. simpl. by rewrite <- app_assoc.
  - eexists. unfold handshake. rewrite (bind_eq _ _ _ _ _ (wire_write_ok _ w Hw)).
    change ([b# 5; b# 2; b# 1; b# 255] ++ rest) with ([b# 5; b# 2] ++ [b# 1; b# 255] ++ rest) in Hi. erewrite bind_eq.
    2: { eapply (wire_read_eq (M := HandshakeResponse_message) {| chosen_method := SOCKS5_AUTH_METHOD_PASSWORD |}); [apply handshake_messages_ok|split; done|reflexivity|exact Hi]. }
    change (chosen_method _ =? SOCKS5_AUTH_METHOD_NONE) with false. change (chosen_method _ =? SOCKS5_AUTH_METHOD_PASSWORD) with true. cbv iota.
    assert (PasswdAuthRequest_new (E := Error) u p = Ok {| uname := u; passwd := p |}) as Hn'.
    { revert Hn. unfold PasswdAuthRequest_new, rust_assert. by destruct (_ && _). }
    erewrite bind_eq by (unfold act_of; by rewrite Hn'). erewrite bind_eq by (by apply wire_write_ok).
    erewrite bind_eq. 2: { eapply (wire_read_eq (M := PasswdAuthResponse_message) {| status := 255 |} [b# 1; b# 255] rest e); [apply passwd_messages_ok|split; done|reflexivity|reflexivity]. }
    reflexivity.
Qed.
End Interop.

(** ** What a chain is asked *)
Section ChainFacts.
Context `{B64 : Base64}.

(** A successful negotiation has sent the offer, at most a login, and the request. *)
Definition asked_by_socks5 (auth : Socks5Auth) (target : Address) (data : bytes) : Prop :=
  ∃ l wr, data = handshake_wire (offered_methods auth) ++ l ++ wr ∧ (l = [] ∨ l = client_login auth) ∧
    TcpRequestHeader_write_to_buf (E := Error) {| req_command := TcpConnect; req_address := target |} [] = Ok wr.

Lemma wire_read_spec {A} (p : parser reader Error A) w : act_wp (wire_read p) (λ _ w', wire_out w' = wire_out w) w.
Proof. unfold act_wp, wire_read. by destruct (p (wire_in w)) as [[]| |]. Qed.

Lemma wire_write_spec buf w :
  act_wp (wire_write buf) (λ r w', ∀ x, r = Ok x → ∃ data, buf = Ok data ∧ wire_out w' = wire_out w ++ data) w.
Proof. unfold act_wp, wire_write. destruct buf as [data| |]; [|done..]. destruct (wire_writes w) as [|[[n e]|] ws]; simpl; naive_solver. Qed.

Lemma handshake_spec auth w :
  act_wp (handshake auth) (λ r w', r = Ok tt → ∃ l, wire_out w' = wire_out w ++ handshake_wire (offered_methods auth) ++ l ∧ (l = [] ∨ l = client_login auth)) w.
Proof.
  unfold handshake. wp_step. eapply wp_mono; [apply wire_write_spec|]. intros [[]|e|m] w1 H1; wp_step; [|done..].
  destruct (H1 tt eq_refl) as (d & [= <-] & Ho). wp_step. eapply wp_mono; [apply wire_read_spec|]. intros [resp|e|m] w2 H2; wp_step; [|done..].
  destruct (_ =? SOCKS5_AUTH_METHOD_NONE). { wp_step. intros _. exists []. rewrite H2, Ho, app_nil_r. by split; [|left]. }
  destruct (_ =? SOCKS5_AUTH_METHOD_PASSWORD); [|by wp_step]. destruct auth as [|u p]; [by wp_step|].
  wp_step. wp_step. destruct (PasswdAuthRequest_new u p) as [req|e|m] eqn:Hn; wp_step; [|done..].
  assert (req = {| uname := u; passwd := p |}) as -> by (revert Hn; unfold PasswdAuthRequest_new, rust_assert; destruct (_ && _); [by intros [= <-]|done]).
  wp_step. eapply wp_mono; [apply wire_write_spec|]. intros [[]|e|m] w3 H3; wp_step; [|done..]. destruct (H3 tt eq_refl) as (d & [= <-] & Ho3).
  wp_step. eapply wp_mono; [apply wire_read_spec|]. intros [st|e|m] w4 H4; wp_step; [|done..]. destruct (_ =? 0); wp_step; [|done].
  intros _. eexists. rewrite H4, Ho3, H2, Ho, <- app_assoc. split; [reflexivity|by right].
Qed.

Lemma establish_tcp_spec target auth w :
  act_wp (establish_tcp target auth) (λ r w', ∀ x, r = Ok x → ∃ data, wire_out w' = wire_out w ++ data ∧ asked_by_socks5 auth target data) w.
Proof.
  unfold establish_tcp. wp_step. eapply wp_mono; [apply handshake_spec|]. intros [[]|e|m] w1 H1; wp_step; [|done..].
  destruct (H1 eq_refl) as (l & Ho & Hl). unfold command. wp_step. eapply wp_mono; [apply wire_write_spec|].
  intros [[]|e|m] w2 H2; wp_step; [|done..]. destruct (H2 tt eq_refl) as (wr & Hr & Ho2).
  wp_step. eapply wp_mono; [apply wire_read_spec|]. intros [resp|e|m] w3 H3; wp_step; [|done..].
  assert (∀ x : TcpResponseHeader, ∃ data, wire_out w3 = wire_out w ++ data ∧ asked_by_socks5 auth target data) as Hx.
  { intros _. exists (handshake_wire (offered_methods auth) ++ l ++ wr). split; [by rewrite H3, Ho2, Ho, <- !app_assoc|]. exists l, wr. by split_and!. }
  destruct (rsp_reply resp); wp_step; try done. intros x _. by apply Hx.
Qed.

(** What one hop is asked on the way to [next]. *)
Definition hop_asked (hop : OutboundProxyHop) (next : Address) (steps : list chain_step) : Prop :=
  match kind hop with
  | KSocks5 auth => ∃ data, steps = [Socks5Sent data] ∧ asked_by_socks5 auth next data
  | KHttp auth => steps = [HttpConnect (address_to_authority next) (proxy_authorization auth)]
  | KHttps auth sni => steps = [TlsWrapped sni; HttpConnect (address_to_authority next) (proxy_authorization auth)]
  end.

Lemma wp_logged c (Q : outcome io_error unit → Wire * list chain_step → Prop) w l : Q (Ok tt) (w, l ++ [c]) → act_wp (logged c) Q (w, l).
Proof. done. Qed.
Lemma wp_set_wire w' (Q : outcome io_error unit → Wire * list chain_step → Prop) w l : Q (Ok tt) (w', l) → act_wp (set_wire w') Q (w, l).
Proof. done. Qed.

Lemma on_wire_spec target auth w l :
  act_wp (on_wire (establish_tcp target auth)) (λ r c, ∀ x, r = Ok x → ∃ data, c.2 = l ++ [Socks5Sent data] ∧ asked_by_socks5 auth target data) (w, l).
Proof.
  unfold act_wp, on_wire. pose proof (establish_tcp_spec target auth {| wire_in := wire_in w; wire_writes := wire_writes w; wire_out := [] |}) as H. unfold act_wp in H.
  destruct (establish_tcp target auth _) as [[resp|e|m] w']; simpl in *; [|done..]. intros x _. destruct (H resp eq_refl) as (data & Ho & Ha). rewrite Ho. eauto.
Qed.

Lemma hop_spec env idx hop next w l :
  act_wp (_ ← (if is_https hop then tls_wrap env idx hop else mret tt); negotiate_hop env idx hop next)
    (λ r c, r = Ok tt → ∃ steps, c.2 = l ++ steps ∧ hop_asked hop next steps) (w, l).
Proof.
  unfold is_https, tls_wrap, tls_sni, negotiate_hop, hop_asked. destruct (kind hop) as [auth|auth|auth sni].
  - repeat wp_step. eapply wp_mono; [apply on_wire_spec|]. intros [x|e|m] c Hx; repeat wp_step; [|done..]. intros _. destruct (Hx x eq_refl) as (data & ? & ?). eauto.
  - repeat wp_step. apply wp_logged. repeat wp_step. destruct (http_connect _ _ _ _) as [w'|e|m]; repeat wp_step; [|done..]. apply wp_set_wire. eauto.
  - repeat wp_step. apply wp_logged. repeat wp_step. destruct (tls_connect _ _ _) as [w1|e|m]; repeat wp_step; [|done..]. apply wp_set_wire.
    repeat wp_step. apply wp_logged. repeat wp_step. destruct (http_connect _ _ _ _) as [w'|e|m]; repeat wp_step; [|done..]. apply wp_set_wire.
    intros _. eexists. simpl. by rewrite <- app_assoc.
Qed.

Lemma wp_bind_assoc {S E A B C} (m : action S E A) (n : A → action S E B) (k : B → action S E C) Q s :
  act_wp (m ≫= n) (act_then k Q) s → act_wp (m ≫= λ x, n x ≫= k) Q s.
Proof.
  intros H. apply wp_bind. unfold act_wp in H |- *. unfold mbind, action_bind in H. destruct (m s) as [[a|e|p] s1]; simpl in *; [|exact H..].
  by apply wp_bind.
Qed.

(** The ways on from each hop: the next hop, and the target from the last. *)
Lemma traverse_spec env idx hops target w l :
  act_wp (traverse_hops env idx hops target)
    (λ r c, r = Ok tt → ∃ steps, c.2 = l ++ concat steps ∧
       Forall2 (λ hn st, hop_asked hn.1 hn.2 st) (zip hops (header_addrs (hop_addr <$> hops) target)) steps) (w, l).
Proof.
  revert idx w l. induction hops as [|hop hops IH]; intros idx w l; simpl traverse_hops.
  - repeat wp_step. intros _. exists []. rewrite app_nil_r. by split; [|constructor].
  - set (next := match hops with h :: _ => hop_addr h | [] => target end).
    assert (zip (hop :: hops) (header_addrs (hop_addr <$> hop :: hops) target) = (hop, next) :: zip hops (header_addrs (hop_addr <$> hops) target)) as ->.
    { unfold next, header_addrs. by destruct hops. }
    apply wp_bind_assoc. eapply wp_mono; [apply (hop_spec env idx hop next w l)|]. intros [[]|e|m] [w2 l2] Hh; wp_step; [|done..].
    destruct (Hh eq_refl) as (st & Hl2 & Hst). simpl in Hl2. subst l2. eapply wp_mono; [apply (IH (S idx) w2 (l ++ st))|]. intros r c Hr Hok.
    destruct (Hr Hok) as (sts & Hl & Hf). exists (st :: sts). simpl. rewrite Hl, <- app_assoc. split; [done|]. by constructor.
Qed.

(** C24. A chain of proxies is asked in order: when a connection through the chain
    succeeds, exactly its first proxy was dialled, and then each proxy in turn was
    asked for the next one and the last for the target and nothing else: a SOCKS5
    proxy by the bytes of a connect request behind the offer of its own credentials,
    an HTTP proxy by the authority of the next address, inside TLS for its own name
    when it is HTTPS. *)
Theorem chain_asks_in_order env hops target w w' log :
  connect_chain env hops target (w, []) = (Ok tt, (w', log)) →
  ∃ first steps, head hops = Some first ∧ log = Dialed (hop_addr first) :: concat steps ∧
    Forall2 (λ hn st, hop_asked hn.1 hn.2 st) (zip hops (header_addrs (hop_addr <$> hops) target)) steps.
Proof.
  destruct hops as [|first hops]; [done|]. unfold connect_chain. unfold mbind, action_bind, logged, act_mod, act_of. cbn [app].
  destruct (dial env (hop_addr first)) as [w1|e|m]; [|done..]. cbn [set_wire act_mod]. unfold set_wire, act_mod.
  intros H. pose proof (wp_use _ _ _ _ _ (traverse_spec env 0 (first :: hops) target w1 [Dialed (hop_addr first)]) H eq_refl) as (steps & Hl & Hf).
  exists first, steps. by split_and!.
Qed.
End ChainFacts.

(** ** Nested datagrams *)
Definition udp_wire (a : Address) : bytes := [b# 0; b# 0; b# 0] ++ address_wire a.

(** What is left of a datagram after [k] SOCKS5 servers have passed it on. *)
Fixpoint passed_on (k : nat) (pkt : bytes) : option bytes :=
  match k with
  | O => Some pkt
  | S k => match udp_received pkt with Some (_, pkt) => passed_on k pkt | None => None end
  end.

Lemma udp_header_read a rest e : Address_wf a → Address_fits a →
  UdpAssociateHeader_read_from (Reader (udp_wire a ++ rest) e) = Ok ({| frag := 0; udp_address := Address_canon a |}, Reader rest e).
Proof.
  intros Hwf Hf. unfold UdpAssociateHeader_read_from, udp_wire. rewrite <- app_assoc. rewrite (bind_read_app 3 [b# 0; b# 0; b# 0]) by done.
  unfold mbind, parser_bind. by rewrite read_from_wire.
Qed.

Lemma udp_received_header a rest : Address_wf a → Address_fits a → udp_received (udp_wire a ++ rest) = Some (Address_canon a, rest).
Proof. intros Hwf Hf. unfold udp_received. by rewrite udp_header_read. Qed.

Lemma encode_eq relays target payload : relays ≠ [] → Forall Address_fits (header_addrs relays target) →
  encode relays target payload = Ok (concat (udp_wire <$> header_addrs relays target) ++ payload).
Proof.
  intros Hne Hf. unfold encode. rewrite bool_decide_false by done.
  assert (∀ addrs buf, Forall Address_fits addrs →
    foldl (λ buf addr, buf ← buf; UdpAssociateHeader_write_to_buf {| frag := 0; udp_address := addr |} buf) (Ok buf) addrs =
    Ok (E := io_error) (buf ++ concat (udp_wire <$> addrs))) as H.
  { induction addrs as [|a addrs IH]; intros buf Ha; [simpl; by rewrite app_nil_r|]. apply list.Forall_cons in Ha as [Ha Has]. cbn [foldl fmap list_fmap concat].
    cbn [mbind outcome_bind]. unfold UdpAssociateHeader_write_to_buf, Address_write_to_buf. cbn [frag udp_address]. rewrite write_address_wire by done.
    rewrite IH by done. unfold udp_wire at 2. by rewrite <- !app_assoc. }
  by rewrite H.
Qed.

Lemma strip_headers_eq addrs last payload e : Forall (λ a, Address_wf a ∧ Address_fits a) addrs →
  strip_headers (length addrs) last (Reader (concat (udp_wire <$> addrs) ++ payload) e) =
  Ok (match list.last addrs with Some a => Some (Address_canon a) | None => last end, Reader payload e).
Proof.
  revert last. induction addrs as [|a addrs IH]; intros last Ha; [done|]. apply list.Forall_cons in Ha as [[Hwf Hf] Ha].
  cbn [length fmap list_fmap concat strip_headers]. rewrite <- app_assoc, udp_header_read by done. cbn [udp_address]. rewrite IH by done.
  destruct addrs as [|a' addrs]; [done|]. by change (list.last (a :: a' :: addrs)) with (list.last (a' :: addrs)); destruct (list.last (a' :: addrs)) eqn:E; [|apply last_None in E].
Qed.

Lemma passed_on_eq addrs k payload : Forall (λ a, Address_wf a ∧ Address_fits a) addrs → (k ≤ length addrs)%nat →
  passed_on k (concat (udp_wire <$> addrs) ++ payload) = Some (concat (udp_wire <$> drop k addrs) ++ payload).
Proof.
  revert addrs. induction k as [|k IH]; intros [|a addrs] Ha Hk; simpl in Hk; try done; try lia. apply list.Forall_cons in Ha as [[Hwf Hf] Ha].
  cbn [fmap list_fmap concat passed_on drop]. rewrite <- app_assoc, udp_received_header by done. apply IH; [done|lia].
Qed.

(** C25. A datagram for a chain of SOCKS5 relays is peeled by exactly one header at
    each of them: the [k]-th relay, by the rules of this program's own SOCKS5 server,
    finds the address of the next relay, the last one finds the target, and what
    arrives there is the payload.  An answer that is nested the same way is opened to
    its payload, when it fits the caller's buffer and its headers the spare room of
    1024 bytes. *)
Theorem nested_datagrams relays target payload :
  relays ≠ [] → Forall (λ a, Address_wf a ∧ Address_fits a) (header_addrs relays target) →
  ∃ pkt, encode relays target payload = Ok pkt ∧
    (∀ k a, header_addrs relays target !! k = Some a →
       ∃ outer inner, passed_on k pkt = Some outer ∧ passed_on (S k) pkt = Some inner ∧ udp_received outer = Some (Address_canon a, inner)) ∧
    passed_on (length relays) pkt = Some payload ∧
    decode relays pkt = Ok (Address_canon target, (length pkt - length payload)%nat) ∧
    ∀ scratch remaining, (length payload ≤ remaining)%nat → (length pkt ≤ length payload + 1024)%nat →
      datagram_recv relays scratch remaining pkt = (Ok payload, Nat.max scratch (remaining + 1024)).
Proof.
  intros Hne Hok. assert (length (header_addrs relays target) = length relays) as Hl.
  { destruct relays as [|r relays]; [done|]. unfold header_addrs. rewrite length_app. simpl. lia. }
  assert (Forall Address_fits (header_addrs relays target)) as Hf by (eapply list.Forall_impl; [exact Hok|]; by intros a [_ ?]).
  set (addrs := header_addrs relays target) in *. set (pkt := concat (udp_wire <$> addrs) ++ payload).
  assert (decode relays pkt = Ok (Address_canon target, (length pkt - length payload)%nat)) as Hd.
  { unfold decode. rewrite <- Hl. unfold pkt. rewrite strip_headers_eq by done. cbn [mbind outcome_bind].
    unfold addrs, header_addrs. by rewrite last_snoc. }
  exists pkt. split; [by apply encode_eq|]. split; [|split; [|split; [exact Hd|]]].
  - intros k a Ha. assert (k < length addrs)%nat as Hk by (by eapply lookup_lt_Some). eexists _, _. unfold pkt.
    rewrite !passed_on_eq by (done || lia). split; [reflexivity|]. split; [reflexivity|].
    rewrite (drop_S addrs a k Ha). cbn [fmap list_fmap concat]. rewrite <- app_assoc. pose proof (proj1 (list.Forall_lookup _ _) Hok k a Ha) as [Hwf Hfa].
    by apply udp_received_header.
  - rewrite <- Hl. unfold pkt. rewrite passed_on_eq by (done || lia). by rewrite drop_all.
  - intros scratch remaining Hr Hh. unfold datagram_recv. rewrite (take_ge pkt) by lia. rewrite Hd. cbn [mbind outcome_bind].
    assert (length payload ≤ length pkt)%nat by (unfold pkt; rewrite length_app; lia).
    replace (length pkt - (length pkt - length payload))%nat with (length payload) by lia.
    rewrite (proj2 (Nat.ltb_ge _ _)) by lia. do 2 f_equal. unfold pkt at 2.
    replace (length pkt - length payload)%nat with (length (concat (udp_wire <$> addrs))) by (unfold pkt; rewrite length_app; lia). apply drop_app_length.
Qed.

(** ** Proxies as URLs *)

(** The port that the crate takes for the default of a scheme and reports as absent. *)
Definition default_port (p : OutboundProxyProtocol) : option Z :=
  match p with PSocks5 => None | PHttp => Some 80 | PHttps => Some 443 end.

Definition lower (b : byte) : bool := in_range 97 122 b.

(** Hosts that stay as they are in a URL of any scheme: names in lower case letters,
    IPv4 and IPv6 addresses (not an IPv4-mapped one, which the crate prints with
    groups only). *)
Definition proxy_host_ok (h : bytes) : Prop :=
  (h ≠ [] ∧ Forall (λ b, lower b = true) h) ∨ (∃ ip, 0 ≤ ip < 2 ^ 32 ∧ h = show_ipv4 ip) ∨
  (∃ ip, 0 ≤ ip < 2 ^ 128 ∧ to_ipv4_mapped ip = None ∧ h = show_ipv6 ip).

Definition proxy_ok (p : OutboundProxy) : Prop :=
  proxy_host_ok (proxy_host p) ∧ 0 ≤ proxy_port p < 2 ^ 16 ∧
  ∀ a, proxy_auth p = Some a → all_safe (proxy_username a) ∧ all_safe (proxy_password a) ∧
    (1 ≤ length (proxy_username a) ≤ 255)%nat ∧ (1 ≤ length (proxy_password a) ≤ 255)%nat.

Definition has_colon (h : bytes) : bool := existsb (λ b, bool_decide (b = COLON)) h.
Definition bracketed (h : bytes) : bytes := if has_colon h then b# 91 :: h ++ [b# 93] else h.

(** What the URL crate documents to read in such a text: the host of an IPv6 address in
    brackets, and no port where it is the default of the scheme. *)
Definition url_of (p : OutboundProxy) : Url :=
  {| scheme := as_scheme (protocol p); username := default [] (proxy_username <$> proxy_auth p); url_password := proxy_password <$> proxy_auth p;
     host_str := Some (bracketed (proxy_host p));
     url_port := if bool_decide (default_port (protocol p) = Some (proxy_port p)) then None else Some (proxy_port p);
     query := None; fragment := None |}.

(** No brackets in a host. *)
Definition plain_byte (b : byte) : Prop := b ≠ b# 91 ∧ b ≠ b# 93.

Lemma plain_range lo hi b : in_range lo hi b = true → (hi < 91 ∨ 93 < lo) → plain_byte b.
Proof.
  unfold in_range. rewrite andb_true_iff, !Z.leb_le. intros [H1 H2] H.
  split; intros ->; rewrite unsigned_of_Z_small in H1, H2 by lia; lia.
Qed.

Lemma plain_digit d : 0 ≤ d < 36 → plain_byte (digit_char d).
Proof. intros Hd. unfold digit_char. destruct (Z.ltb_spec d 10); split; intros E; apply of_Z_inj_small in E; lia. Qed.

Lemma plain_punct z : z = 46 ∨ z = 58 → plain_byte (b# z).
Proof. intros Hz. split; intros E; apply of_Z_inj_small in E; lia. Qed.

Lemma trim_start_stop c s : head s ≠ Some c → trim_start [[c]] s = s.
Proof.
  intros H. unfold trim_start. destruct s as [|x s]; [done|]. cbn [length trim_start_any strip_any]. unfold strip_prefix. cbn [length take].
  rewrite bool_decide_false; [done|]. intros [= ->]. by apply H.
Qed.

Lemma trim_start_one c s : head s ≠ Some c → trim_start [[c]] (c :: s) = s.
Proof.
  intros H. unfold trim_start. cbn [length trim_start_any strip_any]. unfold strip_prefix. cbn [length take drop]. rewrite bool_decide_true by done.
  by apply trim_start_stop.
Qed.

Lemma plain_head s c : Forall plain_byte s → c = b# 91 ∨ c = b# 93 → head s ≠ Some c.
Proof. destruct 1 as [|x s [H1 H2] H]; [done|]. intros Hc [= ->]. by destruct Hc. Qed.

Lemma trim_bracketed h : Forall plain_byte h → trim_brackets (bracketed h) = h.
Proof.
  intros Hp. assert (Forall plain_byte (reverse h)) as Hr by (by apply Forall_reverse). unfold trim_brackets, bracketed, trim_end.
  change (reverse <$> [[b# 93]]) with [[b# 93]]. destruct (has_colon h) eqn:E.
  - rewrite trim_start_one.
    + rewrite reverse_snoc, trim_start_one by (apply plain_head; auto). apply reverse_involutive.
    + destruct h as [|x h]; [done|]. apply (plain_head (x :: h)); auto.
  - rewrite (trim_start_stop (b# 91) h) by (apply plain_head; auto). rewrite trim_start_stop by (apply plain_head; auto). apply reverse_involutive.
Qed.

Lemma proxy_host_plain h : proxy_host_ok h → Forall plain_byte h.
Proof.
  intros [[_ H]|[(ip & _ & ->)|(ip & _ & Hm & ->)]]; [|apply show_ipv4_bytes|apply show_ipv6_bytes]; try apply plain_digit; try (apply plain_punct; auto).
  eapply list.Forall_impl; [exact H|]. intros b Hb. apply (plain_range 97 122); [exact Hb|lia].
Qed.

(** A proxy of the configuration is read back from its own URL, whatever its
    scheme, credentials and host, except that an HTTP proxy on port 80 and an HTTPS
    proxy on port 443 are refused: the URL crate reports the default port of a scheme
    as absent, and the code takes an absent port for an error. *)
Theorem proxy_url_roundtrip {E} (url_parse : bytes → Url + E) p :
  proxy_ok p → url_parse (proxy_to_url p) = inl (url_of p) →
  proxy_from_url url_parse (proxy_to_url p) =
    if bool_decide (default_port (protocol p) = Some (proxy_port p)) then Err "missing proxy port"%string else Ok p.
Proof.
  intros Hp Hu0. unfold proxy_from_url. rewrite Hu0. destruct Hp as (Hh & _ & Ha). unfold url_of. cbn [scheme host_str url_port username url_password].
  assert (from_scheme (as_scheme (protocol p)) = Ok (protocol p)) as -> by (by destruct (protocol p)). cbn [mbind outcome_bind].
  rewrite trim_bracketed by (by apply proxy_host_plain). case_bool_decide; [done|].
  destruct p as [proto host port [a|]]; cbn [proxy_auth protocol proxy_host proxy_port fmap option_fmap option_map default] in *; [|done].
  destruct (Ha a eq_refl) as (_ & _ & Hu & Hpw). destruct a as [u q]. cbn [proxy_username proxy_password] in *.
  assert (u ≠ [] ∧ q ≠ []) as [Hu' Hq'] by (split; intros ->; simpl in *; lia).
  unfold read_proxy_auth, Datatypes.id. rewrite (bool_decide_false _ Hq'), (proj2 (Nat.ltb_ge _ _) (proj2 Hu)), (proj2 (Nat.ltb_ge _ _) (proj2 Hpw)).
  by destruct u.
Qed.

(** ** Concrete chains *)
Module OutboundExamples.
Import Toy ToyConf Acl.AclExamples FakeDns.FakeDnsExamples SocksExamples.
#[local] Existing Instances list_range literal_regex toy_env toy_lib units.

Definition bob_auth : Socks5Auth := UsernamePassword (str "bob") (str "secret").
Definition bound : TcpResponseHeader := {| rsp_reply := Succeeded; rsp_address := SocketAddress (V4 2130706433 5000) |}.
Definition bound_wire : bytes := [b# 5; b# 0; b# 0] ++ address_wire (rsp_address bound).
Definition demo_wire (answers : bytes) : Wire := {| wire_in := Reader answers None; wire_writes := []; wire_out := [] |}.

Lemma socks5_client_server_witness :
  (_ ← handshake bob_auth; command TcpConnect web) (demo_wire (login_reply (chosen bob_auth) ++ bound_wire ++ str "hi")) =
    (Ok bound, {| wire_in := Reader (str "hi") None; wire_writes := []; wire_out := client_bytes bob_auth demo_request_wire |}) ∧
  handle_socks5_client true demo_env demo_handler (demo_session (client_bytes bob_auth demo_request_wire ++ str "GET /")) =
    handle_command true demo_env demo_handler demo_request
      (set_input (Reader (str "GET /") None) (wrote (login_reply (chosen bob_auth)) [] (demo_session (client_bytes bob_auth demo_request_wire ++ str "GET /")))).
Proof.
  apply (socks5_client_server true demo_env demo_handler bob_auth TcpConnect web demo_request_wire bound bound_wire (str "hi") None
    (demo_wire (login_reply (chosen bob_auth) ++ bound_wire ++ str "hi"))
    (demo_session (client_bytes bob_auth demo_request_wire ++ str "GET /")) (str "GET /") None).
  - split_and!; reflexivity.
  - split; [split; split; lia|split; [exact I|reflexivity]].
  - reflexivity.
  - split; [split; [split; split; lia|split; [exact I|reflexivity]]|split; [apply (bool_decide_unpack _); vm_compute; exact I|reflexivity]].
  - reflexivity.
  - reflexivity.
  - reflexivity.
  - reflexivity.
  - reflexivity.
  - reflexivity.
Defined.

(** A chain of an HTTPS and a SOCKS5 proxy. *)
Definition secure_hop : OutboundProxyHop := {| hop_addr := DomainNameAddress (str "edge") 8443; Outbound.kind := KHttps HttpNone (str "edge") |}.
Definition inner_hop : OutboundProxyHop := {| hop_addr := SocketAddress (V4 167772161 1080); Outbound.kind := KSocks5 bob_auth |}.
Definition demo_world : Outbound.Surroundings :=
  {| dial _ := Ok (demo_wire []); tls_connect _ _ := Ok (demo_wire []);
     http_connect _ _ _ := Ok (demo_wire (login_reply (chosen bob_auth) ++ bound_wire ++ str "hi")) |}.
Definition demo_log : list chain_step :=
  [Dialed (hop_addr secure_hop); TlsWrapped (str "edge"); HttpConnect (str "10.0.0.1:1080") None; Socks5Sent (client_bytes bob_auth demo_request_wire)].

Lemma chain_asks_in_order_witness :
  ∃ w' first steps, connect_chain demo_world [secure_hop; inner_hop] web (no_wire, []) = (Ok tt, (w', demo_log)) ∧
    head [secure_hop; inner_hop] = Some first ∧ demo_log = Dialed (hop_addr first) :: concat steps ∧
    Forall2 (λ hn st, hop_asked hn.1 hn.2 st) [(secure_hop, hop_addr inner_hop); (inner_hop, web)] steps.
Proof.
  assert (connect_chain demo_world [secure_hop; inner_hop] web (no_wire, []) =
    (Ok tt, ({| wire_in := Reader (str "hi") None; wire_writes := []; wire_out := client_bytes bob_auth demo_request_wire |}, demo_log))) as H by reflexivity.
  destruct (chain_asks_in_order demo_world [secure_hop; inner_hop] web no_wire _ demo_log H) as (first & steps & Hs).
  eexists _, first, steps. split; [exact H|exact Hs].
Defined.

Definition demo_relays : list Address := [SocketAddress (V4 167772161 1080); DomainNameAddress (str "relay") 1081].

Lemma nested_datagrams_witness :
  ∃ pkt, encode demo_relays web (str "ping") = Ok pkt ∧ passed_on 2 pkt = Some (str "ping") ∧ decode demo_relays pkt = Ok (web, (length pkt - 4)%nat).
Proof.
  destruct (nested_datagrams demo_relays web (str "ping")) as (pkt & He & _ & Hp & Hd & _).
  - discriminate.
  - repeat (apply list.Forall_cons; split); [| |constructor].
    + split; [split; [reflexivity|split; lia]|simpl; lia].
    + split; [split; split; lia|exact I].
  - exists pkt. split_and!; [exact He|exact Hp|exact Hd].
Defined.

(** A proxy on the default port of its scheme and one on another port. *)
Definition demo_proxy (port : Z) : OutboundProxy :=
  {| protocol := PHttps; proxy_host := show_ipv6 1; proxy_port := port; proxy_auth := Some {| proxy_username := str "bob"; proxy_password := str "secret" |} |}.

(** The crate on the two URLs. *)
Definition demo_parse (url : bytes) : Url + string :=
  if bool_decide (url = str "https://bob:secret@[::1]:443") then inl (url_of (demo_proxy 443))
  else if bool_decide (url = str "https://bob:secret@[::1]:8443") then inl (url_of (demo_proxy 8443))
  else inr "relative URL without a base"%string.

Lemma demo_proxy_ok port : 0 ≤ port < 2 ^ 16 → proxy_ok (demo_proxy port).
Proof.
  intros Hp. split; [|split; [exact Hp|]].
  - right; right. exists 1. split; [lia|]. split; reflexivity.
  - intros a [= <-]. split_and!; try (simpl; lia); repeat (apply list.Forall_cons; split; [reflexivity|]); constructor.
Qed.

Lemma proxy_url_roundtrip_witness :
  proxy_from_url demo_parse (str "https://bob:secret@[::1]:443") = Err "missing proxy port"%string ∧
  proxy_from_url demo_parse (str "https://bob:secret@[::1]:8443") = Ok (demo_proxy 8443).
Proof.
  split.
  - apply (proxy_url_roundtrip demo_parse (demo_proxy 443)); [apply demo_proxy_ok; lia|reflexivity].
  - apply (proxy_url_roundtrip demo_parse (demo_proxy 8443)); [apply demo_proxy_ok; lia|reflexivity].
Defined.
End OutboundExamples.
