(* ===== verification/HttpProxy.v ===== *)
(** * The HTTP proxy (crates/shadowsocks-service/src/local/http)

    [config.rs]: the users; [utils.rs]: addresses, keep-alive and connections;
    [http_service.rs]: one request of a client; [http_client.rs]: the connections to
    remote servers and their reuse.  HTTP itself (parsing, header maps, framing), TLS
    and the expiring cache are other crates' and enter through what they answer, with
    the laws they document.  Shown: when users are configured, nothing at all is done
    for a request without the name and password of one of them; what the HTTP
    client of this program sends as credentials is what this server looks for; a
    request is only ever sent to the address it names, without any header that was
    meant for the proxy; and the one way in which the reuse of connections goes
    wrong: it does not look at the scheme. *)
From S2P Require Import Prelude.
From S2P Require Import Utf8.
From S2P Require Import External.
From S2P Require Import StdNet.
From S2P Require Import NetText.
From S2P Require Import Socks5.
From S2P Require Import SubDomainsTree.
From S2P Require Import Acl.
From S2P Require Import FakeDns.
From S2P Require Import ServerConf.
From S2P Require Import ServerStat.
From S2P Require Import PingBalancer.
From S2P Require Import AutoProxy.
From S2P Require SocksServer.
From S2P Require Outbound.

(** ** The crates that are called

    [http]: header maps, header values, authorities and URIs; a URI is its parts.
    [hyper]: its errors. *)
Class HttpCrate := {
  HeaderMap : Type;
  header_empty : HeaderMap;
  get_all : HeaderMap → bytes → list bytes;
  remove : HeaderMap → bytes → option bytes * HeaderMap;
  insert : HeaderMap → bytes → bytes → HeaderMap;
  (** [HeaderValue::to_str] and [HeaderValue::from_str] *)
  to_str : bytes → option bytes;
  value_from_str : bytes → option bytes;
  Authority : Type;
  authority_from_str : bytes → option Authority;
  port_u16 : Authority → option Z;
  host : Authority → bytes;
  as_str : Authority → bytes;
  HyperError : Type;
}.

Record Uri `{HttpCrate} := { scheme : option bytes; authority : option Authority; path_and_query : option bytes }.

(** [Uri::from_parts], and [build] of a builder with a path only. *)
Class UriBuilder `{HttpCrate} := {
  from_parts : Uri → option Uri;
  build_path : bytes → option Uri;
}.

(** Names are compared without case, and a removed or inserted name is the only one
    that changes. *)
Class HttpLaws `(H : HttpCrate) : Prop := {
  get_all_empty k : get_all header_empty k = [];
  get_all_case m k k' : to_ascii_lowercase k = to_ascii_lowercase k' → get_all m k = get_all m k';
  remove_first m k : fst (remove m k) = head (get_all m k);
  remove_same m k : get_all (snd (remove m k)) k = [];
  remove_other m k k' : to_ascii_lowercase k ≠ to_ascii_lowercase k' → get_all (snd (remove m k)) k' = get_all m k';
  insert_same m k v : get_all (insert m k v) k = [v];
  insert_other m k k' v : to_ascii_lowercase k ≠ to_ascii_lowercase k' → get_all (insert m k v) k' = get_all m k';
  to_str_value v s : to_str v = Some s → s = v;
}.

Class UriLaws `{H : HttpCrate} (U : UriBuilder) : Prop := {
  from_parts_all s a p : from_parts {| scheme := Some s; authority := Some a; path_and_query := Some p |} =
    Some {| scheme := Some s; authority := Some a; path_and_query := Some p |};
}.

(** Addresses are keys by all of their parts. *)
#[export] Instance SocketAddr_eq_dec : EqDecision Socks5.SocketAddr.
Proof. solve_decision. Defined.
#[export] Instance Address_eq_dec : EqDecision Address.
Proof. solve_decision. Defined.

(** [lru_time_cache]: [get_mut], writing through the reference it gives, and
    [entry(..).or_insert_with(..)]. *)
Class LruQueues (Q : Type) := {
  Lru : Type;
  lru_new : Z → Lru;
  lru_get_mut : Z → Lru → Address → option Q * Lru;
  lru_store : Lru → Address → Q → Lru;
  lru_entry : Z → Lru → Address → Q → Q * Lru;
}.

(** [stored] is what the cache has of a key; entries only disappear by themselves. *)
Class LruQueuesLaws {Q} (L : LruQueues Q) (stored : Lru → Address → option Q) : Prop := {
  stored_new d k : stored (lru_new d) k = None;
  stored_get now c k q : fst (lru_get_mut now c k) = Some q → stored c k = Some q;
  stored_after_get now c k k' q : stored (snd (lru_get_mut now c k)) k' = Some q → stored c k' = Some q;
  stored_store c k q k' : stored (lru_store c k q) k' = if decide (k = k') then Some q else stored c k';
  stored_entry now c k d : fst (lru_entry now c k d) = d ∨ stored c k = Some (fst (lru_entry now c k d));
  stored_after_entry now c k d k' q : k ≠ k' → stored (snd (lru_entry now c k d)) k' = Some q → stored c k' = Some q;
}.

(** ** Users (config.rs) *)
Record HttpAuthConfig := { basic_users : gmap bytes bytes }.

Definition HttpAuthConfig_new : HttpAuthConfig := {| basic_users := ∅ |}.

Definition add_user (user_name password : bytes) (self : HttpAuthConfig) : HttpAuthConfig :=
  {| basic_users := <[user_name := password]> (basic_users self) |}.

Definition check_user (self : HttpAuthConfig) (user_name password : bytes) : bool :=
  match basic_users self !! user_name with
  | Some pwd => bool_decide (pwd = password)
  | None => false
  end.

Definition total_users (self : HttpAuthConfig) : nat := size (basic_users self).

Definition auth_required (self : HttpAuthConfig) : bool := (0 <? total_users self)%nat.

(** [load_from_file], from what the JSON crate makes of the file. *)
Definition load_from_json (jconf : outcome io_error (option (list (bytes * bytes)))) : outcome io_error HttpAuthConfig :=
  match jconf with
  | Ok users => Ok (foldl (λ basic '(u, p), add_user u p basic) HttpAuthConfig_new (default [] users))
  | Err _ => Err (OtherKind "json5")
  | Panic m => Panic m
  end.

Definition BASIC_PREFIX : bytes := str "Basic ".

Definition verify_basic_auth `{Base64} (self : HttpAuthConfig) (header_value : bytes) : bool :=
  match strip_prefix BASIC_PREFIX header_value with
  | None => false
  | Some b64_encoded =>
      match std_decode b64_encoded with
      | inr _ => false
      | inl decoded_bytes =>
          match from_utf8 decoded_bytes with
          | None => false
          | Some decoded_str =>
              match split_first COLON decoded_str with
              | Some (user_name, password) => check_user self user_name password
              | None => false
              end
          end
      end
  end.

Inductive Version := HTTP_09 | HTTP_10 | HTTP_11 | HTTP_2 | HTTP_3.
#[export] Instance Version_eq_dec : EqDecision Version.
Proof. solve_decision. Defined.

Definition COMMA : byte := b# 44.
Definition HTTP : bytes := str "http".
Definition HTTPS : bytes := str "https".
Definition CONNECT : bytes := str "CONNECT".

Section Http.
Context `{HC : HttpCrate, UB : !UriBuilder}.

(** ** Addresses and keep-alive (utils.rs) *)
Definition authority_addr (scheme_str : option bytes) (authority : Authority) : option Address :=
  let port :=
    match port_u16 authority with
    | Some port => Some port
    | None =>
        match scheme_str with
        | None => Some 80
        | Some s => if bool_decide (s = HTTP) then Some 80 else if bool_decide (s = HTTPS) then Some 443 else None
        end
    end in
  match port with
  | None => None
  | Some port =>
      let host_str := host authority in
      if bool_decide (head host_str = Some (b# 91)) && bool_decide (head (reverse host_str) = Some (b# 93)) then
        match parse_ipv6 (drop 1 (take (length host_str - 1) host_str)) with
        | Some a => Some (SocketAddress (V6 a port 0 0))
        | None => None
        end
      else
        match parse_ipv4 host_str with
        | Some a => Some (SocketAddress (V4 a port))
        | None => Some (DomainNameAddress host_str port)
        end
  end.

Definition host_addr (uri : Uri) : option Address :=
  match authority uri with
  | None => None
  | Some authority => authority_addr (scheme uri) authority
  end.

Definition eq_ignore_ascii_case (a b : bytes) : bool := bool_decide (to_ascii_lowercase a = to_ascii_lowercase b).

Definition keep_alive_step (conn_keep_alive : option bool) (value : bytes) : option bool :=
  match to_str value with
  | None => conn_keep_alive
  | Some value =>
      if eq_ignore_ascii_case value (str "close") then Some false
      else if existsb (λ part, eq_ignore_ascii_case (trim part) (str "keep-alive")) (split_on COMMA value) then Some true
      else conn_keep_alive
  end.

Definition get_keep_alive_val (values : list bytes) : option bool := foldl keep_alive_step None values.

Definition check_keep_alive (version : Version) (headers : HeaderMap) (check_proxy : bool) : bool :=
  let conn_keep_alive := match version with HTTP_09 | HTTP_10 => false | _ => true end in
  let conn_keep_alive :=
    if check_proxy then default conn_keep_alive (get_keep_alive_val (get_all headers (str "Proxy-Connection"))) else conn_keep_alive in
  default conn_keep_alive (get_keep_alive_val (get_all headers (str "Connection"))).

(** ** Headers between the client, the proxy and the server (http_service.rs) *)
Definition get_extra_headers (values : list bytes) : list bytes :=
  flat_map (λ connection,
    match to_str connection with
    | None => []
    | Some conn => if eq_ignore_ascii_case conn (str "close") then [] else trim <$> split_on COMMA conn
    end) values.

(** [while headers.remove(header).is_some() {}]. *)
Fixpoint remove_while (fuel : nat) (header : bytes) (headers : HeaderMap) : HeaderMap :=
  match fuel with
  | O => headers
  | S fuel =>
      match remove headers header with
      | (Some _, headers) => remove_while fuel header headers
      | (None, headers) => headers
      end
  end.

(** A turn takes at least one value, so that there are at most as many as values and
    the last one, which finds nothing. *)
Definition remove_header (headers : HeaderMap) (header : bytes) : HeaderMap :=
  remove_while (S (length (get_all headers header))) header headers.

Definition HOP_BY_HOP_HEADERS : list bytes :=
  [str "Keep-Alive"; str "Transfer-Encoding"; str "TE"; str "Connection"; str "Trailer"; str "Upgrade";
   str "Proxy-Authorization"; str "Proxy-Authenticate"; str "Proxy-Connection"].

Definition clear_hop_headers (headers : HeaderMap) : HeaderMap :=
  let extra_headers := get_extra_headers (get_all headers (str "Connection")) ++ get_extra_headers (get_all headers (str "Proxy-Connection")) in
  let headers := foldl remove_header headers extra_headers in
  foldl remove_header headers HOP_BY_HOP_HEADERS.

Definition set_conn_keep_alive (version : Version) (keep_alive : bool) (headers : HeaderMap) : HeaderMap :=
  match version with
  | HTTP_09 | HTTP_10 => if keep_alive then insert headers (str "Connection") (str "keep-alive") else headers
  | _ => if negb keep_alive then insert headers (str "Connection") (str "close") else headers
  end.

(** ** Requests and responses *)
Context {Body : Type}.

Record Request := { req_method : bytes; req_uri : Uri; req_version : Version; req_headers : HeaderMap; req_body : Body }.
(** [None] is the empty body. *)
Record Response := { res_status : Z; res_version : Version; res_headers : HeaderMap; res_body : option Body }.

Definition set_uri (u : Uri) (r : Request) : Request :=
  {| req_method := req_method r; req_uri := u; req_version := req_version r; req_headers := req_headers r; req_body := req_body r |}.
Definition set_version (v : Version) (r : Request) : Request :=
  {| req_method := req_method r; req_uri := req_uri r; req_version := v; req_headers := req_headers r; req_body := req_body r |}.
Definition set_headers (h : HeaderMap) (r : Request) : Request :=
  {| req_method := req_method r; req_uri := req_uri r; req_version := req_version r; req_headers := h; req_body := req_body r |}.

(** [Response::new] and the builder, which start from HTTP/1.1. *)
Definition made_response (status : Z) (headers : HeaderMap) : Response :=
  {| res_status := status; res_version := HTTP_11; res_headers := headers; res_body := None |}.
Definition make_bad_request : Response := made_response 400 header_empty.
Definition make_proxy_authentication_required : Response :=
  made_response 407 (insert header_empty (str "Proxy-Authenticate") (str "Basic charset=" ++ b# 34 :: str "UTF-8" ++ [b# 34])).
Definition make_internal_server_error : Response := made_response 500 header_empty.

(** The address of the [Host] header, which also becomes that of the URI. *)
Definition get_addr_from_header : action Request unit Address :=
  req ← act_gets (λ r, r);
  match head (get_all (req_headers req) (str "Host")) with
  | None => act_fail tt
  | Some hhost =>
      match to_str hhost with
      | None => act_fail tt
      | Some shost =>
          match authority_from_str shost with
          | None => act_fail tt
          | Some a =>
              match authority_addr (scheme (req_uri req)) a with
              | None => act_fail tt
              | Some host =>
                  let parts := {| scheme := Some (default HTTP (scheme (req_uri req))); authority := Some a;
                                  path_and_query := path_and_query (req_uri req) |} in
                  match from_parts parts with
                  | None => act_of (Panic "Reassemble URI failed")
                  | Some uri => _ ← act_mod (set_uri uri); mret host
                  end
              end
          end
      end
  end.

(** ** The client (http_client.rs) *)
Context `{CS : CipherSuite, B64 : Base64, CN : !CipherNames, BL : Blake3, RL : IpRangeLib, XL : RegexLib, AE : AclEnv, FL : FakeDnsLib}.
Context (overflow_checks : bool) `{TR : Transports}.

Inductive HttpClientError := Hyper (e : HyperError) | Io (e : io_error) | HttpError | InvalidHeaderValue.

(** A connection, with the scheme, the address and the stream it was made of and its
    number. *)
Record HttpConnection := { hc_http2 : bool; hc_scheme : bytes; hc_host : Address; hc_stream : AutoProxyClientStream; hc_id : nat }.

Context {LQ : LruQueues (list (HttpConnection * Z))}.

Definition CONNECTION_EXPIRE_DURATION : Z := 20000.

(** The context with the balancer; the pool of connections; the connections that go
    to the pool once they are ready; the tunnels that wait for the client's upgrade;
    what has been sent; and how many connections have been made. *)
Record HttpState := {
  h_local : Local;
  cache_conn : Lru;
  becoming_ready : list (Address * HttpConnection);
  upgrading : list (Address * AutoProxyClientStream * option nat);
  sent : list (HttpConnection * Request);
  made : nat;
}.

(** What the surroundings answer.  [popped_at] is the time at each look at a pooled
    connection. *)
Record HttpEnv := {
  net : Network;
  now : Z;
  popped_at : nat → Z;
  is_closed : HttpConnection → bool;
  is_ready : HttpConnection → bool;
  http1_handshake : AutoProxyClientStream → outcome io_error unit;
  http2_handshake : AutoProxyClientStream → outcome io_error unit;
  (** [connect_https]: whether HTTP/2 was negotiated *)
  tls_connect : AutoProxyClientStream → bytes → outcome io_error bool;
  (** a response, or an error with the request if it was not sent *)
  try_send_request : HttpConnection → Request → Response + (HyperError * option Request);
}.

Definition set_h_local (l : Local) (s : HttpState) : HttpState :=
  {| h_local := l; cache_conn := cache_conn s; becoming_ready := becoming_ready s; upgrading := upgrading s; sent := sent s; made := made s |}.
Definition set_cache (c : Lru) (s : HttpState) : HttpState :=
  {| h_local := h_local s; cache_conn := c; becoming_ready := becoming_ready s; upgrading := upgrading s; sent := sent s; made := made s |}.
Definition add_ready (x : Address * HttpConnection) (s : HttpState) : HttpState :=
  {| h_local := h_local s; cache_conn := cache_conn s; becoming_ready := becoming_ready s ++ [x]; upgrading := upgrading s; sent := sent s; made := made s |}.
Definition add_upgrade (x : Address * AutoProxyClientStream * option nat) (s : HttpState) : HttpState :=
  {| h_local := h_local s; cache_conn := cache_conn s; becoming_ready := becoming_ready s; upgrading := upgrading s ++ [x]; sent := sent s; made := made s |}.
Definition add_sent (x : HttpConnection * Request) (s : HttpState) : HttpState :=
  {| h_local := h_local s; cache_conn := cache_conn s; becoming_ready := becoming_ready s; upgrading := upgrading s; sent := sent s ++ [x]; made := made s |}.
Definition count_made (s : HttpState) : HttpState :=
  {| h_local := h_local s; cache_conn := cache_conn s; becoming_ready := becoming_ready s; upgrading := upgrading s; sent := sent s; made := S (made s) |}.

Definition on_local {E A} (m : action Local io_error A) : action HttpState E (A + io_error) := λ s,
  let '(r, l) := m (h_local s) in
  (match r with Ok a => Ok (inl a) | Err e => Ok (inr e) | Panic p => Panic p end, set_h_local l s).

(** [connect_host]; both callers give the balancer. *)
Definition connect_host (net : Network) (host : Address) : action Local io_error (AutoProxyClientStream * option nat) :=
  '(r, server_opt) ← connect_balanced overflow_checks net host;
  match r with
  | inl s => mret (s, server_opt)
  | inr err => act_fail err
  end.

(** The loop over the queue of a host: the first connection that is still good, and
    what is left of the queue. *)
Fixpoint pop_ready (env : HttpEnv) (i : nat) (q : list (HttpConnection * Z)) : option HttpConnection * list (HttpConnection * Z) :=
  match q with
  | [] => (None, [])
  | (c, inst) :: q =>
      if CONNECTION_EXPIRE_DURATION <=? popped_at env i - inst then pop_ready env (S i) q
      else if is_closed env c then pop_ready env (S i) q
      else if negb (is_ready env c) then pop_ready env (S i) q
      else (Some c, q)
  end.

Definition get_cached_connection {E} (env : HttpEnv) (host : Address) : action HttpState E (option HttpConnection) := λ s,
  let '(q, c) := lru_get_mut (now env) (cache_conn s) host in
  match q with
  | None => (Ok None, set_cache c s)
  | Some q => let '(r, q) := pop_ready env 0 q in (Ok r, set_cache (lru_store c host q) s)
  end.

(** [HttpConnection::connect] with the two ways to go on. *)
Definition HttpConnection_connect (env : HttpEnv) (scheme : bytes) (host : Address) (domain : bytes) : action HttpState io_error HttpConnection :=
  if negb (bool_decide (scheme = HTTP)) && negb (bool_decide (scheme = HTTPS)) then act_fail (OtherKind "invalid scheme")
  else
    r ← on_local (connect_host (net env) host);
    match r with
    | inr err => act_fail err
    | inl (stream, _) =>
        http2 ←
          (if bool_decide (scheme = HTTP) then
             _ ← act_of (http1_handshake env stream); mret false
           else
             negotiated_http2 ← act_of (tls_connect env stream domain);
             _ ← act_of (if negotiated_http2 : bool then http2_handshake env stream else http1_handshake env stream);
             mret negotiated_http2);
        n ← act_gets made;
        _ ← act_mod count_made;
        mret {| hc_http2 := http2; hc_scheme := scheme; hc_host := host; hc_stream := stream; hc_id := n |}
    end.

(** Errors of sending: of the URI, or of the connection with the request if it was
    not sent. *)
Inductive SendRequestError := SendHttp | TrySend (e : HyperError) (message : option Request).

(** [HttpConnection::send_request]. *)
Definition HttpConnection_send_request (env : HttpEnv) (self : HttpConnection) (req : Request) : action HttpState SendRequestError Response :=
  req ←
    (if hc_http2 self then mret (if bool_decide (req_version req = HTTP_2) then req else set_version HTTP_2 req)
     else
       let req := match req_version req with HTTP_09 | HTTP_10 | HTTP_11 => req | _ => set_version HTTP_11 req end in
       if negb (bool_decide (req_method req = CONNECT)) && (bool_decide (is_Some (scheme (req_uri req))) || bool_decide (is_Some (authority (req_uri req)))) then
         match build_path (default (str "/") (path_and_query (req_uri req))) with
         | None => act_fail SendHttp
         | Some uri => mret (set_uri uri req)
         end
       else mret req);
  _ ← act_mod (add_sent (self, req));
  match try_send_request env self req with
  | inl response => mret response
  | inr (e, message) => act_fail (TrySend e message)
  end.

Definition send_request_conn (env : HttpEnv) (host : Address) (c : HttpConnection) (req : Request) : action HttpState SendRequestError Response :=
  response ← HttpConnection_send_request env c req;
  _ ← (if check_keep_alive (res_version response) (res_headers response) false then act_mod (add_ready (host, c)) else mret tt);
  mret response.

(** The request gets a [Host] header if it has none. *)
Definition add_host_header (req : Request) : outcome HttpClientError Request :=
  match authority (req_uri req) with
  | None => Ok req
  | Some a =>
      if bool_decide (get_all (req_headers req) (str "Host") ≠ []) then Ok req
      else
        let default_port :=
          (bool_decide (scheme (req_uri req) = Some HTTP) && match port_u16 a with None => true | Some p => p =? 80 end) ||
          (bool_decide (scheme (req_uri req) = Some HTTPS) && match port_u16 a with None => true | Some p => p =? 443 end) in
        match value_from_str (if default_port then host a else as_str a) with
        | None => Err InvalidHeaderValue
        | Some v => Ok (set_headers (insert (req_headers req) (str "Host") v) req)
        end
  end.

(** What [send_request] makes of an error when there is nothing left to try. *)
Definition into_error (e : SendRequestError) : HttpClientError :=
  match e with SendHttp => HttpError | TrySend e _ => Hyper e end.

(** A pooled connection first; its request comes back if it was not sent. *)
Definition send_cached (env : HttpEnv) (host : Address) (req : Request) : action HttpState HttpClientError (Response + Request) :=
  cached ← get_cached_connection env host;
  match cached with
  | None => mret (inr req)
  | Some c =>
      r ← attempt (send_request_conn env host c req);
      match r with
      | inl response => mret (inl response)
      | inr (TrySend _ (Some inner_req)) => mret (inr inner_req)
      | inr e => act_fail (into_error e)
      end
  end.

Definition send_request (env : HttpEnv) (req : Request) : action HttpState HttpClientError Response :=
  match host_addr (req_uri req) with
  | None => act_of (Panic "URI missing host")
  | Some host =>
      req ← act_of (add_host_header req);
      r ← send_cached env host req;
      match r with
      | inl response => mret response
      | inr req =>
          let scheme := default HTTP (scheme (req_uri req)) in
          let domain := match host with DomainNameAddress domain _ => domain | SocketAddress sa => show_ip (SocketAddr_ip sa) end in
          c ← attempt (HttpConnection_connect env scheme host domain);
          match c with
          | inr err => act_fail (Io err)
          | inl c =>
              r ← attempt (send_request_conn env host c req);
              match r with inl response => mret response | inr e => act_fail (into_error e) end
          end
      end
  end.

(** ** One request (http_service.rs) *)

(** Whether the credentials of a request are those of a user. *)
Definition check_authorization (http_auth : HttpAuthConfig) (req : Request) : bool :=
  if auth_required http_auth then
    match head (get_all (req_headers req) (str "Proxy-Authorization")) with
    | Some header_value =>
        match to_str header_value with
        | Some header_str => verify_basic_auth http_auth header_str
        | None => false
        end
    | None => false
    end
  else true.

(** The address of the request and the request with it, or nothing for an invalid one. *)
Definition request_host (req : Request) : outcome HyperError (option (Address * Request)) :=
  match host_addr (req_uri req) with
  | Some h => Ok (Some (h, req))
  | None =>
      if bool_decide (is_Some (authority (req_uri req))) then Ok None
      else
        match get_addr_from_header req with
        | (Ok h, req) => Ok (Some (h, req))
        | (Err _, _) => Ok None
        | (Panic m, _) => Panic m
        end
  end.

(** What the server is sent of a request. *)
Definition forwarded_request (req : Request) : Request :=
  let conn_keep_alive := check_keep_alive (req_version req) (req_headers req) true in
  set_headers (set_conn_keep_alive (req_version req) conn_keep_alive (clear_hop_headers (req_headers req))) req.

(** What the client is sent of a response. *)
Definition returned_response (req : Request) (res : Response) : Response :=
  let conn_keep_alive := check_keep_alive (req_version req) (req_headers req) true in
  let res_keep_alive := conn_keep_alive && check_keep_alive (res_version res) (res_headers res) false in
  {| res_status := res_status res; res_version := req_version req;
     res_headers := set_conn_keep_alive (req_version req) res_keep_alive (clear_hop_headers (res_headers res)); res_body := res_body res |}.

Definition serve_connection (env : HttpEnv) (http_auth : HttpAuthConfig) (req : Request) : action HttpState HyperError Response :=
  if negb (check_authorization http_auth req) then mret make_proxy_authentication_required
  else
    h ← act_of (request_host req);
    match h with
    | None => mret make_bad_request
    | Some (host, req) =>
        if bool_decide (req_method req = CONNECT) then
          r ← on_local (connect_host (net env) host);
          match r with
          | inr _ => mret make_internal_server_error
          | inl (stream, server_opt) =>
              _ ← act_mod (add_upgrade (host, stream, server_opt));
              mret (made_response 200 header_empty)
          end
        else
          r ← attempt (send_request env (forwarded_request req));
          match r with
          | inl res => mret (returned_response req res)
          | inr (Hyper e) => act_fail e
          | inr (Io _) => mret make_internal_server_error
          | inr HttpError | inr InvalidHeaderValue => mret make_bad_request
          end
    end.

(** ** What happens behind a request

    A connection that was used becomes ready for the next request, or fails to. *)
Definition conn_ready (ready : bool) (now : Z) (i : nat) (s : HttpState) : HttpState :=
  match becoming_ready s !! i with
  | None => s
  | Some (host, c) =>
      let s := {| h_local := h_local s; cache_conn := cache_conn s; becoming_ready := delete i (becoming_ready s); upgrading := upgrading s;
                  sent := sent s; made := made s |} in
      if ready then
        let '(q, cache) := lru_entry now (cache_conn s) host [] in
        set_cache (lru_store cache host (q ++ [(c, now)])) s
      else s
  end.

(** The client of a CONNECT request switches to the tunnel; its first bytes are there. *)
Definition upgraded (env : SocksServer.Surroundings) (i : nat) (client : option reader) (s : HttpState) : HttpState * option SocksServer.Session :=
  match upgrading s !! i with
  | None => (s, None)
  | Some (host, stream, server_opt) =>
      let s := {| h_local := h_local s; cache_conn := cache_conn s; becoming_ready := becoming_ready s; upgrading := delete i (upgrading s);
                  sent := sent s; made := made s |} in
      match client with
      | None => (s, None)
      | Some r =>
          let session := {| SocksServer.input := r; SocksServer.writes := []; SocksServer.output := []; SocksServer.local := h_local s;
                            SocksServer.to_remote := []; SocksServer.tunnel := None; SocksServer.udp_held := false; SocksServer.http_served := false |} in
          (s, Some (snd (SocksServer.establish env server_opt stream session)))
      end
  end.

(** The steps of the server, with whatever the surroundings answer. *)
Inductive http_step (http_auth : HttpAuthConfig) : HttpState → HttpState → Prop :=
| StepServe env req s : http_step http_auth s (snd (serve_connection env http_auth req s))
| StepReady ready now i s : http_step http_auth s (conn_ready ready now i s)
| StepUpgraded env i client s : http_step http_auth s (fst (upgraded env i client s)).

Definition HttpClient_new (l : Local) : HttpState :=
  {| h_local := l; cache_conn := lru_new CONNECTION_EXPIRE_DURATION; becoming_ready := []; upgrading := []; sent := []; made := 0 |}.
End Http.

(** ** Logins *)

(** What [Proxy-Authorization] must be for the user [u] with the password [p]. *)
Definition basic_credentials `{Base64} (value u p : bytes) : Prop :=
  ∃ b64, value = BASIC_PREFIX ++ b64 ∧ std_decode b64 = inl (u ++ COLON :: p) ∧ (COLON ∉ u) ∧ utf8_valid (u ++ COLON :: p) = true.

Lemma verify_basic_auth_spec `{Base64} self value :
  verify_basic_auth self value = true ↔ ∃ u p, basic_credentials value u p ∧ basic_users self !! u = Some p.
Proof.
  unfold verify_basic_auth, basic_credentials, strip_prefix. split.
  - case_bool_decide as Hp; [|done]. destruct (std_decode _) as [d|] eqn:Hd; [|done]. destruct (from_utf8 d) as [d'|] eqn:Hu; [|done].
    apply from_utf8_Some in Hu as [-> Hv]. destruct (split_first COLON d) as [[u p]|] eqn:Hs; [|done]. apply split_first_iff in Hs as [-> Hc].
    unfold check_user. destruct (basic_users self !! u) as [pwd|] eqn:Hl; [|done]. rewrite bool_decide_eq_true. intros ->.
    exists u, p. split; [|done]. eexists. split_and!; [|exact Hd|done..]. rewrite <- Hp at 1. by rewrite take_drop.
  - intros (u & p & (b64 & -> & Hd & Hc & Hv) & Hl). rewrite bool_decide_true by (by rewrite take_app_length). rewrite drop_app_length, Hd.
    rewrite from_utf8_valid by done. assert (split_first COLON (u ++ COLON :: p) = Some (u, p)) as -> by (by apply split_first_iff).
    unfold check_user. rewrite Hl. by rewrite bool_decide_true.
Qed.

Section HttpFacts.
Context `{HC : HttpCrate, UB : !UriBuilder} {HL : HttpLaws HC} {UL : UriLaws UB} {Body : Type}.
Implicit Types (m : HeaderMap) (req : Request (Body := Body)).

(** A request with the credentials of a user. *)
Definition authorized `{Base64} (http_auth : HttpAuthConfig) (req : Request (Body := Body)) : Prop :=
  ∃ value u p, head (get_all (req_headers req) (str "Proxy-Authorization")) = Some value ∧ is_Some (to_str value) ∧
    basic_credentials value u p ∧ basic_users http_auth !! u = Some p.

Lemma check_authorization_spec `{Base64} http_auth req :
  auth_required http_auth = true → (check_authorization http_auth req = true ↔ authorized http_auth req).
Proof.
  intros Ha. unfold check_authorization, authorized. rewrite Ha. split.
  - destruct (head _) as [value|] eqn:Hh; [|done]. destruct (to_str value) as [x|] eqn:Hs; [|done].
    pose proof (to_str_value _ _ Hs) as ->. rewrite verify_basic_auth_spec. intros (u & p & Hc & Hl). exists value, u, p. rewrite Hs. by eauto 10.
  - intros (value & u & p & -> & [x Hs] & Hc & Hl). pose proof (to_str_value _ _ Hs) as ->. rewrite Hs. apply verify_basic_auth_spec. eauto.
Qed.

(** ** Headers *)
Lemma remove_header_get m k k' :
  get_all (remove_header m k) k' = if eq_ignore_ascii_case k k' then [] else get_all m k'.
Proof.
  assert (∀ m' k k', get_all (remove m' k).2 k' = if eq_ignore_ascii_case k k' then [] else get_all m' k') as H.
  { intros m' q q'. unfold eq_ignore_ascii_case. case_bool_decide as E; [|by apply remove_other]. rewrite <- (get_all_case _ q q' E). apply remove_same. }
  unfold remove_header. destruct (get_all m k) as [|v vs] eqn:E; cbn [length remove_while].
  - pose proof (remove_first m k) as Hf. pose proof (H m k k') as Hk. destruct (remove m k) as [o m']. simpl in *. subst o. by rewrite E.
  - pose proof (remove_first m k) as Hf. pose proof (H m k k') as Hk. pose proof (remove_same m k) as Hs. destruct (remove m k) as [o m']. simpl in Hf, Hk, Hs. subst o.
    rewrite E. cbn [head]. pose proof (remove_first m' k) as Hf'. pose proof (H m' k k') as Hk'. destruct (remove m' k) as [o' m'']. simpl in Hf', Hk'. subst o'.
    rewrite Hs. cbn [head]. rewrite Hk'. destruct (eq_ignore_ascii_case k k'); [done|exact Hk].
Qed.

Definition names (ks : list bytes) (k : bytes) : bool := existsb (λ k', eq_ignore_ascii_case k' k) ks.

Lemma remove_headers_get ks m k : get_all (foldl remove_header m ks) k = if names ks k then [] else get_all m k.
Proof.
  revert m. induction ks as [|k0 ks IH]; intros m; [done|]. simpl. rewrite IH, remove_header_get.
  by destruct (names ks k), (eq_ignore_ascii_case k0 k).
Qed.

(** The names that [Connection] and [Proxy-Connection] give. *)
Definition nominated (m : HeaderMap) : list bytes :=
  get_extra_headers (get_all m (str "Connection")) ++ get_extra_headers (get_all m (str "Proxy-Connection")).

Lemma clear_hop_headers_get m k :
  get_all (clear_hop_headers m) k = if names (nominated m) k || names HOP_BY_HOP_HEADERS k then [] else get_all m k.
Proof.
  unfold clear_hop_headers. cbv zeta. rewrite !remove_headers_get. fold (nominated m).
  by destruct (names HOP_BY_HOP_HEADERS k), (names (nominated m) k).
Qed.

Lemma insert_get m k v k' : get_all (insert m k v) k' = if eq_ignore_ascii_case k k' then [v] else get_all m k'.
Proof. unfold eq_ignore_ascii_case. case_bool_decide as E; [rewrite <- (get_all_case _ k k' E); apply insert_same|by apply insert_other]. Qed.

(** The [Connection] header that says [keep_alive] in [version], when it is needed. *)
Definition connection_header (version : Version) (keep_alive : bool) : list bytes :=
  match version with
  | HTTP_09 | HTTP_10 => if keep_alive then [str "keep-alive"] else []
  | _ => if keep_alive then [] else [str "close"]
  end.

(** Every header of what is passed on in either direction. *)
Lemma passed_headers version keep_alive m k :
  get_all (set_conn_keep_alive version keep_alive (clear_hop_headers m)) k =
    if eq_ignore_ascii_case (str "Connection") k then connection_header version keep_alive
    else if names (nominated m) k || names HOP_BY_HOP_HEADERS k then [] else get_all m k.
Proof.
  assert (∀ v, get_all (insert (clear_hop_headers m) (str "Connection") v) k =
    if eq_ignore_ascii_case (str "Connection") k then [v] else if names (nominated m) k || names HOP_BY_HOP_HEADERS k then [] else get_all m k) as Hi.
  { intros v. rewrite insert_get. by rewrite clear_hop_headers_get. }
  assert (get_all (clear_hop_headers m) k =
    if eq_ignore_ascii_case (str "Connection") k then [] else if names (nominated m) k || names HOP_BY_HOP_HEADERS k then [] else get_all m k) as Hc.
  { rewrite clear_hop_headers_get. destruct (eq_ignore_ascii_case _ k) eqn:E; [|done].
    assert (names HOP_BY_HOP_HEADERS k = true) as ->; [|by rewrite orb_true_r].
    unfold names. apply existsb_exists. exists (str "Connection"). split; [|exact E]. unfold HOP_BY_HOP_HEADERS. simpl. tauto. }
  unfold set_conn_keep_alive, connection_header. destruct version, keep_alive; cbn [negb]; first [apply Hi|exact Hc].
Qed.

(** ** Addresses *)

(** A URI that was parsed has an authority, or only a path. *)
Definition uri_ok (u : Uri) : Prop := authority u = None → scheme u = None ∧ is_Some (path_and_query u).

Lemma authority_addr_http a : authority_addr (Some HTTP) a = authority_addr None a.
Proof. done. Qed.

(** The address of a request is always found or refused, and is that of the URI which
    is sent on; nothing else of the request changes. *)
Lemma request_host_spec req : uri_ok (req_uri req) →
  ∃ o, request_host req = Ok o ∧
    ∀ h req', o = Some (h, req') → host_addr (req_uri req') = Some h ∧ req_method req' = req_method req ∧ req_version req' = req_version req ∧
      req_headers req' = req_headers req ∧ req_body req' = req_body req.
Proof.
  intros Hu. unfold request_host. destruct (host_addr (req_uri req)) as [h|] eqn:Hh; [eexists; split; [done|]; by intros h' req' [= <- <-]|].
  case_bool_decide as Ha; [by exists None|]. destruct (authority (req_uri req)) as [a|] eqn:Hau; [destruct Ha; eauto|]. clear Ha.
  destruct (Hu Hau) as [Hs [p Hp]]. unfold get_addr_from_header, mbind, action_bind, act_gets.
  destruct (head _) as [hhost|]; [|by exists None]. destruct (to_str hhost) as [shost|]; [|by exists None].
  destruct (authority_from_str shost) as [a|]; [|by exists None]. rewrite Hs, Hp. destruct (authority_addr None a) as [h|] eqn:E; [|by exists None].
  cbn [default]. unfold Datatypes.id. rewrite from_parts_all. eexists. split; [reflexivity|]. intros h' req' [= <- <-]. by split_and!.
Qed.

(** ** The pool *)
Context `{CS : CipherSuite, B64 : Base64, CN : !CipherNames, BL : Blake3, RL : IpRangeLib, XL : RegexLib, AE : AclEnv, FL : FakeDnsLib}.
Context (overflow_checks : bool) `{TR : Transports} {LQ : LruQueues (list (HttpConnection * Z))}.
Context (stored : Lru → Address → option (list (HttpConnection * Z))) {QL : LruQueuesLaws LQ stored}.
Implicit Types (s : HttpState (Body := Body)) (env : HttpEnv (Body := Body)) (c : HttpConnection).

(** Every pooled connection is one to the address it is kept for. *)
Definition pool_ok (s : HttpState (Body := Body)) : Prop :=
  (∀ h q, stored (cache_conn s) h = Some q → Forall (λ ct, hc_host ct.1 = h) q) ∧
  Forall (λ hc, hc_host hc.2 = hc.1) (becoming_ready s).

(** What was done keeps the pool and has sent only what [R] allows. *)
Definition keeps (R : HttpConnection * Request (Body := Body) → Prop) (s s' : HttpState (Body := Body)) : Prop :=
  pool_ok s → pool_ok s' ∧ ∃ new, sent s' = sent s ++ new ∧ Forall R new.

#[local] Instance keeps_refl R : Reflexive (keeps R).
Proof. intros s Hs. split; [done|]. exists []. by rewrite app_nil_r. Qed.

#[local] Instance keeps_trans R : Transitive (keeps R).
Proof.
  intros s1 s2 s3 H12 H23 Hs. destruct (H12 Hs) as (H2 & n1 & E1 & F1). destruct (H23 H2) as (H3 & n2 & E2 & F2). split; [done|].
  exists (n1 ++ n2). rewrite E2, E1, <- app_assoc. split; [done|]. by apply list.Forall_app.
Qed.

(** A change of the rest of the state. *)
Lemma keeps_rest R s s' :
  cache_conn s' = cache_conn s → becoming_ready s' = becoming_ready s → sent s' = sent s → keeps R s s'.
Proof. intros Hc Hb Hs [H1 H2]. split; [split; [by rewrite Hc|by rewrite Hb]|]. exists []. by rewrite Hs, app_nil_r. Qed.

(** A queue that is part of what was there is written back. *)
Lemma keeps_store R s cache h q :
  (∀ k q', stored cache k = Some q' → stored (cache_conn s) k = Some q') → (pool_ok s → Forall (λ ct, hc_host ct.1 = h) q) →
  keeps R s (set_cache (lru_store cache h q) s).
Proof.
  intros Hsub Hq Hs. pose proof Hs as [Hp Hb]. split; [|exists []; by rewrite app_nil_r]. split; [|exact Hb]. intros k q'. cbn [cache_conn set_cache].
  rewrite stored_store. destruct (decide (h = k)) as [<-|]; [intros [= <-]; by apply Hq|]. intros Hk. apply Hp. by apply Hsub.
Qed.

Lemma pop_ready_sub env i q h : Forall (λ ct, hc_host ct.1 = h) q →
  Forall (λ ct, hc_host ct.1 = h) (pop_ready env i q).2 ∧ ∀ c, (pop_ready env i q).1 = Some c → hc_host c = h.
Proof.
  intros H. revert i. induction H as [|[c t] q Hc Hq IH]; intros i; simpl; [by split|].
  repeat (destruct (_ : bool); [apply IH|]). split; [exact Hq|]. by intros c' [= <-].
Qed.

Lemma get_cached_spec {E} R env h s :
  act_wp (E := E) (get_cached_connection env h) (λ r s', keeps R s s' ∧ ∃ o, r = Ok o ∧ (pool_ok s → ∀ c, o = Some c → hc_host c = h)) s.
Proof.
  unfold act_wp, get_cached_connection. pose proof (stored_get (now env) (cache_conn s) h) as Hg. pose proof (stored_after_get (now env) (cache_conn s) h) as Ha.
  destruct (lru_get_mut _ _ h) as [[q|] cache]; simpl in *.
  - specialize (Hg q eq_refl). destruct (pop_ready env 0 q) as [r q'] eqn:Hp.
    assert (pool_ok s → Forall (λ ct, hc_host ct.1 = h) q' ∧ ∀ c, r = Some c → hc_host c = h) as Hq.
    { intros [H _]. pose proof (pop_ready_sub env 0 q h (H _ _ Hg)) as X. by rewrite Hp in X. }
    split; [apply keeps_store; [exact Ha|intros Hs; by apply Hq]|]. exists r. split; [done|]. intros Hs. by apply Hq.
  - split; [|exists None; by split]. intros [Hp Hb]. split; [|exists []; by rewrite app_nil_r]. split; [|exact Hb]. intros k q Hk. apply Hp. by apply Ha.
Qed.

Lemma connect_spec R env sch h domain s :
  act_wp (HttpConnection_connect overflow_checks env sch h domain) (λ r s', keeps R s s' ∧ ∀ c, r = Ok c → hc_host c = h ∧ hc_scheme c = sch) s.
Proof.
  unfold HttpConnection_connect. destruct (_ && _); [wp_step; by split|]. wp_step. unfold act_wp at 1, on_local.
  destruct (connect_host _ _ _ _) as [r l]. simpl fst. simpl snd. assert (keeps R s (set_h_local l s)) as Hk by (by apply keeps_rest).
  destruct r as [[st o]|e|p]; wp_step; [|wp_step; by split|by split]. wp_step.
  assert (∀ (b : bool), act_wp (S := HttpState (Body := Body)) (E := io_error) (n ← act_gets made; _ ← act_mod count_made; mret {| hc_http2 := b; hc_scheme := sch; hc_host := h; hc_stream := st; hc_id := n |})
    (λ r s', keeps R s s' ∧ ∀ c, r = Ok c → hc_host c = h ∧ hc_scheme c = sch) (set_h_local l s)) as Hend.
  { intros b. repeat wp_step. split; [by etrans; [exact Hk|apply keeps_rest]|]. by intros c [= <-]. }
  destruct (bool_decide _).
  - wp_step. wp_step. destruct (http1_handshake env st) as [[]|e|p]; wp_step; [wp_step; wp_step; apply Hend|by split..].
  - wp_step. wp_step. destruct (tls_connect env st domain) as [b|e|p]; wp_step; [|by split..].
    wp_step. wp_step. destruct (if b then _ else _) as [[]|e|p]; wp_step; [wp_step; wp_step; apply Hend|by split..].
Qed.

(** ** Sending *)

(** A request that comes back is the one that was to be sent. *)
Definition returns_message (env : HttpEnv (Body := Body)) : Prop :=
  ∀ c r e r', try_send_request env c r = inr (e, Some r') → r' = r.

Definition same_payload (req r : Request (Body := Body)) : Prop :=
  req_method r = req_method req ∧ req_headers r = req_headers req ∧ req_body r = req_body req.

(** Something is sent to [h] that has the payload of [req]. *)
Definition sent_for (env : HttpEnv (Body := Body)) (h : Address) (req : Request (Body := Body)) (x : HttpConnection * Request (Body := Body)) : Prop :=
  hc_host x.1 = h ∧ (returns_message env → same_payload req x.2).

Lemma connection_send_spec env h c req s :
  hc_host c = h →
  act_wp (HttpConnection_send_request env c req) (λ r s', keeps (sent_for env h req) s s' ∧
    ∀ e r', r = Err (TrySend e (Some r')) → returns_message env → same_payload req r') s.
Proof.
  intros Hh. unfold HttpConnection_send_request. set (rest := λ req0, _ ≫= _).
  assert (∀ req0, same_payload req req0 → act_wp (rest req0) (λ r s', keeps (sent_for env h req) s s' ∧
    ∀ e r', r = Err (TrySend e (Some r')) → returns_message env → same_payload req r') s) as Hrest.
  { intros req0 Hr. unfold rest. wp_step. wp_step. wp_step.
    assert (keeps (sent_for env h req) s (add_sent (c, req0) s)) as Hk by (intros Hs; split; [exact Hs|]; exists [(c, req0)]; split; [done|]; apply list.Forall_singleton; by split).
    destruct (try_send_request env c req0) as [res|[e m]] eqn:Ht; wp_step; (split; [exact Hk|]); [done|]. intros e' r' [= <- ->] Hm. by rewrite (Hm _ _ _ _ Ht). }
  clearbody rest. wp_step. destruct (hc_http2 c).
  - wp_step. wp_step. apply Hrest. by destruct (bool_decide _).
  - cbv zeta. set (req1 := match req_version req with HTTP_09 | HTTP_10 | HTTP_11 => req | _ => set_version HTTP_11 req end).
    assert (same_payload req req1) as H1 by (unfold req1; by destruct (req_version req)).
    destruct (_ && _); [|wp_step; wp_step; by apply Hrest]. destruct (build_path _) as [u|]; [wp_step; wp_step; by apply Hrest|]. wp_step. wp_step. by split.
Qed.

Lemma send_conn_spec env h c req s :
  hc_host c = h →
  act_wp (send_request_conn env h c req) (λ r s', keeps (sent_for env h req) s s' ∧
    ∀ e r', r = Err (TrySend e (Some r')) → returns_message env → same_payload req r') s.
Proof.
  intros Hh. unfold send_request_conn. wp_step. eapply wp_mono; [by apply connection_send_spec|]. intros [res|e|p] s1 [Hk Hm]; wp_step; [|by split..]. wp_step.
  destruct (check_keep_alive _ _ _); repeat wp_step; (split; [|done]); [|exact Hk]. etrans; [exact Hk|]. intros [Hp Hb].
  split; [|exists []; by rewrite app_nil_r]. split; [exact Hp|]. apply list.Forall_app. split; [exact Hb|]. by apply list.Forall_singleton.
Qed.

Lemma same_payload_trans r1 r2 r3 : same_payload r1 r2 → same_payload r2 r3 → same_payload r1 r3.
Proof. unfold same_payload. intros (? & ? & ?) (? & ? & ?). split_and!; congruence. Qed.

Lemma keeps_mono (R R' : HttpConnection * Request (Body := Body) → Prop) s s' : (∀ x, R x → R' x) → keeps R s s' → keeps R' s s'.
Proof. intros HR Hk Hs. destruct (Hk Hs) as (H & new & E & F). split; [done|]. exists new. split; [done|]. by eapply list.Forall_impl. Qed.

Lemma send_cached_spec env h req s :
  pool_ok s →
  act_wp (send_cached env h req) (λ r s', keeps (sent_for env h req) s s' ∧ ∀ r', r = Ok (inr r') → returns_message env → same_payload req r') s.
Proof.
  intros Hs. unfold send_cached. wp_step. eapply wp_mono; [apply (get_cached_spec (sent_for env h req))|]. intros r s1 [Hk (o & -> & Hc)]. wp_step.
  destruct o as [c|]; [|wp_step; split; [exact Hk|]; by intros r' [= <-]]. wp_step. wp_step.
  eapply wp_mono; [by apply (send_conn_spec env h c req s1), Hc|]. intros r s2 [Hk2 Hm]. assert (keeps (sent_for env h req) s s2) as Hk' by (by etrans).
  destruct r as [res|[|e [r'|]]|p]; wp_step; try (by split); wp_step; (split; [exact Hk'|]); try done. intros r'' [= <-]. by apply (Hm e r').
Qed.

Lemma send_request_spec env req s :
  pool_ok s →
  act_wp (send_request overflow_checks env req) (λ _ s',
    keeps (λ x, ∃ h req1, host_addr (req_uri req) = Some h ∧ add_host_header req = Ok req1 ∧ sent_for env h req1 x) s s') s.
Proof.
  intros Hs. unfold send_request. destruct (host_addr (req_uri req)) as [h|]; [|by wp_step]. wp_step. wp_step.
  destruct (add_host_header req) as [req1|e|p]; wp_step; [|done..]. wp_step.
  assert (∀ x, sent_for env h req1 x → ∃ h' req', Some h = Some h' ∧ @Ok HttpClientError _ req1 = Ok req' ∧ sent_for env h' req' x) as HR by eauto.
  eapply wp_mono; [by apply send_cached_spec|]. intros r s1 [Hk1 Hm]. destruct r as [[res|req2]|e|p]; wp_step; try (by apply (keeps_mono _ _ _ _ HR)).
  wp_step. wp_step. eapply wp_mono; [apply (connect_spec (sent_for env h req1))|]. intros rc s2 [Hk2 Hc].
  assert (keeps (sent_for env h req1) s s2) as Hk by (by etrans).
  destruct rc as [c|e|p]; wp_step; [|wp_step; by apply (keeps_mono _ _ _ _ HR)|by apply (keeps_mono _ _ _ _ HR)]. wp_step. wp_step.
  eapply wp_mono; [apply (send_conn_spec env h c req2 s2), Hc; done|]. intros r3 s3 [Hk3 _].
  assert (keeps (sent_for env h req1) s s3) as Hkk.
  { etrans; [exact Hk|]. eapply keeps_mono; [|exact Hk3]. intros x [Hx1 Hx2]. split; [done|]. intros Hret. eapply same_payload_trans; [by apply Hm|by apply Hx2]. }
  destruct r3 as [res|e|p]; wp_step; try wp_step; by apply (keeps_mono _ _ _ _ HR).
Qed.

(** The [Host] header that a request has when it is sent. *)
Lemma add_host_header_get req req1 k :
  add_host_header req = Ok req1 →
  req_method req1 = req_method req ∧ req_body req1 = req_body req ∧ (is_Some (authority (req_uri req)) → get_all (req_headers req1) (str "Host") ≠ []) ∧
  (eq_ignore_ascii_case (str "Host") k = false → get_all (req_headers req1) k = get_all (req_headers req) k).
Proof.
  unfold add_host_header. destruct (authority (req_uri req)) as [a|]; [|intros [= <-]; split_and!; try done; by intros []].
  case_bool_decide as Hh; [by intros [= <-]|]. destruct (value_from_str _) as [v|]; [|done]. intros [= <-]. split_and!; try done; simpl.
  - intros _. by rewrite insert_same.
  - intros Hk. by rewrite insert_get, Hk.
Qed.

(** The pool and what was sent, for a request whose address is [h]. *)
Lemma serve_spec env http_auth req s :
  pool_ok s →
  keeps (λ x, ∃ h req' req1, request_host req = Ok (Some (h, req')) ∧ req_method req' ≠ CONNECT ∧ check_authorization http_auth req = true ∧
    (host_addr (req_uri req') = Some h → add_host_header (forwarded_request req') = Ok req1 ∧ sent_for env h req1 x))
    s (snd (serve_connection overflow_checks env http_auth req s)).
Proof.
  intros Hs. set (R := λ x, _). change (act_wp (serve_connection overflow_checks env http_auth req) (λ _ s', keeps R s s') s). unfold serve_connection.
  destruct (check_authorization http_auth req) eqn:Hauth; cbn [negb]; [|by wp_step]. wp_step. wp_step.
  destruct (request_host req) as [[[h req']|]|e|p] eqn:Hr; wp_step; try done; [|by wp_step]. case_bool_decide as Hm.
  - wp_step. unfold act_wp at 1, on_local. destruct (connect_host _ _ _ _) as [r l]. simpl fst. simpl snd.
    assert (keeps R s (set_h_local l s)) as Hk by (by apply keeps_rest). destruct r as [[st o]|e|p]; wp_step; [|by wp_step|done].
    wp_step. wp_step. wp_step. wp_step. etrans; [exact Hk|]. by apply keeps_rest.
  - wp_step. wp_step. eapply wp_mono; [by apply send_request_spec|]. intros r s' Hk.
    assert (keeps R s s') as Hk'.
    { eapply keeps_mono; [|exact Hk]. intros x (h' & req1 & Hh & Ha & Hx). exists h, req', req1. split_and!; try done. intros Hh'.
      change (req_uri (forwarded_request req')) with (req_uri req') in Hh. rewrite Hh' in Hh. by injection Hh as <-. }
    destruct r as [res|[e|e| |]|p]; wp_step; try wp_step; exact Hk'.
Qed.

(** C26. When users are configured, a request without the name and password of one
    of them is answered with 407 and nothing else happens: nothing is connected, sent,
    pooled or tunnelled, whatever the request asks for. *)
Theorem http_requires_login env http_auth req s :
  auth_required http_auth = true → ¬ authorized http_auth req →
  serve_connection overflow_checks env http_auth req s = (Ok make_proxy_authentication_required, s).
Proof.
  intros Ha Hn. unfold serve_connection. destruct (check_authorization http_auth req) eqn:E; [|done]. by apply check_authorization_spec in E.
Qed.

(** C15. What a request causes to be sent: every connection it is sent over was made
    for exactly the address that the request names, in its URI or else in its [Host]
    header, and what is sent has the method and the body of the request, a [Host]
    header, and of the other headers all but those that are meant for the proxy (the
    hop-by-hop ones, the credentials, and whatever [Connection] names), with a
    [Connection] header that says what the client wanted to be kept alive.  The pool
    keeps its connections under the addresses they lead to. *)
Theorem http_request_forwarded env http_auth req s :
  pool_ok s → uri_ok (req_uri req) → returns_message env →
  let s' := snd (serve_connection overflow_checks env http_auth req s) in
  let keep_alive := check_keep_alive (req_version req) (req_headers req) true in
  pool_ok s' ∧ ∃ new, sent s' = sent s ++ new ∧
    Forall (λ '(c, r), ∃ req', request_host req = Ok (Some (hc_host c, req')) ∧ host_addr (req_uri req') = Some (hc_host c) ∧
      req_method r = req_method req ∧ req_body r = req_body req ∧ get_all (req_headers r) (str "Host") ≠ [] ∧
      ∀ k, eq_ignore_ascii_case (str "Host") k = false →
        get_all (req_headers r) k =
          if eq_ignore_ascii_case (str "Connection") k then connection_header (req_version req) keep_alive
          else if names (nominated (req_headers req)) k || names HOP_BY_HOP_HEADERS k then [] else get_all (req_headers req) k) new.
Proof.
  intros Hs Hu Hret s' keep_alive. destruct (serve_spec env http_auth req s Hs Hs) as (Hs' & new & E & F). split; [exact Hs'|]. exists new. split; [exact E|].
  destruct (request_host_spec req Hu) as (o & Ho & Hreq). eapply list.Forall_impl; [exact F|]. intros [c r] (h & req' & req1 & Hr & _ & _ & Hx).
  rewrite Hr in Ho. injection Ho as <-. destruct (Hreq h req' eq_refl) as (Hh & Hm & Hv & Hhd & Hb).
  destruct (Hx Hh) as [Ha [Hc Hp]]. simpl in Hc. destruct (Hp Hret) as (P1 & P2 & P3). cbn [snd] in *. exists req'. rewrite Hc. rewrite P1, P2, P3.
  destruct (add_host_header_get _ _ (str "Host") Ha) as (A1 & A2 & A3 & _). split_and!; [done|done|by rewrite A1|by rewrite A2| |].
  - apply A3. unfold host_addr in Hh. change (req_uri (forwarded_request req')) with (req_uri req'). destruct (authority (req_uri req')); [by eauto|done].
  - intros k Hk. destruct (add_host_header_get _ _ k Ha) as (_ & _ & _ & A4). rewrite (A4 Hk). unfold forwarded_request. cbv zeta. cbn [req_headers set_headers].
    rewrite passed_headers, Hv, Hhd. done.
Qed.

(** However the requests, the connections that become ready and the upgrades of
    tunnels are interleaved, a pooled connection leads to the address it is kept for. *)
Theorem pool_reachable http_auth l s : rtc (http_step overflow_checks http_auth) (HttpClient_new l) s → pool_ok s.
Proof.
  intros H. assert (pool_ok (HttpClient_new (Body := Body) l)) as H0 by (split; [intros h q; simpl; by rewrite stored_new|constructor]).
  revert H H0. induction 1 as [|s1 s2 s3 Hstep _ IH]; [done|]. intros Hs. apply IH. clear IH s3. destruct Hstep as [env req s|ready t i s|env i client s].
  - by apply (serve_spec env http_auth req s Hs Hs).
  - unfold conn_ready. destruct Hs as [Hp Hb]. destruct (becoming_ready s !! i) as [[h c]|] eqn:Hi; [|done].
    assert (hc_host c = h) as Hc by (apply (proj1 (list.Forall_lookup _ _) Hb i (h, c) Hi)).
    assert (Forall (λ hc, hc_host hc.2 = hc.1) (delete i (becoming_ready s))) as Hb' by (by apply Forall_delete).
    destruct ready; [|by split]. pose proof (stored_entry t (cache_conn s) h []) as He. pose proof (stored_after_entry t (cache_conn s) h []) as Ha.
    cbn [cache_conn]. destruct (lru_entry _ _ _ _) as [q cache]. simpl in He, Ha. split; [|exact Hb']. intros k q'. cbn [cache_conn set_cache]. rewrite stored_store.
    destruct (decide (h = k)) as [<-|Hne]; [|intros Hk; by apply Hp, (Ha k)]. intros [= <-]. apply list.Forall_app. split; [|by apply list.Forall_singleton].
    destruct He as [->|He]; [constructor|by apply Hp].
  - unfold upgraded. destruct (upgrading s !! i) as [[[h st] o]|]; [|done]. by destruct client.
Qed.

(** A request that is taken back from a pooled HTTP/1 connection has lost the scheme
    of its URI, so that the connection it is sent over next is made without TLS even
    when the request was for [https]. *)
Theorem retry_forgets_scheme env h c req e r' s s' :
  (∀ p u, build_path p = Some u → scheme u = None) → returns_message env →
  hc_http2 c = false → req_method req ≠ CONNECT → is_Some (authority (req_uri req)) →
  send_request_conn env h c req s = (Err (TrySend e (Some r')), s') →
  scheme (req_uri r') = None ∧ ∀ domain s1, act_wp (HttpConnection_connect overflow_checks env (default HTTP (scheme (req_uri r'))) h domain)
    (λ r _, ∀ c', r = Ok c' → hc_scheme c' = HTTP) s1.
Proof.
  intros Hb Hret H2 Hm Ha H. assert (scheme (req_uri r') = None) as Hs.
  { unfold send_request_conn, HttpConnection_send_request in H. rewrite H2 in H. cbv zeta in H.
    set (req1 := match req_version req with HTTP_09 | HTTP_10 | HTTP_11 => req | _ => set_version HTTP_11 req end) in H.
    assert (req_method req1 = req_method req ∧ req_uri req1 = req_uri req) as [E1 E2] by (unfold req1; by destruct (req_version req)).
    rewrite E1, E2, (bool_decide_false (req_method req = CONNECT)), (bool_decide_true (is_Some (authority _))), orb_true_r in H by done. simpl in H.
    destruct (build_path _) as [u|] eqn:Hu; [|done]. unfold mbind, action_bind, mret, action_ret, act_mod in H.
    destruct (try_send_request env c (set_uri u req1)) as [res|[e0 m]] eqn:Ht; [by destruct (check_keep_alive _ _ _)|]. injection H as -> -> _.
    rewrite (Hret _ _ _ _ Ht). simpl. by apply (Hb _ _ Hu). }
  split; [exact Hs|]. rewrite Hs. intros domain s1. eapply wp_mono; [apply (connect_spec (λ _, True))|]. intros r s2 [_ Hc] c' Hr. by apply (Hc c').
Qed.
End HttpFacts.

(** The credentials that the HTTP client of this program sends are those that its
    server looks for. *)
Theorem basic_auth_interop `{B64 : Base64} {BLaws : Base64Laws B64} u p self :
  COLON ∉ u → utf8_valid (u ++ COLON :: p) = true →
  ∃ value, Outbound.proxy_authorization (Outbound.Basic u p) = Some value ∧ verify_basic_auth self value = check_user self u p.
Proof.
  intros Hc Hv. eexists. split; [reflexivity|]. apply eq_iff_eq_true. rewrite verify_basic_auth_spec. unfold check_user. split.
  - intros (u' & p' & (b64 & Hb & Hd & Hc' & _) & Hl). apply app_inv_head in Hb as <-. rewrite std_decode_encode in Hd. injection Hd as Hd.
    assert (split_first COLON (u ++ COLON :: p) = Some (u', p')) as Hs by (by apply split_first_iff).
    rewrite (proj2 (split_first_iff COLON _ u p) (conj eq_refl Hc)) in Hs. injection Hs as <- <-. rewrite Hl. by apply bool_decide_eq_true.
  - destruct (basic_users self !! u) as [pwd|] eqn:Hl; [|done]. rewrite bool_decide_eq_true. intros ->. exists u, p. split; [|done].
    eexists. split_and!; [reflexivity|apply std_decode_encode|done..].
Qed.

(** ** Concrete requests *)
Module HttpExamples.
Import Toy ToyConf Acl.AclExamples FakeDns.FakeDnsExamples.
#[local] Existing Instances list_range literal_regex toy_env toy_lib SocksServer.SocksExamples.units.

Record authority_parts := { a_host : bytes; a_port : option Z; a_text : bytes }.

(** Headers as a list of names and values. *)
#[local] Instance toy_http : HttpCrate := {|
  HeaderMap := list (bytes * bytes); header_empty := [];
  get_all m k := snd <$> filter (λ kv, to_ascii_lowercase kv.1 = to_ascii_lowercase k) m;
  remove m k := (head (snd <$> filter (λ kv, to_ascii_lowercase kv.1 = to_ascii_lowercase k) m), filter (λ kv, to_ascii_lowercase kv.1 ≠ to_ascii_lowercase k) m);
  insert m k v := (k, v) :: filter (λ kv, to_ascii_lowercase kv.1 ≠ to_ascii_lowercase k) m;
  to_str v := if forallb (λ b, in_range 32 126 b || in_range 9 9 b) v then Some v else None;
  value_from_str v := Some v;
  Authority := authority_parts; authority_from_str s := Some {| a_host := s; a_port := None; a_text := s |};
  port_u16 := a_port; host := a_host; as_str := a_text; HyperError := string |}.

#[local] Instance toy_builder : UriBuilder := {|
  from_parts u := Some u; build_path p := Some {| scheme := None; authority := None; path_and_query := Some p |} |}.

Lemma filter_same (m : list (bytes * bytes)) k : filter (λ kv, to_ascii_lowercase kv.1 = k) (filter (λ kv, to_ascii_lowercase kv.1 ≠ k) m) = [].
Proof. induction m as [|x m IH]; [done|]. rewrite filter_cons. case_decide; [|done]. rewrite filter_cons. by rewrite decide_False. Qed.

Lemma filter_other (m : list (bytes * bytes)) k k' : k ≠ k' →
  filter (λ kv, to_ascii_lowercase kv.1 = k') (filter (λ kv, to_ascii_lowercase kv.1 ≠ k) m) = filter (λ kv, to_ascii_lowercase kv.1 = k') m.
Proof.
  intros Hk. induction m as [|x m IH]; [done|]. rewrite (filter_cons (λ kv, _ ≠ _)). case_decide as H; rewrite !filter_cons.
  - case_decide; [by rewrite IH|done].
  - rewrite (decide_False (P := to_ascii_lowercase x.1 = k')); [done|]. destruct (decide (to_ascii_lowercase x.1 = k)); [congruence|done].
Qed.

#[local] Instance toy_http_laws : HttpLaws toy_http.
Proof.
  split; simpl; try done.
  - by intros m k k' ->.
  - intros m k. by rewrite filter_same.
  - intros m k k' Hk. by rewrite filter_other.
  - intros m k v. rewrite filter_cons, decide_True by done. by rewrite filter_same.
  - intros m k k' v Hk. rewrite filter_cons, decide_False by done. by rewrite filter_other.
  - intros v s. destruct (forallb _ v); [by intros [= <-]|done].
Qed.

#[local] Instance toy_uri_laws : UriLaws toy_builder.
Proof. by split. Qed.

(** A cache without expiry of its own. *)
#[local] Instance toy_queues Q : LruQueues Q := {|
  Lru := Address → option Q; lru_new _ := λ _, None; lru_get_mut _ c k := (c k, c);
  lru_store c k q := λ k', if decide (k = k') then Some q else c k'; lru_entry _ c k d := (default d (c k), c) |}.

Definition toy_stored {Q} (c : Lru (LruQueues := toy_queues Q)) (k : Address) : option Q := c k.

#[local] Instance toy_queues_laws Q : LruQueuesLaws (toy_queues Q) toy_stored.
Proof. split; unfold toy_stored; simpl; try done. intros _ c k d. destruct (c k); [by right|by left]. Qed.

Abbreviation DemoRequest := (Request (Body := bytes)).
Definition demo_uri (sch name path : bytes) (port : Z) : Uri :=
  {| scheme := Some sch; authority := Some {| a_host := name; a_port := Some port; a_text := name ++ COLON :: show_u16 port |}; path_and_query := Some path |}.
Definition demo_get (uri : Uri) (headers : list (bytes * bytes)) : DemoRequest :=
  {| req_method := str "GET"; req_uri := uri; req_version := HTTP_11; req_headers := headers; req_body := [] |}.
Definition demo_answer : Response (Body := bytes) := {| res_status := 200; res_version := HTTP_11; res_headers := []; res_body := Some (str "hi") |}.
Definition demo_http (answers : HttpConnection → DemoRequest → Response (Body := bytes) + (string * option DemoRequest)) : HttpEnv (Body := bytes) :=
  {| net := SocksServer.SocksExamples.demo_net; now := 0; popped_at _ := 0; is_closed _ := false; is_ready _ := true; http1_handshake _ := Ok tt;
     http2_handshake _ := Ok tt; tls_connect _ _ := Ok false; try_send_request := answers |}.
Definition fine : HttpEnv (Body := bytes) := demo_http (λ _ _, inl demo_answer).
Definition demo_start : HttpState (Body := bytes) := HttpClient_new SocksServer.SocksExamples.demo_local.
Definition demo_users : HttpAuthConfig := add_user (str "bob") (str "secret") HttpAuthConfig_new.
Definition plain_get : DemoRequest :=
  demo_get (demo_uri HTTP (str "site") (str "/a") 443) [(str "Connection", str "keep-alive, X-Trace"); (str "X-Trace", str "1"); (str "Accept", str "text")].

Lemma http_requires_login_witness : serve_connection true fine demo_users plain_get demo_start = (Ok make_proxy_authentication_required, demo_start).
Proof. apply (http_requires_login true fine demo_users plain_get demo_start); [reflexivity|]. by intros (v & u & p & [=] & _). Defined.

Lemma http_request_forwarded_witness :
  let s' := snd (serve_connection true fine HttpAuthConfig_new plain_get demo_start) in
  pool_ok toy_stored s' ∧ (hc_host ∘ fst) <$> sent s' = [DomainNameAddress (str "site") 443] ∧
  (req_headers ∘ snd) <$> sent s' = [[(str "Host", str "site:443"); (str "Accept", str "text")]].
Proof.
  assert (pool_ok toy_stored demo_start) as H0 by (split; [intros h q H; discriminate H|constructor]).
  destruct (http_request_forwarded true toy_stored fine HttpAuthConfig_new plain_get demo_start H0) as [Hp _].
  - intros H. discriminate H.
  - intros c r e r' H. discriminate H.
  - split; [exact Hp|]. split; reflexivity.
Defined.

(** After a plain request to a host and port, whose connection has become ready, a
    request for [https] to the same host and port goes over that connection, which has
    no TLS. *)
Definition secure_get : DemoRequest := demo_get (demo_uri HTTPS (str "site") (str "/login") 443) [].
Example pool_ignores_scheme :
  let s1 := conn_ready true 0 0 (snd (serve_connection true fine HttpAuthConfig_new plain_get demo_start)) in
  let s2 := snd (serve_connection true fine HttpAuthConfig_new secure_get s1) in
  (hc_scheme ∘ fst) <$> sent s2 = [HTTP; HTTP] ∧ (hc_id ∘ fst) <$> sent s2 = [0; 0]%nat ∧ (path_and_query ∘ req_uri ∘ snd) <$> sent s2 = [Some (str "/a"); Some (str "/login")].
Proof. split_and!; reflexivity. Qed.

(** A second request for [https], when the pooled TLS connection turns out to be
    broken, is sent again without TLS. *)
Example https_retried_in_clear :
  let broken := demo_http (λ c r, if (hc_id c =? 0)%nat then inr ("canceled"%string, Some r) else inl demo_answer) in
  let s1 := conn_ready true 0 0 (snd (serve_connection true fine HttpAuthConfig_new secure_get demo_start)) in
  let s2 := snd (serve_connection true broken HttpAuthConfig_new secure_get s1) in
  (hc_scheme ∘ fst) <$> sent s1 = [HTTPS] ∧ (hc_scheme ∘ fst) <$> sent s2 = [HTTPS; HTTPS; HTTP] ∧
  (path_and_query ∘ req_uri ∘ snd) <$> drop 2 (sent s2) = [Some (str "/login")].
Proof. split_and!; reflexivity. Qed.
End HttpExamples.
