(* ===== verification/LocalTunnels.v ===== *)
(** * Tunnels, redirection and traffic counters
    (crates/shadowsocks-service/src/local/tunnel, local/redir, net)

    [tunnel/tcprelay.rs]: every client is tunnelled to one fixed address;
    [redir/tcprelay]: to the address it meant before it was redirected;
    [net/flow.rs], [net/mon_stream.rs], [net/mon_socket.rs]: the counters of the
    traffic with a server.  Shown: the fixed tunnel goes through the chosen server
    whatever the access control list says of its address; both tunnels pass on every
    byte of the client; and the counters are exact, modulo their width, for reads into
    empty buffers and for unvectored writes, which is all that the copying does. *)
From S2P Require Import Prelude.
From S2P Require Import AsyncIo.
From S2P Require Import External.
From S2P Require Import StdNet.
From S2P Require Import Socks5.
From S2P Require Import Acl.
From S2P Require Import FakeDns.
From S2P Require Import ServerConf.
From S2P Require Import PingBalancer.
From S2P Require Import AutoProxy.
From S2P Require Import SocksServer.

Section Handlers.
Context `{CS : CipherSuite, B64 : Base64, CN : !CipherNames, BL : Blake3, RL : IpRangeLib, XL : RegexLib, AE : AclEnv, FL : FakeDnsLib}.
Context (overflow_checks : bool) `{TR : Transports}.

(** The tail of both handlers: how the connection to the target is made with a server
    is the only difference. *)
Definition tunnel_with (connect : nat → action Local io_error AutoProxyClientStream) (env : Surroundings) (addr : Address) : action Session io_error unit :=
  is_empty ← act_gets (λ s, bool_decide (servers (balancer (local s)) = []));
  if is_empty : bool then
    remote ← in_local (connect_bypassed_with_opts (net env) addr);
    establish_tcp_tunnel_bypassed remote
  else
    i ← in_local best_tcp_server;
    server ← in_local (get_server i);
    remote ← in_local (connect i);
    establish_tcp_tunnel env (svr_cfg server) remote.

(** [tunnel/tcprelay.rs]. *)
Definition handle_tcp_client (env : Surroundings) (forward_addr : Address) : action Session io_error unit :=
  tunnel_with (λ i, connect_proxied_with_opts overflow_checks (net env) i forward_addr) env forward_addr.

(** [redir/tcprelay/mod.rs]. *)
Definition establish_client_tcp_redir (env : Surroundings) (addr : Address) : action Session io_error unit :=
  tunnel_with (λ i, connect_with_opts overflow_checks (net env) i addr) env addr.

Definition handle_redir_client (env : Surroundings) (daddr : Socks5.SocketAddr) : action Session io_error unit :=
  let daddr :=
    match daddr with
    | V6 ip port _ _ => match to_ipv4_mapped ip with Some v4 => V4 v4 port | None => daddr end
    | V4 _ _ => daddr
    end in
  establish_client_tcp_redir env (SocketAddress daddr).

(** The spawned task of [run]: nothing happens without the original destination, and
    an error is only logged. *)
Definition redir_accepted (env : Surroundings) (destination_addr : outcome io_error Socks5.SocketAddr) : action Session io_error unit :=
  match destination_addr with
  | Ok d => _ ← attempt (F := io_error) (handle_redir_client env d); mret tt
  | Err _ => mret tt
  | Panic m => act_of (Panic m)
  end.

(** ** Facts *)
Implicit Types (s : Session) (l : Local).

(** What a tunnel keeps of its client. *)
Definition kept (s s' : Session) : Prop :=
  ∀ t, tunnel s' = Some t → in_flight s' = in_flight s ∧ rd_end (input s') = rd_end (input s) ∧ (is_Some (t_method t) ↔ is_proxied (t_remote t) = true).

Lemma tunnel_ok_kept st s s1 s' : in_flight s1 = in_flight s → rd_end (input s1) = rd_end (input s) → tunnel_ok st s1 s' → kept s s'.
Proof. intros Hi He H t Ht. unfold tunnel_ok in H. rewrite Ht in H. destruct H as (H1 & H2 & H3 & H4). rewrite H2, H3, Hi, He. by subst st. Qed.

Lemma bypassed_tunnel_spec st s : is_proxied st = false → act_wp (establish_tcp_tunnel_bypassed st) (λ _ s', tunnel_ok st s s' ∧ local s' = local s) s.
Proof. intros Hp. unfold establish_tcp_tunnel_bypassed. wp_step. split; [|done]. unfold tunnel_ok. simpl. rewrite Hp. split_and!; try done; by intros []. Qed.

Lemma bypassed_stream net_ addr l : act_wp (connect_bypassed_with_opts net_ addr) (λ r _, ∀ st, r = Ok st → is_proxied st = false) l.
Proof.
  unfold connect_bypassed_with_opts. wp_step. unfold act_wp at 1. destruct (map_target net_ addr l) as [[a|e|m] l1]; simpl; [|done..].
  unfold act_wp. rewrite connect_bypassed_inner_eq. simpl. destruct (connect_remote net_ a); [|done..]. by intros st [= <-].
Qed.

(** The start of a tunnel leaves the local state alone. *)
Lemma establish_local env cfg st s : act_wp (establish_tcp_tunnel env cfg st) (λ _ s', local s' = local s) s.
Proof.
  unfold establish_tcp_tunnel. destruct (negb _); [done|]. wp_step. eapply wp_mono; [apply timed_read_spec; lia|]. intros r s1 (_ & _ & H & _).
  assert (∀ d, act_wp (_ ← write_remote env d; act_mod (tunnelled {| t_remote := st; t_method := Some (method cfg) |})) (λ _ s', local s' = local s) s1) as Hw.
  { intros d. wp_step. eapply wp_mono; [apply write_remote_spec|]. intros [[]|e|m] s2 (_ & _ & K & _); wp_step; try wp_step; simpl; by rewrite K. }
  destruct r as [[[|x d]|]|e|m]; wp_step; try exact H; apply Hw.
Qed.

Lemma wp_in_local {A} (m : action Local io_error A) (P : outcome io_error A → Local → Prop) (Q : outcome io_error A → Session → Prop) s :
  act_wp m P (local s) → (∀ r l, P r l → Q r (set_local l s)) → act_wp (in_local m) Q s.
Proof. unfold act_wp, in_local. destruct (m (local s)) as [r l]. simpl. auto. Qed.

(** Either tunnel: nothing of the client is lost, and with servers what is connected
    is what [connect] does with the chosen one. *)
Lemma tunnel_with_spec connect env addr (P : nat → outcome io_error AutoProxyClientStream → Local → Prop) s :
  tunnel s = None →
  (∀ i, act_wp (connect i) (P i) (local s)) →
  act_wp (tunnel_with connect env addr) (λ _ s', kept s s' ∧
    (servers (balancer (local s)) ≠ [] → (tunnel s' = None ∧ local s' = local s) ∨ ∃ r, P (best_tcp_idx (balancer (local s))) r (local s') ∧
      ∀ t, tunnel s' = Some t → r = Ok (t_remote t))) s.
Proof.
  intros Ht HP. unfold tunnel_with. wp_step. wp_step. wp_step.
  assert (∀ l, tunnel (set_local l s) = None) as Ht' by done.
  assert (∀ l, kept s (set_local l s)) as Hk by (intros l t E; by rewrite Ht' in E).
  case_bool_decide as He; wp_step.
  - eapply wp_in_local; [apply bypassed_stream|]. intros r l Hst. destruct r as [st|e|m]; wp_step; [|split; [apply Hk|by intros []]..].
    eapply wp_mono; [apply bypassed_tunnel_spec; by apply Hst|]. intros r s' [Hok _]. split; [by eapply tunnel_ok_kept; [..|exact Hok]|by intros []].
  - unfold act_wp at 1, in_local, best_tcp_server. destruct (best_server Tcp (balancer (local s))) as [x|e|m]; cbn [fst snd fmap outcome_fmap]; wp_step.
    2, 3: split; [apply Hk|]; intros _; by left.
    assert (set_local (local s) s = s) as -> by (by destruct s). wp_step. unfold act_wp at 1, in_local, get_server.
    destruct (servers (balancer (local s)) !! best_tcp_idx (balancer (local s))) as [srv|]; cbn [fst snd]; wp_step.
    2: { split; [apply Hk|]. intros _. by left. }
    assert (set_local (local s) s = s) as -> by (by destruct s). wp_step. eapply wp_in_local; [apply HP|]. intros r l Hr.
    destruct r as [st|e|m]; wp_step.
    2, 3: split; [apply Hk|]; intros _; right; eexists; split; [exact Hr|]; intros t E; by rewrite Ht' in E.
    pose proof (establish_local env (svr_cfg srv) st (set_local l s)) as Hl. unfold act_wp in Hl |- *.
    assert (tunnel_ok st (set_local l s) (establish_tcp_tunnel env (svr_cfg srv) st (set_local l s)).2) as Hok.
    { destruct (is_proxied st) eqn:Hp; [by apply (establish_tcp_tunnel_spec env (svr_cfg srv) st (set_local l s))|].
      unfold establish_tcp_tunnel. rewrite Hp. cbn [negb]. by apply (bypassed_tunnel_spec st (set_local l s)). }
    split; [by eapply tunnel_ok_kept; [..|exact Hok]|]. intros _. right. eexists. split; [rewrite Hl; exact Hr|].
    intros t E. unfold tunnel_ok in Hok. rewrite E in Hok. by destruct Hok as [-> _].
Qed.

(** C27. A fixed tunnel with servers always goes through the chosen one: whatever is
    connected to belongs to that server, whatever the access control list says of the
    address, the stream it copies to is a proxied one to that address (or the name
    that the fake DNS has given it), and every byte of the client goes into it. *)
Theorem fixed_tunnel_by_server env forward_addr s :
  tunnel s = None → servers (balancer (local s)) ≠ [] →
  act_wp (handle_tcp_client env forward_addr) (λ _ s', kept s s' ∧
    ∃ a, (∀ x, fst (map_target (net env) forward_addr (local s)) = Ok x → x = a) ∧
      (∃ new, dials (local s') = dials (local s) ++ new ∧ Forall (to_server (net env) (local s) (best_tcp_idx (balancer (local s))) a) new) ∧
      ∀ t, tunnel s' = Some t → leads_by (net env) (local s) (best_tcp_idx (balancer (local s))) a (t_remote t)) s.
Proof.
  intros Ht Hs. set (i := best_tcp_idx (balancer (local s))). unfold handle_tcp_client.
  set (a := match fst (map_target (net env) forward_addr (local s)) with Ok x => x | _ => forward_addr end).
  eapply wp_mono. { apply (tunnel_with_spec _ env forward_addr (λ i r l, (∃ new, dials l = dials (local s) ++ new ∧ Forall (to_server (net env) (local s) i a) new) ∧
    ∀ st, r = Ok st → leads_by (net env) (local s) i a st) s Ht). intros j. unfold connect_proxied_with_opts. wp_step. unfold act_wp at 1.
    pose proof (map_target_state (net env) forward_addr (local s)) as Hm. unfold act_wp in Hm. unfold a.
    destruct (map_target (net env) forward_addr (local s)) as [[x|e|m] l]; simpl in Hm |- *; destruct Hm as [mgrs ->].
    2, 3: split; [exists []; by rewrite app_nil_r|done].
    eapply wp_mono; [apply (connect_proxied_inner_spec overflow_checks (net env) j x)|]. intros r l' [Hd Hr]. split; [exact Hd|].
    intros st ->. apply Hr. }
  intros r s' [Hk H]. split; [exact Hk|]. exists a. split; [unfold a; by intros x ->|]. destruct (H Hs) as [[Hn Hl]|(r' & [Hd Hl] & Hr)].
  - split; [exists []; by rewrite Hl, app_nil_r|]. intros t E. by rewrite Hn in E.
  - split; [exact Hd|]. intros t E. by apply Hl, Hr.
Qed.

(** The same of a redirected client, which goes the way the access control list says. *)
Theorem redirected_tunnel_keeps_bytes env destination s :
  tunnel s = None → act_wp (redir_accepted env destination) (λ _ s', kept s s') s.
Proof.
  intros Ht. unfold redir_accepted. destruct destination as [d|e|m]; [|intros t E; simpl in E; by rewrite Ht in E..].
  wp_step. wp_step. unfold handle_redir_client, establish_client_tcp_redir. eapply wp_mono; [by apply (tunnel_with_spec _ env _ (λ _ _ _, True))|].
  intros [[]|e|m] s' [H _]; exact H.
Qed.
End Handlers.

(** ** Traffic counters *)
Module Flow.
Section Flow.
(** The width of the atomic counters: 64 bits, or 32 where there are no wider ones. *)
Context (width : Z) (Hwidth : 0 < width).

Record FlowStat := { tx : Z; rx : Z }.
Definition FlowStat_new : FlowStat := {| tx := 0; rx := 0 |}.

Definition incr_tx (n : nat) (f : FlowStat) : FlowStat := {| tx := (tx f + Z.of_nat n) mod 2 ^ width; rx := rx f |}.
Definition incr_rx (n : nat) (f : FlowStat) : FlowStat := {| tx := tx f; rx := (rx f + Z.of_nat n) mod 2 ^ width |}.

(** [MonProxyStream]: what a poll of the stream below finds, and the bytes that are
    already in the buffer. *)
Definition poll_read (below : pres io_error bytes) (filled : bytes) (f : FlowStat) : pres io_error bytes * FlowStat :=
  match below with
  | Ready data => (Ready (filled ++ data), incr_rx (length (filled ++ data)) f)
  | r => (r, f)
  end.

Definition poll_write (below : pres io_error nat) (f : FlowStat) : pres io_error nat * FlowStat :=
  match below with
  | Ready n => (Ready n, incr_tx n f)
  | r => (r, f)
  end.

Definition poll_write_vectored (below : pres io_error nat) (f : FlowStat) : pres io_error nat * FlowStat := (below, f).

(** [MonProxySocket]: the sizes of the datagrams that were sent and received. *)
Definition socket_send (below : outcome io_error nat) (f : FlowStat) : outcome io_error unit * FlowStat :=
  match below with Ok n => (Ok tt, incr_tx n f) | Err e => (Err e, f) | Panic m => (Panic m, f) end.

Definition socket_recv {A} (below : outcome io_error (A * nat)) (f : FlowStat) : outcome io_error A * FlowStat :=
  match below with Ok (a, recv_n) => (Ok a, incr_rx recv_n f) | Err e => (Err e, f) | Panic m => (Panic m, f) end.

(** What streams and sockets with one counter do, in any order. *)
Inductive event :=
| Read (below : pres io_error bytes)
| Wrote (below : pres io_error nat)
| Sent (below : outcome io_error nat)
| Received (below : outcome io_error (Address * nat)).

Definition happen (f : FlowStat) (e : event) : FlowStat :=
  match e with
  | Read r => snd (poll_read r [] f)
  | Wrote r => snd (poll_write r f)
  | Sent r => snd (socket_send r f)
  | Received r => snd (socket_recv r f)
  end.

Definition bytes_in (e : event) : Z :=
  match e with Read (Ready d) => Z.of_nat (length d) | Received (Ok (_, n)) => Z.of_nat n | _ => 0 end.
Definition bytes_out (e : event) : Z :=
  match e with Wrote (Ready n) => Z.of_nat n | Sent (Ok n) => Z.of_nat n | _ => 0 end.

(** Read into empty buffers, the counters are the traffic in both directions, modulo
    their width, whatever fails or is pending in between. *)
Theorem flow_counts events f :
  0 ≤ tx f < 2 ^ width → 0 ≤ rx f < 2 ^ width →
  foldl happen f events =
    {| tx := (tx f + foldr Z.add 0 (bytes_out <$> events)) mod 2 ^ width; rx := (rx f + foldr Z.add 0 (bytes_in <$> events)) mod 2 ^ width |}.
Proof.
  assert (0 < 2 ^ width) as Hp by (apply Z.pow_pos_nonneg; lia).
  revert f. induction events as [|e events IH]; intros f Ht Hr; cbn [foldl fmap list_fmap foldr].
  { rewrite !Z.add_0_r, !Z.mod_small by done. by destruct f. }
  assert (happen f e = {| tx := (tx f + bytes_out e) mod 2 ^ width; rx := (rx f + bytes_in e) mod 2 ^ width |}) as ->.
  { destruct f as [t r]. simpl in *.
    destruct e as [[d|er|m|]|[n|er|m|]|[n|er|m]|[[a n]|er|m]]; cbn; unfold incr_rx, incr_tx; cbn; rewrite ?Z.add_0_r, ?(Z.mod_small t), ?(Z.mod_small r) by done; done. }
  rewrite IH by (cbn [tx rx]; apply Z.mod_pos_bound; exact Hp). cbn [tx rx]. f_equal; rewrite Zplus_mod_idemp_l; f_equal; lia.
Qed.
End Flow.

(** A read into a buffer that is not empty counts what is there again. *)
Example read_counted_twice : rx (snd (poll_read 64 (Ready (str "cd")) (str "ab") FlowStat_new)) = 4.
Proof. reflexivity. Qed.
End Flow.

(** ** A concrete tunnel *)
Module LocalTunnelExamples.
Import Toy ToyConf Acl.AclExamples FakeDns.FakeDnsExamples SocksExamples.
#[local] Existing Instances list_range literal_regex toy_env toy_lib units.

Definition proxied_session : Session :=
  set_local {| context := context demo_local; balancer := demo_ctx; realms := ∅; dials := [] |} (demo_session (str "hello")).

Lemma fixed_tunnel_by_server_witness :
  let s' := snd (handle_tcp_client true demo_env web proxied_session) in
  kept proxied_session s' ∧ bool_decide (is_Some (tunnel s')) = true ∧ ∀ t, tunnel s' = Some t → leads_by (net demo_env) (local proxied_session) 2 web (t_remote t).
Proof.
  pose proof (fixed_tunnel_by_server true demo_env web proxied_session) as H. unfold act_wp in H.
  assert (best_tcp_idx (balancer (local proxied_session)) = 2%nat) as E by (vm_compute; reflexivity). rewrite E in H.
  destruct H as (Hk & a & Ha & _ & Hl); [reflexivity|vm_compute; discriminate|]. split; [exact Hk|]. split; [vm_compute; reflexivity|].
  rewrite <- (Ha web) in Hl by reflexivity. exact Hl.
Defined.
End LocalTunnelExamples.
