(* ===== verification/ServiceConfig.v ===== *)
(** * The configuration of the services (crates/shadowsocks-service/src/config.rs)

    The realm part of a server and its form in the file, the protocols of local
    servers, the DNS setting, variables in fields, the check that a configuration is
    complete, and the balancer that the local service makes of it ([local/mod.rs]).
    The rest of the file is a field-by-field conversion of what serde has read.
    Shown: a realm part is the same after it was written and read again; nameservers
    are read back as they were written; what exactly a configuration that passes the
    check has; and that the balancer is then made with all the servers in order, with
    the one setting for which it is not. *)
From S2P Require Import Prelude.
From S2P Require Import External.
From S2P Require Import Users.
From S2P Require Import StdNet.
From S2P Require Import NetText.
From S2P Require Import Socks5.
From S2P Require Import ServerConf.
From S2P Require Import ServerStat.
From S2P Require Import PingBalancer.
From S2P Require Import AutoProxy.

(** ** The realm part of a server *)
Record SSRealmTlsConfig := { ss_self_signed : option bool; ss_pin_sha256 : option bytes; ss_insecure : option bool }.
Record SSRealmTcpUpgrade := { ss_enable : option bool; ss_methods : list bytes; ss_external_port : option Z }.
Record SSRealmConfig := {
  ss_rendezvous : bytes;
  ss_stun_servers : list bytes;
  ss_prefer_tcp : option bool;
  ss_lport : option Z;
  ss_quic_tls : option SSRealmTlsConfig;
  ss_tcp_upgrade : option SSRealmTcpUpgrade;
}.

Definition default_tcp_upgrade_methods : list bytes := [str "upnp"; str "natpmp"].

Definition into_realm_config (self : SSRealmConfig) : RealmConfig :=
  let '(self_signed, pin_sha256, insecure) :=
    match ss_quic_tls self with
    | Some t => (default false (ss_self_signed t), ss_pin_sha256 t, default false (ss_insecure t))
    | None => (true, None, false)
    end in
  let '(tcp_upgrade, tcp_upgrade_methods, tcp_upgrade_external_port) :=
    match ss_tcp_upgrade self with
    | Some u =>
        (default true (ss_enable u), if bool_decide (ss_methods u = []) then default_tcp_upgrade_methods else ss_methods u, default 0 (ss_external_port u))
    | None => (true, default_tcp_upgrade_methods, 0)
    end in
  {| rendezvous := ss_rendezvous self; stun_servers := ss_stun_servers self; prefer_tcp := default true (ss_prefer_tcp self); lport := ss_lport self;
     self_signed := self_signed; pin_sha256 := pin_sha256; insecure := insecure; tcp_upgrade := tcp_upgrade;
     tcp_upgrade_methods := tcp_upgrade_methods; tcp_upgrade_external_port := tcp_upgrade_external_port |}.

Definition from_realm_config (r : RealmConfig) : SSRealmConfig :=
  {| ss_rendezvous := rendezvous r; ss_stun_servers := stun_servers r; ss_prefer_tcp := Some (prefer_tcp r); ss_lport := lport r;
     ss_quic_tls := Some {| ss_self_signed := Some (self_signed r); ss_pin_sha256 := pin_sha256 r; ss_insecure := Some (insecure r) |};
     ss_tcp_upgrade := Some {| ss_enable := Some (tcp_upgrade r); ss_methods := tcp_upgrade_methods r; ss_external_port := Some (tcp_upgrade_external_port r) |} |}.

(** A realm part is the same after it was written to a file and read again; only an
    empty list of methods, which no file gives, would become the default ones. *)
Theorem realm_config_roundtrip r c :
  into_realm_config (from_realm_config r) =
    {| rendezvous := rendezvous r; stun_servers := stun_servers r; prefer_tcp := prefer_tcp r; lport := lport r; self_signed := self_signed r;
       pin_sha256 := pin_sha256 r; insecure := insecure r; tcp_upgrade := tcp_upgrade r;
       tcp_upgrade_methods := if bool_decide (tcp_upgrade_methods r = []) then default_tcp_upgrade_methods else tcp_upgrade_methods r;
       tcp_upgrade_external_port := tcp_upgrade_external_port r |} ∧
  into_realm_config (from_realm_config (into_realm_config c)) = into_realm_config c.
Proof.
  assert (∀ r, tcp_upgrade_methods r ≠ [] → into_realm_config (from_realm_config r) = r) as H.
  { intros [a b d e f g h i ms j] Hm. unfold into_realm_config, from_realm_config. cbn in *. by rewrite bool_decide_false. }
  split; [done|]. apply H. unfold into_realm_config. destruct (ss_quic_tls c), (ss_tcp_upgrade c) as [u|]; cbn; try done; by case_bool_decide.
Qed.

(** ** Kinds of configurations and of local servers *)
Inductive ConfigType := ConfigLocal | ConfigServer | ConfigManager | OnlineConfig.
#[export] Instance ConfigType_eq_dec : EqDecision ConfigType.
Proof. solve_decision. Defined.

Inductive ProtocolType := ProtoSocks | ProtoHttp | ProtoTunnel | ProtoRedir | ProtoDns | ProtoTun | ProtoFakeDns.
#[export] Instance ProtocolType_eq_dec : EqDecision ProtocolType.
Proof. solve_decision. Defined.

Definition ProtocolType_as_str (self : ProtocolType) : bytes :=
  match self with
  | ProtoSocks => str "socks" | ProtoHttp => str "http" | ProtoTunnel => str "tunnel" | ProtoRedir => str "redir"
  | ProtoDns => str "dns" | ProtoTun => str "tun" | ProtoFakeDns => str "fake-dns"
  end.

Definition available_protocols : list bytes := [str "socks"; str "http"; str "tunnel"; str "redir"; str "dns"; str "tun"; str "fake-dns"].

Definition ProtocolType_from_str (s : bytes) : option ProtocolType :=
  if bool_decide (s = str "socks") then Some ProtoSocks
  else if bool_decide (s = str "http") then Some ProtoHttp
  else if bool_decide (s = str "tunnel") then Some ProtoTunnel
  else if bool_decide (s = str "redir") then Some ProtoRedir
  else if bool_decide (s = str "dns") then Some ProtoDns
  else if bool_decide (s = str "tun") then Some ProtoTun
  else if bool_decide (s = str "fake-dns") then Some ProtoFakeDns
  else None.

(** Exactly the available names are read, each as the protocol that prints it. *)
Theorem protocol_names s p : ProtocolType_from_str s = Some p ↔ s = ProtocolType_as_str p ∧ s ∈ available_protocols.
Proof.
  split.
  - unfold ProtocolType_from_str. unfold available_protocols.
    repeat (case_bool_decide; [intros [= <-]; split; [assumption|]; rewrite !elem_of_cons; tauto|]). done.
  - intros [-> _]. destruct p; reflexivity.
Qed.

(** ** The DNS setting

    A nameserver with whether it is asked over TCP and over UDP; [Predefined] is one
    of the names the resolver crate has a configuration for. *)
Inductive NameServerAddr := NameSocketAddr (a : Socks5.SocketAddr) | UnixSocketAddr (path : bytes).
Record NameServerConfig := { ns_ip : IpAddr; ns_port : Z; ns_tcp : bool; ns_udp : bool }.
Inductive DnsConfig :=
| DnsSystem
| HickoryPredefined (name : bytes)
| HickoryDns (nameservers : list NameServerConfig)
| LocalDns (addr : NameServerAddr).

Definition predefined_dns : list bytes :=
  [str "google"; str "google_tls"; str "google_https"; str "google_h3"; str "cloudflare"; str "cloudflare_tls"; str "cloudflare_https";
   str "quad9"; str "quad9_tls"; str "quad9_https"].

Inductive ConfigError := MissingField (desc : string) | Malformed (desc : string) | Invalid (desc : string).

(** One part between commas. *)
Definition nameserver_addr (part : bytes) : option Socks5.SocketAddr :=
  match parse_socket_addr part with
  | Some a => Some a
  | None => match parse_ip part with Some (IpV4 ip) => Some (V4 ip 53) | Some (IpV6 ip) => Some (V6 ip 53 0 0) | None => None end
  end.

Definition addr_ip (a : Socks5.SocketAddr) : IpAddr := match a with V4 ip _ => IpV4 ip | V6 ip _ _ _ => IpV6 ip end.
Definition addr_port (a : Socks5.SocketAddr) : Z := match a with V4 _ port => port | V6 _ port _ _ => port end.

Definition nameserver (tcp udp : bool) (a : Socks5.SocketAddr) : NameServerConfig :=
  {| ns_ip := addr_ip a; ns_port := addr_port a; ns_tcp := tcp; ns_udp := udp |}.

Definition parse_dns_nameservers (nameservers : bytes) : outcome ConfigError DnsConfig :=
  match strip_prefix (str "unix://") nameservers with
  | Some path => Ok (LocalDns (UnixSocketAddr path))
  | None =>
      let '(tcp, udp, nameservers) :=
        match strip_prefix (str "tcp://") nameservers with
        | Some l => (true, false, l)
        | None => match strip_prefix (str "udp://") nameservers with Some l => (false, true, l) | None => (true, true, nameservers) end
        end in
      match mapM nameserver_addr (split_on (b# 44) nameservers) with
      | None => Err (Invalid "invalid `dns` value")
      | Some addrs => Ok (if bool_decide (addrs = []) then DnsSystem else HickoryDns (nameserver tcp udp <$> addrs))
      end
  end.

Definition set_dns_formatted (dns : bytes) : outcome ConfigError DnsConfig :=
  if bool_decide (dns = str "system") then Ok DnsSystem
  else if bool_decide (dns ∈ predefined_dns) then Ok (HickoryPredefined dns)
  else parse_dns_nameservers dns.

(** ** Fields *)

(** [get_local_address]. *)
Definition get_local_address (local_address : option bytes) (local_port : Z) (ipv6_first : bool) : ServerAddr :=
  match local_address with
  | Some addr =>
      match parse_ip addr with
      | Some (IpV4 ip) => SocketAddr (V4 ip local_port)
      | Some (IpV6 ip) => SocketAddr (V6 ip local_port 0 0)
      | None => DomainName addr local_port
      end
  | None => SocketAddr (if ipv6_first then V6 1 local_port 0 0 else V4 2130706433 local_port)
  end.

(** [env] is the environment of the process. *)
Definition read_variable_field_value (env : bytes → option bytes) (value : bytes) : bytes :=
  match strip_prefix (str "${") value with
  | Some left_over =>
      match strip_suffix (str "}") left_over with
      | Some var_name => match env var_name with Some value => value | None => value end
      | None => value
      end
  | None => value
  end.

Section Config.
Context `{CS : CipherSuite, B64 : Base64, CN : !CipherNames, BL : Blake3}.

(** ** Local servers

    The fields that the check and the balancer look at. *)
Record LocalConfig := {
  local_addr : option ServerAddr;
  local_protocol : ProtocolType;
  local_mode : Mode;
  udp_addr : option ServerAddr;
  udp_associate_addr : option ServerAddr;
  forward_addr : option Address;
  local_dns_addr : option NameServerAddr;
  remote_dns_addr : option Address;
}.

Definition LocalConfig_new (protocol : ProtocolType) : LocalConfig :=
  {| local_addr := None; local_protocol := protocol; local_mode := match protocol with ProtoDns => TcpAndUdp | _ => TcpOnly end;
     udp_addr := None; udp_associate_addr := None; forward_addr := None; local_dns_addr := None; remote_dns_addr := None |}.

Definition LocalConfig_check_integrity (self : LocalConfig) : outcome ConfigError unit :=
  _ ← (match local_protocol self with
       | ProtoTun => Ok tt
       | _ => match local_addr self with None => Err (MissingField "missing `addr` in configuration") | Some _ => Ok tt end
       end);
  match local_protocol self with
  | ProtoDns =>
      match local_dns_addr self, remote_dns_addr self with
      | Some _, Some _ => Ok tt
      | _, _ => Err (MissingField "missing `local_dns_addr` or `remote_dns_addr` in configuration")
      end
  | ProtoTunnel => match forward_addr self with None => Err (MissingField "missing `forward_addr` in configuration") | Some _ => Ok tt end
  | ProtoHttp => if negb (enable_tcp (local_mode self)) then Err (Invalid "TCP mode have to be enabled for http") else Ok tt
  | _ => Ok tt
  end.

(** ** The configuration *)
Context {ManagerConfig : Type}.

(** As far as the check and the balancer need it; durations are in nanoseconds. *)
Record BalancerConfig := { cfg_max_server_rtt : option Z; cfg_check_interval : option Z; cfg_check_best_interval : option Z }.

Record Config := {
  config_type : ConfigType;
  locals : list LocalConfig;
  cfg_servers : list ServerConfig;
  cfg_balancer : BalancerConfig;
  manager : option ManagerConfig;
}.

Definition as_secs (d : Z) : Z := d / 1000000000.

(** The loops with early returns: the first error. *)
Fixpoint check_all {A} (check : A → outcome ConfigError unit) (l : list A) : outcome ConfigError unit :=
  match l with [] => Ok tt | x :: l => _ ← check x; check_all check l end.

Definition reject (b : bool) (e : ConfigError) : outcome ConfigError unit := if b then Err e else Ok tt.

Definition is_unspecified (a : Socks5.SocketAddr) : bool := match a with V4 ip _ => ip =? 0 | V6 ip _ _ _ => ip =? 0 end.

(** The part of [check_integrity] for one server. *)
Definition check_server (type_ : ConfigType) (server : ServerConfig) : outcome ConfigError unit :=
  _ ← reject (match plugin server with Some p => bool_decide (trim (plugin_name p) = []) | None => false end) (Malformed "`plugin` shouldn't be an empty string");
  _ ← (match addr server with
       | SocketAddr sa =>
           _ ← reject (addr_port sa =? 0) (Malformed "`server_port` shouldn't be 0");
           reject (bool_decide (type_ = ConfigLocal ∨ type_ = OnlineConfig) && is_unspecified sa) (Malformed "`server` shouldn't be an unspecified address (INADDR_ANY)")
       | DomainName dn port =>
           reject (bool_decide (dn = []) || (port =? 0)) (Malformed "`server` shouldn't be an empty string, `server_port` shouldn't be 0")
       end);
  match user_manager server with
  | None => Ok tt
  | Some users =>
      _ ← reject (is_aead_2022 (method server) && (0 <? user_count users)%nat && negb (method_support_eih (method server)))
            (Invalid "server method doesn't support Extended Identity Header (EIH), remove `users`");
      check_all (λ u : ServerUser, reject (negb (length (user_key u) =? key_len (method server))%nat)
                   (Malformed "`users[].password` length must be exactly the same as method's key length")) (snd <$> map_to_list users)
  end.

Definition check_integrity (self : Config) : outcome ConfigError unit :=
  _ ← (if bool_decide (config_type self = ConfigLocal) then
         _ ← reject (bool_decide (locals self = [])) (MissingField "missing `locals` for client configuration");
         _ ← check_all LocalConfig_check_integrity (locals self);
         _ ← reject (match cfg_max_server_rtt (cfg_balancer self) with Some rtt => as_secs rtt =? 0 | None => false end) (Invalid "balancer.max_server_rtt must be > 0");
         reject (match cfg_check_interval (cfg_balancer self) with Some intv => as_secs intv =? 0 | None => false end) (Invalid "balancer.check_interval must be > 0")
       else Ok tt);
  _ ← reject (bool_decide (config_type self = ConfigServer ∧ cfg_servers self = [])) (MissingField "missing any valid servers in configuration");
  _ ← reject (bool_decide (config_type self = OnlineConfig ∧ cfg_servers self = [])) (MissingField "missing any valid servers in configuration");
  _ ← reject (bool_decide (config_type self = ConfigManager) && match manager self with None => true | Some _ => false end)
        (MissingField "missing `manager_addr` and `manager_port` in configuration");
  check_all (check_server (config_type self)) (cfg_servers self).

(** ** The balancer of the local service (local/mod.rs) *)
Definition locals_mode (l : list LocalConfig) : outcome False Mode :=
  m ← foldl (λ acc c, acc ← acc; match acc with None => Ok (Some (local_mode c)) | Some m => Some <$> Mode_merge m (local_mode c) end) (Ok None) l;
  Ok (default TcpOnly m).

Definition configured_builder (m : Mode) (b : BalancerConfig) : PingBalancerBuilder :=
  let d := PingBalancerBuilder_new m in
  {| b_servers := b_servers d; b_mode := b_mode d; b_max_server_rtt := default (b_max_server_rtt d) (cfg_max_server_rtt b);
     b_check_interval := default (b_check_interval d) (cfg_check_interval b);
     b_check_best_interval := match cfg_check_best_interval b with Some i => Some i | None => b_check_best_interval d end |}.

Definition add_servers (servers : list ServerConfig) (b : PingBalancerBuilder) : outcome io_error PingBalancerBuilder :=
  foldl (λ b server, b ← b; add_server server b) (Ok b) servers.

(** ** What a configuration that passes the check has *)
Lemma reject_ok b e : reject b e = Ok tt ↔ b = false.
Proof. by destruct b. Qed.

Lemma bind_ok_unit (m : outcome ConfigError unit) (k : unit → outcome ConfigError unit) : (x ← m; k x) = Ok tt ↔ m = Ok tt ∧ k tt = Ok tt.
Proof. destruct m as [[]| |]; simpl; naive_solver. Qed.

Lemma check_all_ok {A} (check : A → outcome ConfigError unit) l : check_all check l = Ok tt ↔ Forall (λ x, check x = Ok tt) l.
Proof. induction l as [|x l IH]; cbn [check_all]; [by split; [constructor|]|]. by rewrite bind_ok_unit, IH, list.Forall_cons. Qed.

(** What each kind of local server needs. *)
Definition local_complete (l : LocalConfig) : Prop :=
  (local_protocol l ≠ ProtoTun → is_Some (local_addr l)) ∧
  (local_protocol l = ProtoDns → is_Some (local_dns_addr l) ∧ is_Some (remote_dns_addr l)) ∧
  (local_protocol l = ProtoTunnel → is_Some (forward_addr l)) ∧
  (local_protocol l = ProtoHttp → enable_tcp (local_mode l) = true).

Definition server_complete (type_ : ConfigType) (s : ServerConfig) : Prop :=
  (∀ p, plugin s = Some p → trim (plugin_name p) ≠ []) ∧
  (match addr s with
   | SocketAddr sa => addr_port sa ≠ 0 ∧ (type_ = ConfigLocal ∨ type_ = OnlineConfig → is_unspecified sa = false)
   | DomainName dn port => dn ≠ [] ∧ port ≠ 0
   end) ∧
  (∀ users, user_manager s = Some users →
     (is_aead_2022 (method s) = true → users ≠ ∅ → method_support_eih (method s) = true) ∧
     ∀ k u, users !! k = Some u → length (user_key u) = key_len (method s)).

Definition config_complete (c : Config) : Prop :=
  (config_type c = ConfigLocal → locals c ≠ [] ∧ Forall local_complete (locals c) ∧
     (∀ rtt, cfg_max_server_rtt (cfg_balancer c) = Some rtt → as_secs rtt ≠ 0) ∧ (∀ i, cfg_check_interval (cfg_balancer c) = Some i → as_secs i ≠ 0)) ∧
  (config_type c = ConfigServer ∨ config_type c = OnlineConfig → cfg_servers c ≠ []) ∧
  (config_type c = ConfigManager → is_Some (manager c)) ∧
  Forall (server_complete (config_type c)) (cfg_servers c).

Lemma local_integrity l : LocalConfig_check_integrity l = Ok tt ↔ local_complete l.
Proof.
  unfold LocalConfig_check_integrity, local_complete. rewrite bind_ok_unit.
  destruct (local_protocol l), (local_addr l); cbn; rewrite ?is_Some_alt; try (naive_solver eauto).
  all: try (destruct (enable_tcp (local_mode l)); naive_solver). all: try (destruct (forward_addr l); naive_solver).
  all: destruct (local_dns_addr l), (remote_dns_addr l); naive_solver.
Qed.

Lemma users_integrity (users : ServerUserManager) n e :
  check_all (λ u : ServerUser, reject (negb (length (user_key u) =? n)%nat) e) (snd <$> map_to_list users) = Ok tt ↔
  ∀ k u, users !! k = Some u → length (user_key u) = n.
Proof.
  rewrite check_all_ok, list.Forall_forall. split.
  - intros H k u Hk. assert (u ∈ snd <$> map_to_list users) as Hu by (apply list_elem_of_fmap; exists (k, u); split; [done|by apply elem_of_map_to_list]).
    specialize (H u Hu). rewrite reject_ok, negb_false_iff, Nat.eqb_eq in H. done.
  - intros H u ([k u'] & -> & Hk%elem_of_map_to_list)%list_elem_of_fmap. rewrite reject_ok, negb_false_iff, Nat.eqb_eq. by apply (H k).
Qed.

Lemma server_integrity type_ s : check_server type_ s = Ok tt ↔ server_complete type_ s.
Proof.
  unfold check_server, server_complete. rewrite !bind_ok_unit, reject_ok.
  assert (match plugin s with Some p => bool_decide (trim (plugin_name p) = []) | None => false end = false ↔ (∀ p, plugin s = Some p → trim (plugin_name p) ≠ [])) as Hp.
  { destruct (plugin s) as [p|]; [rewrite bool_decide_eq_false|]; naive_solver. }
  assert (match addr s with
    | SocketAddr sa => _ ← reject (addr_port sa =? 0) (Malformed "`server_port` shouldn't be 0");
        reject (bool_decide (type_ = ConfigLocal ∨ type_ = OnlineConfig) && is_unspecified sa) (Malformed "`server` shouldn't be an unspecified address (INADDR_ANY)")
    | DomainName dn port => reject (bool_decide (dn = []) || (port =? 0)) (Malformed "`server` shouldn't be an empty string, `server_port` shouldn't be 0")
    end = Ok tt ↔ match addr s with
    | SocketAddr sa => addr_port sa ≠ 0 ∧ (type_ = ConfigLocal ∨ type_ = OnlineConfig → is_unspecified sa = false)
    | DomainName dn port => dn ≠ [] ∧ port ≠ 0 end) as Ha.
  { destruct (addr s) as [sa|dn port].
    - rewrite bind_ok_unit, !reject_ok, Z.eqb_neq, andb_false_iff, bool_decide_eq_false. destruct (decide (type_ = ConfigLocal ∨ type_ = OnlineConfig)); naive_solver.
    - rewrite reject_ok, orb_false_iff, bool_decide_eq_false, Z.eqb_neq. done. }
  rewrite Hp, Ha. destruct (user_manager s) as [users|]; [|naive_solver]. rewrite bind_ok_unit, users_integrity, reject_ok.
  assert (is_aead_2022 (method s) && (0 <? user_count users)%nat && negb (method_support_eih (method s)) = false ↔
    (is_aead_2022 (method s) = true → users ≠ ∅ → method_support_eih (method s) = true)) as Hu.
  { unfold user_count. destruct (decide (users = ∅)) as [->|Hne].
    - assert ((0 <? size (∅ : ServerUserManager))%nat = false) as -> by reflexivity. rewrite andb_false_r. naive_solver.
    - assert ((0 <? size users)%nat = true) as -> by (apply Nat.ltb_lt, Nat.neq_0_lt_0; exact (proj2 (map_size_non_empty_iff (M := gmap bytes) users) Hne)).
      destruct (is_aead_2022 (method s)), (method_support_eih (method s)); cbn; naive_solver. }
  rewrite Hu. naive_solver.
Qed.

(** The check passes exactly for complete configurations: those with all that their
    kind and their local servers need, servers with usable addresses, and users whose
    keys have the length of the method and are allowed by it. *)
Theorem check_integrity_iff c : check_integrity c = Ok tt ↔ config_complete c.
Proof.
  unfold check_integrity, config_complete. rewrite !bind_ok_unit, !reject_ok, !bool_decide_eq_false, check_all_ok.
  assert (Forall (λ x, check_server (config_type c) x = Ok tt) (cfg_servers c) ↔ Forall (server_complete (config_type c)) (cfg_servers c)) as ->
    by (apply list.Forall_iff; intros; apply server_integrity).
  assert (match cfg_max_server_rtt (cfg_balancer c) with Some rtt => as_secs rtt =? 0 | None => false end = false ↔
    ∀ rtt, cfg_max_server_rtt (cfg_balancer c) = Some rtt → as_secs rtt ≠ 0) as Hr.
  { destruct (cfg_max_server_rtt _); [rewrite Z.eqb_neq|]; naive_solver. }
  assert (match cfg_check_interval (cfg_balancer c) with Some i => as_secs i =? 0 | None => false end = false ↔
    ∀ i, cfg_check_interval (cfg_balancer c) = Some i → as_secs i ≠ 0) as Hi.
  { destruct (cfg_check_interval _); [rewrite Z.eqb_neq|]; naive_solver. }
  assert (∀ t t' : ConfigType, t ≠ t' → ∀ P Q : Prop, (¬ (t = t' ∧ P)) ∧ Q ↔ Q) as Hno by (intros t t' Hne P Q; split; [by intros [_ ?]|]; intros; by split; [intros [? _]|]).
  destruct (config_type c) eqn:Ht; [rewrite bool_decide_true by done|rewrite bool_decide_false by done..].
  - rewrite !bind_ok_unit, !reject_ok, bool_decide_eq_false, check_all_ok, Hr, Hi, !Hno by done. rewrite bool_decide_false by done.
    assert (Forall (λ x, LocalConfig_check_integrity x = Ok tt) (locals c) ↔ Forall local_complete (locals c)) as ->
      by (apply list.Forall_iff; intros; apply local_integrity). split.
    + intros (H & _ & Hs). split_and!; [by intros _|by intros [|]|done|done].
    + intros (H & _ & _ & Hs). split_and!; [by apply H..|done|done].
  - rewrite (Hno ConfigServer OnlineConfig) by done. rewrite bool_decide_false by done. split.
    + intros (_ & H & _ & Hs). split_and!; [done|intros _ E; by apply H|done|done].
    + intros (_ & H & _ & Hs). split_and!; [done|intros [_ E]; by apply H; [left|]|done|done].
  - rewrite !Hno, bool_decide_true by done. split.
    + intros (_ & H & Hs). split_and!; [done|by intros [|]|intros _; by destruct (manager c)|done].
    + intros (_ & _ & H & Hs). split_and!; [done| |done]. by destruct (H eq_refl) as [x ->].
  - rewrite (Hno OnlineConfig ConfigServer) by done. rewrite bool_decide_false by done. split.
    + intros (_ & H & _ & Hs). split_and!; [done|intros _ E; by apply H|done|done].
    + intros (_ & H & _ & Hs). split_and!; [done|intros [_ E]; by apply H; [right|]|done|done].
Qed.

(** ** The balancer *)
Definition weights_ok (s : ServerConfig) : Prop := unit_range (tcp_weight (weight s)) = true ∧ unit_range (udp_weight (weight s)) = true.

Lemma add_server_spec cfg b : weights_ok cfg →
  match add_server cfg b with
  | Ok b' => svr_cfg <$> b_servers b' = (svr_cfg <$> b_servers b) ++ [cfg] ∧ b_max_server_rtt b' = b_max_server_rtt b
  | Err _ => False
  | Panic _ => (b_max_server_rtt b / 1000000) mod 2 ^ 32 = 0
  end.
Proof.
  intros [Ht Hu]. unfold add_server, ServerIdent_new, ServerScore_new, ServerStat_new. rewrite Ht, Hu.
  pose proof (Z.mod_pos_bound (b_max_server_rtt b / 1000000) (2 ^ 32) ltac:(lia)). destruct (Z.ltb_spec 0 ((b_max_server_rtt b / 1000000) mod 2 ^ 32)); cbn [mbind outcome_bind].
  - cbn. by rewrite fmap_app.
  - lia.
Qed.

Lemma add_servers_spec l b : Forall weights_ok l →
  match add_servers l b with
  | Ok b' => svr_cfg <$> b_servers b' = (svr_cfg <$> b_servers b) ++ l
  | Err _ => False
  | Panic _ => (b_max_server_rtt b / 1000000) mod 2 ^ 32 = 0
  end.
Proof.
  assert (∀ ls e, (∀ b : PingBalancerBuilder, e ≠ Ok b) → foldl (λ b server, b ← b; add_server server b) e ls = e) as Hstop.
  { intros ls. induction ls as [|x ls IH]; intros e He; [done|]. cbn [foldl]. destruct e as [b0|e|m]; [by destruct (He b0)|..]; by apply IH. }
  intros H. unfold add_servers. revert b. induction H as [|x l' Hx Hl IH]; intros b; cbn [foldl]; [by rewrite app_nil_r|].
  cbn [mbind outcome_bind]. pose proof (add_server_spec x b Hx) as Ha. destruct (add_server x b) as [b'|e|m]; [|done|by rewrite Hstop].
  destruct Ha as [Hs Hr]. specialize (IH b'). rewrite Hr, Hs, <- app_assoc in IH. exact IH.
Qed.

(** The local service makes its balancer of a configuration that passes the check with
    all of its servers, in their order.  The one exception is a panic: a round trip
    time that is a multiple of 2^32 milliseconds, which the check lets through, is 0
    once it is a u32. *)
Theorem balancer_from_config c m :
  check_integrity c = Ok tt → config_type c = ConfigLocal → Forall weights_ok (cfg_servers c) →
  (∀ rtt, cfg_max_server_rtt (cfg_balancer c) = Some rtt → 0 ≤ rtt) →
  match add_servers (cfg_servers c) (configured_builder m (cfg_balancer c)) with
  | Ok b => svr_cfg <$> b_servers b = cfg_servers c
  | Err _ => False
  | Panic _ => ∃ rtt k, cfg_max_server_rtt (cfg_balancer c) = Some rtt ∧ 0 < k ∧ rtt / 1000000 = k * 2 ^ 32
  end.
Proof.
  intros Hc Ht Hw Hpos. apply check_integrity_iff in Hc as (Hl & _). destruct (Hl Ht) as (_ & _ & Hr & _).
  pose proof (add_servers_spec (cfg_servers c) (configured_builder m (cfg_balancer c)) Hw) as H.
  destruct (add_servers _ _) as [b|e|p]; [done|done|]. unfold configured_builder in H. cbn [b_max_server_rtt PingBalancerBuilder_new] in H.
  destruct (cfg_max_server_rtt (cfg_balancer c)) as [rtt|]; [|discriminate H]. cbn [default] in H. unfold Datatypes.id in H.
  specialize (Hr rtt eq_refl). specialize (Hpos rtt eq_refl). unfold as_secs in Hr.
  assert (0 < rtt / 1000000) as Hms by (apply Z.div_str_pos; split; [lia|]; assert (rtt / 1000000000 ≤ 0 → False) by (pose proof (Z.div_pos rtt 1000000000 Hpos ltac:(lia)); lia);
    destruct (Z.lt_ge_cases rtt 1000000000) as [Hlt|]; [rewrite Z.div_small in * by lia; lia|lia]).
  exists rtt, (rtt / 1000000 / 2 ^ 32). pose proof (Z.div_mod (rtt / 1000000) (2 ^ 32) ltac:(lia)) as Hd. rewrite H in Hd. split_and!; [done| |lia]. nia.
Qed.
End Config.

(** ** Nameservers *)
Inductive dns_protocol := DnsTcp | DnsUdp | DnsBoth.
Definition dns_prefix (p : dns_protocol) : bytes := match p with DnsTcp => str "tcp://" | DnsUdp => str "udp://" | DnsBoth => [] end.
Definition dns_over (p : dns_protocol) : bool * bool := match p with DnsTcp => (true, false) | DnsUdp => (false, true) | DnsBoth => (true, true) end.

Lemma strip_prefix_other x p y s : x ≠ y → strip_prefix (x :: p) (y :: s) = None.
Proof. intros H. unfold strip_prefix. cbn [length take]. rewrite bool_decide_false; [done|]. by intros [= <-]. Qed.

Lemma not_predefined x s : x ∉ [b# 115; b# 103; b# 99; b# 113] → set_dns_formatted (x :: s) = parse_dns_nameservers (x :: s).
Proof.
  intros Hx. unfold set_dns_formatted. rewrite bool_decide_false by (intros [= -> _]; set_solver). rewrite bool_decide_false; [done|].
  unfold predefined_dns. rewrite !elem_of_cons. intros H. destruct_or?; first [injection H as -> _|apply elem_of_nil in H as []]; set_solver.
Qed.

(** The first byte of a printed socket address is a digit, a dot or a bracket. *)
Lemma show_socket_addr_head a : ∃ x s, show_socket_addr a = x :: s ∧ (46 ≤ byte.unsigned x ≤ 57 ∨ x = b# 91).
Proof.
  destruct a as [ip port|ip port f sc]; cbn [show_socket_addr]; [|by eauto]. unfold show_ipv4, show_octet.
  destruct (show_number 3 10 (ip / 2 ^ 24 mod 256)) as [|x s] eqn:E.
  - eexists _, _. split; [reflexivity|]. left. by rewrite unsigned_of_Z_small.
  - eexists x, _. split; [reflexivity|]. left. assert (48 ≤ byte.unsigned x ≤ 57); [|lia]. eapply show_number_decimal. rewrite E. apply list_elem_of_here.
Qed.

Lemma small_not x z : (46 ≤ byte.unsigned x ≤ 57 ∨ x = b# 91) → 98 ≤ z < 256 → x ≠ b# z.
Proof.
  intros [H| ->] Hz E; [subst x; rewrite unsigned_of_Z_small in H by lia; lia|]. apply of_Z_inj_small in E; lia.
Qed.

Lemma show_socket_addr_no_comma a : b# 44 ∉ show_socket_addr a.
Proof.
  set (P := λ b : byte, b ≠ b# 44). assert (∀ d, 0 ≤ d < 36 → P (digit_char d)) as Pd.
  { intros d Hd. unfold P, digit_char. destruct (Z.ltb_spec d 10); intros E; apply of_Z_inj_small in E; lia. }
  assert (∀ z, 0 ≤ z < 256 → z ≠ 44 → P (b# z)) as Pz by (intros z Hz Hn E; apply of_Z_inj_small in E; lia).
  assert (Forall P (show_socket_addr a)) as H.
  { destruct a as [ip port|ip port f sc]; cbn [show_socket_addr]; unfold COLON, show_u16, show_u32.
    - rewrite list.Forall_app, list.Forall_cons. split_and!; [apply show_ipv4_bytes; [exact Pd|apply Pz; lia]|apply Pz; lia|by apply show_number_bytes].
    - rewrite list.Forall_cons, !list.Forall_app, !list.Forall_cons. split_and!; try (apply Pz; lia).
      + apply show_ipv6_bytes; [exact Pd|apply Pz; lia..].
      + destruct (sc =? 0); [constructor|]. rewrite list.Forall_cons. split; [apply Pz; lia|by apply show_number_bytes].
      + by apply show_number_bytes. }
  rewrite list.Forall_forall in H. intros Hin. by apply (H _ Hin).
Qed.

(** A list of nameservers is read back as it is written, with either or both of the
    protocols. *)
Theorem nameservers_roundtrip p addrs :
  addrs ≠ [] → Forall text_addr addrs →
  set_dns_formatted (dns_prefix p ++ join (b# 44) (show_socket_addr <$> addrs)) = Ok (HickoryDns (nameserver (dns_over p).1 (dns_over p).2 <$> addrs)).
Proof.
  intros Hne Ht. set (text := join (b# 44) (show_socket_addr <$> addrs)).
  assert (mapM nameserver_addr (split_on (b# 44) text) = Some addrs) as Hm.
  { unfold text. rewrite split_on_join; [|by destruct addrs|apply Forall_fmap, list.Forall_true; intros a; apply show_socket_addr_no_comma].
    apply mapM_fmap_Forall_Some. eapply list.Forall_impl; [exact Ht|]. intros a Ha. unfold nameserver_addr. by rewrite parse_show_socket_addr. }
  assert (∃ x s, text = x :: s ∧ (46 ≤ byte.unsigned x ≤ 57 ∨ x = b# 91)) as (x & s & Hx & Hh).
  { destruct addrs as [|a addrs]; [done|]. destruct (show_socket_addr_head a) as (x & s & Hs & Hh). unfold text. cbn [fmap list_fmap]. rewrite Hs. destruct addrs; simpl; eauto. }
  assert (∀ c, c ∉ [b# 115; b# 103; b# 99; b# 113] → ∀ l, set_dns_formatted (c :: l) = parse_dns_nameservers (c :: l)) as Hn by (intros; by apply not_predefined).
  unfold parse_dns_nameservers in Hn. destruct p; cbn [dns_prefix dns_over fst snd].
  - change (str "tcp://" ++ text) with (b# 116 :: str "cp://" ++ text). rewrite Hn by (rewrite !not_elem_of_cons; split_and!; try done; apply not_elem_of_nil).
    change (str "unix://") with (b# 117 :: str "nix://"). rewrite strip_prefix_other by done.
    change (b# 116 :: str "cp://" ++ text) with (str "tcp://" ++ text). rewrite strip_prefix_app, Hm. by rewrite bool_decide_false.
  - change (str "udp://" ++ text) with (b# 117 :: str "dp://" ++ text). rewrite Hn by (rewrite !not_elem_of_cons; split_and!; try done; apply not_elem_of_nil).
    assert (strip_prefix (str "unix://") (b# 117 :: str "dp://" ++ text) = None) as -> by done.
    change (str "tcp://") with (b# 116 :: str "cp://"). rewrite strip_prefix_other by done.
    change (b# 117 :: str "dp://" ++ text) with (str "udp://" ++ text). rewrite strip_prefix_app, Hm. by rewrite bool_decide_false.
  - cbn [app]. rewrite Hx. rewrite Hn by (rewrite !not_elem_of_cons; split_and!; try (apply small_not; [exact Hh|lia]); apply not_elem_of_nil).
    change (str "unix://") with (b# 117 :: str "nix://"). change (str "tcp://") with (b# 116 :: str "cp://"). change (str "udp://") with (b# 117 :: str "dp://").
    rewrite !strip_prefix_other by (intros E; symmetry in E; revert E; apply small_not; [exact Hh|lia]). rewrite <- Hx, Hm. by rewrite bool_decide_false.
Qed.

(** ** Concrete configurations *)
Module ServiceConfigExamples.
Import Toy ToyConf.

Definition demo_config (rtt : Z) : Config (ManagerConfig := unit) :=
  {| config_type := ConfigLocal;
     locals := [{| local_addr := Some (get_local_address None 1080 false); local_protocol := ProtoSocks; local_mode := TcpAndUdp; udp_addr := None;
                   udp_associate_addr := None; forward_addr := None; local_dns_addr := None; remote_dns_addr := None |}];
     cfg_servers := [demo_cfg TcpAndUdp f32_one; demo_cfg TcpOnly f32_one];
     cfg_balancer := {| cfg_max_server_rtt := Some rtt; cfg_check_interval := None; cfg_check_best_interval := None |}; manager := None |}.

(** 2^29 seconds are a multiple of 2^32 milliseconds. *)
Example balancer_rtt_wraps :
  check_integrity (demo_config (2 ^ 29 * 1000000000)) = Ok tt ∧
  match add_servers (cfg_servers (demo_config (2 ^ 29 * 1000000000))) (configured_builder TcpAndUdp (cfg_balancer (demo_config (2 ^ 29 * 1000000000)))) with Panic _ => True | _ => False end ∧
  match add_servers (cfg_servers (demo_config 5000000000)) (configured_builder TcpAndUdp (cfg_balancer (demo_config 5000000000))) with
  | Ok b => length (b_servers b) = 2%nat | _ => False end.
Proof. split_and!; vm_compute; done. Qed.

(** A tunnel without the address it forwards to. *)
Example tunnel_incomplete :
  check_integrity {| config_type := ConfigLocal; locals := [{| local_addr := Some (get_local_address None 1080 true); local_protocol := ProtoTunnel; local_mode := TcpOnly;
    udp_addr := None; udp_associate_addr := None; forward_addr := None; local_dns_addr := None; remote_dns_addr := None |}]; cfg_servers := [];
    cfg_balancer := {| cfg_max_server_rtt := None; cfg_check_interval := None; cfg_check_best_interval := None |}; manager := @None unit |} =
  Err (MissingField "missing `forward_addr` in configuration").
Proof. reflexivity. Qed.

Example nameservers_example :
  set_dns_formatted (str "tcp://8.8.8.8,[::1]:5353") =
    Ok (HickoryDns [{| ns_ip := IpV4 134744072; ns_port := 53; ns_tcp := true; ns_udp := false |}; {| ns_ip := IpV6 1; ns_port := 5353; ns_tcp := true; ns_udp := false |}]) ∧
  set_dns_formatted (str "unix:///dns") = Ok (LocalDns (UnixSocketAddr (str "/dns"))) ∧ set_dns_formatted (str "dns.example") = Err (Invalid "invalid `dns` value").
Proof. split_and!; reflexivity. Qed.

Example variables_example :
  let env v := if bool_decide (v = str "SS_PASSWORD") then Some (str "secret") else None in
  read_variable_field_value env (str "${SS_PASSWORD}") = str "secret" ∧ read_variable_field_value env (str "${OTHER}") = str "${OTHER}" ∧
  read_variable_field_value env (str "$SS_PASSWORD") = str "$SS_PASSWORD".
Proof. split_and!; reflexivity. Qed.
End ServiceConfigExamples.
